(** * DL4CV post-processor: a shallow embedding of [scripts/post_processor]

    The pipeline of [core.py] rewrites one HTML chapter at a time with
    regular expressions and (when available) a parsed tree.  This file
    embeds the parts that the specification speaks about:

    - [PyStr]      the [str] methods the code calls;
    - [Re]         a backtracking matcher with the semantics of Python's [re]
                   for the constructs the patterns of the code use;
    - [MathGuard]  [protect_math] / [restore_math];
    - [Safety]     [validate_output_safety] and the gate of [process_chapter];
    - [Slug]       [generate_slug] and the heading-id pass;
    - [Renumber]   the unified renumbering pass and [extract_toc_from_body];
    - [Dom], [Tables]  the tree steps of [process_tables_antigravity];
    - [Cite]       [normalize_bib_key], [cite_repl], [cite_number_repl].

    Characters are the 256 one-byte code points; the properties below only exercise
    the ASCII range. *)

From Stdlib Require Import ZArith Ascii String List Bool Lia.
From stdpp Require Import base decidable option list strings pretty gmap.

Open Scope string_scope.
Open Scope nat_scope.

(* ===================================================================== *)
(** ** Python [str] methods *)
(* ===================================================================== *)

Module PyStr.

(** The double quote character, written by code so that no literal of this
    file has to escape it. *)
Definition dq_char : ascii := ascii_of_nat 34.
Definition dq : string := String dq_char EmptyString.
Definition sq_char : ascii := ascii_of_nat 39.
Definition nl_char : ascii := ascii_of_nat 10.
Definition nl : string := String nl_char EmptyString.
Definition bsl_char : ascii := ascii_of_nat 92.
Definition bsl : string := String bsl_char EmptyString.

Definition code (c : ascii) : nat := nat_of_ascii c.

Definition in_range (lo hi : nat) (c : ascii) : bool :=
  (lo <=? code c) && (code c <=? hi).

(** [str.isspace] on one character, as CPython decides it below U+0100:
    TAB..CR, FS..US, SPACE, NEL and NBSP. *)
Definition is_space (c : ascii) : bool :=
  in_range 9 13 c || in_range 28 32 c || (code c =? 133) || (code c =? 160).

Definition is_digit (c : ascii) : bool := in_range 48 57 c.

Definition is_upper (c : ascii) : bool :=
  in_range 65 90 c || (in_range 192 222 c && negb (code c =? 215)).

Definition is_lower (c : ascii) : bool :=
  in_range 97 122 c || (in_range 224 254 c && negb (code c =? 247)).

Definition lower_char (c : ascii) : ascii :=
  if is_upper c then ascii_of_nat (code c + 32) else c.

Definition upper_char (c : ascii) : ascii :=
  if is_lower c then ascii_of_nat (code c - 32) else c.

Fixpoint map_chars (f : ascii -> ascii) (s : string) : string :=
  match s with
  | EmptyString => EmptyString
  | String c s' => String (f c) (map_chars f s')
  end.

(** [s.lower()] *)
Definition lower (s : string) : string := map_chars lower_char s.

Definition len (s : string) : nat := String.length s.

(** [s.startswith(p)] *)
Fixpoint startswith (s p : string) : bool :=
  match p, s with
  | EmptyString, _ => true
  | String a p', String b s' => if ascii_dec a b then startswith s' p' else false
  | String _ _, EmptyString => false
  end.

Fixpoint drop (n : nat) (s : string) : string :=
  match n, s with
  | 0, _ => s
  | S n', String _ s' => drop n' s'
  | S _, EmptyString => EmptyString
  end.

Fixpoint take (n : nat) (s : string) : string :=
  match n, s with
  | 0, _ => EmptyString
  | S n', String c s' => String c (take n' s')
  | S _, EmptyString => EmptyString
  end.

(** [s.find(p)]: the least index at which [p] occurs, if any. *)
Fixpoint find (p s : string) : option nat :=
  if startswith s p then Some 0
  else match s with
       | EmptyString => None
       | String _ s' => S <$> find p s'
       end.

(** [p in s] *)
Definition contains (p s : string) : bool := bool_decide (is_Some (find p s)).

(** [s.count(p)] for a non-empty [p]: occurrences are counted from the left
    and do not overlap.  [skip] is the number of characters still covered by
    the occurrence found last. *)
Fixpoint count_go (p : string) (skip : nat) (s : string) : nat :=
  match skip with
  | S k => match s with
           | EmptyString => 0
           | String _ s' => count_go p k s'
           end
  | 0 => match s with
         | EmptyString => 0
         | String _ s' =>
             if startswith s p then S (count_go p (len p - 1) s')
             else count_go p 0 s'
         end
  end.

Definition count (p s : string) : nat := count_go p 0 s.

Fixpoint lstrip_by (f : ascii -> bool) (s : string) : string :=
  match s with
  | String c s' => if f c then lstrip_by f s' else s
  | EmptyString => EmptyString
  end.

Definition rstrip_by (f : ascii -> bool) (s : string) : string :=
  String.rev (lstrip_by f (String.rev s)).

(** [s.strip()] *)
Definition strip (s : string) : string := rstrip_by is_space (lstrip_by is_space s).

Fixpoint mem_char (c : ascii) (cs : string) : bool :=
  match cs with
  | EmptyString => false
  | String d cs' => if ascii_dec c d then true else mem_char c cs'
  end.

(** [s.lstrip(cs)], [s.strip(cs)] *)
Definition lstrip_chars (cs s : string) : string := lstrip_by (fun c => mem_char c cs) s.
Definition strip_chars (cs s : string) : string :=
  rstrip_by (fun c => mem_char c cs) (lstrip_chars cs s).

(** [s.replace(old, new)] for a non-empty [old]. *)
Fixpoint replace_go (old new : string) (skip : nat) (s : string) : string :=
  match skip with
  | S k => match s with
           | EmptyString => EmptyString
           | String _ s' => replace_go old new k s'
           end
  | 0 => match s with
         | EmptyString => EmptyString
         | String c s' =>
             if startswith s old then new +:+ replace_go old new (len old - 1) s'
             else String c (replace_go old new 0 s')
         end
  end.

Definition replace (old new s : string) : string := replace_go old new 0 s.

(** [s.split(sep)] for a one-character separator. *)
Fixpoint split_go (sep : ascii) (cur : string) (s : string) : list string :=
  match s with
  | EmptyString => [String.rev cur]
  | String c s' =>
      if ascii_dec c sep then String.rev cur :: split_go sep EmptyString s'
      else split_go sep (String c cur) s'
  end.

Definition split (sep : ascii) (s : string) : list string := split_go sep EmptyString s.

(** [sep.join(l)] *)
Fixpoint join (sep : string) (l : list string) : string :=
  match l with
  | [] => EmptyString
  | [x] => x
  | x :: l' => x +:+ sep +:+ join sep l'
  end.

(** Every character of [s] passes the test [f]. *)
Fixpoint all_chars (f : ascii -> bool) (s : string) : bool :=
  match s with
  | EmptyString => true
  | String c s' => f c && all_chars f s'
  end.

(** The first character of [s], if any, fails the test [f]. *)
Definition stops_at (f : ascii -> bool) (s : string) : bool :=
  match s with
  | EmptyString => true
  | String c _ => negb (f c)
  end.

(** [str(n)] and the [{n}] of an f-string, for a natural number. *)
Definition str_nat (n : nat) : string := pretty n.

End PyStr.

(* ===================================================================== *)
(** ** Python [re]: a backtracking matcher *)
(* ===================================================================== *)

Module Re.
Import PyStr.

(** One item of a bracket expression. *)
Inductive citem : Type :=
| Ch (c : ascii)                 (* a literal character *)
| Rg (lo hi : ascii)             (* a range lo-hi *)
| Digit                          (* \d *)
| Space.                         (* \s *)

(** The pattern constructs that occur in the code. *)
Inductive regex : Type :=
| Eps
| Chr (c : ascii)                               (* one literal character *)
| Dot                                           (* . *)
| Cls (neg : bool) (items : list citem)         (* [...] and [^...] *)
| Cat (r1 r2 : regex)
| Alt (r1 r2 : regex)                           (* r1|r2, r1 tried first *)
| Rep (greedy : bool) (lo : nat) (hi : option nat) (r : regex)
| Grp (n : nat) (r : regex)                     (* capturing group n *)
| Bref (n : nat)                                (* \n *)
| Bol.                                          (* ^ without MULTILINE *)

Record flags : Type := Flags { ignorecase : bool; dotall : bool }.

Definition no_flags : flags := Flags false false.
Definition DOTALL : flags := Flags false true.
Definition IGNORECASE : flags := Flags true false.
Definition DOTALL_IGNORECASE : flags := Flags true true.

(** Derived forms. *)
Definition star (r : regex) : regex := Rep true 0 None r.
Definition plus (r : regex) : regex := Rep true 1 None r.
Definition opt (r : regex) : regex := Rep true 0 (Some 1) r.
Definition lazy_star (r : regex) : regex := Rep false 0 None r.
Definition not_in (cs : string) : regex :=
  Cls true (map Ch (list_ascii_of_string cs)).
Definition one_of (cs : string) : regex :=
  Cls false (map Ch (list_ascii_of_string cs)).
Definition digit : regex := Cls false [Digit].
Definition space : regex := Cls false [Space].

Fixpoint lit (s : string) : regex :=
  match s with
  | EmptyString => Eps
  | String c EmptyString => Chr c
  | String c s' => Cat (Chr c) (lit s')
  end.

Fixpoint seq (rs : list regex) : regex :=
  match rs with
  | [] => Eps
  | [r] => r
  | r :: rs' => Cat r (seq rs')
  end.

Definition item_has (i : citem) (c : ascii) : bool :=
  match i with
  | Ch d => bool_decide (c = d)
  | Rg lo hi => in_range (code lo) (code hi) c
  | Digit => is_digit c
  | Space => is_space c
  end.

Definition items_have (items : list citem) (c : ascii) : bool :=
  existsb (fun i => item_has i c) items.

(** A bracket expression under IGNORECASE accepts a character when one of
    its case variants is listed. *)
Definition cls_matches (fl : flags) (neg : bool) (items : list citem) (c : ascii) : bool :=
  let hit :=
    if ignorecase fl
    then items_have items c || items_have items (lower_char c) || items_have items (upper_char c)
    else items_have items c in
  xorb neg hit.

Definition chr_matches (fl : flags) (p c : ascii) : bool :=
  if ignorecase fl then bool_decide (lower_char p = lower_char c)
  else bool_decide (p = c).

Definition dot_matches (fl : flags) (c : ascii) : bool :=
  dotall fl || negb (bool_decide (c = nl_char)).

(** The state of a match attempt: the index reached in the subject, the text
    from there on, and the groups captured so far (latest first). *)
Record mstate : Type := MState {
  m_pos : nat;
  m_rest : string;
  m_caps : list (nat * string)
}.

Definition step1 (ok : ascii -> bool) (st : mstate) (k : mstate -> option mstate)
  : option mstate :=
  match m_rest st with
  | String c s' => if ok c then k (MState (S (m_pos st)) s' (m_caps st)) else None
  | EmptyString => None
  end.

Fixpoint cap_lookup (n : nat) (caps : list (nat * string)) : option string :=
  match caps with
  | [] => None
  | (m, s) :: caps' => if n =? m then Some s else cap_lookup n caps'
  end.

Definition or_else {A} (x : option A) (y : option A) : option A :=
  match x with Some _ => x | None => y end.

Definition under_hi (hi : option nat) (cnt : nat) : bool :=
  match hi with None => true | Some h => cnt <? h end.

(** The loop of a repetition over a matcher [body] for the repeated
    pattern: [cnt] iterations are done, [bound] more are allowed.  A greedy
    repetition tries one more iteration before it stops, a lazy one stops
    first; an iteration that consumed nothing is given up. *)
Fixpoint rep_loop (body : mstate -> (mstate -> option mstate) -> option mstate)
    (greedy : bool) (lo : nat) (hi : option nat) (k : mstate -> option mstate)
    (bound : nat) (cnt : nat) (st : mstate) {struct bound} : option mstate :=
  let stop := if lo <=? cnt then k st else None in
  match bound with
  | 0 => stop
  | S bound' =>
      let more :=
        if under_hi hi cnt
        then body st (fun st' =>
               if m_pos st <? m_pos st'
               then rep_loop body greedy lo hi k bound' (S cnt) st'
               else None)
        else None in
      if greedy then or_else more stop else or_else stop more
  end.

(** [rmatch fl r st k]: match [r] at [st], then hand the state reached to the
    continuation [k]; [None] makes the matcher backtrack into the last open
    choice, as [sre] does.  The loop of a repetition is bounded by the text
    left, every iteration consuming some of it. *)
Fixpoint rmatch (fl : flags) (r : regex) (st : mstate) (k : mstate -> option mstate)
  {struct r} : option mstate :=
  match r with
  | Eps => k st
  | Chr p => step1 (chr_matches fl p) st k
  | Dot => step1 (dot_matches fl) st k
  | Cls neg items => step1 (cls_matches fl neg items) st k
  | Cat r1 r2 => rmatch fl r1 st (fun st' => rmatch fl r2 st' k)
  | Alt r1 r2 => or_else (rmatch fl r1 st k) (rmatch fl r2 st k)
  | Rep greedy lo hi r' =>
      rep_loop (rmatch fl r') greedy lo hi k (S (len (m_rest st))) 0 st
  | Grp n r' =>
      rmatch fl r' st (fun st' =>
        k (MState (m_pos st') (m_rest st')
             ((n, take (m_pos st' - m_pos st) (m_rest st)) :: m_caps st')))
  | Bref n =>
      match cap_lookup n (m_caps st) with
      | Some g =>
          if startswith (m_rest st) g
          then k (MState (m_pos st + len g) (drop (len g) (m_rest st)) (m_caps st))
          else None
      | None => None
      end
  | Bol => if m_pos st =? 0 then k st else None
  end.

(** A match object: where it starts, the text of group 0 and the groups. *)
Record mobj : Type := MObj {
  mo_start : nat;
  mo_end : nat;
  mo_text : string;
  mo_caps : list (nat * string)
}.

(** [m.group(n)] for n >= 1; [None] when the group did not take part. *)
Definition group (m : mobj) (n : nat) : option string := cap_lookup n (mo_caps m).

(** [m.group(n) or ''] *)
Definition group_or_empty (m : mobj) (n : nat) : string := default EmptyString (group m n).

Definition match_at (fl : flags) (r : regex) (pos : nat) (s : string) : option mobj :=
  match rmatch fl r (MState pos s []) Some with
  | Some st => Some (MObj pos (m_pos st) (take (m_pos st - pos) s) (m_caps st))
  | None => None
  end.

(** [re.match(r, s)] *)
Definition re_match (fl : flags) (r : regex) (s : string) : option mobj :=
  match_at fl r 0 s.

(** [re.search(r, s)]: the leftmost start that matches. *)
Fixpoint search_from (fl : flags) (r : regex) (pos : nat) (s : string) : option mobj :=
  match match_at fl r pos s with
  | Some m => Some m
  | None => match s with
            | EmptyString => None
            | String _ s' => search_from fl r (S pos) s'
            end
  end.

Definition re_search (fl : flags) (r : regex) (s : string) : option mobj :=
  search_from fl r 0 s.

(** [re.sub(r, repl, s)] with a callable [repl] that also updates a state
    [acc] (the closures of the code close over dictionaries and counters).
    Matches are found from left to right and do not overlap; after an empty
    match one character is copied. *)
Fixpoint sub_go {St : Type} (fl : flags) (r : regex) (repl : St -> mobj -> St * string)
    (bound : nat) (pos : nat) (s : string) (acc : St) : St * string :=
  match bound with
  | 0 => (acc, s)
  | S bound' =>
      match match_at fl r pos s with
      | Some m =>
          let '(acc1, out) := repl acc m in
          if mo_end m =? pos
          then match s with
               | EmptyString => (acc1, out)
               | String c s' =>
                   let '(acc2, tl) := sub_go fl r repl bound' (S pos) s' acc1 in
                   (acc2, out +:+ String c tl)
               end
          else
            let '(acc2, tl) := sub_go fl r repl bound' (mo_end m) (drop (mo_end m - pos) s) acc1 in
            (acc2, out +:+ tl)
      | None =>
          match s with
          | EmptyString => (acc, EmptyString)
          | String c s' =>
              let '(acc2, tl) := sub_go fl r repl bound' (S pos) s' acc in
              (acc2, String c tl)
          end
      end
  end.

Definition re_sub_st {St : Type} (fl : flags) (r : regex) (repl : St -> mobj -> St * string)
    (s : string) (acc : St) : St * string :=
  sub_go fl r repl (S (len s)) 0 s acc.

(** [re.sub] with a callable that has no state, and with a fixed string. *)
Definition re_sub_fn (fl : flags) (r : regex) (repl : mobj -> string) (s : string) : string :=
  snd (re_sub_st fl r (fun (u : unit) m => (u, repl m)) s tt).

Definition re_sub (fl : flags) (r : regex) (repl : string) (s : string) : string :=
  re_sub_fn fl r (fun _ => repl) s.

End Re.

(* ===================================================================== *)
(** ** MathGuard: [protect_math] and [restore_math] *)
(* ===================================================================== *)

Module MathGuard.
Import PyStr Re.

(** [MATH_STORE]: a Python dict, kept in insertion order. *)
Definition store : Type := list (string * string).

Fixpoint dict_get (k : string) (d : store) : option string :=
  match d with
  | [] => None
  | (k', v) :: d' => if String.eqb k k' then Some v else dict_get k d'
  end.

(** [d[k] = v]: an existing key keeps its place. *)
Fixpoint dict_set (k v : string) (d : store) : store :=
  match d with
  | [] => [(k, v)]
  | (k', v') :: d' => if String.eqb k k' then (k', v) :: d' else (k', v') :: dict_set k v d'
  end.

(** The token of the n-th container. *)
Definition token (n : nat) : string := "MATH_TOKEN_" +:+ str_nat n +:+ "__".

(** The closure [repl] of [protect_math]. *)
Definition protect_repl (d : store) (m : mobj) : store * string :=
  let t := token (length d) in
  (dict_set t (mo_text m) d, t).

Definition quote_cls : regex := Cls false [Ch dq_char; Ch sq_char].
Definition not_quote : regex := Cls true [Ch dq_char; Ch sq_char].

(** A script element whose type attribute starts with math/tex. *)
Definition re_script : regex :=
  seq [lit "<script"; star (not_in ">"); lit "type="; quote_cls; lit "math/tex";
       star not_quote; quote_cls; star (not_in ">"); lit ">";
       lazy_star Dot; lit "</script>"].

Definition re_mjx : regex :=
  seq [lit "<mjx-container"; star (not_in ">"); lit ">"; lazy_star Dot;
       lit "</mjx-container>"].

Definition re_math : regex :=
  seq [lit "<math"; star (not_in ">"); lit ">"; lazy_star Dot; lit "</math>"].

(** Backslash-bracket display math, dollar-dollar display math and
    backslash-parenthesis inline math, each with its body as group 1. *)
Definition re_display : regex :=
  seq [Chr bsl_char; lit "["; Grp 1 (lazy_star Dot); Chr bsl_char; lit "]"].

Definition re_dollars : regex :=
  seq [lit "$$"; Grp 1 (lazy_star Dot); lit "$$"].

Definition re_inline : regex :=
  seq [Chr bsl_char; lit "("; Grp 1 (lazy_star Dot); Chr bsl_char; lit ")"].

(** The six passes, in the order of the code. *)
Definition passes : list regex :=
  [re_script; re_mjx; re_math; re_display; re_dollars; re_inline].

(** [protect_math(content)]: the store is emptied, then every pass rewrites
    the text produced by the one before.  The result is the new store and
    the protected text. *)
Definition run_passes (ps : list regex) (start : store * string) : store * string :=
  fold_left (fun '(d, s) r => re_sub_st DOTALL r protect_repl s d) ps start.

Definition protect_math (content : string) : store * string :=
  run_passes passes ([], content).

(** The alternation of the escaped keys; tokens hold no character that
    [re.escape] changes. *)
Fixpoint keys_pattern (ks : list string) : regex :=
  match ks with
  | [] => Eps
  | [k] => lit k
  | k :: ks' => Alt (lit k) (keys_pattern ks')
  end.

(** [restore_math(content)] against the store [d]. *)
Definition restore_math (d : store) (content : string) : string :=
  match d with
  | [] => content
  | _ => re_sub_fn no_flags (keys_pattern (map fst d))
           (fun m => default EmptyString (dict_get (mo_text m) d)) content
  end.

(** [restore_math(protect_math(x))], the store of the call being the one
    [protect_math] has just filled. *)
Definition roundtrip (x : string) : string :=
  let '(d, s) := protect_math x in restore_math d s.

End MathGuard.

(* ===================================================================== *)
(** ** SafetyValidator: [validate_output_safety] and the write gate *)
(* ===================================================================== *)

Module Safety.
Import PyStr Re.

Definition MIN_CONTENT_LENGTH : nat := 500.

Definition id_doc_content : string := "id=" +:+ dq +:+ "doc_content" +:+ dq.
Definition class_sidebar : string := "class=" +:+ dq +:+ "sidebar" +:+ dq.
Definition class_top_bar : string := "class=" +:+ dq +:+ "top-bar" +:+ dq.
Definition content_start : string := "<!-- content-start -->".
Definition content_end : string := "<!-- content-end -->".

(** The marker pair with the text between them as group 1 (DOTALL). *)
Definition re_markers : regex :=
  seq [lit content_start; Grp 1 (lazy_star Dot); lit content_end].

(** An opening h1 or h2 tag (IGNORECASE). *)
Definition re_h12 : regex :=
  seq [lit "<h"; one_of "12"; star (not_in ">"); lit ">"].

Definition re_token_example : regex := Grp 1 (Cat (lit "MATH_TOKEN_") (plus digit)).

Definition has_h12 (content : string) : bool :=
  bool_decide (is_Some (re_search IGNORECASE re_h12 content)).

(** Checks 3 to 6, which follow the choice of [content]. *)
Definition checks_after_length (content html_content : string) : bool * string :=
  if negb (has_h12 content) then
    (false, "No headings (h1/h2) found in content")
  else if contains "MATH_TOKEN_" html_content then
    let token_example :=
      match re_search no_flags re_token_example html_content with
      | Some m => group_or_empty m 1
      | None => "MATH_TOKEN_*"
      end in
    (false, "Unrestored math placeholder found: " +:+ token_example)
  else
    let sidebar_count := count class_sidebar html_content in
    if negb (sidebar_count =? 1) then
      (false, "Invalid sidebar count: " +:+ str_nat sidebar_count +:+ " (expected 1)")
    else
      let topbar_count := count class_top_bar html_content in
      if negb (topbar_count =? 1) then
        (false, "Invalid top-bar count: " +:+ str_nat topbar_count +:+ " (expected 1)")
      else (true, EmptyString).

(** [validate_output_safety(html_content, filename)]; the file name is not
    used by the body. *)
Definition validate_output_safety (html_content : string) : bool * string :=
  let doc_content_count := count id_doc_content html_content in
  if negb (doc_content_count =? 1) then
    (false, "Invalid doc_content count: " +:+ str_nat doc_content_count +:+ " (expected 1)")
  else
    match re_search DOTALL re_markers html_content with
    | None =>
        if len html_content <? 5000 then
          (false, "Total HTML too short: " +:+ str_nat (len html_content) +:+ " chars")
        else checks_after_length html_content html_content
    | Some m =>
        let content := group_or_empty m 1 in
        let content_len := len content in
        if content_len <? MIN_CONTENT_LENGTH then
          (false, "Content too short: " +:+ str_nat content_len +:+ " chars (minimum "
                  +:+ str_nat MIN_CONTENT_LENGTH +:+ ")")
        else checks_after_length content html_content
    end.

Definition is_safe (html_content : string) : bool := fst (validate_output_safety html_content).

(** *** The page template: [render_page_html] *)

Section Render.

(** [get_common_head(title, is_aux)] and [get_js_footer()] return long fixed
    texts (style sheets and scripts); the template only places them, and
    they are parameters here. *)
Variable get_common_head : string -> bool -> string.
Variable get_js_footer : string.

(** The template up to the opening content marker. *)
Definition page_top (title sidebar_html nav_buttons_html extra_styles : string)
    (is_aux : bool) (body_class : string) : string :=
  "<!DOCTYPE html>" +:+ nl +:+
  "<html lang=" +:+ dq +:+ "en" +:+ dq +:+ ">" +:+ nl +:+
  "<head>" +:+ nl +:+
  "    " +:+ (get_common_head title is_aux) +:+ nl +:+
  "    <style>" +:+ extra_styles +:+ "</style>" +:+ nl +:+
  "</head>" +:+ nl +:+
  "<body id=" +:+ dq +:+ "page-top-body" +:+ dq +:+ " class=" +:+ dq +:+ body_class +:+ dq +:+
    ">" +:+ nl +:+
  "    <aside class=" +:+ dq +:+ "sidebar" +:+ dq +:+ " id=" +:+ dq +:+ "sidebar" +:+ dq +:+
    ">" +:+ nl +:+
  "        " +:+ sidebar_html +:+ nl +:+
  "    </aside>" +:+ nl +:+
  "    <div class=" +:+ dq +:+ "resize-handle" +:+ dq +:+ " id=" +:+ dq +:+ "sidebar_resizer" +:+
    dq +:+ "></div>" +:+ nl +:+
  "    <div class=" +:+ dq +:+ "main-wrapper" +:+ dq +:+ ">" +:+ nl +:+
  "        <header class=" +:+ dq +:+ "top-bar" +:+ dq +:+ " id=" +:+ dq +:+ "topbar" +:+ dq +:+
    ">" +:+ nl +:+
  "            <div id=" +:+ dq +:+ "menu_toggle" +:+ dq +:+ " class=" +:+ dq +:+
    "menu-toggle" +:+ dq +:+ " style=" +:+ dq +:+ "display:none; cursor:pointer;" +:+ dq +:+
    ">" +:+ nl +:+
  "                <svg width=" +:+ dq +:+ "24" +:+ dq +:+ " height=" +:+ dq +:+ "24" +:+ dq +:+
    " viewBox=" +:+ dq +:+ "0 0 24 24" +:+ dq +:+ " fill=" +:+ dq +:+ "none" +:+ dq +:+
    " stroke=" +:+ dq +:+ "currentColor" +:+ dq +:+ " stroke-width=" +:+ dq +:+ "2" +:+ dq +:+
    ">" +:+ nl +:+
  "                    <line x1=" +:+ dq +:+ "3" +:+ dq +:+ " y1=" +:+ dq +:+ "12" +:+ dq +:+
    " x2=" +:+ dq +:+ "21" +:+ dq +:+ " y2=" +:+ dq +:+ "12" +:+ dq +:+ "></line>" +:+ nl +:+
  "                    <line x1=" +:+ dq +:+ "3" +:+ dq +:+ " y1=" +:+ dq +:+ "6" +:+ dq +:+
    " x2=" +:+ dq +:+ "21" +:+ dq +:+ " y2=" +:+ dq +:+ "6" +:+ dq +:+ "></line>" +:+ nl +:+
  "                    <line x1=" +:+ dq +:+ "3" +:+ dq +:+ " y1=" +:+ dq +:+ "18" +:+ dq +:+
    " x2=" +:+ dq +:+ "21" +:+ dq +:+ " y2=" +:+ dq +:+ "18" +:+ dq +:+ "></line>" +:+ nl +:+
  "                </svg>" +:+ nl +:+
  "            </div>" +:+ nl +:+
  "            <div class=" +:+ dq +:+ "page-title" +:+ dq +:+ ">" +:+ title +:+ "</div>" +:+
    nl +:+
  "            <div class=" +:+ dq +:+ "topbar-right" +:+ dq +:+ ">" +:+ nl +:+
  "                <!-- Pagefind Search UI (Expandable, expands LEFT from buttons) -->" +:+
    nl +:+
  "                <div class=" +:+ dq +:+ "search-container expandable" +:+ dq +:+ " id=" +:+
    dq +:+ "top_search" +:+ dq +:+ ">" +:+ nl +:+
  "                    <div class=" +:+ dq +:+ "search-input-wrapper" +:+ dq +:+ ">" +:+ nl +:+
  "                        <input type=" +:+ dq +:+ "text" +:+ dq +:+ " class=" +:+ dq +:+
    "search-input pagefind-trigger" +:+ dq +:+ " placeholder=" +:+ dq +:+ "Search..." +:+ dq +:+
    " data-active-placeholder=" +:+ dq +:+ "Search..." +:+ dq +:+ " disabled>" +:+ nl +:+
  "                    </div>" +:+ nl +:+
  "                    <div class=" +:+ dq +:+ "search-trigger" +:+ dq +:+ " id=" +:+ dq +:+
    "search_trigger" +:+ dq +:+ ">" +:+ nl +:+
  "                        <i class=" +:+ dq +:+ "fas fa-search" +:+ dq +:+ "></i>" +:+ nl +:+
  "                    </div>" +:+ nl +:+
  "                    <div class=" +:+ dq +:+ "search-results" +:+ dq +:+ "></div>" +:+ nl +:+
  "                </div>" +:+ nl +:+
  "                " +:+ nav_buttons_html +:+ nl +:+
  "            </div>" +:+ nl +:+
  "        </header>" +:+ nl +:+
  "        <main class=" +:+ dq +:+ "content-scroll" +:+ dq +:+ " id=" +:+ dq +:+
    "content_area" +:+ dq +:+ ">" +:+ nl +:+
  "            <div class=" +:+ dq +:+ "container" +:+ dq +:+ ">" +:+ nl +:+
  "                <div class=" +:+ dq +:+ "card" +:+ dq +:+ ">" +:+ nl +:+
  "                    <div class=" +:+ dq +:+ "card-body" +:+ dq +:+ " id=" +:+ dq +:+
    "doc_content" +:+ dq +:+ " data-pagefind-body>" +:+ nl +:+
  "                        ".

(** The template after the closing content marker. *)
Definition page_bottom (bottom_nav_html : string) : string :=
  nl +:+
  "                    </div>" +:+ nl +:+
  "                    " +:+ bottom_nav_html +:+ nl +:+
  "                </div>" +:+ nl +:+
  "            </div>" +:+ nl +:+
  "        </main>" +:+ nl +:+
  "    </div>" +:+ nl +:+
  "    " +:+ get_js_footer +:+ nl +:+
  "</body>" +:+ nl +:+
  "</html>".

(** [render_page_html(title, body_content, sidebar_html, nav_buttons_html,
    bottom_nav_html, extra_styles, is_aux, body_class)] *)
Definition render_page_html (title body_content sidebar_html nav_buttons_html
    bottom_nav_html extra_styles : string) (is_aux : bool) (body_class : string) : string :=
  page_top title sidebar_html nav_buttons_html extra_styles is_aux body_class
  +:+ "<!-- content-start -->" +:+ nl +:+
  "                        " +:+ body_content +:+ nl +:+
  "                        " +:+ "<!-- content-end -->"
  +:+ page_bottom bottom_nav_html.

End Render.

(** *** The gate of [process_chapter] and the loop of [main] *)

(** What [process_chapter] hands to [render_page_html]. *)
Record page_parts : Type := PageParts {
  page_title : string;
  doc_content : string;
  sidebar_html : string;
  top_bar_html : string;
  bottom_nav : string
}.

Section Gate.

Variable get_common_head : string -> bool -> string.
Variable get_js_footer : string.

(** Everything [process_chapter] does between reading the file and the
    call of [render_page_html], as a function of the text read and of the
    chapter record (the bibliography index and the chapter list do not
    change during the loop). *)
Variable chapter_data : Type.
Variable assemble : string -> chapter_data -> page_parts.

(** [html = render_page_html(title=page_title, body_content=doc_content,
    sidebar_html=sidebar_html, nav_buttons_html=top_bar_html,
    bottom_nav_html=bottom_nav, is_aux=False)] *)
Definition rendered (parts : page_parts) : string :=
  render_page_html get_common_head get_js_footer (page_title parts) (doc_content parts)
    (sidebar_html parts) (top_bar_html parts) (bottom_nav parts) EmptyString false EmptyString.

(** The output directory is a map from path to file content. *)

(** [process_chapter(html_file, chapter_data)].  [None] stands for the
    exception of [read_text] on a missing file. *)
Definition process_chapter (fs : gmap string string) (html_file : string)
    (ch : chapter_data) : option (gmap string string) :=
  match fs !! html_file with
  | None => None
  | Some original_content =>
      let html := rendered (assemble original_content ch) in
      if is_safe html then Some (<[html_file := html]> fs)   (* write_text *)
      else Some fs                                            (* return *)
  end.

(** [for ch in to_process: process_chapter(ch['path'], ch)] *)
Fixpoint process_all (fs : gmap string string)
    (to_process : list (string * chapter_data)) : option (gmap string string) :=
  match to_process with
  | [] => Some fs
  | (path, ch) :: rest =>
      match process_chapter fs path ch with
      | None => None
      | Some fs' => process_all fs' rest
      end
  end.

(** What [process_chapter] leaves at the path of its chapter. *)
Definition outcome (original_content : string) (ch : chapter_data) : string :=
  if is_safe (rendered (assemble original_content ch))
  then rendered (assemble original_content ch)
  else original_content.

End Gate.

(** *** The six conditions as the specification lists them *)

(** The content body, when the marker pair is there. *)
Definition extracted_body (html : string) : option string :=
  match re_search DOTALL re_markers html with
  | Some m => Some (group_or_empty m 1)
  | None => None
  end.

(** The text in which a heading is looked for. *)
Definition heading_scope (html : string) : string :=
  default html (extracted_body html).

(** The conditions with the length condition left open for a document
    without markers: [no_marker_ok] is the verdict of that condition on such
    a document. *)
Definition spec_conditions (no_marker_ok : string -> bool) (html : string) : bool :=
  (count id_doc_content html =? 1)
  && match extracted_body html with
     | Some body => MIN_CONTENT_LENGTH <=? len body
     | None => no_marker_ok html
     end
  && has_h12 (heading_scope html)
  && negb (contains "MATH_TOKEN_" html)
  && (count class_sidebar html =? 1)
  && (count class_top_bar html =? 1).

(** What the code does for the length without markers. *)
Definition fallback_total_length (html : string) : bool := 5000 <=? len html.

(** The six conditions on an assembled page [html] whose content body is
    [body]: one doc_content container, a body of the minimum length, an h1 or
    h2 in the body, no math token, one sidebar, one top bar. *)
Definition six_conditions (html body : string) : bool :=
  (count id_doc_content html =? 1)
  && (MIN_CONTENT_LENGTH <=? len body)
  && has_h12 body
  && negb (contains "MATH_TOKEN_" html)
  && (count class_sidebar html =? 1)
  && (count class_top_bar html =? 1).

(** *** Pages for the examples *)

(** A page with one sidebar, one top bar and one doc_content container
    around [body], and no content markers of its own (a page that
    [render_page_html] wrote has the marker pair). *)
Definition page (body : string) : string :=
  "<aside " +:+ class_sidebar +:+ "></aside><header " +:+ class_top_bar
  +:+ "></header><div " +:+ id_doc_content +:+ ">" +:+ body +:+ "</div>".

Fixpoint filler (n : nat) : string :=
  match n with
  | 0 => EmptyString
  | S n' => String "x" (filler n')
  end.

Definition short_page_without_markers : string := page ("<h2>Title</h2>" +:+ filler 600).
Definition long_page_without_markers : string := page ("<h2>Title</h2>" +:+ filler 5000).

(** A run over two chapters: the first assembles to a page that fails the
    check (its body is too short), the second to a page that passes. *)
Definition demo_assemble (original_content : string) (pad : nat) : page_parts :=
  PageParts "Lecture" ("<h2>" +:+ original_content +:+ "</h2>" +:+ filler pad)
    "<ul></ul>" EmptyString EmptyString.

(** Stand-ins for the two fixed texts in the examples. *)
Definition demo_head (title : string) (is_aux : bool) : string :=
  "<title>" +:+ title +:+ "</title>".
Definition demo_footer : string := "<script></script>".

Definition demo_files : gmap string string :=
  <["ch1.html" := "one"]> (<["ch2.html" := "two"]> ∅).

Definition demo_chapters : list (string * nat) := [("ch1.html", 10); ("ch2.html", 600)].

End Safety.

(* ===================================================================== *)
(** ** HeadingIdentifier: [generate_slug] and the heading-id passes *)
(* ===================================================================== *)

Module Slug.
Import PyStr Re.

Definition alpha : regex := Cls false [Rg "a" "z"; Rg "A" "Z"].
Definition non_alnum : regex := Cls true [Rg "a" "z"; Rg "A" "Z"; Rg "0" "9"].

(** Any tag. *)
Definition re_tag : regex := seq [lit "<"; plus (not_in ">"); lit ">"].

(** A leading section number such as 14.3.1 and the blanks after it. *)
Definition re_leading_number : regex :=
  seq [Bol; plus digit; star (Grp 1 (Cat (lit ".") (plus digit))); star space].

Definition re_math_token : regex := seq [lit "MATH_TOKEN_"; plus digit; lit "__"].
Definition re_mathprotect : regex := seq [lit "MATHPROTECT_"; plus digit].
Definition re_math_token_dash : regex := seq [lit "math-token-"; plus digit].
Definition re_math_token_lower : regex := seq [lit "math_token_"; plus digit].
Definition re_inline_dollar : regex := seq [lit "$"; star (not_in "$"); lit "$"].
Definition re_latex_command_arg : regex :=
  seq [Chr bsl_char; plus alpha; lit "{"; star (not_in "}"); lit "}"].
Definition re_latex_command : regex := seq [Chr bsl_char; plus alpha].

(** [clean_text_for_slug(text)] *)
Definition clean_text_for_slug (text : string) : string :=
  let text := strip (re_sub no_flags re_tag EmptyString text) in
  let text := strip (re_sub no_flags re_leading_number EmptyString text) in
  let text := re_sub IGNORECASE re_math_token EmptyString text in
  let text := re_sub IGNORECASE re_mathprotect EmptyString text in
  let text := re_sub IGNORECASE re_math_token_dash EmptyString text in
  let text := re_sub IGNORECASE re_math_token_lower EmptyString text in
  let text := re_sub no_flags re_inline_dollar EmptyString text in
  let text := re_sub no_flags re_latex_command_arg EmptyString text in
  let text := re_sub no_flags re_latex_command EmptyString text in
  strip (re_sub no_flags (plus space) " " text).

(** [s.rsplit('-', 1)[0]]: the text before the last dash, or all of [s]. *)
Fixpoint rsplit1_head (s : string) : string :=
  match s with
  | EmptyString => EmptyString
  | String c s' =>
      if mem_char "-" s' then String c (rsplit1_head s')
      else if ascii_dec c "-" then EmptyString
      else s
  end.

(** The slug before disambiguation. *)
Definition base_slug_of (text : string) : string :=
  let text := clean_text_for_slug text in
  let slug := lower (strip_chars "-" (re_sub no_flags (plus non_alnum) "-" text)) in
  let slug := re_sub no_flags (plus (lit "-")) "-" slug in
  let slug := if 60 <? len slug then rsplit1_head (take 60 slug) else slug in
  if bool_decide (slug = EmptyString) || bool_decide (slug = "-") then "section" else slug.

(** [f"{base_slug}-{counter}"] *)
Definition suffixed (base_slug : string) (counter : nat) : string :=
  base_slug +:+ "-" +:+ str_nat counter.

(** The loop [while slug in used_ids_set: slug = f"{base_slug}-{counter}";
    counter += 1].  [bound] limits the number of iterations; with more
    iterations than the set has members the loop has always left (see
    [uniq_loop_fresh]). *)
Fixpoint uniq_loop (bound : nat) (base_slug : string) (counter : nat) (slug : string)
    (used_ids_set : gset string) : string :=
  match bound with
  | 0 => slug
  | S bound' =>
      if bool_decide (slug ∈ used_ids_set)
      then uniq_loop bound' base_slug (S counter) (suffixed base_slug counter) used_ids_set
      else slug
  end.

(** [generate_slug(text, used_ids_set)]: the slug and the set with the slug
    added. *)
Definition generate_slug (text : string) (used_ids_set : gset string)
  : string * gset string :=
  let base_slug := base_slug_of text in
  let slug := uniq_loop (S (size used_ids_set)) base_slug 2 base_slug used_ids_set in
  (slug, {[slug]} ∪ used_ids_set).

(** What the two passes share: [used_ids], [old_to_new_id_map], and the ids
    written so far, oldest first (kept here to speak about the output). *)
Record id_state : Type := IdState {
  used_ids : gset string;
  old_to_new_id_map : list (string * string);
  emitted : list string
}.

Definition empty_id_state : id_state := IdState ∅ [] [].

Definition quote_cls : regex := Cls false [Ch dq_char; Ch sq_char].
Definition not_quote : regex := Cls true [Ch dq_char; Ch sq_char].

(** An id attribute, its value being group 1. *)
Definition re_id_attr : regex :=
  seq [lit "id="; quote_cls; Grp 1 (plus not_quote); quote_cls].

(** A heading element h1..h6: tag, attributes and content as groups 1..3
    (DOTALL); the closing tag repeats group 1. *)
Definition re_heading : regex :=
  seq [lit "<"; Grp 1 (Cat (lit "h") (Cls false [Rg "1" "6"]));
       Grp 2 (star (not_in ">")); lit ">"; Grp 3 (lazy_star Dot);
       lit "</"; Bref 1; lit ">"].

(** A span or div whose class attribute names one of the section-like
    classes of the converter. *)
Definition re_head_span : regex :=
  seq [lit "<"; Grp 1 (Alt (lit "span") (lit "div"));
       Grp 2 (seq [star (not_in ">"); lit "class="; Chr dq_char; star (Cls true [Ch dq_char]);
                   Alt (lit "sectionHead")
                     (Alt (lit "subsectionHead")
                        (Alt (lit "subsubsectionHead") (lit "paragraphHead")));
                   star (Cls true [Ch dq_char]); Chr dq_char; star (not_in ">")]);
       lit ">"; Grp 3 (lazy_star Dot); lit "</"; Bref 1; lit ">"].

(** [old_to_new_id_map[old_id] = slug] *)
Definition map_set (k v : string) (d : list (string * string)) : list (string * string) :=
  MathGuard.dict_set k v d.

(** [generate_readable_id(m)]; [generate_readable_id_span] has the same
    body. *)
Definition generate_readable_id (st : id_state) (m : mobj) : id_state * string :=
  let tag := group_or_empty m 1 in
  let attrs := group_or_empty m 2 in
  let content := group_or_empty m 3 in
  let '(slug, used') := generate_slug content (used_ids st) in
  match re_search no_flags re_id_attr attrs with
  | Some old_id_match =>
      let old_id := group_or_empty old_id_match 1 in
      let attrs' := re_sub no_flags re_id_attr ("id=" +:+ dq +:+ slug +:+ dq) attrs in
      (IdState used' (map_set old_id slug (old_to_new_id_map st)) (emitted st ++ [slug]),
       "<" +:+ tag +:+ attrs' +:+ ">" +:+ content +:+ "</" +:+ tag +:+ ">")
  | None =>
      (IdState used' (old_to_new_id_map st) (emitted st ++ [slug]),
       "<" +:+ tag +:+ " id=" +:+ dq +:+ slug +:+ dq +:+ attrs +:+ ">" +:+ content
           +:+ "</" +:+ tag +:+ ">")
  end.

(** The two passes of one [process_chapter] call, from the state [st]. *)
Definition id_passes_from (st : id_state) (doc_content : string) : id_state * string :=
  let '(st1, doc1) := re_sub_st DOTALL re_heading generate_readable_id doc_content st in
  re_sub_st DOTALL re_head_span generate_readable_id doc1 st1.

(** [process_chapter] starts them from [used_ids = set()]. *)
Definition id_passes (doc_content : string) : id_state * string :=
  id_passes_from empty_id_state doc_content.

(** The ids written into one chapter, and into a corpus of chapters. *)
Definition chapter_ids (doc_content : string) : list string :=
  emitted (fst (id_passes doc_content)).

Definition corpus_ids (chapters : list string) : list string :=
  concat (map chapter_ids chapters).

(** What the two passes keep: the ids written are pairwise different and
    all in [used_ids]. *)
Definition ids_ok (st : id_state) : Prop :=
  NoDup (emitted st) /\ forall x, x ∈ emitted st -> x ∈ used_ids st.

End Slug.

(* ===================================================================== *)
(** ** SectionRenumberer and TOCExtractor *)
(* ===================================================================== *)

Module Renumber.
Import PyStr Re.

(** A heading as the renumbering pass reads it from the parsed tree: the tag
    name, the class list, [get_text()], and the text of its titlemark span
    when it has one. *)
Record heading : Type := Heading {
  h_name : string;
  h_classes : list string;
  h_text : string;
  h_titlemark : option string
}.

Record counters : Type := Counters {
  section_counter : nat;
  subsection_counter : nat;
  subsubsection_counter : nat
}.

Definition counters0 : counters := Counters 0 0 0.

Definition has_class (c : string) (h : heading) : bool :=
  bool_decide (c ∈ h_classes h).

Definition is_name (n : string) (h : heading) : bool := bool_decide (h_name h = n).

(** The prefix Enrichment, an optional number, a colon and blanks
    (IGNORECASE). *)
Definition re_enrichment_prefix : regex :=
  seq [Bol; lit "Enrichment";
       opt (Cat (plus space) (plus (Cls false [Digit; Ch "."])));
       lit ":"; star space].

Definition clean_title (text : string) : string :=
  strip (re_sub IGNORECASE re_enrichment_prefix EmptyString text).

Definition dotted (parts : list nat) : string := join "." (map str_nat parts).

(** [heading.string = f"Enrichment {new_number}: {clean_title}"] *)
Definition retitle (new_number : string) (h : heading) : heading :=
  Heading (h_name h) (h_classes h)
    ("Enrichment " +:+ new_number +:+ ": " +:+ clean_title (h_text h)) None.

(** [titlemark.string = f"{new_number}   "], when the span is there. *)
Definition set_titlemark (new_number : string) (h : heading) : heading :=
  match h_titlemark h with
  | Some _ => Heading (h_name h) (h_classes h) (h_text h) (Some (new_number +:+ "   "))
  | None => h
  end.

(** The body of the loop over [soup.find_all(['h3', 'h4', 'h5'])]: the new
    counters, the number given to the heading (if any) and the heading as it
    is left in the tree. *)
Definition renumber_heading (chapter_num : nat) (c : counters) (h : heading)
  : counters * option string * heading :=
  if has_class "chapterHead" h then (c, None, h)
  else
    let is_h3_section := is_name "h3" h && has_class "sectionHead" h in
    let is_h3_enrichment := is_name "h3" h && has_class "enrichment-title" h in
    let is_h4_subsection := is_name "h4" h && has_class "subsectionHead" h in
    let is_h4_enrichment := is_name "h4" h && has_class "enrichment-title" h in
    let is_h5_subsubsection :=
      is_name "h5" h && (has_class "subsubsectionHead" h || has_class "enrichment-title" h) in
    if is_h3_section then
      let c' := Counters (S (section_counter c)) 0 0 in
      let new_number := dotted [chapter_num; section_counter c'] in
      (c', Some new_number, set_titlemark new_number h)
    else if is_h3_enrichment then
      let c' := Counters (S (section_counter c)) 0 0 in
      let new_number := dotted [chapter_num; section_counter c'] in
      (c', Some new_number, retitle new_number h)
    else if is_h4_subsection then
      let c' := Counters (section_counter c) (S (subsection_counter c)) 0 in
      let new_number := dotted [chapter_num; section_counter c'; subsection_counter c'] in
      (c', Some new_number, set_titlemark new_number h)
    else if is_h4_enrichment then
      let c' := Counters (section_counter c) (S (subsection_counter c)) 0 in
      let new_number := dotted [chapter_num; section_counter c'; subsection_counter c'] in
      (c', Some new_number, retitle new_number h)
    else if is_h5_subsubsection then
      let c' := Counters (section_counter c) (subsection_counter c)
                  (S (subsubsection_counter c)) in
      let new_number :=
        if 0 <? subsection_counter c'
        then dotted [chapter_num; section_counter c'; subsection_counter c';
                     subsubsection_counter c']
        else dotted [chapter_num; section_counter c'; subsubsection_counter c'] in
      (c', Some new_number,
       if has_class "enrichment-title" h then retitle new_number h else h)
    else (c, None, h).

(** The pass over the headings of a chapter, in document order, from the
    counters [c]. *)
Fixpoint renumber_from (chapter_num : nat) (c : counters) (hs : list heading)
  : counters * list (option string * heading) :=
  match hs with
  | [] => (c, [])
  | h :: hs' =>
      let '(c1, n, h') := renumber_heading chapter_num c h in
      let '(c2, out) := renumber_from chapter_num c1 hs' in
      (c2, (n, h') :: out)
  end.

Definition renumber (chapter_num : nat) (hs : list heading)
  : counters * list (option string * heading) :=
  renumber_from chapter_num counters0 hs.

(** *** [extract_toc_from_body] *)

(** One entry of the list [headings] of the extractor. *)
Record toc_heading : Type := TocHeading {
  t_tag : string;
  t_eid : string;
  t_text : string;
  t_is_enrichment : bool;
  t_enr_num : option string;
  t_enr_title : option string;
  t_display_text : option string;
  t_is_subsection : option bool
}.

Definition re_chapter_noise : regex := seq [lit "Chapter"; star space; plus digit].
Definition re_lecture_noise : regex :=
  seq [Bol; lit "Lecture"; plus space; plus digit; lit ":"].
Definition re_leading_one : regex := seq [Bol; lit "1"; lit "."].

(** Enrichment, blanks, a number (group 1), an optional colon, blanks and
    the title (group 2); IGNORECASE, the dot stops at a newline. *)
Definition re_enrichment : regex :=
  seq [lit "Enrichment"; plus space; Grp 1 (plus (Cls false [Digit; Ch "."]));
       opt (lit ":"); star space; Grp 2 (star Dot)].

(** A dotted number at the start of the text, as group 1. *)
Definition re_number_head : regex :=
  seq [Bol; Grp 1 (Cat (plus digit) (star (Cat (lit ".") (plus digit))))].

(** Pass 1 on one match (tag, id, content) of the heading pattern; the
    store is the one [restore_math] reads. *)
Definition toc_collect (d : MathGuard.store) (lecture_num : nat)
    (m : string * string * string) : option toc_heading :=
  let '(tag0, eid, content) := m in
  let tag := lower tag0 in
  if bool_decide (eid = EmptyString) then None
  else
    let text := MathGuard.restore_math d (strip (re_sub no_flags Slug.re_tag EmptyString content)) in
    if bool_decide (text = EmptyString) then None
    else if bool_decide (is_Some (re_search IGNORECASE re_chapter_noise text)) then None
    else if bool_decide (is_Some (re_match IGNORECASE re_lecture_noise text)) then None
    else if bool_decide (tag = "h5") then None
    else
      let text :=
        if 1 <? lecture_num
        then re_sub no_flags re_leading_one (str_nat lecture_num +:+ ".") text
        else text in
      let enr_match := re_match IGNORECASE re_enrichment text in
      let enr_num := enr_match ≫= (fun e => group e 1) in
      let enr_title := (fun e => strip (group_or_empty e 2)) <$> enr_match in
      let enr_num :=
        match enr_num with
        | Some n =>
            if bool_decide (n ≠ EmptyString) && (1 <? lecture_num)
            then Some (re_sub no_flags re_leading_one (str_nat lecture_num +:+ ".") n)
            else Some n
        | None => None
        end in
      Some (TocHeading tag eid text (bool_decide (is_Some enr_match)) enr_num enr_title
              None None).

Definition toc_pass1 (d : MathGuard.store) (lecture_num : nat)
    (matches : list (string * string * string)) : list toc_heading :=
  omap (toc_collect d lecture_num) matches.

Definition set_display (txt : string) (sub : bool) (h : toc_heading) : toc_heading :=
  TocHeading (t_tag h) (t_eid h) (t_text h) (t_is_enrichment h) (t_enr_num h)
    (t_enr_title h) (Some txt) (Some sub).

Definition is_h3_enrichment (h : toc_heading) : bool :=
  t_is_enrichment h && bool_decide (t_tag h = "h3").

(** The inner loop of pass 2: the h3 enrichments that follow the first of a
    run become subsections parent.1, parent.2, ...; returns them and the
    headings after the run. *)
Fixpoint toc_children (parent_num : string) (subsection_counter : nat)
    (hs : list toc_heading) : list toc_heading * list toc_heading :=
  match hs with
  | child :: hs' =>
      if bool_decide (t_tag child = "h3") && t_is_enrichment child
      then
        let corrected_num := parent_num +:+ "." +:+ str_nat subsection_counter in
        let child' :=
          set_display (corrected_num +:+ " " +:+ default EmptyString (t_enr_title child))
            true child in
        let '(done, rest) := toc_children parent_num (S subsection_counter) hs' in
        (child' :: done, rest)
      else ([], hs)
  | [] => ([], [])
  end.

(** Pass 2, the outer loop; [bound] is at least the number of headings. *)
Fixpoint toc_pass2_go (bound : nat) (hs : list toc_heading) : list toc_heading :=
  match bound, hs with
  | _, [] => []
  | 0, _ => hs
  | S bound', h :: hs' =>
      if is_h3_enrichment h then
        let parent_parts := split "." (default EmptyString (t_enr_num h)) in
        let parent_num := join "." (firstn 2 parent_parts) in
        let '(children, rest) := toc_children parent_num 1 hs' in
        set_display (parent_num +:+ " " +:+ default EmptyString (t_enr_title h)) false h
          :: children ++ toc_pass2_go bound' rest
      else
        let display :=
          if t_is_enrichment h
          then default EmptyString (t_enr_num h) +:+ " " +:+ default EmptyString (t_enr_title h)
          else t_text h in
        let sub :=
          if bool_decide (t_tag h = "h4") then true
          else match re_match no_flags re_number_head (t_text h) with
               | Some nm => 3 <=? length (split "." (group_or_empty nm 1))
               | None => false
               end in
        set_display display sub h :: toc_pass2_go bound' hs'
  end.

Definition toc_pass2 (hs : list toc_heading) : list toc_heading :=
  toc_pass2_go (length hs) hs.

(** The text and the class of each entry the extractor lists. *)
Definition toc_entries (d : MathGuard.store) (lecture_num : nat)
    (matches : list (string * string * string)) : list (string * bool) :=
  map (fun h => (default (t_text h) (t_display_text h), default false (t_is_subsection h)))
      (toc_pass2 (toc_pass1 d lecture_num matches)).

(** The headings of the scenario of the specification. *)
Definition enrichment_h3 (title : string) : heading :=
  Heading "h3" ["enrichment-title"] ("Enrichment: " +:+ title) None.

Definition section_h3 (title : string) : heading :=
  Heading "h3" ["sectionHead"] title (Some "1.1   ").

(** Three plain sections: the section counter stands at 3 after them. *)
Definition scenario_prefix : list heading :=
  [section_h3 "Backpropagation"; section_h3 "Activations"; section_h3 "Initialization"].

(** An h3 heading that the pass takes for an enrichment. *)
Definition h3_enrichment (h : heading) : Prop :=
  h_name h = "h3" /\ ("enrichment-title" ∈ h_classes h)
  /\ ("chapterHead" ∉ h_classes h) /\ ("sectionHead" ∉ h_classes h).

End Renumber.

(* ===================================================================== *)
(** ** The parsed tree of BeautifulSoup *)
(* ===================================================================== *)

Module Dom.
Import PyStr.

(** A text node, or a tag with its name, its class list (bs4 splits the
    class attribute into a list), its other attributes and its children. *)
#[local] Unset Elimination Schemes.
Inductive node : Type :=
| Text (s : string)
| Elem (name : string) (classes : list string) (attrs : list (string * string))
       (children : list node).
#[local] Set Elimination Schemes.

Definition name_of (n : node) : string :=
  match n with Text _ => EmptyString | Elem nm _ _ _ => nm end.

Definition classes_of (n : node) : list string :=
  match n with Text _ => [] | Elem _ cls _ _ => cls end.

Definition attrs_of (n : node) : list (string * string) :=
  match n with Text _ => [] | Elem _ _ a _ => a end.

Definition children_of (n : node) : list node :=
  match n with Text _ => [] | Elem _ _ _ ch => ch end.

Definition is_tag (nm : string) (n : node) : bool :=
  match n with Text _ => false | Elem nm' _ _ _ => bool_decide (nm' = nm) end.

Definition is_tag_in (nms : list string) (n : node) : bool :=
  match n with Text _ => false | Elem nm' _ _ _ => bool_decide (nm' ∈ nms) end.

Definition has_class (c : string) (n : node) : bool :=
  bool_decide (c ∈ classes_of n).

(** [tag.get(key)] *)
Fixpoint attr_get (key : string) (a : list (string * string)) : option string :=
  match a with
  | [] => None
  | (k, v) :: a' => if String.eqb key k then Some v else attr_get key a'
  end.

(** [tag[key] = v] *)
Fixpoint attr_set (key v : string) (a : list (string * string)) : list (string * string) :=
  match a with
  | [] => [(key, v)]
  | (k, v') :: a' => if String.eqb key k then (k, v) :: a' else (k, v') :: attr_set key v a'
  end.

(** [tag.descendants]: every node below [n], in document order. *)
Fixpoint descendants (n : node) : list node :=
  match n with
  | Text _ => []
  | Elem _ _ _ ch => flat_map (fun c => c :: descendants c) ch
  end.

(** [tag.find_all(...)], [tag.find_all(..., recursive=False)], [tag.find(...)]
    for a test [p] on tags. *)
Definition find_all (p : node -> bool) (n : node) : list node := List.filter p (descendants n).
Definition find_children (p : node -> bool) (n : node) : list node := List.filter p (children_of n).
Definition find (p : node -> bool) (n : node) : option node := head (find_all p n).

(** Every string below [n], in document order. *)
Fixpoint strings (n : node) : list string :=
  match n with
  | Text s => [s]
  | Elem _ _ _ ch => flat_map strings ch
  end.

(** [tag.get_text()] and [tag.get_text(strip=True)]: the latter strips every
    string and leaves out those that become empty. *)
Definition get_text (n : node) : string := join EmptyString (strings n).

Definition get_text_strip (n : node) : string :=
  join EmptyString (List.filter (fun s => negb (bool_decide (s = EmptyString))) (map strip (strings n))).

(** The tree without the nodes below [n] that satisfy [p] (each
    [decompose()]d with all it contains). *)
Fixpoint prune (p : node -> bool) (n : node) : node :=
  match n with
  | Text s => Text s
  | Elem nm cls a ch =>
      Elem nm cls a
        ((fix go (l : list node) : list node :=
            match l with
            | [] => []
            | c :: l' => if p c then go l' else prune p c :: go l'
            end) ch)
  end.

(** The walk of [prune] over the children of a tag, on its own (see
    [prune_elem]). *)
Fixpoint prune_list (p : node -> bool) (l : list node) : list node :=
  match l with
  | [] => []
  | c :: l' => if p c then prune_list p l' else prune p c :: prune_list p l'
  end.

(** The first node in document order among [ch] and what is below them that
    satisfies [p], and [ch] without it. *)
Fixpoint take_first (p : node -> bool) (n : node) : option node * node :=
  match n with
  | Text s => (None, Text s)
  | Elem nm cls a ch =>
      let fix go (l : list node) : option node * list node :=
        match l with
        | [] => (None, [])
        | c :: l' =>
            if p c then (Some c, l')
            else match take_first p c with
                 | (Some x, c') => (Some x, c' :: l')
                 | (None, _) =>
                     let '(r, l'') := go l' in (r, c :: l'')
                 end
        end in
      let '(r, ch') := go ch in (r, Elem nm cls a ch')
  end.

(** The walk of [take_first] over the children of a tag, on its own (see
    [take_first_elem]). *)
Fixpoint take_first_list (p : node -> bool) (l : list node) : option node * list node :=
  match l with
  | [] => (None, [])
  | c :: l' =>
      if p c then (Some c, l')
      else match take_first p c with
           | (Some x, c') => (Some x, c' :: l')
           | (None, _) => let '(r, l'') := take_first_list p l' in (r, c :: l'')
           end
  end.

(** A position below a node: the child indices from the node down. *)
Definition path : Type := list nat.

Fixpoint get_at (p : path) (n : node) : option node :=
  match p with
  | [] => Some n
  | i :: p' => match children_of n !! i with
               | Some c => get_at p' c
               | None => None
               end
  end.

(** The node with the node at [p] replaced by its image under [f]; the shape
    of the tree and so every other path stay as they are. *)
Fixpoint update_at (p : path) (f : node -> node) (n : node) : node :=
  match p with
  | [] => f n
  | i :: p' =>
      match n with
      | Text s => Text s
      | Elem nm cls a ch =>
          Elem nm cls a (alter (update_at p' f) i ch)
      end
  end.

(** The paths of the nodes below [n], in document order. *)
Fixpoint descendant_paths (n : node) : list path :=
  match n with
  | Text _ => []
  | Elem _ _ _ ch =>
      (fix go (i : nat) (l : list node) : list path :=
         match l with
         | [] => []
         | c :: l' => (([i] :: map (cons i) (descendant_paths c)) ++ go (S i) l')%list
         end) 0 ch
  end.

(** The walk of [descendant_paths] over the children of a tag, on its own
    (see [descendant_paths_elem]); [i] is the index of the head of [l]. *)
Fixpoint descendant_paths_list (i : nat) (l : list node) : list path :=
  match l with
  | [] => []
  | c :: l' => (([i] :: map (cons i) (descendant_paths c)) ++ descendant_paths_list (S i) l')%list
  end.

(** The test [p] on the node at [q], if there is one. *)
Definition at_path (p : node -> bool) (n : node) (q : path) : bool :=
  match get_at q n with Some m => p m | None => false end.

(** [find_all] as references into the tree. *)
Definition find_all_paths (p : node -> bool) (n : node) : list path :=
  List.filter (at_path p n) (descendant_paths n).

End Dom.

(* ===================================================================== *)
(** ** TableReconstructor: steps of [process_tables_antigravity] *)
(* ===================================================================== *)

Module Tables.
Import PyStr Re Dom.

Definition is_table : node -> bool := is_tag "table".
Definition is_tr : node -> bool := is_tag "tr".
Definition is_cell : node -> bool := is_tag_in ["td"; "th"].
Definition is_caption : node -> bool := is_tag "caption".
Definition is_div_class (c : string) (n : node) : bool := is_tag "div" n && has_class c n.

(** *** Step 1.75: nested tables in a cell become stacked lines *)

(** The text of one nested row, when the row is taken: at most two cells and
    some text. *)
Definition row_line (nested_row : node) : option string :=
  let nested_cells := find_all is_cell nested_row in
  if 2 <? length nested_cells then None
  else
    let row_text := strip (join " " (map get_text_strip nested_cells)) in
    if bool_decide (row_text = EmptyString) then None else Some row_text.

(** [nested_tables]: the tables that are children of the cell, then every
    table below a child div of class tabular; as references into the cell. *)
Definition nested_table_paths (cell : node) : list path :=
  let indexed := imap (fun i c => (i, c)) (children_of cell) in
  let direct := omap (fun '(i, c) => if is_table c then Some [i] else None) indexed in
  let in_divs :=
    flat_map (fun '(i, c) =>
                if is_div_class "tabular" c
                then map (cons i) (find_all_paths is_table c) else [])
             indexed in
  (direct ++ in_divs)%list.

Definition is_dead (dead : list path) (p : path) : bool :=
  existsb (fun d => bool_decide (d `prefix_of` p)) dead.

(** The loop over [nested_tables]: the rows of a table are read unless the
    table went with one decomposed before it; then the table is decomposed. *)
Fixpoint collect_lines (cell : node) (dead : list path) (ps : list path) : list string :=
  match ps with
  | [] => []
  | p :: ps' =>
      let here :=
        if is_dead dead p then []
        else match get_at p cell with
             | Some nested => omap row_line (find_all is_tr nested)
             | None => []
             end in
      (here ++ collect_lines cell (dead ++ [p]) ps')%list
  end.

Definition stacked_lines (cell : node) : list string :=
  collect_lines cell [] (nested_table_paths cell).

(** The paths of [ps] that lead into child [i], from that child on. *)
Definition paths_into (i : nat) (ps : list path) : list path :=
  omap (fun q => match q with
                 | j :: q' => if j =? i then Some q' else None
                 | [] => None
                 end) ps.

(** The children of [n] without the nodes at the paths [ps]. *)
Fixpoint remove_paths (ps : list path) (n : node) : node :=
  match n with
  | Text s => Text s
  | Elem nm cls a ch =>
      Elem nm cls a
        ((fix go (i : nat) (l : list node) : list node :=
            match l with
            | [] => []
            | c :: l' =>
                if bool_decide ([i] ∈ ps) then go (S i) l'
                else remove_paths (paths_into i ps) c :: go (S i) l'
            end) 0 ch)
  end.

(** The walk of [remove_paths] over the children of a tag, on its own (see
    [remove_paths_elem]); [i] is the index of the head of [l]. *)
Fixpoint remove_paths_list (ps : list path) (i : nat) (l : list node) : list node :=
  match l with
  | [] => []
  | c :: l' =>
      if bool_decide ([i] ∈ ps) then remove_paths_list ps (S i) l'
      else remove_paths (paths_into i ps) c :: remove_paths_list ps (S i) l'
  end.

Definition br : node := Elem "br" [] [] [].

(** The strings of the cell after [cell.clear()]: one per line, a br between
    two lines. *)
Fixpoint stack (lines : list string) : list node :=
  match lines with
  | [] => []
  | [line] => [Text line]
  | line :: lines' => Text line :: br :: stack lines'
  end.

Definition add_class (c : string) (cls : list string) : list string :=
  if bool_decide (c ∈ cls) then cls else (cls ++ [c])%list.

(** The body of the loop over the cells of a table. *)
Definition flatten_cell (cell : node) : node :=
  let nested_tables := nested_table_paths cell in
  match nested_tables with
  | [] => cell
  | _ =>
      let lines := stacked_lines cell in
      let cell1 := remove_paths nested_tables cell in
      let cell2 := prune (is_div_class "tabular") cell1 in
      let cell3 := prune (is_div_class "table-wrapper") cell2 in
      match lines with
      | [] => cell3
      | _ => Elem (name_of cell3) (add_class "stacked-cell" (classes_of cell3))
               (attrs_of cell3) (stack lines)
      end
  end.

(** [nested.find_all('tr')] for the table at [p]. *)
Definition rows_at (cell : node) (p : path) : list node :=
  match get_at p cell with
  | Some nested => find_all is_tr nested
  | None => []
  end.

(** The rows of the nested tables of a cell, in the order of the loop. *)
Definition nested_rows (cell : node) : list node :=
  flat_map (rows_at cell) (nested_table_paths cell).

(** A cell whose nested table has one row of three cells. *)
Definition wide_row : node :=
  Elem "tr" [] []
    [Elem "td" [] [] [Text "Stage"]; Elem "td" [] [] [Text "Rate"];
     Elem "td" [] [] [Text "Dim"]].

Definition wide_row_cell : node := Elem "td" [] [] [Elem "table" [] [] [wide_row]].

(** A cell whose nested table stacks two rows around a row of three cells. *)
Definition stacked_cell_input : node :=
  Elem "td" [] []
    [Elem "table" [] []
       [Elem "tr" [] [] [Elem "td" [] [] [Text "4x"]; Elem "td" [] [] [Text " 96-d "]];
        wide_row;
        Elem "tr" [] [] [Elem "td" [] [] [Text "LN"]]]].

(** A cell that holds one nested table whose rows are made of cells of plain
    text: the cell with its name, classes and attributes, the table with
    its classes and attributes, a row as the list of the texts of its
    cells. *)
Definition text_cell (s : string) : node := Elem "td" [] [] [Text s].

Definition text_row (cells : list string) : node := Elem "tr" [] [] (map text_cell cells).

Definition nesting_cell (nm : string) (cls : list string) (a : list (string * string))
    (tcls : list string) (ta : list (string * string)) (rows : list (list string)) : node :=
  Elem nm cls a [Elem "table" tcls ta (map text_row rows)].

(** The line that is expected of a nested row with the cell texts [cells]:
    none for more than two cells, else the stripped texts joined with a
    space and stripped, unless that is empty. *)
Definition line_of (cells : list string) : option string :=
  if 2 <? length cells then None
  else
    let line := strip (join " " (map strip cells)) in
    if bool_decide (line = EmptyString) then None else Some line.

(** *** Step 2.45: colspan repair *)

Definition digit_value (c : ascii) : Z := Z.of_nat (code c - 48).

(** The value of the digits of [s] after the value [acc] of those read
    before: one underscore is allowed between two digits. *)
Fixpoint digits_value (acc : Z) (s : string) : option Z :=
  match s with
  | EmptyString => Some acc
  | String c s' =>
      if is_digit c then digits_value (10 * acc + digit_value c)%Z s'
      else if ascii_dec c "_" then
        match s' with
        | String d _ => if is_digit d then digits_value acc s' else None
        | EmptyString => None
        end
      else None
  end.

(** A decimal literal without sign: it starts with a digit. *)
Definition unsigned_value (s : string) : option Z :=
  match s with
  | String c _ => if is_digit c then digits_value 0 s else None
  | EmptyString => None
  end.

(** [int(s)] for a decimal literal with an optional sign, blanks around it
    and single underscores between digits; [None] is the ValueError. *)
Definition py_int (s : string) : option Z :=
  match strip s with
  | EmptyString => None
  | String c s' =>
      if ascii_dec c "-" then Z.opp <$> unsigned_value s'
      else if ascii_dec c "+" then unsigned_value s'
      else unsigned_value (String c s')
  end.

Definition str_Z (z : Z) : string := pretty z.

(** [int(cell.get('colspan', 1))] *)
Definition colspan_of (cell : node) : option Z :=
  match attr_get "colspan" (attrs_of cell) with
  | Some v => py_int v
  | None => Some 1%Z
  end.

(** [sum(int(c.get('colspan', 1)) for c in row.find_all(['td', 'th']))] *)
Definition row_cols (row : node) : option Z :=
  foldr (fun c acc => z ← colspan_of c; s ← acc; Some (z + s)%Z) (Some 0%Z)
        (find_all is_cell row).

(** [data_rows] *)
Definition data_rows (table : node) : list node :=
  match find (is_tag "tbody") table with
  | None => tail (find_children is_tr table)
  | Some tbody => find_children is_tr tbody
  end.

(** [actual_cols]: the widest data row. *)
Fixpoint widest (rows : list node) (actual_cols : Z) : option Z :=
  match rows with
  | [] => Some actual_cols
  | row :: rows' =>
      cols ← row_cols row;
      widest rows' (if (actual_cols <? cols)%Z then cols else actual_cols)
  end.

Definition set_colspan (v : Z) (cell : node) : node :=
  match cell with
  | Text s => Text s
  | Elem nm cls a ch => Elem nm cls (attr_set "colspan" (str_Z v) a) ch
  end.

(** The inner loop: the first cell with a colspan above 1 is widened. *)
Fixpoint widen_first (row_path : path) (shortfall : Z) (cells : list path) (table : node)
  : option node :=
  match cells with
  | [] => Some table
  | cp :: cells' =>
      cell ← get_at (row_path ++ cp)%list table;
      colspan ← colspan_of cell;
      if (1 <? colspan)%Z
      then Some (update_at (row_path ++ cp)%list (set_colspan (colspan + shortfall)) table)
      else widen_first row_path shortfall cells' table
  end.

(** The loop over the header rows; they are references into the table, which
    is updated in place. *)
Fixpoint repair_rows (actual_cols : Z) (header_rows : list path) (table : node)
  : option node :=
  match header_rows with
  | [] => Some table
  | rp :: rest =>
      row ← get_at rp table;
      cols ← row_cols row;
      table' ← (if (cols <? actual_cols)%Z
                then widen_first rp (actual_cols - cols) (find_all_paths is_cell row) table
                else Some table);
      repair_rows actual_cols rest table'
  end.

(** [thead.find_all('tr') if thead else []], as references into the table. *)
Definition header_row_paths (table : node) : list path :=
  match find_all_paths (is_tag "thead") table with
  | [] => []
  | tp :: _ =>
      match get_at tp table with
      | Some thead => map (app tp) (find_all_paths is_tr thead)
      | None => []
      end
  end.

(** Step 2.45 on one table; [None] is an exception of [int]. *)
Definition colspan_repair (table : node) : option node :=
  match data_rows table with
  | [] => Some table
  | rows =>
      actual_cols ← widest rows 0%Z;
      repair_rows actual_cols (header_row_paths table) table
  end.

(** The colspans of the cells of the first header row after the step. *)
Definition header_colspans (table : node) : option (list Z) :=
  match header_row_paths table with
  | [] => None
  | rp :: _ => row ← get_at rp table; mapM colspan_of (find_all is_cell row)
  end.

(** Tables of the plain shape the converter writes: a thead with one row of
    th cells, a tbody with rows of td cells; a cell is given by its colspan
    attribute, if it has one. *)
Definition plain_cell (tag : string) (colspan : option string) : node :=
  Elem tag []
    (match colspan with Some v => [("colspan", v)] | None => [] end) [Text "x"].

Definition plain_row (tag : string) (cells : list (option string)) : node :=
  Elem "tr" [] [] (map (plain_cell tag) cells).

Definition plain_table (header : list (option string)) (rows : list (list (option string)))
  : node :=
  Elem "table" [] []
    [Elem "thead" [] [] [plain_row "th" header];
     Elem "tbody" [] [] (map (plain_row "td") rows)].

(** The colspan a cell counts for. *)
Definition parse_colspan (colspan : option string) : option Z :=
  match colspan with
  | Some v => py_int v
  | None => Some 1%Z
  end.

Definition total (zs : list Z) : Z := foldr Z.add 0%Z zs.

(** The width of the widest row, from [acc] on. *)
Definition widest_of (acc : Z) (rows : list (list Z)) : Z :=
  fold_left (fun a zs => if (a <? total zs)%Z then total zs else a) rows acc.

(** The repair as the specification words it: the first header cell with
    a colspan above 1 is widened by the shortfall. *)
Fixpoint widen_spec (shortfall : Z) (header : list (option string)) : list (option string) :=
  match header with
  | [] => []
  | c :: header' =>
      match parse_colspan c with
      | Some z =>
          if (1 <? z)%Z then Some (str_Z (z + shortfall)) :: header'
          else c :: widen_spec shortfall header'
      | None => c :: header'
      end
  end.

Definition repaired_header (header : list (option string)) (hz : list Z) (actual_cols : Z)
  : list (option string) :=
  if (total hz <? actual_cols)%Z then widen_spec (actual_cols - total hz) header else header.

(** *** Steps 1, 2 and 3: class, caption, wrapper *)

(** A table tag: its class list, its other attributes, its children. *)
Record table_tag : Type := TableTag {
  table_classes : list string;
  table_attrs : list (string * string);
  table_children : list node
}.

Definition table_node (t : table_tag) : node :=
  Elem "table" (table_classes t) (table_attrs t) (table_children t).

(** Step 1. *)
Definition with_book_table (t : table_tag) : table_tag :=
  TableTag (add_class "book-table" (table_classes t)) (table_attrs t) (table_children t).

(** Table, a number, a colon or a dot (group 1), blanks, the description
    (group 2); IGNORECASE. *)
Definition re_caption : regex :=
  seq [Grp 1 (seq [lit "Table"; star space; plus (Cls false [Digit; Ch "."]);
                   Cls false [Ch ":"; Ch "."]]);
       star space; Grp 2 (star Dot)].

(** The markup that step 2 writes for the text of a caption. *)
Definition caption_markup (raw_cap : string) : string :=
  match re_match IGNORECASE re_caption raw_cap with
  | Some split_cap =>
      "<div class=" +:+ dq +:+ "table-caption" +:+ dq +:+ ">" +:+ group_or_empty split_cap 1
      +:+ "<span class=" +:+ dq +:+ "note" +:+ dq +:+ ">" +:+ group_or_empty split_cap 2
      +:+ "</span></div>" +:+ nl
  | None =>
      if bool_decide (raw_cap = EmptyString) then EmptyString
      else "<div class=" +:+ dq +:+ "table-caption" +:+ dq +:+ ">" +:+ raw_cap +:+ "</div>" +:+ nl
  end.

(** The loop over [soup.find_all('table')], as a walk down the tree.  The
    steps that decide about class, caption and wrapper are written out.  The
    others work below the tag of the table they are run for, whatever they
    do there, and are parameters: [clean_cells] (the cleaning of the cell
    strings), [steps_1_5_to_1_8] (from the stripping of styles and ids to
    the repair of characters, which can put a table parsed anew in the place
    of the table), [steps_2_4_to_2_5] (multicolumn, colspan repair, header
    reconstruction).  Each gives the table tag it leaves, or nothing when it
    raises ([int()] on a colspan that is no number), and then the run raises.
    [html_parser] is [BeautifulSoup(caption_html, 'html.parser')], the nodes
    put at the head of the wrapper.

    [in_cell] says that a td or th is among the ancestors, [in_wrapper] that
    an element of class table-wrapper is.  The walk stops at a table that is
    not below a cell.  The tables below it come later in the loop: each is
    below a cell and skipped, or decomposed and skipped, or out of the
    document with the table that step 1.8 replaced, or finds the wrapper of
    this table above it and is not wrapped, its own steps working below its
    tag; so what the loop does for them stays below the tag of this table
    and is counted with [steps_2_4_to_2_5]. *)
Section TableLoop.
Variable clean_cells : table_tag -> option table_tag.
Variable steps_1_5_to_1_8 : table_tag -> option table_tag.
Variable steps_2_4_to_2_5 : table_tag -> option table_tag.
Variable html_parser : string -> list node.

Definition process_table (already_wrapped : bool) (table : table_tag) : option node :=
  table ← clean_cells table;
  let table := with_book_table table in
  table ← steps_1_5_to_1_8 table;
  if already_wrapped then
    table ← steps_2_4_to_2_5 table;
    Some (table_node table)
  else
    let '(caption, children) := take_first_list is_caption (table_children table) in
    let table := TableTag (table_classes table) (table_attrs table) children in
    let caption_html :=
      match caption with
      | Some caption => caption_markup (get_text_strip caption)
      | None => EmptyString
      end in
    table ← steps_2_4_to_2_5 table;
    Some (Elem "div" ["table-wrapper"] []
            ((if bool_decide (caption_html = EmptyString) then []
              else html_parser caption_html) ++ [table_node table])%list).

Fixpoint process_node (in_cell in_wrapper : bool) (n : node) : option node :=
  match n with
  | Text s => Some (Text s)
  | Elem nm cls a ch =>
      if bool_decide (nm = "table") && negb in_cell then
        process_table in_wrapper (TableTag cls a ch)
      else
        Elem nm cls a
          <$> mapM (process_node (in_cell || bool_decide (nm ∈ ["td"; "th"]))
                                 (in_wrapper || bool_decide ("table-wrapper" ∈ cls))) ch
  end.

(** One run over a document (the children of the soup), and [n] runs, each
    over the output of the one before. *)
Definition process_tables (doc : list node) : option (list node) :=
  mapM (process_node false false) doc.

Fixpoint process_tables_times (n : nat) (doc : list node) : option (list node) :=
  match n with
  | 0 => Some doc
  | S n' => doc' ← process_tables doc; process_tables_times n' doc'
  end.

End TableLoop.

(** For every table that is neither below a td or th nor below another such
    table (the tables that the walk stops at), in document order, the number
    of its ancestors of class table-wrapper; [w] counts those above [n]. *)
Fixpoint wrapper_counts (in_cell : bool) (w : nat) (n : node) : list nat :=
  match n with
  | Text _ => []
  | Elem nm cls _ ch =>
      if bool_decide (nm = "table") && negb in_cell then [w]
      else
        flat_map (wrapper_counts (in_cell || bool_decide (nm ∈ ["td"; "th"]))
                                 (if bool_decide ("table-wrapper" ∈ cls) then S w else w))
                 ch
  end.

Definition doc_wrapper_counts (doc : list node) : list nat :=
  flat_map (wrapper_counts false 0) doc.

(** No element of class table-wrapper in [n]. *)
Fixpoint no_wrapper (n : node) : bool :=
  match n with
  | Text _ => true
  | Elem _ cls _ ch => negb (bool_decide ("table-wrapper" ∈ cls)) && forallb no_wrapper ch
  end.

(** Example documents: a table with a caption and a table nested in one of
    its cells, followed by a table without a caption; a table that comes
    with two wrappers around it. *)
Definition captioned_doc : list node :=
  [Elem "p" [] [] [Text "Results"];
   Elem "table" [] []
     [Elem "caption" [] [] [Text "Table 1.2: Accuracy"];
      Elem "tr" [] []
        [Elem "td" [] [] [Text "a"; Elem "p" [] [] [Elem "table" [] [] []]]]];
   Elem "section" [] [] [Elem "table" ["wide"] [] []]].

Definition doubly_wrapped : list node :=
  [Elem "div" ["table-wrapper"] []
     [Elem "div" ["table-wrapper"] [] [Elem "table" [] [] []]]].

(** The two parts of a plain table. *)
Definition thead_of (header : list (option string)) : node :=
  Elem "thead" [] [] [plain_row "th" header].

Definition tbody_of (rows : list (list (option string))) : node :=
  Elem "tbody" [] [] (map (plain_row "td") rows).

(** A plain table without a tbody: the rows of td cells are children of the
    table, after the thead. *)
Definition bare_table (header : list (option string)) (rows : list (list (option string)))
  : node :=
  Elem "table" [] [] (thead_of header :: map (plain_row "td") rows).

End Tables.

(* ===================================================================== *)
(** ** CitationResolver *)
(* ===================================================================== *)

Module Cite.
Import PyStr Re.

(** One or more digits and an at sign at the start of the key. *)
Definition re_biber_prefix : regex := seq [Bol; plus digit; lit "@"].

(** [re.sub(r'^\d+@', '', key)] *)
Definition biber_stripped (key : string) : string :=
  re_sub no_flags re_biber_prefix EmptyString key.

Definition prefixes : list string := ["cite."; "bib."; "X0-"; "0_"; "cite"; "bib"].

(** The loop over the prefixes: the first that the key starts with (case
    ignored) is cut off. *)
Fixpoint strip_prefix (ps : list string) (key : string) : string :=
  match ps with
  | [] => key
  | prefix :: ps' =>
      if startswith (lower key) (lower prefix) then drop (len prefix) key
      else strip_prefix ps' key
  end.

(** [normalize_bib_key(key)] *)
Definition normalize_bib_key (key : string) : string :=
  let key := strip key in
  let key := biber_stripped key in
  let key := strip_prefix prefixes key in
  lstrip_chars ".-_" key.

Definition bib_href (key : string) : string :=
  "href=" +:+ dq +:+ "bibliography.html#bib-" +:+ key +:+ dq.

(** The test of [cite_repl] for an anchor that looks like a citation. *)
Definition citation_like (anchor : string) : bool :=
  contains "cite" (lower anchor) || contains "bib" (lower anchor)
  || startswith anchor "0_" || startswith anchor "X0-" || contains "@" anchor.

(** [cite_repl(m)] *)
Definition cite_repl (m : mobj) : string :=
  let href := group_or_empty m 1 in
  if startswith href "#" then
    let anchor := lstrip_chars "#" href in
    if citation_like anchor then
      let key := normalize_bib_key anchor in
      if negb (bool_decide (key = EmptyString)) then bib_href key else mo_text m
    else mo_text m
  else if startswith href "bibliography.html#bib-" then
    let existing_key := replace "bibliography.html#bib-" EmptyString href in
    let normalized := normalize_bib_key existing_key in
    if negb (bool_decide (normalized = existing_key)) then bib_href normalized else mo_text m
  else mo_text m.

(** An href attribute, its value being group 1. *)
Definition re_href : regex :=
  seq [lit "href="; Chr dq_char; Grp 1 (plus (Cls true [Ch dq_char])); Chr dq_char].

(** [cite_number_repl(m)] against [BIB_INDEX_MAP] (the counters of
    [cite_repl_stats] only feed a log line). *)
Definition cite_number_repl (BIB_INDEX_MAP : gmap string string) (m : mobj) : string :=
  let key := group_or_empty m 1 in
  let bracket_open := group_or_empty m 2 in
  let bracket_close := group_or_empty m 4 in
  let normalized_key := biber_stripped key in
  match BIB_INDEX_MAP !! normalized_key with
  | Some new_num =>
      bib_href normalized_key +:+ ">" +:+ bracket_open +:+ new_num +:+ bracket_close +:+ "</a>"
  | None => mo_text m
  end.

(** A rewritten citation link that ends the opening tag, and the number it
    shows: key (group 1), optional brackets (groups 2 and 4), digits
    (group 3), blanks allowed around them. *)
Definition re_cite_number : regex :=
  seq [lit "href="; Chr dq_char; lit "bibliography.html#bib-";
       Grp 1 (plus (Cls true [Ch dq_char])); Chr dq_char; lit ">"; star space;
       opt (Grp 2 (lit "[")); Grp 3 (plus digit); opt (Grp 4 (lit "]"));
       star space; lit "</a>"].

(** Step 9 and step D1 of [process_chapter]. *)
Definition rewrite_links (doc_content : string) : string :=
  re_sub_fn no_flags re_href cite_repl doc_content.

Definition rewrite_numbers (BIB_INDEX_MAP : gmap string string) (doc_content : string) : string :=
  re_sub_fn no_flags re_cite_number (cite_number_repl BIB_INDEX_MAP) doc_content.

Definition fix_citations (BIB_INDEX_MAP : gmap string string) (doc_content : string) : string :=
  rewrite_numbers BIB_INDEX_MAP (rewrite_links doc_content).

(** A citation anchor as the converter writes it: the href ends the opening
    tag and the content is the number shown. *)
Definition cite_anchor (href shown : string) : string :=
  "<a href=" +:+ dq +:+ href +:+ dq +:+ ">" +:+ shown +:+ "</a>".

(** The characters a key is made of in the pattern: any but the double
    quote; and the characters of a displayed number. *)
Definition key_char (c : ascii) : bool := cls_matches no_flags true [Ch dq_char] c.
Definition digit_char (c : ascii) : bool := cls_matches no_flags false [Digit] c.

(** The index of the scenario of the specification. *)
Definition scenario_index : gmap string string := {["smith2020" := "12"]}.

(** *** The pattern of the number pass in pieces, from the right *)

(** What follows the digits in the pattern, on the closing tag. *)
Definition after_digits : regex :=
  Cat (opt (Grp 4 (lit "]"))) (Cat (star space) (lit "</a>")).

(** From the digits on, from the blanks on, from the closing quote on, from
    the key on. *)
Definition from_digits : regex := Cat (Grp 3 (plus digit)) after_digits.
Definition before_digits : regex :=
  Cat (star space) (Cat (opt (Grp 2 (lit "["))) from_digits).
Definition after_key : regex := Cat (Chr dq_char) (Cat (lit ">") before_digits).
Definition from_key : regex := Cat (Grp 1 (plus (Cls true [Ch dq_char]))) after_key.

(** The text of a rewritten citation link from its href on. *)
Definition link_text (key shown : string) : string :=
  "href=" +:+ String dq_char ("bibliography.html#bib-"
     +:+ key +:+ String dq_char (">" +:+ shown +:+ "</a>")).

(** The text of an href attribute. *)
Definition href_text (href : string) : string :=
  "href=" +:+ String dq_char (href +:+ String dq_char EmptyString).

(** Any character but the first of both patterns. *)
Definition not_h (c : ascii) : bool := negb (chr_matches no_flags "h" c).

End Cite.

(* ===================================================================== *)
(** * Further parts of the post-processor *)
(* ===================================================================== *)

(** ** Notions used to state what the patterns of the code find *)

Module ReAux.
Import PyStr Re.

(** The first state, from the position [pos] on, at which the continuation
    [k] succeeds: what a lazy repetition of any character hands on. *)
Fixpoint first_success (k : mstate -> option mstate) (pos : nat) (rest : string)
    (caps : list (nat * string)) : option mstate :=
  match k (MState pos rest caps) with
  | Some r => Some r
  | None =>
      match rest with
      | EmptyString => None
      | String _ rest' => first_success k (S pos) rest' caps
      end
  end.

End ReAux.

(** ** Notions used to state what [protect_math] does *)

Module MathAux.
Import PyStr Re MathGuard.

(** A character that opens none of the six containers: not a less-than
    sign, a backslash or a dollar. *)
Definition math_free_char (c : ascii) : bool :=
  negb (bool_decide (c = "<"%char)) && negb (bool_decide (c = bsl_char))
  && negb (bool_decide (c = "$"%char)).

(** The keys of a store that holds [n] tokens. *)
Definition tokens_upto (n : nat) : list string := map token (List.seq 0 n).

(** The character of [s] at index [n]. *)
Fixpoint char_at (n : nat) (s : string) : option ascii :=
  match s, n with
  | EmptyString, _ => None
  | String c _, 0 => Some c
  | String _ s', S n' => char_at n' s'
  end.

End MathAux.

(** ** Notions used to state what [generate_slug] returns *)

Module SlugAux.
Import PyStr Re Slug.

(** The characters of a slug: lower-case letters, digits and the dash. *)
Definition slug_char (c : ascii) : bool :=
  in_range 97 122 c || in_range 48 57 c || bool_decide (c = "-"%char).

(** Letters of either case, digits and the dash. *)
Definition alnum_dash_char (c : ascii) : bool :=
  in_range 97 122 c || in_range 65 90 c || in_range 48 57 c || bool_decide (c = "-"%char).

End SlugAux.

(** ** Notions used to state what the renumbering pass does *)

Module RenumberAux.
Import PyStr Re Renumber.

(** A heading that the pass counts as a section: an h3 of class sectionHead
    or enrichment-title that is not of class chapterHead. *)
Definition section_level (h : heading) : bool :=
  negb (has_class "chapterHead" h) && is_name "h3" h
  && (has_class "sectionHead" h || has_class "enrichment-title" h).

(** The numbers given by a run, and the headings it leaves. *)
Definition numbers (chapter_num : nat) (hs : list heading) : list (option string) :=
  map fst (snd (renumber chapter_num hs)).

Definition renumbered (chapter_num : nat) (hs : list heading) : list heading :=
  map snd (snd (renumber chapter_num hs)).

(** A character of a section number: a digit or the dot. *)
Definition number_char (c : ascii) : bool := is_digit c || bool_decide (c = "."%char).

(** A chapter of the shape the converter writes: sections, a subsection,
    enrichments at both levels and a chapter head. *)
Definition sample_chapter : list heading :=
  [Heading "h3" ["chapterHead"] "Attention" None;
   Heading "h3" ["sectionHead"] "Motivation" (Some "1.1   ");
   Heading "h4" ["subsectionHead"] "Background" (Some "1.1.1   ");
   Heading "h3" ["enrichment-title"] "Enrichment 1.2: Scaling laws " None;
   Heading "h4" ["enrichment-title"] "Enrichment: Details" None;
   Heading "h3" ["sectionHead"] "Summary" (Some "1.3   ")].

End RenumberAux.

(** ** Notions used to state what the colspan repair achieves *)

Module TablesAux.
Import PyStr Re Dom Tables.

(** The colspans of a header after the repair: the first above 1 takes the
    shortfall. *)
Fixpoint widen_Z (shortfall : Z) (hz : list Z) : list Z :=
  match hz with
  | [] => []
  | z :: hz' => if (1 <? z)%Z then (z + shortfall)%Z :: hz' else z :: widen_Z shortfall hz'
  end.

End TablesAux.

(* ===================================================================== *)
(** ** Equation labels: the numbering step of [process_chapter] *)
(* ===================================================================== *)

Module EqLabels.
Import PyStr Tables.

(** [int(num_str.split('.')[1])]; [None] stands for the IndexError or the
    ValueError that the code catches. *)
Definition second_number (num_str : string) : option Z :=
  match split "." num_str with
  | _ :: part :: _ => py_int part
  | _ => None
  end.

(** [f'{chapter_num}.{current_eq}'] *)
Definition eq_number (chapter_num : nat) (current_eq : Z) : string :=
  str_nat chapter_num +:+ "." +:+ str_Z current_eq.

(** The loop [for label in all_labels_in_doc] over the state
    ([current_eq], [eq_label_map]): a label with a number from the converter
    sets the counter to the number after it, a label without one takes the
    counter. *)
Fixpoint assign_missing (chapter_num : nat) (all_labels_in_doc : list string)
    (current_eq : Z) (eq_label_map : gmap string string) : Z * gmap string string :=
  match all_labels_in_doc with
  | [] => (current_eq, eq_label_map)
  | label :: rest =>
      match eq_label_map !! label with
      | Some num_str =>
          let current_eq' :=
            match second_number num_str with
            | Some num => (num + 1)%Z
            | None => (current_eq + 1)%Z
            end in
          assign_missing chapter_num rest current_eq' eq_label_map
      | None =>
          assign_missing chapter_num rest (current_eq + 1)%Z
            (<[label := eq_number chapter_num current_eq]> eq_label_map)
      end
  end.

(** [sum(1 for label in all_labels_in_doc if label not in eq_label_map)] *)
Definition missing_count (all_labels_in_doc : list string)
    (eq_label_map : gmap string string) : nat :=
  length (List.filter (fun label => negb (bool_decide (is_Some (eq_label_map !! label))))
            all_labels_in_doc).

(** The step as a whole: the map after it ([max_eq_num] is computed by the
    code and not used). *)
Definition number_labels (chapter_num : nat) (all_labels_in_doc : list string)
    (eq_label_map : gmap string string) : gmap string string :=
  match all_labels_in_doc with
  | [] => eq_label_map
  | _ =>
      if 0 <? missing_count all_labels_in_doc eq_label_map
      then snd (assign_missing chapter_num all_labels_in_doc 1%Z eq_label_map)
      else eq_label_map
  end.

End EqLabels.

(* ===================================================================== *)
(** ** The unwrapping of nested containers in [process_chapter] *)
(* ===================================================================== *)

Module Unwrap.
Import PyStr.

(** [s.rfind(p)]: the greatest index at which [p] occurs, if any. *)
Fixpoint rfind (p s : string) : option nat :=
  match s with
  | EmptyString => if startswith EmptyString p then Some 0 else None
  | String _ s' =>
      match rfind p s' with
      | Some n => Some (S n)
      | None => if startswith s p then Some 0 else None
      end
  end.

(** [s[a:b]] for [a <= b]. *)
Definition slice (a b : nat) (s : string) : string := take (b - a) (drop a s).

Definition unwanted_starts : list string :=
  ["<div class=" +:+ dq +:+ "card" +:+ dq;
   "<div class=" +:+ dq +:+ "container" +:+ dq;
   "<div class=" +:+ dq +:+ "content-scroll" +:+ dq;
   "<div class=" +:+ dq +:+ "card-body" +:+ dq;
   "<div class='card'"; "<div class='container'"; "<div class='content-scroll'";
   "<div class='card-body'"].

(** What the body of the branch for a matching start tag does: [None] is
    one of its two early [break]s. *)
Definition strip_wrapper (content_stripped : string) : option string :=
  match find ">" content_stripped with
  | None => None
  | Some first_gt =>
      match rfind "</div>" content_stripped with
      | None => None
      | Some last_div =>
          if last_div <=? first_gt then None
          else Some (strip (slice (first_gt + 1) last_div content_stripped))
      end
  end.

(** The inner loop over the start tags: the new [doc_content] when a wrapper
    was found and cut ([found_wrapper]), [None] otherwise. *)
Fixpoint try_starts (starts : list string) (content_stripped : string) : option string :=
  match starts with
  | [] => None
  | start_tag :: rest =>
      if startswith (lower content_stripped) (lower start_tag)
      then strip_wrapper content_stripped
      else try_starts rest content_stripped
  end.

(** The outer loop, [for _ in range(n)]. *)
Fixpoint unwrap_loop (n : nat) (doc_content : string) : string :=
  match n with
  | 0 => doc_content
  | S n' =>
      match try_starts unwanted_starts (strip doc_content) with
      | Some doc_content' => unwrap_loop n' doc_content'
      | None => doc_content
      end
  end.

Definition unwrap (doc_content : string) : string := unwrap_loop 10 doc_content.

(** A character other than the greater-than sign. *)
Definition not_gt (c : ascii) : bool := negb (bool_decide (c = ">"%char)).

End Unwrap.

(* ===================================================================== *)
(** ** Code blocks: steps of [clean_code_content] *)
(* ===================================================================== *)

Module CodeBlocks.
Import PyStr.

(** [not line.strip()] *)
Definition is_blank (line : string) : bool := bool_decide (strip line = EmptyString).

(** [line.strip()] as a condition. *)
Definition nonblank (line : string) : bool := negb (is_blank line).

(** [len(line) - len(line.lstrip())] *)
Definition indent (line : string) : nat := len line - len (lstrip_by is_space line).

(** [min(...)] over a list that is not empty, given by its head and tail. *)
Definition min_of (x : nat) (l : list nat) : nat := foldr Nat.min x l.

(** The body of the loop over [lines]. *)
Definition normalize_line (min_indent : nat) (line : string) : string :=
  if negb (is_blank line) then
    if min_indent <=? len line then drop min_indent line else line
  else EmptyString.

(** The step that removes the common base indentation. *)
Definition dedent (code : string) : string :=
  let lines := split nl_char code in
  let non_empty_lines := List.filter (fun line => negb (is_blank line)) lines in
  match non_empty_lines with
  | [] => code
  | line :: rest =>
      let min_indent := min_of (indent line) (map indent rest) in
      join nl (map (normalize_line min_indent) lines)
  end.

(** The last step, [code.replace('&', '&amp;').replace('<', '&lt;')
    .replace('>', '&gt;')]. *)
Definition escape_html (code : string) : string :=
  replace ">" "&gt;" (replace "<" "&lt;" (replace "&" "&amp;" code)).

(** What the three replacements make of one character. *)
Definition escape_char (c : ascii) : string :=
  if ascii_dec c "&" then "&amp;"
  else if ascii_dec c "<" then "&lt;"
  else if ascii_dec c ">" then "&gt;"
  else String c EmptyString.

(** A character other than the newline. *)
Definition not_nl (c : ascii) : bool := negb (bool_decide (c = nl_char)).

(** A character other than the two angle brackets. *)
Definition not_angle (c : ascii) : bool :=
  negb (bool_decide (c = "<"%char)) && negb (bool_decide (c = ">"%char)).

End CodeBlocks.

(* ===================================================================== *)
(** ** Enrichment ids: [enrichment_title_repl] and [add_enrichment_id] *)
(* ===================================================================== *)

Module Enrich.
Import PyStr Re Renumber.

(** [[^a-z0-9]] *)
Definition lower_non_alnum : regex := Cls true [Rg "a" "z"; Rg "0" "9"].

(** The slug of a title, as both functions compute it:
    [re.sub(r'[^a-z0-9]+', '-', clean_title.lower()).strip('-')], cut to 50
    characters. *)
Definition enrichment_slug (title_text : string) : string :=
  let clean_title := clean_title title_text in
  let slug := strip_chars "-" (re_sub no_flags (plus lower_non_alnum) "-" (lower clean_title)) in
  if 50 <? len slug then take 50 slug else slug.

(** [f'enrichment-{slug}-{enrichment_counter[0]}'] *)
Definition eid (title_text : string) (enrichment_counter : nat) : string :=
  "enrichment-" +:+ enrichment_slug title_text +:+ "-" +:+ str_nat enrichment_counter.

Definition attr (name value : string) : string := name +:+ "=" +:+ dq +:+ value +:+ dq.

(** [enrichment_title_repl(m)]; the state is [enrichment_counter[0]]. *)
Definition enrichment_title_repl (enrichment_counter : nat) (m : mobj) : nat * string :=
  let title_text := group_or_empty m 1 in
  if contains "enrichment-title" title_text then (enrichment_counter, mo_text m)
  else
    let enrichment_counter := S enrichment_counter in
    (enrichment_counter,
     "<h3 " +:+ attr "class" "enrichment-title" +:+ " "
       +:+ attr "id" (eid title_text enrichment_counter) +:+ " "
       +:+ attr "data-emoji" "true" +:+ ">" +:+ title_text +:+ "</h3>").

(** [add_enrichment_id(m)], on the same counter. *)
Definition add_enrichment_id (enrichment_counter : nat) (m : mobj) : nat * string :=
  let heading_tag := group_or_empty m 1 in
  let existing_attrs := group_or_empty m 2 in
  let title_text := group_or_empty m 3 in
  if contains ("id=" +:+ dq) existing_attrs then (enrichment_counter, mo_text m)
  else
    let enrichment_counter := S enrichment_counter in
    (enrichment_counter,
     "<" +:+ heading_tag +:+ " " +:+ attr "class" "enrichment-title" +:+ " "
       +:+ attr "id" (eid title_text enrichment_counter) +:+ " "
       +:+ attr "data-emoji" "true" +:+ ">" +:+ title_text
       +:+ "</" +:+ heading_tag +:+ ">").

(** The ids of the titles that get one, in the order of the calls, from the
    counter's value before the first. *)
Fixpoint eids_from (enrichment_counter : nat) (titles : list string) : list string :=
  match titles with
  | [] => []
  | title_text :: rest =>
      eid title_text (S enrichment_counter) :: eids_from (S enrichment_counter) rest
  end.

(** A character other than the dash. *)
Definition not_dash (c : ascii) : bool := negb (bool_decide (c = "-"%char)).

End Enrich.

(* ===================================================================== *)
(** ** Asset addresses: [get_asset_url] *)
(* ===================================================================== *)

Module Assets.
Import PyStr.

Definition is_slash (c : ascii) : bool := mem_char c "/".

(** [get_asset_url(rel_path, is_aux)], with the global [BASE_URL] as an
    argument. *)
Definition get_asset_url (BASE_URL rel_path : string) (is_aux : bool) : string :=
  if negb (bool_decide (BASE_URL = EmptyString)) then
    let clean_base := rstrip_by is_slash BASE_URL in
    let clean_path := lstrip_by is_slash rel_path in
    clean_base +:+ "/" +:+ clean_path
  else
    let prefix := if is_aux then "../" else EmptyString in
    prefix +:+ rel_path.

End Assets.

(* ===================================================================== *)
(** ** Citations: further text shapes *)
(* ===================================================================== *)

Module CiteAux.
Import PyStr Re Cite.

(** What the pattern of the number pass starts with. *)
Definition bib_link_prefix : string := "href=" +:+ dq +:+ "bibliography.html#bib-".

(** The optional brackets around a shown number. *)
Definition lbr (b : bool) : string := if b then "[" else EmptyString.
Definition rbr (b : bool) : string := if b then "]" else EmptyString.

(** A citation as the converter writes it: an anchor whose href is its only
    attribute and whose content is the number shown, in brackets or not. *)
Record citation : Type := Citation {
  cite_href : string;
  cite_shown : string;
  cite_open : bool;
  cite_close : bool
}.

Definition citation_text (c : citation) : string :=
  cite_anchor (cite_href c) (lbr (cite_open c) +:+ cite_shown c +:+ rbr (cite_close c)).

(** Text with citations in it: [first], then each citation followed by the
    text after it. *)
Fixpoint cited_text (first : string) (items : list (citation * string)) : string :=
  match items with
  | [] => first
  | (c, after) :: items' => first +:+ citation_text c +:+ cited_text after items'
  end.

(** The href is an anchor that [cite_repl] takes for a citation, with a key
    that is not empty, and the number shown is made of digits. *)
Definition is_citation (c : citation) : bool :=
  startswith (cite_href c) "#"
  && all_chars key_char (cite_href c)
  && citation_like (lstrip_chars "#" (cite_href c))
  && negb (bool_decide (normalize_bib_key (lstrip_chars "#" (cite_href c)) = EmptyString))
  && negb (bool_decide (cite_shown c = EmptyString))
  && all_chars digit_char (cite_shown c).

(** Text without an href attribute. *)
Definition no_href (text : string) : bool := bool_decide (find "href=" text = None).

(** The citation that the specification expects in the output: the link to
    the bibliography page under the key, with the number of the index when
    the key is in the index (the key as the number pass looks it up, a
    leading biber prefix removed once more), and with the number shown
    before when it is not. *)
Definition resolved (BIB_INDEX_MAP : gmap string string) (c : citation) : citation :=
  let key := normalize_bib_key (lstrip_chars "#" (cite_href c)) in
  match BIB_INDEX_MAP !! biber_stripped key with
  | Some num =>
      Citation ("bibliography.html#bib-" +:+ biber_stripped key) num (cite_open c) (cite_close c)
  | None =>
      Citation ("bibliography.html#bib-" +:+ key) (cite_shown c) (cite_open c) (cite_close c)
  end.

(** The citation after the link pass alone. *)
Definition relinked (c : citation) : citation :=
  Citation ("bibliography.html#bib-" +:+ normalize_bib_key (lstrip_chars "#" (cite_href c)))
    (cite_shown c) (cite_open c) (cite_close c).

(** An example: two citations of one entry of the index, the second with a
    biber prefix in its anchor and its number in brackets, and a citation
    that the index lacks. *)
Definition cited_example : string :=
  cited_text "<p>See "
    [(Citation "#0_smith2020" "5" false false, " and ");
     (Citation "#cite.0@smith2020" "7" true true, ", but not ");
     (Citation "#0_jones1999" "3" true true, ".</p>")].

End CiteAux.

(* ===================================================================== *)
(** ** LaTeX left-overs: [clean_latex_artifacts] *)
(* ===================================================================== *)

Module Latex.
Import PyStr Re.

Definition hex_digit : regex := Cls false [Rg "0" "9"; Rg "a" "f"; Rg "A" "F"].
Definition oct_digit : regex := Cls false [Rg "0" "7"].
Definition number_part : regex := Cls false [Digit; Ch "."].
Definition lower_letter : regex := Cls false [Rg "a" "z"].

(** A backslash-hash after the opening of an mbox, whose text up to there is
    group 1; and the same for a text command. *)
Definition re_mbox_hash : regex :=
  seq [Grp 1 (seq [Chr bsl_char; lit "mbox"; star space; lit "{"; star (not_in "}")]);
       Chr bsl_char; lit "#"].
Definition re_text_hash : regex :=
  seq [Grp 1 (seq [Chr bsl_char; lit "text"; star space; lit "{"; star (not_in "}")]);
       Chr bsl_char; lit "#"].

(** The mathchar of the check mark, number 458 after an optional double
    quote, and the three forms of a mathchar with its number: hexadecimal
    after an optional double quote, octal after an optional quote, decimal. *)
Definition re_checkmark : regex :=
  seq [Chr bsl_char; lit "mathchar"; opt (Chr dq_char); star space; lit "458"].
Definition re_mathchar_hex : regex :=
  seq [Chr bsl_char; lit "mathchar"; opt (Chr dq_char); star space; plus hex_digit].
Definition re_mathchar_oct : regex :=
  seq [Chr bsl_char; lit "mathchar"; opt (Chr sq_char); star space; plus oct_digit].
Definition re_mathchar_dec : regex :=
  seq [Chr bsl_char; lit "mathchar"; star space; plus digit].

(** An hskip with its length and unit, and a vskip with a length that may
    be negative and a unit of two letters. *)
Definition re_hskip : regex :=
  seq [Chr bsl_char; lit "hskip"; star space; plus number_part; plus lower_letter].
Definition re_vskip : regex :=
  seq [Chr bsl_char; lit "vskip"; star space; opt (Chr "-"); plus number_part; star space;
       Rep true 2 (Some 2) lower_letter].

(** [_{5,}] *)
Definition re_underscores : regex := Rep true 5 None (Chr "_").

(** The replacement [\1#]. *)
Definition keep_group_hash (m : mobj) : string := group_or_empty m 1 +:+ "#".

(** [clean_latex_artifacts(content)] *)
Definition clean_latex_artifacts (content : string) : string :=
  let content := replace (bsl +:+ "bm") (bsl +:+ "boldsymbol") content in
  let content := re_sub_fn no_flags re_mbox_hash keep_group_hash content in
  let content := re_sub_fn no_flags re_text_hash keep_group_hash content in
  let content := re_sub IGNORECASE re_checkmark "&#10003;" content in
  let content := replace (bsl +:+ "noindent") EmptyString content in
  let content := re_sub IGNORECASE re_mathchar_hex EmptyString content in
  let content := re_sub IGNORECASE re_mathchar_oct EmptyString content in
  let content := re_sub IGNORECASE re_mathchar_dec EmptyString content in
  let content := replace (bsl +:+ "m@th") EmptyString content in
  let content := re_sub no_flags re_hskip EmptyString content in
  let content := re_sub no_flags re_vskip EmptyString content in
  let content := replace (bsl +:+ "relax") EmptyString content in
  re_sub no_flags re_underscores EmptyString content.

(** A character that is neither a backslash nor an underscore. *)
Definition plain_char (c : ascii) : bool :=
  negb (bool_decide (c = bsl_char)) && negb (bool_decide (c = "_"%char)).

(** The test of the last pattern for one character. *)
Definition underscore : ascii -> bool := chr_matches no_flags "_".

(** The number of underscores that [s] starts with. *)
Fixpoint run_len (s : string) : nat :=
  match s with
  | String c s' => if ascii_dec c "_" then S (run_len s') else 0
  | EmptyString => 0
  end.

End Latex.

(* ===================================================================== *)
(** * Properties *)
(* ===================================================================== *)

Module MathGuardFacts.
Import PyStr Re MathGuard.

Lemma dict_set_not_nil k v d : dict_set k v d <> [].
Proof. destruct d as [|[k' v'] d]; simpl; [|destruct (String.eqb k k')]; discriminate. Qed.

Lemma dict_set_length_ge k v d : length d <= length (dict_set k v d).
Proof.
  induction d as [|[k' v'] d IH]; simpl; [lia|].
  destruct (String.eqb k k'); simpl; lia.
Qed.

(** A pass never shrinks the store. *)
Lemma sub_go_store_length fl r bound :
  forall pos s d, length d <= length (fst (sub_go fl r protect_repl bound pos s d)).
Proof.
  induction bound as [|bound IH]; intros pos s d; simpl; [lia|].
  destruct (match_at fl r pos s) as [m|].
  - pose proof (dict_set_length_ge (token (length d)) (mo_text m) d) as Hd.
    simpl. destruct (mo_end m =? pos).
    + destruct s as [|c s']; simpl; [lia|].
      specialize (IH (S pos) s' (dict_set (token (length d)) (mo_text m) d)).
      destruct (sub_go fl r protect_repl bound (S pos) s' _); simpl in *; lia.
    + specialize (IH (mo_end m) (drop (mo_end m - pos) s)
                     (dict_set (token (length d)) (mo_text m) d)).
      destruct (sub_go fl r protect_repl bound (mo_end m) _ _); simpl in *; lia.
  - destruct s as [|c s']; simpl; [lia|].
    specialize (IH (S pos) s' d).
    destruct (sub_go fl r protect_repl bound (S pos) s' d); simpl in *; lia.
Qed.

(** A pass that leaves the store empty has found no container and has
    copied its input. *)
Lemma sub_go_store_empty fl r bound :
  forall pos s d, len s < bound ->
    fst (sub_go fl r protect_repl bound pos s d) = [] ->
    snd (sub_go fl r protect_repl bound pos s d) = s.
Proof.
  induction bound as [|bound IH]; intros pos s d Hb He; [lia|].
  simpl in *. destruct (match_at fl r pos s) as [m|].
  - exfalso.
    pose proof (dict_set_length_ge (token (length d)) (mo_text m) d) as Hd.
    assert (Hpos : 0 < length (dict_set (token (length d)) (mo_text m) d)).
    { destruct (dict_set _ _ d) eqn:E; [by apply dict_set_not_nil in E|simpl; lia]. }
    simpl in He. destruct (mo_end m =? pos).
    + destruct s as [|c s']; simpl in He.
      * rewrite He in Hpos. simpl in Hpos. lia.
      * pose proof (sub_go_store_length fl r bound (S pos) s'
                      (dict_set (token (length d)) (mo_text m) d)) as Hl.
        destruct (sub_go fl r protect_repl bound (S pos) s' _); simpl in *.
        subst. simpl in Hl. lia.
    + pose proof (sub_go_store_length fl r bound (mo_end m) (drop (mo_end m - pos) s)
                      (dict_set (token (length d)) (mo_text m) d)) as Hl.
      destruct (sub_go fl r protect_repl bound (mo_end m) _ _); simpl in *.
      subst. simpl in Hl. lia.
  - destruct s as [|c s']; [reflexivity|].
    specialize (IH (S pos) s' d). unfold len in *. simpl in Hb.
    destruct (sub_go fl r protect_repl bound (S pos) s' d) as [d' t]; simpl in *.
    f_equal. apply IH; [lia|done].
Qed.

Lemma re_sub_st_store_length fl r s d :
  length d <= length (fst (re_sub_st fl r protect_repl s d)).
Proof. apply sub_go_store_length. Qed.

Lemma re_sub_st_store_empty fl r s d :
  fst (re_sub_st fl r protect_repl s d) = [] -> snd (re_sub_st fl r protect_repl s d) = s.
Proof. apply sub_go_store_empty. lia. Qed.

Lemma run_passes_length ps : forall d s,
  length d <= length (fst (run_passes ps (d, s))).
Proof.
  induction ps as [|r ps IH]; intros d s; [simpl; lia|].
  change (run_passes (r :: ps) (d, s))
    with (run_passes ps (re_sub_st DOTALL r protect_repl s d)).
  pose proof (re_sub_st_store_length DOTALL r s d) as H1.
  destruct (re_sub_st DOTALL r protect_repl s d) as [d1 s1].
  specialize (IH d1 s1). simpl in H1. exact (Nat.le_trans _ _ _ H1 IH).
Qed.

Lemma run_passes_empty ps : forall s,
  fst (run_passes ps ([], s)) = [] -> snd (run_passes ps ([], s)) = s.
Proof.
  induction ps as [|r ps IH]; intros s He; [done|].
  change (run_passes (r :: ps) ([], s))
    with (run_passes ps (re_sub_st DOTALL r protect_repl s [])) in *.
  pose proof (re_sub_st_store_empty DOTALL r s []) as H1.
  destruct (re_sub_st DOTALL r protect_repl s []) as [d1 s1].
  pose proof (run_passes_length ps d1 s1) as Hl.
  unfold store in *. rewrite He in Hl. destruct d1; [|by apply Nat.nle_succ_0 in Hl].
  simpl in H1. specialize (H1 eq_refl). subst s1. by apply IH.
Qed.

(** When [protect_math] records no token, the text comes back as it went
    in, and so does the round trip. *)
Lemma protect_math_no_token x :
  fst (protect_math x) = [] -> snd (protect_math x) = x /\ roundtrip x = x.
Proof.
  intros He. pose proof (run_passes_empty passes x He) as Hs.
  change (run_passes passes ([], x)) with (protect_math x) in Hs.
  split; [exact Hs|].
  unfold roundtrip. destruct (protect_math x) as [d s]. simpl in *. by subst.
Qed.

(** An input with math containers side by side comes back unchanged. *)
Example roundtrip_flat_containers :
  roundtrip "a \(x^2\) b $$y$$ <math display='block'>z</math> and a stray $"
  = "a \(x^2\) b $$y$$ <math display='block'>z</math> and a stray $".
Proof. vm_compute. reflexivity. Qed.

(** C1 (code defect).  The round trip [restore_math (protect_math x) = x]
    fails for a container inside another one: the math element is replaced
    by token 0, the display math around it by token 1 whose stored markup
    holds token 0, and the single substitution pass of [restore_math] puts
    token 0 into the output instead of the math element. *)
Theorem roundtrip_nested_container_leaks_token :
  protect_math "\[<math>a</math>\]"
  = ([("MATH_TOKEN_0__", "<math>a</math>"); ("MATH_TOKEN_1__", "\[MATH_TOKEN_0__\]")],
     "MATH_TOKEN_1__")
  /\ roundtrip "\[<math>a</math>\]" = "\[MATH_TOKEN_0__\]"
  /\ roundtrip "\[<math>a</math>\]" <> "\[<math>a</math>\]".
Proof. vm_compute. repeat split; congruence. Qed.

(** C9.  When the token table that the latest [protect_math] call left is
    empty, [restore_math] returns every string unchanged. *)
Theorem restore_math_empty_store (x s : string) :
  fst (protect_math x) = [] -> restore_math (fst (protect_math x)) s = s.
Proof. intros ->. reflexivity. Qed.

Lemma restore_math_empty_store_witness :
  restore_math (fst (protect_math "no math here, only a stray $")) "MATH_TOKEN_0__ stays"
  = "MATH_TOKEN_0__ stays".
Proof. apply (restore_math_empty_store "no math here, only a stray $"). vm_compute. reflexivity. Defined.

End MathGuardFacts.

Module SafetyFacts.
Import PyStr Re Safety.

Lemma checks_after_length_safe content html :
  fst (checks_after_length content html)
  = has_h12 content && negb (contains "MATH_TOKEN_" html)
    && (count class_sidebar html =? 1) && (count class_top_bar html =? 1).
Proof.
  unfold checks_after_length.
  destruct (has_h12 content); simpl; [|done].
  destruct (contains "MATH_TOKEN_" html); simpl; [done|].
  destruct (count class_sidebar html =? 1); simpl; [|done].
  by destruct (count class_top_bar html =? 1).
Qed.

(** The verdict is the conjunction of the six checks, the length check
    being the 5000-character fallback when the markers are missing. *)
Lemma is_safe_conditions html :
  is_safe html = spec_conditions fallback_total_length html.
Proof.
  unfold is_safe, validate_output_safety, spec_conditions, heading_scope, extracted_body,
    fallback_total_length.
  destruct (count id_doc_content html =? 1); cbn [negb andb fst]; [|done].
  destruct (re_search DOTALL re_markers html) as [m|]; cbn [default from_option id].
  - rewrite Nat.ltb_antisym.
    destruct (MIN_CONTENT_LENGTH <=? len (group_or_empty m 1)); cbn [negb andb fst]; [|done].
    apply checks_after_length_safe.
  - rewrite Nat.ltb_antisym.
    destruct (5000 <=? len html); cbn [negb andb fst]; [|done].
    apply checks_after_length_safe.
Qed.

(** C10.  With one doc_content container and no marker pair, a document
    under 5000 characters is rejected for its total length, and a longer one
    is judged by checks 3 to 6 with the heading looked for in the whole
    document. *)
Theorem validate_without_markers (html : string) :
  count id_doc_content html = 1 ->
  re_search DOTALL re_markers html = None ->
  (len html < 5000 ->
     validate_output_safety html
     = (false, "Total HTML too short: " +:+ str_nat (len html) +:+ " chars"))
  /\ (5000 <= len html ->
        validate_output_safety html = checks_after_length html html
        /\ is_safe html
           = has_h12 html && negb (contains "MATH_TOKEN_" html)
             && (count class_sidebar html =? 1) && (count class_top_bar html =? 1)).
Proof.
  intros Hc Hm. unfold is_safe, validate_output_safety. rewrite Hc, Hm.
  cbn [Nat.eqb negb]. split.
  - intros Hl. apply Nat.ltb_lt in Hl. by rewrite Hl.
  - intros Hl. apply Nat.ltb_ge in Hl. rewrite Hl. split; [done|].
    apply checks_after_length_safe.
Qed.

Lemma validate_without_markers_witness :
  (len short_page_without_markers < 5000 ->
     validate_output_safety short_page_without_markers
     = (false, "Total HTML too short: " +:+ str_nat (len short_page_without_markers) +:+ " chars"))
  /\ (5000 <= len short_page_without_markers ->
        validate_output_safety short_page_without_markers
        = checks_after_length short_page_without_markers short_page_without_markers
        /\ is_safe short_page_without_markers
           = has_h12 short_page_without_markers
             && negb (contains "MATH_TOKEN_" short_page_without_markers)
             && (count class_sidebar short_page_without_markers =? 1)
             && (count class_top_bar short_page_without_markers =? 1)).
Proof.
  apply (validate_without_markers short_page_without_markers); vm_compute; reflexivity.
Defined.

(** The long page without markers passes: the missing markers are no reason
    to reject. *)
Example long_page_without_markers_is_safe :
  validate_output_safety long_page_without_markers = (true, EmptyString).
Proof. vm_compute. reflexivity. Qed.

Section GateFacts.
Context (get_common_head : string -> bool -> string) (get_js_footer : string)
  {chapter_data : Type} (assemble : string -> chapter_data -> page_parts).

Local Abbreviation process_chapter := (process_chapter get_common_head get_js_footer chapter_data assemble).
Local Abbreviation process_all := (process_all get_common_head get_js_footer chapter_data assemble).
Local Abbreviation outcome := (outcome get_common_head get_js_footer chapter_data assemble).

Lemma process_chapter_some fs p ch orig :
  fs !! p = Some orig ->
  process_chapter fs p ch = Some (<[p := outcome orig ch]> fs).
Proof.
  intros Hp. unfold process_chapter, outcome. rewrite Hp.
  destruct (is_safe _); [done|].
  by rewrite insert_id.
Qed.

Lemma process_all_outcomes chs : forall fs : gmap string string,
  NoDup (map fst chs) ->
  (forall p, p ∈ map fst chs -> is_Some (fs !! p)) ->
  exists fs', process_all fs chs = Some fs'
    /\ (forall p ch orig, (p, ch) ∈ chs -> fs !! p = Some orig ->
          fs' !! p = Some (outcome orig ch))
    /\ (forall p, p ∉ map fst chs -> fs' !! p = fs !! p).
Proof.
  induction chs as [|[p ch] chs IH]; intros fs Hnd Hex.
  - exists fs. split; [done|]. split; [|done]. intros ? ? ? Hin. by apply elem_of_nil in Hin.
  - simpl in Hnd. apply NoDup_cons in Hnd as [Hp Hnd].
    destruct (Hex p) as [orig Ho]; [simpl; left|].
    simpl. rewrite (process_chapter_some fs p ch orig Ho).
    destruct (IH (<[p := outcome orig ch]> fs) Hnd) as (fs' & Hrun & Hin & Hout).
    { intros q Hq. rewrite lookup_insert_ne; [apply Hex; simpl; by right|].
      intros ->. contradiction. }
    exists fs'. split; [exact Hrun|]. split.
    + intros q ch' orig' Hq Hlook. apply elem_of_cons in Hq as [Heq|Hq].
      * inversion Heq; subst q ch'. rewrite Hout by done.
        rewrite lookup_insert_eq. congruence.
      * apply Hin; [done|]. rewrite lookup_insert_ne; [done|].
        intros ->. apply Hp. apply list_elem_of_fmap. by exists (q, ch').
    + intros q Hq. simpl in Hq. apply not_elem_of_cons in Hq as [Hne Hq].
      rewrite Hout by done. by rewrite lookup_insert_ne.
Qed.

End GateFacts.

End SafetyFacts.

Module ReFacts.
Import PyStr Re.

(** A property of the closure state that every call of the closure keeps
    holds after the whole substitution. *)
Lemma sub_go_invariant {St : Type} (Inv : St -> Prop) fl r
    (repl : St -> mobj -> St * string) :
  (forall st m, Inv st -> Inv (fst (repl st m))) ->
  forall bound pos s acc, Inv acc -> Inv (fst (sub_go fl r repl bound pos s acc)).
Proof.
  intros Hstep. induction bound as [|bound IH]; intros pos s acc Hacc; [done|].
  simpl. destruct (match_at fl r pos s) as [m|].
  - specialize (Hstep acc m Hacc). destruct (repl acc m) as [acc1 out]. simpl in Hstep.
    destruct (mo_end m =? pos).
    + destruct s as [|c s']; [done|].
      specialize (IH (S pos) s' acc1 Hstep).
      by destruct (sub_go fl r repl bound (S pos) s' acc1).
    + specialize (IH (mo_end m) (drop (mo_end m - pos) s) acc1 Hstep).
      by destruct (sub_go fl r repl bound (mo_end m) (drop (mo_end m - pos) s) acc1).
  - destruct s as [|c s']; [done|].
    specialize (IH (S pos) s' acc Hacc).
    by destruct (sub_go fl r repl bound (S pos) s' acc).
Qed.

Lemma re_sub_st_invariant {St : Type} (Inv : St -> Prop) fl r
    (repl : St -> mobj -> St * string) s acc :
  (forall st m, Inv st -> Inv (fst (repl st m))) ->
  Inv acc -> Inv (fst (re_sub_st fl r repl s acc)).
Proof. intros Hstep Hacc. unfold re_sub_st. by apply sub_go_invariant. Qed.

End ReFacts.

Module SlugFacts.
Import PyStr Re Slug.

Lemma string_length_app (s1 s2 : string) :
  String.length (s1 +:+ s2) = String.length s1 + String.length s2.
Proof. induction s1 as [|c s1 IH]; simpl; [done|]. by rewrite IH. Qed.

Lemma suffixed_inj base_slug i j : suffixed base_slug i = suffixed base_slug j -> i = j.
Proof.
  unfold suffixed, str_nat. intros H.
  apply (inj (String.append base_slug)) in H.
  apply (inj (String.append "-")) in H.
  by apply (inj pretty) in H.
Qed.

Lemma suffixed_ne_base base_slug k : suffixed base_slug k <> base_slug.
Proof.
  unfold suffixed. intros H. apply (f_equal String.length) in H.
  rewrite !string_length_app in H. simpl in H. lia.
Qed.

(** The loop leaves with a slug outside the set: among the candidates tried
    so far, all in the set and all different, there cannot be more than the
    set has members. *)
Lemma uniq_loop_fresh_gen bound base_slug : forall counter slug (used seen : gset string),
  seen ⊆ used ->
  slug ∉ seen ->
  (forall k, counter <= k -> suffixed base_slug k ∉ seen) ->
  (slug = base_slug \/ exists j, j < counter /\ slug = suffixed base_slug j) ->
  size used < bound + size seen ->
  uniq_loop bound base_slug counter slug used ∉ used.
Proof.
  induction bound as [|bound IH]; intros counter slug used seen Hsub Hslug Hnext Hshape Hsize.
  - apply subseteq_size in Hsub. lia.
  - simpl. case_bool_decide as Hin; [|done].
    apply (IH (S counter) (suffixed base_slug counter) used ({[slug]} ∪ seen)).
    + apply union_subseteq. split; [by apply singleton_subseteq_l|done].
    + apply not_elem_of_union. split; [|apply Hnext; lia].
      rewrite elem_of_singleton. intros Heq.
      destruct Hshape as [->|(j & Hj & ->)].
      * by apply suffixed_ne_base in Heq.
      * apply suffixed_inj in Heq. lia.
    + intros k Hk. apply not_elem_of_union. split; [|apply Hnext; lia].
      rewrite elem_of_singleton. intros Heq.
      destruct Hshape as [->|(j & Hj & ->)].
      * by apply suffixed_ne_base in Heq.
      * apply suffixed_inj in Heq. lia.
    + right. exists counter. split; [lia|done].
    + rewrite size_union by set_solver. rewrite size_singleton. lia.
Qed.

(** The slug the loop leaves with is the base slug or the base slug with a
    number from [counter] on. *)
Lemma uniq_loop_shape bound base_slug : forall counter slug used,
  uniq_loop bound base_slug counter slug used = slug
  \/ exists k, counter <= k /\ uniq_loop bound base_slug counter slug used = suffixed base_slug k.
Proof.
  induction bound as [|bound IH]; intros counter slug used; simpl; [by left|].
  case_bool_decide; [|by left].
  right. destruct (IH (S counter) (suffixed base_slug counter) used) as [->|(k & Hk & ->)].
  - exists counter. split; [lia|done].
  - exists k. split; [lia|done].
Qed.

Lemma generate_slug_fresh text (used : gset string) :
  (fst (generate_slug text used) ∉ used)
  /\ snd (generate_slug text used) = {[fst (generate_slug text used)]} ∪ used.
Proof.
  unfold generate_slug. cbn [fst snd]. split; [|done].
  apply (uniq_loop_fresh_gen _ _ _ _ used ∅).
  - apply empty_subseteq.
  - apply not_elem_of_empty.
  - intros k _. apply not_elem_of_empty.
  - by left.
  - rewrite size_empty. lia.
Qed.

Lemma generate_slug_shape text (used : gset string) :
  fst (generate_slug text used) = base_slug_of text
  \/ exists k, 2 <= k /\ fst (generate_slug text used) = suffixed (base_slug_of text) k.
Proof.
  unfold generate_slug. cbn [fst snd].
  destruct (uniq_loop_shape (S (size used)) (base_slug_of text) 2 (base_slug_of text) used)
    as [H|(k & Hk & H)]; [left; exact H|right].
  exists k. split; [exact Hk|exact H].
Qed.

Lemma generate_readable_id_ok st m : ids_ok st -> ids_ok (fst (generate_readable_id st m)).
Proof.
  intros [Hnd Hin]. unfold generate_readable_id.
  pose proof (generate_slug_fresh (group_or_empty m 3) (used_ids st)) as [Hfresh Hset].
  destruct (generate_slug (group_or_empty m 3) (used_ids st)) as [slug used'].
  cbn [fst snd] in Hfresh, Hset. subst used'.
  assert (Hok : forall mp, ids_ok (IdState ({[slug]} ∪ used_ids st) mp (emitted st ++ [slug]))).
  { intros mp. split; cbn [emitted used_ids].
    - apply NoDup_app. split; [done|]. split; [|apply NoDup_singleton].
      intros x Hx Hx'. apply list_elem_of_singleton in Hx'. subst x. by apply Hfresh, Hin.
    - intros x Hx. apply elem_of_app in Hx as [Hx|Hx].
      + apply elem_of_union_r. by apply Hin.
      + apply list_elem_of_singleton in Hx. subst x.
        apply elem_of_union_l. by apply elem_of_singleton. }
  destruct (re_search no_flags re_id_attr (group_or_empty m 2)); cbn [fst]; apply Hok.
Qed.

Lemma id_passes_from_ok st doc_content : ids_ok st -> ids_ok (fst (id_passes_from st doc_content)).
Proof.
  intros Hst. unfold id_passes_from.
  pose proof (ReFacts.re_sub_st_invariant ids_ok DOTALL re_heading generate_readable_id
                doc_content st generate_readable_id_ok Hst) as H1.
  destruct (re_sub_st DOTALL re_heading generate_readable_id doc_content st) as [st1 doc1].
  by apply ReFacts.re_sub_st_invariant; [apply generate_readable_id_ok|].
Qed.

(** C4 as stated fails: two chapters of one run that both hold the heading
    Intro both get the id intro, since every [process_chapter] call starts
    from an empty [used_ids]. *)
Lemma corpus_ids_collide :
  corpus_ids ["<h2>Intro</h2>"; "<h2>Intro</h2>"] = ["intro"; "intro"]
  /\ ~ (forall chapters, NoDup (corpus_ids chapters)).
Proof.
  assert (H : corpus_ids ["<h2>Intro</h2>"; "<h2>Intro</h2>"] = ["intro"; "intro"])
    by (vm_compute; reflexivity).
  split; [exact H|].
  intros Hall. specialize (Hall ["<h2>Intro</h2>"; "<h2>Intro</h2>"]).
  rewrite H in Hall. apply NoDup_cons in Hall as [Hnot _].
  apply Hnot. by apply list_elem_of_singleton.
Qed.

(** C4 (amended).  Within one chapter the ids that the heading-id passes
    write are pairwise different; [generate_slug] returns a slug outside the
    set it is given, records it, and the slug is the base slug or the base
    slug with a dash and a number from 2 on. *)
Theorem chapter_ids_unique (doc_content : string) :
  NoDup (chapter_ids doc_content)
  /\ forall text (used : gset string),
       (fst (generate_slug text used) ∉ used)
       /\ snd (generate_slug text used) = {[fst (generate_slug text used)]} ∪ used
       /\ (fst (generate_slug text used) = base_slug_of text
           \/ exists k, 2 <= k
                /\ fst (generate_slug text used) = suffixed (base_slug_of text) k).
Proof.
  split.
  - unfold chapter_ids, id_passes.
    refine (proj1 (id_passes_from_ok empty_id_state doc_content _)).
    split; cbn [emitted empty_id_state used_ids]; [apply NoDup_nil_2|].
    intros x Hx. by apply elem_of_nil in Hx.
  - intros text used. pose proof (generate_slug_fresh text used) as [H1 H2].
    split; [done|]. split; [done|]. apply generate_slug_shape.
Qed.

(** Colliding headings in one chapter. *)
Example chapter_ids_suffixes :
  chapter_ids "<h2>Intro</h2><h3 id='x1-2'>Intro</h3><h3>Intro</h3>"
  = ["intro"; "intro-2"; "intro-3"].
Proof. vm_compute. reflexivity. Qed.

End SlugFacts.

Module RenumberFacts.
Import PyStr Re Renumber.

Lemma renumber_from_app chapter_num l1 : forall c l2,
  renumber_from chapter_num c (l1 ++ l2)%list
  = (fst (renumber_from chapter_num (fst (renumber_from chapter_num c l1)) l2),
     (snd (renumber_from chapter_num c l1)
      ++ snd (renumber_from chapter_num (fst (renumber_from chapter_num c l1)) l2))%list).
Proof.
  induction l1 as [|h l1 IH]; intros c l2.
  - simpl. by destruct (renumber_from chapter_num c l2).
  - cbn [app renumber_from].
    destruct (renumber_heading chapter_num c h) as [[c1 n] h'].
    rewrite IH.
    destruct (renumber_from chapter_num c1 l1) as [c2 o1]. cbn [fst snd].
    by destruct (renumber_from chapter_num c2 l2).
Qed.

(** An h3 heading of class enrichment-title is numbered as a new section,
    whatever came before it. *)
Lemma renumber_h3_enrichment chapter_num c h :
  h3_enrichment h ->
  renumber_heading chapter_num c h
  = (Counters (S (section_counter c)) 0 0,
     Some (dotted [chapter_num; S (section_counter c)]),
     retitle (dotted [chapter_num; S (section_counter c)]) h).
Proof.
  intros (Hn & He & Hc & Hs). unfold renumber_heading, has_class, is_name.
  rewrite (bool_decide_eq_false_2 _ Hc), (bool_decide_eq_true_2 _ Hn),
    (bool_decide_eq_false_2 _ Hs), (bool_decide_eq_true_2 _ He).
  reflexivity.
Qed.

(** C2 as stated fails: from section counter 3 in chapter 7 the renumbering
    pass gives the second of two consecutive h3 enrichments the number 7.5,
    not 7.4.1, and the section counter ends at 5. *)
Lemma second_enrichment_is_a_section :
  let out := renumber_from 7 (Counters 3 0 0)
               [enrichment_h3 "Vanishing Gradients"; enrichment_h3 "Exploding Gradients"] in
  map fst (snd out) = [Some "7.4"; Some "7.5"]
  /\ section_counter (fst out) = 5
  /\ map fst (snd out) <> [Some "7.4"; Some "7.4.1"].
Proof. vm_compute. repeat split; congruence. Qed.

(** C2 (amended).  Two consecutive h3 enrichment headings met at section
    counter [s] in chapter [chapter_num] are numbered chapter.(s+1) and
    chapter.(s+2), each as a new section, and the counter ends at s+2.  In
    the scenario (chapter 7, counter 3) the headings become Enrichment 7.4
    and Enrichment 7.5; it is the table of contents built from them by
    [extract_toc_from_body] that lists the second as subsection 7.4.1 of the
    first. *)
Theorem consecutive_enrichments (chapter_num s : nat) (pre : list heading) (h1 h2 : heading) :
  section_counter (fst (renumber chapter_num pre)) = s ->
  h3_enrichment h1 ->
  h3_enrichment h2 ->
  renumber chapter_num (pre ++ [h1; h2])%list
  = (Counters (S (S s)) 0 0,
     (snd (renumber chapter_num pre)
      ++ [(Some (dotted [chapter_num; S s]), retitle (dotted [chapter_num; S s]) h1);
          (Some (dotted [chapter_num; S (S s)]),
           retitle (dotted [chapter_num; S (S s)]) h2)])%list)
  /\ map h_text
       (map snd (snd (renumber_from 7 (Counters 3 0 0)
                        [enrichment_h3 "Vanishing Gradients";
                         enrichment_h3 "Exploding Gradients"])))
     = ["Enrichment 7.4: Vanishing Gradients"; "Enrichment 7.5: Exploding Gradients"]
  /\ toc_entries [] 7
       [("h3", "e1", "Enrichment 7.4: Vanishing Gradients");
        ("h3", "e2", "Enrichment 7.5: Exploding Gradients")]
     = [("7.4 Vanishing Gradients", false); ("7.4.1 Exploding Gradients", true)].
Proof.
  intros Hs H1 H2. split; [|split; vm_compute; reflexivity].
  unfold renumber in *. rewrite renumber_from_app.
  destruct (renumber_from chapter_num counters0 pre) as [c out]. cbn [fst snd] in *.
  cbn [renumber_from].
  rewrite (renumber_h3_enrichment chapter_num c h1 H1).
  rewrite (renumber_h3_enrichment chapter_num _ h2 H2).
  cbn [section_counter]. by rewrite Hs.
Qed.

Lemma consecutive_enrichments_witness :
  renumber 7 (scenario_prefix ++ [enrichment_h3 "Vanishing Gradients";
                                  enrichment_h3 "Exploding Gradients"])%list
  = (Counters 5 0 0,
     (snd (renumber 7 scenario_prefix)
      ++ [(Some (dotted [7; 4]),
           retitle (dotted [7; 4]) (enrichment_h3 "Vanishing Gradients"));
          (Some (dotted [7; 5]),
           retitle (dotted [7; 5]) (enrichment_h3 "Exploding Gradients"))])%list)
  /\ map h_text
       (map snd (snd (renumber_from 7 (Counters 3 0 0)
                        [enrichment_h3 "Vanishing Gradients";
                         enrichment_h3 "Exploding Gradients"])))
     = ["Enrichment 7.4: Vanishing Gradients"; "Enrichment 7.5: Exploding Gradients"]
  /\ toc_entries [] 7
       [("h3", "e1", "Enrichment 7.4: Vanishing Gradients");
        ("h3", "e2", "Enrichment 7.5: Exploding Gradients")]
     = [("7.4 Vanishing Gradients", false); ("7.4.1 Exploding Gradients", true)].
Proof.
  apply (consecutive_enrichments 7 3 scenario_prefix).
  - vm_compute. reflexivity.
  - repeat split; try reflexivity; apply (bool_decide_unpack _); vm_compute; exact I.
  - repeat split; try reflexivity; apply (bool_decide_unpack _); vm_compute; exact I.
Defined.

End RenumberFacts.

Module CiteFacts.
Import PyStr Re Cite.

Lemma cite_repl_internal (m : mobj) :
  startswith (group_or_empty m 1) "#" = true ->
  citation_like (lstrip_chars "#" (group_or_empty m 1)) = true ->
  normalize_bib_key (lstrip_chars "#" (group_or_empty m 1)) <> EmptyString ->
  cite_repl m = bib_href (normalize_bib_key (lstrip_chars "#" (group_or_empty m 1))).
Proof.
  intros Hs Hc Hk. unfold cite_repl. rewrite Hs, Hc.
  by rewrite (bool_decide_eq_false_2 _ Hk).
Qed.

Lemma cite_number_known (idx : gmap string string) (m : mobj) (num : string) :
  idx !! biber_stripped (group_or_empty m 1) = Some num ->
  cite_number_repl idx m
  = bib_href (biber_stripped (group_or_empty m 1)) +:+ ">" +:+ group_or_empty m 2 +:+ num
    +:+ group_or_empty m 4 +:+ "</a>".
Proof. intros H. unfold cite_number_repl. fold (biber_stripped (group_or_empty m 1)). by rewrite H. Qed.

Lemma cite_number_unknown (idx : gmap string string) (m : mobj) :
  idx !! biber_stripped (group_or_empty m 1) = None ->
  cite_number_repl idx m = mo_text m.
Proof. intros H. unfold cite_number_repl. fold (biber_stripped (group_or_empty m 1)). by rewrite H. Qed.

(** The scenario of the specification, and a key that the index lacks. *)
Example scenario_smith2020 :
  fix_citations scenario_index (cite_anchor "#0_smith2020" "5")
  = cite_anchor "bibliography.html#bib-smith2020" "12".
Proof. vm_compute. reflexivity. Qed.

Example scenario_unknown_key :
  fix_citations scenario_index (cite_anchor "#0_jones1999" "[7]")
  = cite_anchor "bibliography.html#bib-jones1999" "[7]".
Proof. vm_compute. reflexivity. Qed.

End CiteFacts.

Module DomFacts.
Import PyStr Dom.

(** Induction on a tree: the property holds for the children of a tag. *)
Lemma node_ind' (P : node -> Prop) :
  (forall s, P (Text s)) ->
  (forall nm cls a ch, Forall P ch -> P (Elem nm cls a ch)) ->
  forall n, P n.
Proof.
  intros Ht He. fix IH 1. intros [s|nm cls a ch]; [apply Ht|].
  apply He. induction ch as [|c ch IHch]; constructor; [apply IH|exact IHch].
Qed.

Lemma take_first_elem p nm cls a ch :
  take_first p (Elem nm cls a ch)
  = (fst (take_first_list p ch), Elem nm cls a (snd (take_first_list p ch))).
Proof.
  cbn [take_first].
  assert (H : forall l,
    (fix go (l : list node) : option node * list node :=
       match l with
       | [] => (None, [])
       | c :: l' =>
           if p c then (Some c, l')
           else match take_first p c with
                | (Some x, c') => (Some x, c' :: l')
                | (None, _) => let '(r, l'') := go l' in (r, c :: l'')
                end
       end) l = take_first_list p l).
  { induction l as [|c l IH]; [done|]. cbn [take_first_list]. by rewrite IH. }
  rewrite H.
  by destruct (take_first_list p ch).
Qed.

(** A property of trees that a tag passes on to what [take_first] leaves of
    its children is kept by [take_first]. *)
Lemma take_first_list_Forall (P : node -> Prop) p l :
  Forall (fun c => P c /\ P (snd (take_first p c))) l ->
  Forall P (snd (take_first_list p l)).
Proof.
  induction 1 as [|c l [Hc Hc'] Hl IH]; cbn [take_first_list]; [constructor|].
  destruct (p c); cbn [snd].
  - eapply Forall_impl; [exact Hl|]. by intros ? [? ?].
  - destruct (take_first p c) as [[x|] c'] eqn:E; cbn [snd] in *.
    + constructor; [exact Hc'|]. eapply Forall_impl; [exact Hl|]. by intros ? [? ?].
    + destruct (take_first_list p l) as [r l'']. cbn [snd] in *. by constructor.
Qed.

End DomFacts.

Module WrapFacts.
Import PyStr Re Dom Tables DomFacts.

Lemma Forall_flat_map {A B} (P : B -> Prop) (f : A -> list B) l :
  Forall P (flat_map f l) <-> Forall (fun x => Forall P (f x)) l.
Proof.
  induction l as [|x l IH]; cbn [flat_map]; [split; constructor|].
  rewrite Forall_app, Forall_cons, IH. done.
Qed.

Lemma forallb_Forall_true {A} (f : A -> bool) l :
  forallb f l = true <-> Forall (fun x => f x = true) l.
Proof.
  induction l as [|x l IH]; cbn [forallb]; [split; [constructor|done]|].
  by rewrite andb_true_iff, Forall_cons, IH.
Qed.

Lemma no_wrapper_elem nm cls a ch :
  no_wrapper (Elem nm cls a ch) = true
  <-> ("table-wrapper" ∉ cls) /\ Forall (fun x => no_wrapper x = true) ch.
Proof.
  cbn [no_wrapper]. by rewrite andb_true_iff, negb_true_iff, bool_decide_eq_false,
    forallb_Forall_true.
Qed.

(** The counts below a node start from the count above it. *)
Lemma wrapper_counts_ge n : forall c w, Forall (fun k => w <= k) (wrapper_counts c w n).
Proof.
  induction n as [s|nm cls a ch IH] using node_ind'; intros c w; cbn [wrapper_counts];
    [constructor|].
  destruct (bool_decide (nm = "table") && negb c); [by repeat constructor|].
  apply Forall_flat_map. eapply Forall_impl; [exact IH|]. intros x Hx. cbn beta.
  eapply Forall_impl; [apply Hx|]. intros k Hk. cbn beta in Hk. case_bool_decide; lia.
Qed.

(** A tree without wrappers: every count is the one given from above. *)
Lemma no_wrapper_counts n : forall c w,
  no_wrapper n = true -> Forall (fun k => k = w) (wrapper_counts c w n).
Proof.
  induction n as [s|nm cls a ch IH] using node_ind'; intros c w Hn; cbn [wrapper_counts];
    [constructor|].
  apply no_wrapper_elem in Hn as [Hcls Hch].
  destruct (bool_decide (nm = "table") && negb c); [by repeat constructor|].
  rewrite (bool_decide_eq_false_2 _ Hcls).
  apply Forall_flat_map. rewrite Forall_forall in IH, Hch. apply Forall_forall.
  intros x Hx. apply IH; [done|]. by apply Hch.
Qed.

(** The counts of a list of nodes, node by node. *)
Lemma counts_Forall2 (c : bool) (w : nat) (l k : list node) :
  Forall2 (fun x y => wrapper_counts c w y = wrapper_counts c w x) l k ->
  flat_map (wrapper_counts c w) k = flat_map (wrapper_counts c w) l.
Proof. induction 1 as [|x y l k Hxy _ IH]; cbn [flat_map]; [done|]. by rewrite Hxy, IH. Qed.

Section Loop.
Context (clean_cells steps_1_5_to_1_8 steps_2_4_to_2_5 : table_tag -> option table_tag)
        (html_parser : string -> list node).

Local Abbreviation process_table :=
  (process_table clean_cells steps_1_5_to_1_8 steps_2_4_to_2_5 html_parser).
Local Abbreviation process_node :=
  (process_node clean_cells steps_1_5_to_1_8 steps_2_4_to_2_5 html_parser).
Local Abbreviation process_tables :=
  (process_tables clean_cells steps_1_5_to_1_8 steps_2_4_to_2_5 html_parser).
Local Abbreviation process_tables_times :=
  (process_tables_times clean_cells steps_1_5_to_1_8 steps_2_4_to_2_5 html_parser).

(** What the body of the loop leaves in the place of a table: the table
    itself when a wrapper is above it, and else one new wrapper around the
    parsed caption and the table. *)
Lemma process_table_shape already_wrapped table n' :
  process_table already_wrapped table = Some n' ->
  if already_wrapped then exists t, n' = table_node t
  else exists caption t,
         n' = Elem "div" ["table-wrapper"] [] (caption ++ [table_node t])
         /\ (caption = [] \/ exists s, caption = html_parser s).
Proof.
  unfold Tables.process_table. intros H.
  destruct (clean_cells table) as [t0|]; cbn in H; [|done].
  destruct (steps_1_5_to_1_8 (with_book_table t0)) as [t1|]; cbn in H; [|done].
  destruct already_wrapped.
  - destruct (steps_2_4_to_2_5 t1) as [t2|]; cbn in H; [|done].
    injection H as <-. by exists t2.
  - destruct (take_first_list is_caption (table_children t1)) as [caption children].
    destruct (steps_2_4_to_2_5 _) as [t2|]; cbn in H; [|done].
    injection H as <-. eexists _, t2. split; [reflexivity|].
    case_bool_decide; [by left|right; by eexists].
Qed.

Lemma counts_table_node c w t :
  wrapper_counts c w (table_node t) = if c then [] else [w].
Proof.
  unfold table_node. cbn [wrapper_counts].
  replace (bool_decide ("table" = "table")) with true by done.
  destruct c; cbn [andb negb orb]; [|done].
  induction (table_children t) as [|x l IH]; cbn [flat_map]; [done|].
  rewrite IH, app_nil_r. clear IH.
  generalize (if bool_decide ("table-wrapper" ∈ table_classes t) then S w else w).
  induction x as [s|nm cls a ch IHx] using node_ind'; intros v; cbn [wrapper_counts];
    [done|].
  rewrite andb_false_r. cbn [orb].
  induction IHx as [|y ch Hy _ IHch]; cbn [flat_map]; [done|]. by rewrite Hy, IHch.
Qed.

Lemma counts_wrapper w caption t :
  wrapper_counts false w (Elem "div" ["table-wrapper"] [] (caption ++ [table_node t]))
  = (flat_map (wrapper_counts false (S w)) caption ++ [S w])%list.
Proof.
  cbn [wrapper_counts].
  replace (bool_decide ("div" = "table")) with false by done.
  replace (bool_decide ("div" ∈ ["td"; "th"])) with false by (by vm_compute).
  replace (bool_decide ("table-wrapper" ∈ ["table-wrapper"])) with true by (by vm_compute).
  cbn [andb orb]. rewrite flat_map_app. cbn [flat_map].
  by rewrite counts_table_node, app_nil_r.
Qed.

(** The walk below a cell changes nothing. *)
Lemma process_node_in_cell n : forall b, process_node true b n = Some n.
Proof.
  induction n as [s|nm cls a ch IH] using node_ind'; intros b; cbn [Tables.process_node];
    [done|].
  rewrite andb_false_r. cbn [orb].
  replace (mapM _ ch) with (Some ch); [done|]. symmetry. apply mapM_Some.
  induction IH as [|x l Hx _ IHl]; constructor; [apply Hx|exact IHl].
Qed.

(** After a run, every table that the walk stops at has a wrapper above it:
    [w] counts the wrappers above [n] in the output, and is at least one
    when the walk has seen one. *)
Lemma process_node_counts_ge n : forall c (b : bool) w n',
  process_node c b n = Some n' ->
  (b = true -> 1 <= w) ->
  Forall (fun k => 1 <= k) (wrapper_counts c w n').
Proof.
  induction n as [s|nm cls a ch IH] using node_ind'; intros c b w n' Hrun Hb;
    cbn [Tables.process_node] in Hrun.
  { injection Hrun as <-. constructor. }
  destruct (bool_decide (nm = "table") && negb c) eqn:E.
  - apply andb_true_iff in E as [_ E2]. destruct c; [done|]. clear E2.
    apply process_table_shape in Hrun. destruct b.
    + destruct Hrun as [t ->]. rewrite counts_table_node.
      constructor; [by apply Hb|constructor].
    + destruct Hrun as (caption & t & -> & _). rewrite counts_wrapper.
      apply Forall_app. split; [|constructor; [lia|constructor]].
      apply Forall_flat_map, Forall_forall. intros x _.
      eapply Forall_impl; [apply wrapper_counts_ge|]. intros k Hk. cbn beta in Hk. lia.
  - destruct (mapM _ ch) as [ch'|] eqn:Em; cbn in Hrun; [|done]. injection Hrun as <-.
    cbn [wrapper_counts]. rewrite E. apply mapM_Some in Em.
    apply Forall_flat_map.
    induction Em as [|x y l k Hxy _ IHk]; [constructor|].
    apply Forall_cons in IH as [IHx IHl]. constructor; [|by apply IHk].
    apply (IHx _ _ _ _ Hxy). intros Hb'. apply orb_true_iff in Hb' as [Hb'|Hb'].
    + specialize (Hb Hb'). destruct (bool_decide ("table-wrapper" ∈ cls)); lia.
    + rewrite Hb'. lia.
Qed.

(** A table with a wrapper above it gets no further one: where every count
    of the input is at least one, the output has the counts of the input. *)
Lemma process_node_counts_keep n : forall c (b : bool) w n',
  process_node c b n = Some n' ->
  (1 <= w -> b = true) ->
  Forall (fun k => 1 <= k) (wrapper_counts c w n) ->
  wrapper_counts c w n' = wrapper_counts c w n.
Proof.
  induction n as [s|nm cls a ch IH] using node_ind'; intros c b w n' Hrun Hb Hge;
    cbn [Tables.process_node] in Hrun.
  { by injection Hrun as <-. }
  cbn [wrapper_counts] in Hge |- *.
  destruct (bool_decide (nm = "table") && negb c) eqn:E.
  - apply andb_true_iff in E as [_ E2]. destruct c; [done|]. clear E2.
    apply Forall_cons in Hge as [Hw _]. rewrite (Hb Hw) in Hrun.
    apply process_table_shape in Hrun as [t ->]. by rewrite counts_table_node.
  - destruct (mapM _ ch) as [ch'|] eqn:Em; cbn in Hrun; [|done]. injection Hrun as <-.
    cbn [wrapper_counts]. rewrite E. apply mapM_Some in Em.
    apply counts_Forall2. apply Forall_flat_map in Hge.
    induction Em as [|x y l k Hxy _ IHk]; [constructor|].
    apply Forall_cons in IH as [IHx IHl]. apply Forall_cons in Hge as [Hgx Hgl].
    constructor; [|by apply IHk].
    apply (IHx _ _ _ _ Hxy); [|exact Hgx]. intros Hw.
    destruct (bool_decide ("table-wrapper" ∈ cls)); [by rewrite orb_true_r|].
    by rewrite orb_false_r, Hb.
Qed.

(** From an input without wrappers, and with captions whose markup parses
    to nodes without wrappers, a run leaves exactly one wrapper above every
    table that the walk stops at. *)
Lemma process_node_counts_one n : forall c n',
  (forall s, Forall (fun x => no_wrapper x = true) (html_parser s)) ->
  no_wrapper n = true ->
  process_node c false n = Some n' ->
  Forall (fun k => k = 1) (wrapper_counts c 0 n').
Proof.
  induction n as [s|nm cls a ch IH] using node_ind'; intros c n' Hp Hn Hrun;
    cbn [Tables.process_node] in Hrun.
  { injection Hrun as <-. constructor. }
  apply no_wrapper_elem in Hn as [Hcls Hch].
  destruct (bool_decide (nm = "table") && negb c) eqn:E.
  - apply andb_true_iff in E as [_ E2]. destruct c; [done|]. clear E2.
    apply process_table_shape in Hrun as (caption & t & -> & Hcap).
    rewrite counts_wrapper. apply Forall_app. split; [|by repeat constructor].
    apply Forall_flat_map. destruct Hcap as [->|[s ->]]; [constructor|].
    eapply Forall_impl; [apply Hp|]. intros x Hx. by apply no_wrapper_counts.
  - rewrite (bool_decide_eq_false_2 _ Hcls) in Hrun. cbn [orb] in Hrun.
    destruct (mapM _ ch) as [ch'|] eqn:Em; cbn in Hrun; [|done]. injection Hrun as <-.
    cbn [wrapper_counts]. rewrite E, (bool_decide_eq_false_2 _ Hcls).
    apply mapM_Some in Em. apply Forall_flat_map.
    induction Em as [|x y l k Hxy _ IHk]; [constructor|].
    apply Forall_cons in IH as [IHx IHl]. apply Forall_cons in Hch as [Hnx Hnl].
    constructor; [|by apply IHk]. by apply (IHx _ _ Hp Hnx Hxy).
Qed.

Lemma process_tables_counts_ge doc doc' :
  process_tables doc = Some doc' -> Forall (fun k => 1 <= k) (doc_wrapper_counts doc').
Proof.
  unfold Tables.process_tables, doc_wrapper_counts. intros H. apply mapM_Some in H.
  apply Forall_flat_map. induction H as [|x y l k Hxy _ IH]; constructor; [|exact IH].
  by apply (process_node_counts_ge _ _ _ _ _ Hxy).
Qed.

Lemma process_tables_counts_keep doc doc' :
  process_tables doc = Some doc' ->
  Forall (fun k => 1 <= k) (doc_wrapper_counts doc) ->
  doc_wrapper_counts doc' = doc_wrapper_counts doc.
Proof.
  unfold Tables.process_tables, doc_wrapper_counts. intros H Hge. apply mapM_Some in H.
  apply Forall_flat_map in Hge. apply counts_Forall2.
  induction H as [|x y l k Hxy _ IH]; [constructor|].
  apply Forall_cons in Hge as [Hgx Hgl]. constructor; [|by apply IH].
  apply (process_node_counts_keep _ _ _ _ _ Hxy); [lia|exact Hgx].
Qed.

Lemma process_tables_times_keep n : forall doc doc',
  Forall (fun k => 1 <= k) (doc_wrapper_counts doc) ->
  process_tables_times n doc = Some doc' ->
  doc_wrapper_counts doc' = doc_wrapper_counts doc.
Proof.
  induction n as [|n IH]; intros doc doc' Hge H; cbn [Tables.process_tables_times] in H.
  { by injection H as <-. }
  destruct (process_tables doc) as [doc1|] eqn:E; cbn in H; [|done].
  pose proof (process_tables_counts_keep _ _ E Hge) as Hk.
  rewrite <- Hk. apply IH; [|exact H]. by rewrite Hk.
Qed.

End Loop.




End WrapFacts.

Module PathFacts.
Import PyStr Dom.

Lemma prune_elem p nm cls a ch :
  prune p (Elem nm cls a ch) = Elem nm cls a (prune_list p ch).
Proof.
  cbn [prune]. f_equal.
  induction ch as [|c ch IH]; [done|]. cbn [prune_list]. by rewrite IH.
Qed.

Lemma get_at_app (d q : path) n : get_at (d ++ q)%list n = get_at d n ≫= get_at q.
Proof.
  revert n. induction d as [|i d IH]; intros n; [done|].
  cbn [app get_at]. destruct (children_of n !! i) as [c|]; [apply IH|done].
Qed.

Lemma child_descendant c n : c ∈ children_of n -> c ∈ descendants n.
Proof.
  destruct n as [s|nm cls a ch]; cbn [children_of descendants]; [by intros ?%elem_of_nil|].
  intros Hc. apply list_elem_of_In, in_flat_map. exists c. split; [by apply list_elem_of_In|by left].
Qed.

Lemma child_descendants_incl c n x :
  c ∈ children_of n -> x ∈ descendants c -> x ∈ descendants n.
Proof.
  destruct n as [s|nm cls a ch]; cbn [children_of descendants]; [by intros ?%elem_of_nil|].
  intros Hc Hx. apply list_elem_of_In, in_flat_map. exists c.
  split; [by apply list_elem_of_In|right; by apply list_elem_of_In].
Qed.

(** What lies below a descendant lies below the node. *)
Lemma descendants_trans n : forall m x,
  m ∈ descendants n -> x ∈ descendants m -> x ∈ descendants n.
Proof.
  induction n as [s|nm cls a ch IH] using DomFacts.node_ind'; intros m x Hm Hx.
  - by apply elem_of_nil in Hm.
  - cbn [descendants] in Hm. apply list_elem_of_In, in_flat_map in Hm as (c & Hc & Hm).
    apply list_elem_of_In in Hc.
    apply (child_descendants_incl c); [done|].
    destruct Hm as [->|Hm]; [done|].
    rewrite Forall_forall in IH. apply (IH c Hc m); [by apply list_elem_of_In|done].
Qed.

(** A node reached by a non-empty path is a descendant. *)
Lemma get_at_descendant q : forall n m,
  q <> [] -> get_at q n = Some m -> m ∈ descendants n.
Proof.
  induction q as [|i q IH]; intros n m Hq Hget; [done|].
  cbn [get_at] in Hget. destruct (children_of n !! i) as [c|] eqn:Hc; [|done].
  apply list_elem_of_lookup_2 in Hc.
  destruct q as [|j q].
  - cbn [get_at] in Hget. injection Hget as <-. by apply child_descendant.
  - apply (child_descendants_incl c); [done|]. by apply IH.
Qed.

Lemma find_all_elem p x n : x ∈ find_all p n <-> x ∈ descendants n /\ p x = true.
Proof. unfold find_all. by rewrite !list_elem_of_In, filter_In. Qed.

End PathFacts.

Module FlattenFacts.
Import PyStr Re Dom Tables DomFacts PathFacts.

(** The rows of a table inside another are rows of the outer table. *)
Lemma rows_at_prefix cell d p row :
  d `prefix_of` p -> row ∈ rows_at cell p -> row ∈ rows_at cell d.
Proof.
  intros [q ->]. unfold rows_at. rewrite get_at_app.
  destruct (get_at d cell) as [nd|]; cbn [mbind option_bind]; [|done].
  destruct q as [|i q]; [done|].
  destruct (get_at (i :: q) nd) as [np|] eqn:Hq; [|by intros ?%elem_of_nil].
  rewrite !find_all_elem. intros [Hrow His]. split; [|done].
  apply (descendants_trans nd np); [|done]. by apply (get_at_descendant (i :: q)).
Qed.

Lemma is_dead_spec dead p : is_dead dead p = true <-> exists d, d ∈ dead /\ d `prefix_of` p.
Proof.
  unfold is_dead. rewrite existsb_exists. split.
  - intros (d & Hd & Hp). exists d. split; [by apply list_elem_of_In|].
    by apply bool_decide_eq_true_1 in Hp.
  - intros (d & Hd & Hp). exists d. split; [by apply list_elem_of_In|].
    by apply bool_decide_eq_true_2.
Qed.

(** Every line comes from a row of one of the listed tables. *)
Lemma collect_lines_sound cell ps : forall dead line,
  line ∈ collect_lines cell dead ps ->
  exists p row, p ∈ ps /\ row ∈ rows_at cell p /\ row_line row = Some line.
Proof.
  induction ps as [|p ps IH]; intros dead line Hl; [by apply elem_of_nil in Hl|].
  cbn [collect_lines] in Hl. apply elem_of_app in Hl as [Hl|Hl].
  - destruct (is_dead dead p); [by apply elem_of_nil in Hl|].
    exists p. unfold rows_at. destruct (get_at p cell) as [nested|]; [|by apply elem_of_nil in Hl].
    apply list_elem_of_omap in Hl as (row & Hrow & Hline).
    exists row. split; [by left|done].
  - destruct (IH _ _ Hl) as (q & row & Hq & Hrow & Hline).
    exists q, row. split; [by right|done].
Qed.

(** Every row of a listed table that gives a line has its line collected:
    a table skipped as decomposed lies inside one that was read before. *)
Lemma collect_lines_complete cell ps : forall dead (before : list string),
  (forall d row line, d ∈ dead -> row ∈ rows_at cell d -> row_line row = Some line ->
     line ∈ before) ->
  forall p row line, p ∈ ps -> row ∈ rows_at cell p -> row_line row = Some line ->
    line ∈ (before ++ collect_lines cell dead ps)%list.
Proof.
  induction ps as [|p0 ps IH]; intros dead before Hdead p row line Hp Hrow Hline;
    [by apply elem_of_nil in Hp|].
  cbn [collect_lines]. rewrite app_assoc.
  set (here := if is_dead dead p0 then []
               else match get_at p0 cell with
                    | Some nested => omap row_line (find_all is_tr nested)
                    | None => []
                    end).
  assert (Hp0 : forall row line, row ∈ rows_at cell p0 -> row_line row = Some line ->
                  line ∈ (before ++ here)%list).
  { intros row' line' Hrow' Hline'. subst here.
    destruct (is_dead dead p0) eqn:Hd.
    - apply is_dead_spec in Hd as (d & Hd & Hpre). rewrite app_nil_r.
      apply (Hdead d row'); [done| |done]. by apply (rows_at_prefix cell d p0).
    - apply elem_of_app. right. unfold rows_at in Hrow'.
      destruct (get_at p0 cell); [|by apply elem_of_nil in Hrow'].
      apply list_elem_of_omap. by exists row'. }
  apply elem_of_cons in Hp as [->|Hp].
  - apply elem_of_app. left. by apply (Hp0 row).
  - apply (IH (dead ++ [p0])%list (before ++ here)%list) with p row; try done.
    intros d row' line' Hd Hrow' Hline'. apply elem_of_app in Hd as [Hd|Hd].
    + apply elem_of_app. left. by apply (Hdead d row').
    + apply list_elem_of_singleton in Hd. subst d. by apply (Hp0 row').
Qed.

Lemma nested_rows_elem cell row :
  row ∈ nested_rows cell <-> exists p, p ∈ nested_table_paths cell /\ row ∈ rows_at cell p.
Proof.
  unfold nested_rows. rewrite list_elem_of_In, in_flat_map.
  split; intros (p & Hp & Hrow); exists p.
  - split; [by apply list_elem_of_In|]. by apply list_elem_of_In.
  - split; [by apply list_elem_of_In|]. by apply list_elem_of_In.
Qed.

(** The stacked lines are the lines of the nested rows. *)
Lemma stacked_lines_spec cell line :
  line ∈ stacked_lines cell
  <-> exists row, row ∈ nested_rows cell /\ row_line row = Some line.
Proof.
  unfold stacked_lines. split.
  - intros H. apply collect_lines_sound in H as (p & row & Hp & Hrow & Hline).
    exists row. split; [|done]. apply nested_rows_elem. by exists p.
  - intros (row & Hrow & Hline). apply nested_rows_elem in Hrow as (p & Hp & Hrow).
    apply (collect_lines_complete cell (nested_table_paths cell) [] [] ) with p row; try done.
    intros d ? ? Hd. by apply elem_of_nil in Hd.
Qed.

(** A row gives a line exactly when it has at most two cells and its text is
    not empty. *)
Lemma row_line_spec row line :
  row_line row = Some line
  <-> length (find_all is_cell row) <= 2
      /\ line = strip (join " " (map get_text_strip (find_all is_cell row)))
      /\ line <> EmptyString.
Proof.
  unfold row_line. destruct (2 <? length (find_all is_cell row)) eqn:E.
  - apply Nat.ltb_lt in E. split; [done|]. intros [? _]. lia.
  - apply Nat.ltb_ge in E. case_bool_decide as Hs.
    + split; [done|]. intros (_ & -> & Hne). done.
    + split.
      * intros [= <-]. done.
      * intros (_ & -> & _). done.
Qed.

Lemma remove_paths_elem ps nm cls a ch :
  remove_paths ps (Elem nm cls a ch) = Elem nm cls a (remove_paths_list ps 0 ch).
Proof.
  cbn [remove_paths]. f_equal. generalize 0.
  induction ch as [|c ch IH]; intros i; [done|]. cbn [remove_paths_list]. by rewrite IH.
Qed.

(** The walks keep the name and the classes of a node. *)
Lemma is_table_remove_paths ps n : is_table (remove_paths ps n) = is_table n.
Proof. by destruct n. Qed.

Lemma is_div_class_remove_paths c ps n :
  is_div_class c (remove_paths ps n) = is_div_class c n.
Proof. by destruct n. Qed.

Lemma is_table_prune p n : is_table (prune p n) = is_table n.
Proof. by destruct n. Qed.

Lemma is_div_class_prune c p n : is_div_class c (prune p n) = is_div_class c n.
Proof. by destruct n. Qed.

(** No table is left among the children once the listed paths are gone. *)
Lemma remove_paths_list_no_table ps l : forall i,
  (forall j c, l !! j = Some c -> is_table c = true -> [i + j] ∈ ps) ->
  Forall (fun c => is_table c = false) (remove_paths_list ps i l).
Proof.
  induction l as [|c l IH]; intros i H; [constructor|].
  assert (Hrest : Forall (fun c => is_table c = false) (remove_paths_list ps (S i) l)).
  { apply IH. intros j c' Hj Hc'. replace (S i + j) with (i + S j) by lia.
    by apply (H (S j) c'). }
  cbn [remove_paths_list]. case_bool_decide as Hin; [done|].
  constructor; [|done]. rewrite is_table_remove_paths.
  destruct (is_table c) eqn:E; [|done]. exfalso. apply Hin.
  specialize (H 0 c eq_refl E). by rewrite Nat.add_0_r in H.
Qed.

(** [prune] drops what it is asked to drop and keeps what a test on name
    and classes says about the rest. *)
Lemma prune_list_dropped p l :
  (forall n, p (prune p n) = p n) -> Forall (fun c => p c = false) (prune_list p l).
Proof.
  intros Hp. induction l as [|c l IH]; [constructor|]. cbn [prune_list].
  destruct (p c) eqn:E; [done|]. constructor; [by rewrite Hp|done].
Qed.

Lemma prune_list_keeps (q : node -> bool) p l :
  (forall n, q (prune p n) = q n) ->
  Forall (fun c => q c = false) l -> Forall (fun c => q c = false) (prune_list p l).
Proof.
  intros Hq. induction 1 as [|c l Hc Hl IH]; [constructor|]. cbn [prune_list].
  destruct (p c); [done|]. constructor; [by rewrite Hq|done].
Qed.

Lemma direct_table_listed cell i c :
  children_of cell !! i = Some c -> is_table c = true -> [i] ∈ nested_table_paths cell.
Proof.
  intros Hi Hc. unfold nested_table_paths. apply elem_of_app. left.
  apply list_elem_of_omap. exists (i, c). split; [|by rewrite Hc].
  by apply (elem_of_lookup_imap_2 (fun i c => (i, c))).
Qed.

Lemma stack_plain lines :
  Forall (fun c => is_table c = false /\ is_div_class "tabular" c = false) (stack lines).
Proof.
  induction lines as [|line [|line' lines] IH]; cbn [stack]; repeat constructor.
  exact IH.
Qed.

(** After the step the cell has no table and no tabular div among its
    children. *)
Lemma flatten_cell_children cell :
  nested_table_paths cell <> [] ->
  Forall (fun c => is_table c = false /\ is_div_class "tabular" c = false)
         (children_of (flatten_cell cell)).
Proof.
  intros Hne. unfold flatten_cell.
  destruct (nested_table_paths cell) as [|p0 ps0] eqn:Hps; [done|]. rewrite <- Hps.
  destruct cell as [s|nm cls a ch]; [done|].
  rewrite remove_paths_elem, !prune_elem.
  destruct (stacked_lines (Elem nm cls a ch)) as [|l0 ls]; cbn [children_of].
  - assert (H1 : Forall (fun c => is_table c = false)
                   (remove_paths_list (nested_table_paths (Elem nm cls a ch)) 0 ch)).
    { apply remove_paths_list_no_table. intros j c Hj Hc. by apply (direct_table_listed _ j c). }
    apply Forall_and. split.
    + apply prune_list_keeps; [apply is_table_prune|].
      apply prune_list_keeps; [apply is_table_prune|]. exact H1.
    + apply prune_list_keeps; [apply is_div_class_prune|].
      apply prune_list_dropped. apply is_div_class_prune.
  - apply stack_plain.
Qed.


(** *** A nested table of plain text rows *)

Lemma descendants_text_row cells :
  descendants (text_row cells) = flat_map (fun s => [text_cell s; Text s]) cells.
Proof.
  unfold text_row. cbn [descendants]. induction cells as [|s cells IH]; [done|].
  cbn [map flat_map]. rewrite IH. reflexivity.
Qed.

Lemma find_all_cells_text_row cells : find_all is_cell (text_row cells) = map text_cell cells.
Proof.
  unfold find_all. rewrite descendants_text_row.
  induction cells as [|s cells IH]; [done|]. cbn [flat_map map app List.filter].
  rewrite IH. reflexivity.
Qed.

Lemma find_all_tr_text_row cells : find_all is_tr (text_row cells) = [].
Proof.
  unfold find_all. rewrite descendants_text_row.
  induction cells as [|s cells IH]; [done|]. cbn [flat_map app List.filter]. exact IH.
Qed.

Lemma find_all_tr_table tcls ta (rows : list (list string)) :
  find_all is_tr (Elem "table" tcls ta (map text_row rows)) = map text_row rows.
Proof.
  unfold find_all. cbn [descendants].
  induction rows as [|r rows IH]; [done|]. cbn [map flat_map].
  rewrite List.filter_app, IH.
  change (List.filter is_tr (text_row r :: descendants (text_row r)))
    with (text_row r :: find_all is_tr (text_row r)).
  by rewrite find_all_tr_text_row.
Qed.

Lemma get_text_strip_text_cell s : get_text_strip (text_cell s) = strip s.
Proof.
  unfold get_text_strip, text_cell. cbn [strings flat_map app map List.filter].
  case_bool_decide as H; cbn [negb join]; [by rewrite H|done].
Qed.

(** The line the code reads from a row of plain text cells. *)
Lemma row_line_text_row cells : row_line (text_row cells) = line_of cells.
Proof.
  unfold row_line, line_of. rewrite find_all_cells_text_row, length_map, map_map.
  rewrite (map_ext _ strip) by apply get_text_strip_text_cell. reflexivity.
Qed.

Lemma omap_row_line rows : omap row_line (map text_row rows) = omap line_of rows.
Proof.
  induction rows as [|r rows IH]; [done|]. cbn [map omap list_omap].
  by rewrite row_line_text_row, IH.
Qed.


(** The example cell: two lines, the row of three cells gone. *)
Example flatten_stacked_cell :
  flatten_cell stacked_cell_input
  = Elem "td" ["stacked-cell"] [] [Text "4x 96-d"; br; Text "LN"].
Proof. vm_compute. reflexivity. Qed.

End FlattenFacts.

Module ColspanFacts.
Import PyStr Re Dom Tables DomFacts PathFacts.

Lemma descendant_paths_elem nm cls a ch :
  descendant_paths (Elem nm cls a ch) = descendant_paths_list 0 ch.
Proof.
  cbn [descendant_paths]. generalize 0.
  induction ch as [|c ch IH]; intros i; [done|]. cbn [descendant_paths_list]. by rewrite IH.
Qed.

(** *** The shape of a plain row *)

Lemma descendants_plain_row tag cells :
  descendants (plain_row tag cells)
  = flat_map (fun c => [plain_cell tag c; Text "x"]) cells.
Proof.
  unfold plain_row. cbn [descendants].
  induction cells as [|c cells IH]; [done|]. cbn [map flat_map app descendants]. by rewrite IH.
Qed.

Lemma filter_flat_map_pair {A B} (f : B -> bool) (a b : A -> B) l :
  (forall x, x ∈ l -> f (a x) = true /\ f (b x) = false) ->
  List.filter f (flat_map (fun x => [a x; b x]) l) = map a l.
Proof.
  induction l as [|x l IH]; intros H; [done|]. cbn [flat_map app List.filter map].
  destruct (H x) as [-> ->]; [by left|]. f_equal. apply IH. intros y Hy. apply H. by right.
Qed.

Lemma filter_flat_map_none {A B} (f : B -> bool) (a b : A -> B) l :
  (forall x, x ∈ l -> f (a x) = false /\ f (b x) = false) ->
  List.filter f (flat_map (fun x => [a x; b x]) l) = [].
Proof.
  induction l as [|x l IH]; intros H; [done|]. cbn [flat_map app List.filter].
  destruct (H x) as [-> ->]; [by left|]. apply IH. intros y Hy. apply H. by right.
Qed.

Lemma is_cell_plain_cell tag c : tag ∈ ["td"; "th"] -> is_cell (plain_cell tag c) = true.
Proof. intros H. unfold is_cell, plain_cell, is_tag_in. by apply bool_decide_eq_true_2. Qed.

(** [row.find_all(['td', 'th'])] on a plain row: its cells. *)
Lemma find_all_cells_plain_row tag cells :
  tag ∈ ["td"; "th"] ->
  find_all is_cell (plain_row tag cells) = map (plain_cell tag) cells.
Proof.
  intros Ht. unfold find_all. rewrite descendants_plain_row.
  apply (filter_flat_map_pair is_cell (plain_cell tag) (fun _ => Text "x")).
  intros c _. split; [by apply is_cell_plain_cell|done].
Qed.

(** A test on the name that fails for the cells fails below the row. *)
Lemma find_all_other_plain_row nm tag cells :
  nm <> tag -> find_all (is_tag nm) (plain_row tag cells) = [].
Proof.
  intros Hne. unfold find_all. rewrite descendants_plain_row.
  apply (filter_flat_map_none (is_tag nm) (plain_cell tag) (fun _ => Text "x")).
  intros c _. split; [|done]. unfold plain_cell, is_tag. apply bool_decide_eq_false_2. congruence.
Qed.

Lemma colspan_of_plain_cell tag c : colspan_of (plain_cell tag c) = parse_colspan c.
Proof. by destruct c. Qed.

(** The column count of a plain row is the total of its colspans. *)
Lemma row_cols_plain_row tag cells zs :
  tag ∈ ["td"; "th"] ->
  Forall2 (fun c z => parse_colspan c = Some z) cells zs ->
  row_cols (plain_row tag cells) = Some (total zs).
Proof.
  intros Ht H. unfold row_cols. rewrite find_all_cells_plain_row by done.
  induction H as [|c z cells zs Hc H IH]; [done|].
  cbn [map foldr total]. rewrite colspan_of_plain_cell, Hc. cbn [mbind option_bind].
  unfold total in IH. by rewrite IH.
Qed.

(** *** The shape of a plain table *)

Lemma plain_table_eq header rows :
  plain_table header rows = Elem "table" [] [] [thead_of header; tbody_of rows].
Proof. reflexivity. Qed.

Lemma descendants_thead header :
  List.filter (is_tag "tbody") (descendants (thead_of header)) = [].
Proof.
  unfold thead_of. cbn [descendants flat_map app]. rewrite app_nil_r.
  cbn [List.filter]. replace (is_tag "tbody" (plain_row "th" header)) with false by done.
  apply (find_all_other_plain_row "tbody" "th"). done.
Qed.

Lemma find_tbody header rows :
  find (is_tag "tbody") (plain_table header rows) = Some (tbody_of rows).
Proof.
  unfold find, find_all. rewrite plain_table_eq.
  cbn [descendants flat_map app].
  change (descendants (Elem "thead" [] [] [plain_row "th" header]))
    with (descendants (thead_of header)).
  cbn [List.filter]. replace (is_tag "tbody" (thead_of header)) with false by done.
  rewrite List.filter_app, descendants_thead. cbn [app List.filter].
  by replace (is_tag "tbody" (tbody_of rows)) with true by done.
Qed.

Lemma find_children_rows rows :
  find_children is_tr (tbody_of rows) = map (plain_row "td") rows.
Proof.
  unfold find_children, tbody_of. cbn [children_of].
  induction rows as [|r rows IH]; [done|]. cbn [map List.filter].
  replace (is_tr (plain_row "td" r)) with true by done. by rewrite IH.
Qed.

Lemma data_rows_plain_table header rows :
  data_rows (plain_table header rows) = map (plain_row "td") rows.
Proof. unfold data_rows. rewrite find_tbody. apply find_children_rows. Qed.

Lemma widest_plain_rows rows rz : forall acc,
  Forall2 (Forall2 (fun c z => parse_colspan c = Some z)) rows rz ->
  widest (map (plain_row "td") rows) acc = Some (widest_of acc rz).
Proof.
  intros acc H. revert acc. induction H as [|r zs rows rz Hr H IH]; intros acc; [done|].
  cbn [map widest]. rewrite (row_cols_plain_row "td" r zs); [|by left|done].
  cbn [mbind option_bind]. rewrite IH. reflexivity.
Qed.

(** *** References into a plain table *)

Lemma descendant_paths_list_nonempty l : forall i q,
  q ∈ descendant_paths_list i l -> q <> [].
Proof.
  induction l as [|c l IH]; intros i q Hq; [by apply elem_of_nil in Hq|].
  cbn [descendant_paths_list] in Hq. apply elem_of_app in Hq as [Hq|Hq]; [|by apply (IH (S i))].
  apply elem_of_cons in Hq as [->|Hq]; [done|].
  apply list_elem_of_fmap in Hq as (q' & -> & _). done.
Qed.

Lemma descendant_paths_nonempty n q : q ∈ descendant_paths n -> q <> [].
Proof.
  destruct n as [s|nm cls a ch]; [by intros ?%elem_of_nil|].
  rewrite descendant_paths_elem. apply descendant_paths_list_nonempty.
Qed.

Lemma filter_none {A} (f : A -> bool) l :
  (forall x, x ∈ l -> f x = false) -> List.filter f l = [].
Proof.
  induction l as [|x l IH]; intros H; [done|]. cbn [List.filter].
  rewrite (H x) by (by left). apply IH. intros y Hy. apply H. by right.
Qed.

Lemma find_all_paths_eq p n : find_all_paths p n = List.filter (at_path p n) (descendant_paths n).
Proof. reflexivity. Qed.

(** The paths below a plain row: every cell and its text. *)
Lemma descendant_paths_cells tag cells : forall i,
  descendant_paths_list i (map (plain_cell tag) cells)
  = flat_map (fun j => [[j]; [j; 0]]) (List.seq i (length cells)).
Proof.
  induction cells as [|c cells IH]; intros i; [done|].
  cbn [map descendant_paths_list length List.seq flat_map]. by rewrite IH.
Qed.

Lemma get_at_cell tag cells j :
  get_at [j] (plain_row tag cells) = plain_cell tag <$> cells !! j.
Proof.
  unfold plain_row. cbn [get_at children_of]. rewrite list_lookup_fmap.
  by destruct (cells !! j).
Qed.

Lemma get_at_cell_text tag cells j :
  at_path is_cell (plain_row tag cells) [j; 0] = false.
Proof.
  unfold at_path, plain_row. cbn [get_at children_of]. rewrite list_lookup_fmap.
  by destruct (cells !! j).
Qed.

(** [row.find_all(['td', 'th'])] as references: one path per cell. *)
Lemma find_all_paths_cells tag cells :
  tag ∈ ["td"; "th"] ->
  find_all_paths is_cell (plain_row tag cells) = map (fun j => [j]) (List.seq 0 (length cells)).
Proof.
  intros Ht. rewrite find_all_paths_eq. unfold plain_row at 2.
  rewrite descendant_paths_elem, descendant_paths_cells.
  apply (filter_flat_map_pair _ (fun j => [j]) (fun j => [j; 0])).
  intros j Hj. split; [|apply get_at_cell_text].
  unfold at_path. rewrite get_at_cell.
  apply list_elem_of_In, in_seq in Hj as [_ Hj].
  destruct (lookup_lt_is_Some_2 cells j) as [c ->]; [lia|]. by apply is_cell_plain_cell.
Qed.

(** The header rows of a plain table: the one row of the thead. *)
Lemma header_row_paths_plain_table header rows :
  header_row_paths (plain_table header rows) = [[0; 0]].
Proof.
  unfold header_row_paths.
  assert (H1 : exists rest, find_all_paths (is_tag "thead") (plain_table header rows)
                            = [0] :: rest).
  { rewrite find_all_paths_eq, plain_table_eq, descendant_paths_elem.
    cbn [descendant_paths_list app List.filter].
    replace (at_path (is_tag "thead") (Elem "table" [] [] [thead_of header; tbody_of rows]) [0])
      with true by done.
    by eexists. }
  destruct H1 as [rest ->].
  change (get_at [0] (plain_table header rows)) with (Some (thead_of header)).
  cbv beta iota. rewrite find_all_paths_eq. unfold thead_of at 2. rewrite descendant_paths_elem.
  cbn [descendant_paths_list app List.filter]. rewrite app_nil_r.
  replace (at_path is_tr (thead_of header) [0]) with true by done.
  rewrite filter_none; [done|].
  intros q Hq. apply list_elem_of_fmap in Hq as (q' & -> & Hq').
  unfold at_path, thead_of. cbn [get_at children_of lookup list_lookup].
  destruct (get_at q' (plain_row "th" header)) as [m|] eqn:Hm; [|done].
  apply get_at_descendant in Hm; [|by apply descendant_paths_nonempty in Hq'].
  rewrite descendants_plain_row in Hm.
  apply list_elem_of_In, in_flat_map in Hm as (c & _ & [<-|[<-|[]]]); done.
Qed.

(** *** The repair on a plain table *)

Lemma set_colspan_plain_cell tag c v :
  set_colspan v (plain_cell tag c) = plain_cell tag (Some (str_Z v)).
Proof. by destruct c. Qed.

Lemma update_header_cell (pre suf : list (option string)) c rows f c' :
  f (plain_cell "th" c) = plain_cell "th" c' ->
  update_at [0; 0; length pre] f (plain_table (pre ++ c :: suf) rows)
  = plain_table (pre ++ c' :: suf) rows.
Proof.
  intros Hf. unfold plain_table, plain_row.
  cbn [update_at alter list_alter]. do 4 f_equal.
  rewrite !map_app. cbn [map].
  rewrite <- (length_map (plain_cell "th") pre).
  replace (length (map (plain_cell "th") pre)) with (length (map (plain_cell "th") pre) + 0) by lia.
  rewrite (alter_app_r (update_at [] f)). cbn [alter list_alter update_at]. by rewrite Hf.
Qed.

Lemma get_header_cell (pre suf : list (option string)) c rows :
  get_at ([0; 0] ++ [length pre])%list (plain_table (pre ++ c :: suf) rows)
  = Some (plain_cell "th" c).
Proof.
  change (get_at ([0; 0] ++ [length pre])%list (plain_table (pre ++ c :: suf) rows))
    with (get_at [length pre] (plain_row "th" (pre ++ c :: suf))).
  rewrite get_at_cell. by rewrite list_lookup_middle.
Qed.

(** The inner loop on the cells from [length pre] on. *)
Lemma widen_first_plain shortfall rows suf : forall pre,
  Forall (fun c => is_Some (parse_colspan c)) suf ->
  widen_first [0; 0] shortfall (map (fun j => [j]) (List.seq (length pre) (length suf)))
    (plain_table (pre ++ suf) rows)
  = Some (plain_table (pre ++ widen_spec shortfall suf) rows).
Proof.
  induction suf as [|c suf IH]; intros pre Hsuf; [done|].
  apply Forall_cons in Hsuf as [[z Hz] Hsuf].
  cbn [length List.seq map widen_first widen_spec].
  rewrite get_header_cell. cbn [mbind option_bind].
  rewrite colspan_of_plain_cell, Hz. cbn [mbind option_bind].
  destruct (1 <? z)%Z.
  - f_equal. apply update_header_cell. apply set_colspan_plain_cell.
  - specialize (IH (pre ++ [c])%list Hsuf).
    rewrite length_app in IH. cbn [length] in IH. rewrite Nat.add_1_r in IH.
    rewrite <- !app_assoc in IH. exact IH.
Qed.

Lemma Forall2_parsed cells zs :
  Forall2 (fun c z => parse_colspan c = Some z) cells zs ->
  Forall (fun c => is_Some (parse_colspan c)) cells.
Proof. induction 1; constructor; [by eexists|done]. Qed.

(** *** The same table without a tbody *)

Lemma filter_rows_none (f : node -> bool) (rows : list (list (option string))) :
  (forall r, f (plain_row "td" r) = false) ->
  (forall r, List.filter f (descendants (plain_row "td" r)) = []) ->
  List.filter f (flat_map (fun c => c :: descendants c) (map (plain_row "td") rows)) = [].
Proof.
  intros H1 H2. induction rows as [|r rows IH]; [done|].
  cbn [map flat_map app List.filter]. rewrite H1, List.filter_app, H2, IH. done.
Qed.

Lemma descendants_bare_table header rows :
  descendants (bare_table header rows)
  = ((thead_of header :: descendants (thead_of header))
     ++ flat_map (fun c => c :: descendants c) (map (plain_row "td") rows))%list.
Proof. reflexivity. Qed.

Lemma find_tbody_bare header rows :
  find (is_tag "tbody") (bare_table header rows) = None.
Proof.
  unfold find, find_all. rewrite descendants_bare_table.
  rewrite List.filter_app. cbn [List.filter].
  replace (is_tag "tbody" (thead_of header)) with false by done.
  rewrite descendants_thead. cbn [app].
  rewrite filter_rows_none; [done|done|].
  intros r. apply (find_all_other_plain_row "tbody" "td"). done.
Qed.

Lemma find_children_bare header rows :
  find_children is_tr (bare_table header rows) = map (plain_row "td") rows.
Proof.
  unfold find_children, bare_table. cbn [children_of List.filter].
  replace (is_tr (thead_of header)) with false by done.
  induction rows as [|r rows IH]; [done|]. cbn [map List.filter].
  replace (is_tr (plain_row "td" r)) with true by done. by rewrite IH.
Qed.

(** Without a tbody the first of the rows is left out. *)
Lemma data_rows_bare_table header rows :
  data_rows (bare_table header rows) = map (plain_row "td") (tail rows).
Proof.
  unfold data_rows. rewrite find_tbody_bare, find_children_bare. by destruct rows.
Qed.

Lemma header_row_paths_bare_table header rows :
  header_row_paths (bare_table header rows) = [[0; 0]].
Proof.
  unfold header_row_paths.
  assert (H1 : exists rest, find_all_paths (is_tag "thead") (bare_table header rows)
                            = [0] :: rest).
  { rewrite find_all_paths_eq. unfold bare_table at 2. rewrite descendant_paths_elem.
    cbn [descendant_paths_list app List.filter].
    replace (at_path (is_tag "thead") (bare_table header rows) [0]) with true by done.
    by eexists. }
  destruct H1 as [rest ->].
  change (get_at [0] (bare_table header rows)) with (Some (thead_of header)).
  cbv beta iota. rewrite find_all_paths_eq. unfold thead_of at 2. rewrite descendant_paths_elem.
  cbn [descendant_paths_list app List.filter]. rewrite app_nil_r.
  replace (at_path is_tr (thead_of header) [0]) with true by done.
  rewrite filter_none; [done|].
  intros q Hq. apply list_elem_of_fmap in Hq as (q' & -> & Hq').
  unfold at_path, thead_of. cbn [get_at children_of lookup list_lookup].
  destruct (get_at q' (plain_row "th" header)) as [m|] eqn:Hm; [|done].
  apply get_at_descendant in Hm; [|by apply descendant_paths_nonempty in Hq'].
  rewrite descendants_plain_row in Hm.
  apply list_elem_of_In, in_flat_map in Hm as (c & _ & [<-|[<-|[]]]); done.
Qed.

Lemma update_header_cell_bare (pre suf : list (option string)) c rows f c' :
  f (plain_cell "th" c) = plain_cell "th" c' ->
  update_at [0; 0; length pre] f (bare_table (pre ++ c :: suf) rows)
  = bare_table (pre ++ c' :: suf) rows.
Proof.
  intros Hf. unfold bare_table, thead_of, plain_row.
  cbn [update_at alter list_alter]. do 4 f_equal.
  rewrite !map_app. cbn [map].
  rewrite <- (length_map (plain_cell "th") pre).
  replace (length (map (plain_cell "th") pre)) with (length (map (plain_cell "th") pre) + 0) by lia.
  rewrite (alter_app_r (update_at [] f)). cbn [alter list_alter update_at]. by rewrite Hf.
Qed.

Lemma get_header_cell_bare (pre suf : list (option string)) c rows :
  get_at ([0; 0] ++ [length pre])%list (bare_table (pre ++ c :: suf) rows)
  = Some (plain_cell "th" c).
Proof.
  change (get_at ([0; 0] ++ [length pre])%list (bare_table (pre ++ c :: suf) rows))
    with (get_at [length pre] (plain_row "th" (pre ++ c :: suf))).
  rewrite get_at_cell. by rewrite list_lookup_middle.
Qed.

Lemma widen_first_bare shortfall rows suf : forall pre,
  Forall (fun c => is_Some (parse_colspan c)) suf ->
  widen_first [0; 0] shortfall (map (fun j => [j]) (List.seq (length pre) (length suf)))
    (bare_table (pre ++ suf) rows)
  = Some (bare_table (pre ++ widen_spec shortfall suf) rows).
Proof.
  induction suf as [|c suf IH]; intros pre Hsuf; [done|].
  apply Forall_cons in Hsuf as [[z Hz] Hsuf].
  cbn [length List.seq map widen_first widen_spec].
  rewrite get_header_cell_bare. cbn [mbind option_bind].
  rewrite colspan_of_plain_cell, Hz. cbn [mbind option_bind].
  destruct (1 <? z)%Z.
  - f_equal. apply update_header_cell_bare. apply set_colspan_plain_cell.
  - specialize (IH (pre ++ [c])%list Hsuf).
    rewrite length_app in IH. cbn [length] in IH. rewrite Nat.add_1_r in IH.
    rewrite <- !app_assoc in IH. exact IH.
Qed.

Lemma Forall2_tail {A B} (R : A -> B -> Prop) l k :
  Forall2 R l k -> Forall2 R (tail l) (tail k).
Proof. destruct 1; [constructor|done]. Qed.

(** The step on a table of either shape, from its data rows. *)
Lemma repair_plain header rows hz dz :
  Forall2 (fun c z => parse_colspan c = Some z) header hz ->
  repair_rows dz [[0; 0]] (plain_table header rows)
  = Some (plain_table (repaired_header header hz dz) rows).
Proof.
  intros Hh. cbn [repair_rows].
  change (get_at [0; 0] (plain_table header rows)) with (Some (plain_row "th" header)).
  cbn [mbind option_bind].
  rewrite (row_cols_plain_row "th" header hz); [|by right; left|done].
  cbn [mbind option_bind]. unfold repaired_header.
  destruct (total hz <? dz)%Z; [|done].
  rewrite find_all_paths_cells by (by right; left).
  pose proof (widen_first_plain (dz - total hz) rows header []
                (Forall2_parsed header hz Hh)) as Hw.
  cbn [app length] in Hw. rewrite Hw. reflexivity.
Qed.

Lemma repair_bare header rows hz dz :
  Forall2 (fun c z => parse_colspan c = Some z) header hz ->
  repair_rows dz [[0; 0]] (bare_table header rows)
  = Some (bare_table (repaired_header header hz dz) rows).
Proof.
  intros Hh. cbn [repair_rows].
  change (get_at [0; 0] (bare_table header rows)) with (Some (plain_row "th" header)).
  cbn [mbind option_bind].
  rewrite (row_cols_plain_row "th" header hz); [|by right; left|done].
  cbn [mbind option_bind]. unfold repaired_header.
  destruct (total hz <? dz)%Z; [|done].
  rewrite find_all_paths_cells by (by right; left).
  pose proof (widen_first_bare (dz - total hz) rows header []
                (Forall2_parsed header hz Hh)) as Hw.
  cbn [app length] in Hw. rewrite Hw. reflexivity.
Qed.

(** C3 as stated fails: with header colspans 1 and 1 over data rows of four
    columns nothing is widened, since no header cell has a colspan above 1;
    the second cell keeps colspan 1 and does not get 3. *)
Lemma plain_header_is_not_widened :
  colspan_repair (plain_table [None; None] [[None; None; None; None]])
  = Some (plain_table [None; None] [[None; None; None; None]])
  /\ header_colspans (plain_table [None; None] [[None; None; None; None]])
     = Some [1%Z; 1%Z]
  /\ (colspan_repair (plain_table [None; None] [[None; None; None; None]])
      ≫= header_colspans) <> Some [1%Z; 3%Z].
Proof. vm_compute. repeat split; congruence. Qed.

(** C3 (amended).  On a table with one header row of th cells in a thead and
    rows of td cells as data rows, the colspans being numbers: when the
    header row sums to fewer columns than the widest data row, the first
    header cell whose colspan is above 1 is widened by the shortfall, and a
    header without such a cell is left as it is.  The data rows are the rows
    of the tbody; in a table without a tbody they are the rows that are
    children of the table except the first of them.  With header colspans 1
    and 2 over four data columns the second cell gets 3. *)
Theorem colspan_repair_plain_table (header : list (option string))
    (rows : list (list (option string))) (hz : list Z) (rz : list (list Z)) :
  Forall2 (fun c z => parse_colspan c = Some z) header hz ->
  Forall2 (Forall2 (fun c z => parse_colspan c = Some z)) rows rz ->
  colspan_repair (plain_table header rows)
  = Some (plain_table (if bool_decide (rows = []) then header
                       else repaired_header header hz (widest_of 0%Z rz)) rows)
  /\ colspan_repair (bare_table header rows)
     = Some (bare_table (if bool_decide (tail rows = []) then header
                         else repaired_header header hz (widest_of 0%Z (tail rz))) rows)
  /\ (forall actual_cols,
        Forall (fun z => (z <= 1)%Z) hz -> repaired_header header hz actual_cols = header)
  /\ (colspan_repair (plain_table [None; Some "2"] [[None; None; None; None]])
      ≫= header_colspans) = Some [1%Z; 3%Z].
Proof.
  intros Hh Hr. split; [|split; [|split; [|by vm_compute]]].
  - unfold colspan_repair. rewrite data_rows_plain_table.
    destruct rows as [|r rows]; [done|].
    rewrite bool_decide_eq_false_2 by done.
    cbn [map]. cbv beta iota.
    change (plain_row "td" r :: map (plain_row "td") rows)
      with (map (plain_row "td") (r :: rows)).
    rewrite (widest_plain_rows (r :: rows) rz 0%Z Hr). cbn [mbind option_bind].
    rewrite header_row_paths_plain_table. by apply repair_plain.
  - unfold colspan_repair. rewrite data_rows_bare_table.
    pose proof (Forall2_tail _ _ _ Hr) as Ht.
    destruct (tail rows) as [|r rows'] eqn:E; [done|].
    rewrite bool_decide_eq_false_2 by done.
    cbn [map]. cbv beta iota.
    change (plain_row "td" r :: map (plain_row "td") rows')
      with (map (plain_row "td") (r :: rows')).
    rewrite (widest_plain_rows (r :: rows') (tail rz) 0%Z Ht). cbn [mbind option_bind].
    rewrite header_row_paths_bare_table. by apply repair_bare.
  - intros actual_cols Hle. unfold repaired_header.
    destruct (total hz <? actual_cols)%Z; [|done].
    clear Hr. generalize (actual_cols - total hz)%Z. intros sf.
    induction Hh as [|c z header hz Hc Hh IH]; [done|].
    apply Forall_cons in Hle as [Hz Hle]. cbn [widen_spec]. rewrite Hc.
    replace (1 <? z)%Z with false by (symmetry; apply Z.ltb_ge; lia).
    f_equal. by apply IH.
Qed.

(** A header of three cells over six columns, with a tbody and without:
    without the tbody the wide first row does not count, and the header,
    which is as wide as the second row, stays. *)
Lemma colspan_repair_plain_table_witness :
  colspan_repair (plain_table [None; Some "2"; Some "2"] [[None; None; None; None; None; None];
                                                         [None; None; None; None; None]])
  = Some (plain_table [None; Some "3"; Some "2"]
            [[None; None; None; None; None; None]; [None; None; None; None; None]])
  /\ colspan_repair (bare_table [None; Some "2"; Some "2"]
                       [[None; None; None; None; None; None]; [None; None; None; None; None]])
     = Some (bare_table [None; Some "2"; Some "2"]
               [[None; None; None; None; None; None]; [None; None; None; None; None]])
  /\ (colspan_repair (plain_table [None; Some "2"] [[None; None; None; None]])
      ≫= header_colspans) = Some [1%Z; 3%Z].
Proof.
  destruct (colspan_repair_plain_table [None; Some "2"; Some "2"]
              [[None; None; None; None; None; None]; [None; None; None; None; None]]
              [1; 2; 2]%Z [[1; 1; 1; 1; 1; 1]; [1; 1; 1; 1; 1]]%Z) as (H1 & H2 & _ & H4).
  - repeat constructor.
  - repeat constructor.
  - split; [exact H1|]. split; [exact H2|exact H4].
Defined.

(** In that table the first grouped header cell takes the whole shortfall. *)
Example repair_three_headers :
  repaired_header [None; Some "2"; Some "2"] [1; 2; 2]%Z
    (widest_of 0%Z [[1; 1; 1; 1; 1; 1]; [1; 1]]%Z)
  = [None; Some "3"; Some "2"].
Proof. vm_compute. reflexivity. Qed.

End ColspanFacts.

Module MatchFacts.
Import PyStr Re.

Lemma len_app (s1 s2 : string) : len (s1 +:+ s2) = len s1 + len s2.
Proof. unfold len. induction s1 as [|c s1 IH]; simpl; [done|]. by rewrite IH. Qed.

Lemma append_cons c (s1 s2 : string) : String c s1 +:+ s2 = String c (s1 +:+ s2).
Proof. reflexivity. Qed.

Lemma append_nil_l (s : string) : EmptyString +:+ s = s.
Proof. reflexivity. Qed.

Lemma append_nil_r (s : string) : s +:+ EmptyString = s.
Proof. induction s as [|c s IH]; [done|]. rewrite append_cons. by rewrite IH. Qed.

Lemma append_assoc (s1 s2 s3 : string) : (s1 +:+ s2) +:+ s3 = s1 +:+ (s2 +:+ s3).
Proof. induction s1 as [|c s1 IH]; [done|]. rewrite !append_cons. by rewrite IH. Qed.

Lemma take_app_len (s1 s2 : string) : take (len s1) (s1 +:+ s2) = s1.
Proof. induction s1 as [|c s1 IH]; [by destruct s2|]. cbn [len String.length take]. rewrite append_cons. f_equal. apply IH. Qed.

Lemma drop_app_len (s1 s2 : string) : drop (len s1) (s1 +:+ s2) = s2.
Proof. induction s1 as [|c s1 IH]; [done|]. apply IH. Qed.

Lemma rmatch_cat fl r1 r2 st k :
  rmatch fl (Cat r1 r2) st k = rmatch fl r1 st (fun st' => rmatch fl r2 st' k).
Proof. reflexivity. Qed.

Lemma rmatch_grp fl n r st k :
  rmatch fl (Grp n r) st k
  = rmatch fl r st (fun st' =>
      k (MState (m_pos st') (m_rest st')
           ((n, take (m_pos st' - m_pos st) (m_rest st)) :: m_caps st'))).
Proof. reflexivity. Qed.

Lemma rmatch_rep fl greedy lo hi r st k :
  rmatch fl (Rep greedy lo hi r) st k
  = rep_loop (rmatch fl r) greedy lo hi k (S (len (m_rest st))) 0 st.
Proof. reflexivity. Qed.

(** A literal character matches itself. *)
Lemma rmatch_chr c pos rest caps k :
  rmatch no_flags (Chr c) (MState pos (String c rest) caps) k = k (MState (S pos) rest caps).
Proof.
  cbn [rmatch step1 m_rest m_pos m_caps]. unfold chr_matches. cbn [ignorecase no_flags].
  by rewrite bool_decide_eq_true_2.
Qed.

(** A literal string matches itself. *)
Lemma rmatch_lit s : forall pos rest caps k,
  rmatch no_flags (lit s) (MState pos (s +:+ rest) caps) k
  = k (MState (pos + len s) rest caps).
Proof.
  induction s as [|c s IH]; intros pos rest caps k.
  - rewrite append_nil_l. cbn [lit rmatch len String.length]. by rewrite Nat.add_0_r.
  - rewrite append_cons. destruct s as [|c' s].
    + rewrite append_nil_l. cbn [lit]. rewrite rmatch_chr. cbn [len String.length].
      by rewrite Nat.add_1_r.
    + change (lit (String c (String c' s))) with (Cat (Chr c) (lit (String c' s))).
      change (rmatch no_flags (Cat (Chr c) (lit (String c' s)))
                (MState pos (String c (String c' s +:+ rest)) caps) k)
        with (rmatch no_flags (Chr c) (MState pos (String c (String c' s +:+ rest)) caps)
                (fun st' => rmatch no_flags (lit (String c' s)) st' k)).
      rewrite rmatch_chr, IH. cbn [len String.length].
      by replace (S pos + S (String.length s)) with (pos + S (S (String.length s))) by lia.
Qed.

(** Nothing matches a one-character pattern where the text is at its end or
    has another character. *)
Lemma step1_stops f st k : stops_at f (m_rest st) = true -> step1 f st k = None.
Proof.
  unfold step1, stops_at. destruct (m_rest st) as [|c s]; [done|].
  intros H. apply negb_true_iff in H. by rewrite H.
Qed.

(** A greedy repetition of a one-character pattern takes the whole run of
    characters that pass its test, when what follows the repetition can go
    on from there. *)
Lemma rep_loop_run (f : ascii -> bool) lo k s : forall pos rest caps bound cnt,
  all_chars f s = true ->
  stops_at f rest = true ->
  lo <= cnt + len s ->
  len s < bound ->
  is_Some (k (MState (pos + len s) rest caps)) ->
  rep_loop (step1 f) true lo None k bound cnt (MState pos (s +:+ rest) caps)
  = k (MState (pos + len s) rest caps).
Proof.
  unfold len. induction s as [|c s IH]; intros pos rest caps bound cnt Hall Hstop Hlo Hb [r Hk].
  - cbn [String.length] in *. rewrite Nat.add_0_r in *. rewrite append_nil_l.
    destruct bound as [|bound]; [lia|]. cbn [rep_loop under_hi].
    rewrite step1_stops by done. cbn [or_else].
    by rewrite (proj2 (Nat.leb_le lo cnt)) by lia.
  - cbn [all_chars] in Hall. apply andb_true_iff in Hall as [Hc Hall].
    cbn [String.length] in *. destruct bound as [|bound]; [lia|].
    cbn [rep_loop under_hi]. rewrite append_cons.
    cbn [step1 m_rest m_pos m_caps]. rewrite Hc.
    rewrite (proj2 (Nat.ltb_lt pos (S pos))) by lia.
    specialize (IH (S pos) rest caps bound (S cnt) Hall Hstop).
    replace (S pos + String.length s) with (pos + S (String.length s)) in IH by lia.
    rewrite IH; [|lia|lia|by rewrite Hk].
    by rewrite Hk.
Qed.

(** A repetition that may be empty matches nothing where its pattern fails
    outright. *)
Lemma rep_loop_none body greedy hi k bound st :
  (forall k', body st k' = None) ->
  rep_loop body greedy 0 hi k bound 0 st = k st.
Proof.
  intros Hbody. destruct bound as [|bound]; [done|]. cbn [rep_loop Nat.leb].
  rewrite Hbody. destruct (under_hi hi 0), greedy; cbn [or_else]; by destruct (k st).
Qed.

(** Substitution steps. *)
Lemma sub_go_skip {St : Type} fl r (repl : St -> mobj -> St * string) bound pos c s acc :
  match_at fl r pos (String c s) = None ->
  sub_go fl r repl (S bound) pos (String c s) acc
  = (fst (sub_go fl r repl bound (S pos) s acc),
     String c (snd (sub_go fl r repl bound (S pos) s acc))).
Proof.
  intros H. cbn [sub_go]. rewrite H. by destruct (sub_go fl r repl bound (S pos) s acc).
Qed.

Lemma sub_go_hit {St : Type} fl r (repl : St -> mobj -> St * string) bound pos s acc m :
  match_at fl r pos s = Some m ->
  mo_end m <> pos ->
  sub_go fl r repl (S bound) pos s acc
  = (fst (sub_go fl r repl bound (mo_end m) (drop (mo_end m - pos) s) (fst (repl acc m))),
     snd (repl acc m)
     +:+ snd (sub_go fl r repl bound (mo_end m) (drop (mo_end m - pos) s) (fst (repl acc m)))).
Proof.
  intros H Hne. cbn [sub_go]. rewrite H. destruct (repl acc m) as [acc1 out].
  rewrite (proj2 (Nat.eqb_neq _ _) Hne). cbn [fst snd].
  by destruct (sub_go fl r repl bound (mo_end m) (drop (mo_end m - pos) s) acc1).
Qed.

(** Where no position matches, the text is copied. *)
Lemma sub_go_copy {St : Type} fl r (repl : St -> mobj -> St * string) (f : ascii -> bool) :
  (forall p c s, f c = true -> match_at fl r p (String c s) = None) ->
  (forall p, match_at fl r p EmptyString = None) ->
  forall bound pos s acc,
    all_chars f s = true -> sub_go fl r repl bound pos s acc = (acc, s).
Proof.
  intros Hc He. induction bound as [|bound IH]; intros pos s acc Hall; [done|].
  cbn [sub_go]. destruct s as [|c s]; [by rewrite He|].
  cbn [all_chars] in Hall. apply andb_true_iff in Hall as [H1 H2].
  rewrite Hc by done. by rewrite IH.
Qed.

Lemma all_chars_app f (s1 s2 : string) :
  all_chars f (s1 +:+ s2) = all_chars f s1 && all_chars f s2.
Proof.
  induction s1 as [|c s1 IH]; [done|]. rewrite append_cons. cbn [all_chars].
  by rewrite IH, andb_assoc.
Qed.

Lemma all_chars_impl (f g : ascii -> bool) s :
  (forall c, f c = true -> g c = true) -> all_chars f s = true -> all_chars g s = true.
Proof.
  intros H. induction s as [|c s IH]; [done|]. cbn [all_chars].
  rewrite !andb_true_iff. intros [H1 H2]. split; [by apply H|by apply IH].
Qed.

Lemma all_chars_drop f n : forall s, all_chars f s = true -> all_chars f (drop n s) = true.
Proof.
  induction n as [|n IH]; intros s H; [done|]. destruct s as [|c s]; [done|].
  cbn [all_chars] in H. apply andb_true_iff in H as [_ H]. by apply IH.
Qed.

Lemma all_chars_lstrip_by f g s : all_chars f s = true -> all_chars f (lstrip_by g s) = true.
Proof.
  induction s as [|c s IH]; [done|]. intros H. cbn [lstrip_by]. destruct (g c); [|done].
  cbn [all_chars] in H. apply andb_true_iff in H as [_ H]. by apply IH.
Qed.

Lemma all_chars_rev_app f s1 : forall s2,
  all_chars f (String.rev_app s1 s2) = all_chars f s1 && all_chars f s2.
Proof.
  induction s1 as [|c s1 IH]; intros s2; [done|]. cbn [String.rev_app all_chars].
  rewrite IH. cbn [all_chars]. destruct (f c), (all_chars f s1); done.
Qed.

Lemma all_chars_rev f s : all_chars f (String.rev s) = all_chars f s.
Proof. unfold String.rev. rewrite all_chars_rev_app. cbn [all_chars]. by rewrite andb_true_r. Qed.

Lemma all_chars_rstrip_by f g s : all_chars f s = true -> all_chars f (rstrip_by g s) = true.
Proof.
  intros H. unfold rstrip_by. rewrite all_chars_rev. apply all_chars_lstrip_by.
  by rewrite all_chars_rev.
Qed.

Lemma all_chars_strip f s : all_chars f s = true -> all_chars f (strip s) = true.
Proof. intros H. unfold strip. by apply all_chars_rstrip_by, all_chars_lstrip_by. Qed.

(** Deleting matches leaves characters of the text. *)
Lemma all_chars_sub_go_delete f fl r bound : forall pos s,
  all_chars f s = true ->
  all_chars f (snd (sub_go fl r (fun (u : unit) (_ : mobj) => (u, EmptyString)) bound pos s tt))
  = true.
Proof.
  induction bound as [|bound IH]; intros pos s H; [done|].
  cbn [sub_go]. destruct (match_at fl r pos s) as [m|].
  - destruct (mo_end m =? pos).
    + destruct s as [|c s]; [done|].
      cbn [all_chars] in H. apply andb_true_iff in H as [H1 H2].
      specialize (IH (S pos) s H2).
      destruct (sub_go fl r _ bound (S pos) s tt) as [u tl]. cbn [snd] in *.
      rewrite append_nil_l. cbn [all_chars]. by rewrite H1, IH.
    + specialize (IH (mo_end m) (drop (mo_end m - pos) s) (all_chars_drop f _ s H)).
      destruct (sub_go fl r _ bound (mo_end m) (drop (mo_end m - pos) s) tt) as [u tl].
      cbn [snd] in *. by rewrite append_nil_l.
  - destruct s as [|c s]; [done|].
    cbn [all_chars] in H. apply andb_true_iff in H as [H1 H2].
    specialize (IH (S pos) s H2).
    destruct (sub_go fl r _ bound (S pos) s tt) as [u tl]. cbn [snd] in *.
    cbn [all_chars]. by rewrite H1, IH.
Qed.

Lemma all_chars_re_sub_delete f fl r s :
  all_chars f s = true -> all_chars f (re_sub fl r EmptyString s) = true.
Proof. intros H. by apply all_chars_sub_go_delete. Qed.

End MatchFacts.

Module CiteMatchFacts.
Import PyStr Re Cite MatchFacts.

Lemma digit_char_not_space c : digit_char c = true -> cls_matches no_flags false [Space] c = false.
Proof.
  destruct c as [[] [] [] [] [] [] [] []]; vm_compute; congruence.
Qed.

Lemma digit_char_not_bracket c : digit_char c = true -> chr_matches no_flags "[" c = false.
Proof.
  destruct c as [[] [] [] [] [] [] [] []]; vm_compute; congruence.
Qed.

Lemma digit_char_not_h c : digit_char c = true -> chr_matches no_flags "h" c = false.
Proof.
  destruct c as [[] [] [] [] [] [] [] []]; vm_compute; congruence.
Qed.

Lemma after_digits_closing p caps :
  rmatch no_flags after_digits (MState p "</a>" caps) Some
  = Some (MState (S (S (S (S p)))) EmptyString caps).
Proof. reflexivity. Qed.

Lemma re_cite_number_eq :
  re_cite_number
  = Cat (lit "href=") (Cat (Chr dq_char) (Cat (lit "bibliography.html#bib-") from_key)).
Proof. reflexivity. Qed.

Lemma nonempty_len (s : string) : s <> EmptyString -> 1 <= len s.
Proof. destruct s; [done|]. cbn [len String.length]. lia. Qed.

Lemma from_digits_match shown p caps :
  shown <> EmptyString -> all_chars digit_char shown = true ->
  rmatch no_flags from_digits (MState p (shown +:+ "</a>") caps) Some
  = Some (MState (S (S (S (S (p + len shown))))) EmptyString ((3, shown) :: caps)).
Proof.
  intros Hne Hd. unfold from_digits. rewrite rmatch_cat, rmatch_grp. unfold plus.
  rewrite rmatch_rep.
  change (rmatch no_flags (Cls false [Digit])) with (step1 digit_char).
  cbn [m_rest m_pos m_caps].
  rewrite (rep_loop_run digit_char 1 _ shown p "</a>" caps).
  - cbn [m_rest m_pos m_caps]. rewrite after_digits_closing.
    replace (p + len shown - p) with (len shown) by lia. by rewrite take_app_len.
  - done.
  - reflexivity.
  - apply nonempty_len in Hne. lia.
  - rewrite len_app. lia.
  - cbn [m_rest m_pos m_caps]. by rewrite after_digits_closing.
Qed.

Lemma first_digit shown :
  shown <> EmptyString -> all_chars digit_char shown = true ->
  exists c s, shown = String c s /\ digit_char c = true.
Proof.
  destruct shown as [|c s]; [done|]. intros _ H. cbn [all_chars] in H.
  apply andb_true_iff in H as [H _]. by exists c, s.
Qed.

Lemma before_digits_match shown p caps :
  shown <> EmptyString -> all_chars digit_char shown = true ->
  rmatch no_flags before_digits (MState p (shown +:+ "</a>") caps) Some
  = Some (MState (S (S (S (S (p + len shown))))) EmptyString ((3, shown) :: caps)).
Proof.
  intros Hne Hd. destruct (first_digit shown Hne Hd) as (c & s & Hs & Hc).
  unfold before_digits. rewrite rmatch_cat. unfold star. rewrite rmatch_rep.
  rewrite rep_loop_none.
  2:{ intros k'. subst shown. rewrite append_cons.
      unfold space. cbn [rmatch step1 m_rest]. by rewrite (digit_char_not_space c Hc). }
  rewrite rmatch_cat. unfold opt. rewrite rmatch_rep. rewrite rep_loop_none.
  2:{ intros k'. subst shown. rewrite append_cons.
      cbn [rmatch lit step1 m_rest]. by rewrite (digit_char_not_bracket c Hc). }
  by apply from_digits_match.
Qed.

Lemma after_key_match shown p caps :
  shown <> EmptyString -> all_chars digit_char shown = true ->
  rmatch no_flags after_key (MState p (String dq_char (">" +:+ shown +:+ "</a>")) caps) Some
  = Some (MState (S (S (S (S (S (S p + len shown)))))) EmptyString ((3, shown) :: caps)).
Proof.
  intros Hne Hd. unfold after_key. rewrite rmatch_cat, rmatch_chr, rmatch_cat, rmatch_lit.
  rewrite before_digits_match by done. cbn [len String.length]. do 2 f_equal. lia.
Qed.

Lemma from_key_match key shown p :
  key <> EmptyString -> all_chars key_char key = true ->
  shown <> EmptyString -> all_chars digit_char shown = true ->
  rmatch no_flags from_key
    (MState p (key +:+ String dq_char (">" +:+ shown +:+ "</a>")) []) Some
  = Some (MState (S (S (S (S (S (S (p + len key) + len shown)))))) EmptyString
            [(3, shown); (1, key)]).
Proof.
  intros Hk Hkc Hne Hd. unfold from_key. rewrite rmatch_cat, rmatch_grp. unfold plus.
  rewrite rmatch_rep.
  change (rmatch no_flags (Cls true [Ch dq_char])) with (step1 key_char).
  cbn [m_rest m_pos m_caps].
  rewrite (rep_loop_run key_char 1 _ key p _ []).
  - cbn [m_rest m_pos m_caps]. rewrite after_key_match by done.
    replace (p + len key - p) with (len key) by lia. by rewrite take_app_len.
  - done.
  - reflexivity.
  - apply nonempty_len in Hk. lia.
  - rewrite len_app. lia.
  - cbn [m_rest m_pos m_caps]. by rewrite after_key_match.
Qed.

Lemma len_link_text key shown :
  len (link_text key shown) = 34 + len key + len shown.
Proof.
  unfold link_text. rewrite len_app. cbn [len String.length].
  fold (len ("bibliography.html#bib-" +:+ key +:+ String dq_char (">" +:+ shown +:+ "</a>"))).
  rewrite !len_app. cbn [len String.length].
  fold (len (">" +:+ shown +:+ "</a>")). rewrite !len_app. cbn [len String.length].
  fold (len key). fold (len shown). lia.
Qed.

(** The pattern of the number pass matches such a link as a whole, with the
    key as group 1 and the number as group 3. *)
Lemma cite_number_match key shown p :
  key <> EmptyString -> all_chars key_char key = true ->
  shown <> EmptyString -> all_chars digit_char shown = true ->
  match_at no_flags re_cite_number p (link_text key shown)
  = Some (MObj p (p + len (link_text key shown)) (link_text key shown)
            [(3, shown); (1, key)]).
Proof.
  intros Hk Hkc Hne Hd. unfold match_at. rewrite re_cite_number_eq.
  unfold link_text at 1.
  rewrite rmatch_cat, rmatch_lit, rmatch_cat, rmatch_chr, rmatch_cat, rmatch_lit.
  rewrite from_key_match by done. cbn [m_pos m_caps].
  assert (He : S (S (S (S (S (S (S (p + len "href=") + len "bibliography.html#bib-"
                                   + len key) + len shown)))))
               = p + len (link_text key shown)).
  { rewrite len_link_text. cbn [len String.length]. lia. }
  rewrite He. do 2 f_equal.
  replace (p + len (link_text key shown) - p) with (len (link_text key shown)) by lia.
  rewrite <- (append_nil_r (link_text key shown)) at 2. apply take_app_len.
Qed.

Lemma drop_len (s : string) : drop (len s) s = EmptyString.
Proof. induction s as [|c s IH]; [done|]. apply IH. Qed.

Lemma bib_prefix_app (key rest : string) :
  ("bibliography.html#bib-" +:+ key) +:+ rest = "bibliography.html#bib-" +:+ key +:+ rest.
Proof. apply append_assoc. Qed.

Lemma cite_anchor_link key shown :
  cite_anchor ("bibliography.html#bib-" +:+ key) shown = "<a " +:+ link_text key shown.
Proof.
  unfold cite_anchor, link_text, dq. rewrite bib_prefix_app. reflexivity.
Qed.

Lemma bib_href_link key num :
  bib_href key +:+ ">" +:+ EmptyString +:+ num +:+ EmptyString +:+ "</a>" = link_text key num.
Proof.
  unfold bib_href, link_text, dq. rewrite !append_nil_l.
  rewrite !append_assoc. reflexivity.
Qed.

(** The pattern starts with the letter h. *)
Lemma cite_number_no_match c s p :
  chr_matches no_flags "h" c = false ->
  match_at no_flags re_cite_number p (String c s) = None.
Proof.
  intros H. unfold match_at. rewrite re_cite_number_eq, rmatch_cat.
  change (lit "href=") with (Cat (Chr "h") (lit "ref=")). rewrite rmatch_cat.
  cbn [rmatch step1 m_rest]. by rewrite H.
Qed.

Lemma cite_number_no_match_end p :
  match_at no_flags re_cite_number p EmptyString = None.
Proof. reflexivity. Qed.

(** The number pass on one rewritten citation anchor. *)
Lemma rewrite_numbers_anchor (idx : gmap string string) key shown :
  key <> EmptyString -> all_chars key_char key = true ->
  shown <> EmptyString -> all_chars digit_char shown = true ->
  rewrite_numbers idx (cite_anchor ("bibliography.html#bib-" +:+ key) shown)
  = match idx !! biber_stripped key with
    | Some num => cite_anchor ("bibliography.html#bib-" +:+ biber_stripped key) num
    | None => cite_anchor ("bibliography.html#bib-" +:+ key) shown
    end.
Proof.
  intros Hk Hkc Hne Hd.
  unfold rewrite_numbers, re_sub_fn, re_sub_st. rewrite cite_anchor_link.
  change ("<a " +:+ link_text key shown)
    with (String "<" (String "a" (String " " (link_text key shown)))).
  cbn [len String.length]. fold (len (link_text key shown)).
  rewrite sub_go_skip by (by apply cite_number_no_match). cbn [snd].
  rewrite sub_go_skip by (by apply cite_number_no_match). cbn [snd].
  rewrite sub_go_skip by (by apply cite_number_no_match). cbn [snd].
  rewrite (sub_go_hit _ _ _ _ _ _ _ _ (cite_number_match key shown 3 Hk Hkc Hne Hd)).
  2:{ cbn [mo_end]. rewrite len_link_text. lia. }
  cbn [snd fst mo_end].
  replace (3 + len (link_text key shown) - 3) with (len (link_text key shown)) by lia.
  rewrite drop_len.
  assert (Hend : snd (sub_go no_flags re_cite_number
                        (fun (u : unit) m => (u, cite_number_repl idx m))
                        (len (link_text key shown)) (3 + len (link_text key shown))
                        EmptyString tt) = EmptyString).
  { destruct (len (link_text key shown)); [done|].
    cbn [sub_go]. by rewrite cite_number_no_match_end. }
  rewrite Hend, append_nil_r.
  set (m := MObj 3 (3 + len (link_text key shown)) (link_text key shown)
              [(3, shown); (1, key)]).
  assert (Hg : group_or_empty m 1 = key) by reflexivity.
  destruct (idx !! biber_stripped key) as [num|] eqn:E.
  - rewrite (CiteFacts.cite_number_known idx m num) by (by rewrite Hg).
    rewrite Hg. change (group_or_empty m 2) with EmptyString.
    change (group_or_empty m 4) with EmptyString.
    rewrite bib_href_link. by rewrite cite_anchor_link.
  - rewrite (CiteFacts.cite_number_unknown idx m) by (by rewrite Hg).
    reflexivity.
Qed.

(** *** The link pass on one anchor *)

Lemma re_href_eq :
  re_href = Cat (lit "href=")
              (Cat (Chr dq_char) (Cat (Grp 1 (plus (Cls true [Ch dq_char]))) (Chr dq_char))).
Proof. reflexivity. Qed.

Lemma href_text_app href rest :
  href_text href +:+ rest = "href=" +:+ String dq_char (href +:+ String dq_char rest).
Proof.
  unfold href_text. rewrite append_assoc. f_equal.
  by rewrite append_cons, append_assoc, append_cons, append_nil_l.
Qed.

Lemma len_href_text href : len (href_text href) = S (S (S (S (S (S (S (len href))))))).
Proof.
  unfold href_text. rewrite len_app. cbn [len String.length].
  fold (len (href +:+ String dq_char EmptyString)). rewrite len_app.
  cbn [len String.length]. lia.
Qed.

Lemma href_match href rest p :
  href <> EmptyString -> all_chars key_char href = true ->
  match_at no_flags re_href p (href_text href +:+ rest)
  = Some (MObj p (p + len (href_text href)) (href_text href) [(1, href)]).
Proof.
  intros Hne Hk. unfold match_at.
  rewrite <- (take_app_len (href_text href) rest) at 3.
  rewrite len_href_text, href_text_app, re_href_eq.
  rewrite rmatch_cat, rmatch_lit, rmatch_cat, rmatch_chr, rmatch_cat, rmatch_grp.
  unfold plus. rewrite rmatch_rep.
  change (rmatch no_flags (Cls true [Ch dq_char])) with (step1 key_char).
  cbn [m_rest m_pos m_caps].
  rewrite (rep_loop_run key_char 1 _ href (S (p + len "href=")) (String dq_char rest) []).
  - cbn [m_rest m_pos m_caps]. rewrite rmatch_chr.
    replace (S (p + len "href=") + len href - S (p + len "href=")) with (len href) by lia.
    rewrite take_app_len. cbn [m_pos m_caps].
    replace (S (S (p + len "href=") + len href))
      with (p + S (S (S (S (S (S (S (len href)))))))) by (cbn [len String.length]; lia).
    replace (p + S (S (S (S (S (S (S (len href))))))) - p)
      with (S (S (S (S (S (S (S (len href)))))))) by lia.
    reflexivity.
  - done.
  - reflexivity.
  - apply nonempty_len in Hne. lia.
  - rewrite len_app. lia.
  - cbn [m_rest m_pos m_caps]. by rewrite rmatch_chr.
Qed.

Lemma href_no_match c s p :
  chr_matches no_flags "h" c = false -> match_at no_flags re_href p (String c s) = None.
Proof.
  intros H. unfold match_at. rewrite re_href_eq, rmatch_cat.
  change (lit "href=") with (Cat (Chr "h") (lit "ref=")). rewrite rmatch_cat.
  cbn [rmatch step1 m_rest]. by rewrite H.
Qed.

Lemma cite_anchor_href href shown :
  cite_anchor href shown = "<a " +:+ href_text href +:+ ">" +:+ shown +:+ "</a>".
Proof.
  unfold cite_anchor, href_text, dq.
  rewrite !append_assoc, !append_cons, !append_assoc, !append_cons, !append_nil_l.
  reflexivity.
Qed.

(** The link pass on an anchor whose content is a number: the href is
    replaced by what [cite_repl] returns for it, the rest is copied. *)
Lemma rewrite_links_anchor href shown :
  href <> EmptyString -> all_chars key_char href = true ->
  all_chars digit_char shown = true ->
  rewrite_links (cite_anchor href shown)
  = "<a " +:+ cite_repl (MObj 3 (3 + len (href_text href)) (href_text href) [(1, href)])
    +:+ ">" +:+ shown +:+ "</a>".
Proof.
  intros Hne Hk Hd.
  unfold rewrite_links, re_sub_fn, re_sub_st. rewrite cite_anchor_href.
  change ("<a " +:+ href_text href +:+ ">" +:+ shown +:+ "</a>")
    with (String "<" (String "a" (String " " (href_text href +:+ ">" +:+ shown +:+ "</a>")))).
  cbn [len String.length]. fold (len (href_text href +:+ ">" +:+ shown +:+ "</a>")).
  rewrite sub_go_skip by (by apply href_no_match). cbn [snd].
  rewrite sub_go_skip by (by apply href_no_match). cbn [snd].
  rewrite sub_go_skip by (by apply href_no_match). cbn [snd].
  rewrite (sub_go_hit _ _ _ _ _ _ _ _ (href_match href _ 3 Hne Hk)).
  2:{ cbn [mo_end]. rewrite len_href_text. lia. }
  cbn [snd fst mo_end].
  replace (3 + len (href_text href) - 3) with (len (href_text href)) by lia.
  rewrite drop_app_len.
  rewrite (sub_go_copy no_flags re_href _ not_h).
  - reflexivity.
  - intros p c s Hc. apply href_no_match. by apply negb_true_iff.
  - reflexivity.
  - rewrite !all_chars_app. cbn [andb].
    rewrite (all_chars_impl digit_char not_h shown); [done| |done].
    intros c Hc. unfold not_h. by rewrite digit_char_not_h.
Qed.

Lemma all_chars_strip_prefix f ps : forall key,
  all_chars f key = true -> all_chars f (strip_prefix ps key) = true.
Proof.
  induction ps as [|pre ps IH]; intros key H; [done|]. cbn [strip_prefix].
  destruct (startswith (lower key) (lower pre)); [by apply all_chars_drop|by apply IH].
Qed.

(** A key made from an anchor without a double quote has none. *)
Lemma all_chars_normalize_bib_key f anchor :
  all_chars f anchor = true -> all_chars f (normalize_bib_key anchor) = true.
Proof.
  intros H. unfold normalize_bib_key, lstrip_chars, biber_stripped.
  apply all_chars_lstrip_by, all_chars_strip_prefix, all_chars_re_sub_delete.
  by apply all_chars_strip.
Qed.

Lemma bib_href_anchor key shown :
  "<a " +:+ bib_href key +:+ ">" +:+ shown +:+ "</a>"
  = cite_anchor ("bibliography.html#bib-" +:+ key) shown.
Proof.
  unfold cite_anchor, bib_href, dq. rewrite bib_prefix_app, !append_assoc. reflexivity.
Qed.

End CiteMatchFacts.

(* ===================================================================== *)
(** * Properties of the further parts *)
(* ===================================================================== *)

Module ReTheory.
Import PyStr Re ReAux MatchFacts.

(** *** Strings *)

Lemma startswith_nil (s : string) : startswith s EmptyString = true.
Proof. by destruct s. Qed.

Lemma startswith_app (p rest : string) : startswith (p +:+ rest) p = true.
Proof.
  induction p as [|c p IH]; [apply startswith_nil|].
  rewrite append_cons. cbn [startswith]. by destruct (ascii_dec c c).
Qed.

Lemma startswith_split (s p : string) :
  startswith s p = true -> s = p +:+ drop (len p) s.
Proof.
  revert s. induction p as [|c p IH]; intros s H; [by rewrite append_nil_l|].
  destruct s as [|b s]; [done|]. cbn [startswith] in H.
  destruct (ascii_dec c b) as [->|]; [|done].
  rewrite append_cons. cbn [len String.length drop]. f_equal. by apply IH.
Qed.

Lemma len_drop n : forall s : string, len (drop n s) = len s - n.
Proof.
  induction n as [|n IH]; intros s; [cbn [drop]; lia|].
  destruct s as [|c s]; [done|]. cbn [drop len String.length]. apply IH.
Qed.

Lemma len_take n : forall s : string, len (take n s) = Nat.min n (len s).
Proof.
  induction n as [|n IH]; intros s; [done|].
  destruct s as [|c s]; [done|]. cbn [take len String.length Nat.min]. f_equal. apply IH.
Qed.

Lemma take_drop n : forall s : string, take n s +:+ drop n s = s.
Proof.
  induction n as [|n IH]; intros s; [by rewrite append_nil_l|].
  destruct s as [|c s]; [done|]. cbn [take drop]. rewrite append_cons. f_equal. apply IH.
Qed.

Lemma drop_drop n : forall m (s : string), drop m (drop n s) = drop (n + m) s.
Proof.
  induction n as [|n IH]; intros m s; [done|].
  destruct s as [|c s]; [by destruct m|]. cbn [drop Nat.add]. apply IH.
Qed.

Lemma drop_app n (s1 s2 : string) : n <= len s1 -> drop n (s1 +:+ s2) = drop n s1 +:+ s2.
Proof.
  revert s1. induction n as [|n IH]; intros s1 H; [done|].
  destruct s1 as [|c s1]; [cbn [len String.length] in H; lia|].
  rewrite append_cons. cbn [drop]. apply IH. cbn [len String.length] in H.
  unfold len. lia.
Qed.

(** *** A literal *)

Lemma chr_matches_eq fl (p c : ascii) :
  ignorecase fl = false -> chr_matches fl p c = bool_decide (p = c).
Proof. intros H. unfold chr_matches. by rewrite H. Qed.

(** Without IGNORECASE a literal matches where the text starts with it. *)
Lemma rmatch_lit_spec fl (s : string) : ignorecase fl = false -> forall st k,
  rmatch fl (lit s) st k
  = if startswith (m_rest st) s
    then k (MState (m_pos st + len s) (drop (len s) (m_rest st)) (m_caps st))
    else None.
Proof.
  intros Hi. induction s as [|c s IH]; intros [pos rest caps] k.
  - cbn [lit rmatch m_rest m_pos m_caps len String.length drop]. rewrite startswith_nil.
    by rewrite Nat.add_0_r.
  - assert (Hstep : forall k', step1 (chr_matches fl c) (MState pos rest caps) k'
        = match rest with
          | String b rest' =>
              if ascii_dec c b then k' (MState (S pos) rest' caps) else None
          | EmptyString => None
          end).
    { intros k'. unfold step1. cbn [m_rest m_pos m_caps]. destruct rest as [|b rest']; [done|].
      rewrite chr_matches_eq by done.
      destruct (ascii_dec c b) as [->|Hn]; [by rewrite bool_decide_eq_true_2|].
      by rewrite bool_decide_eq_false_2. }
    destruct s as [|c' s].
    + cbn [lit rmatch]. rewrite Hstep. cbn [m_rest m_pos m_caps]. destruct rest as [|b rest']; [done|].
      cbn [startswith]. destruct (ascii_dec c b); [|done].
      rewrite startswith_nil. cbn [len String.length drop]. by rewrite Nat.add_1_r.
    + change (lit (String c (String c' s))) with (Cat (Chr c) (lit (String c' s))).
      cbn [rmatch]. rewrite Hstep. cbn [m_rest m_pos m_caps].
      destruct rest as [|b rest']; [done|].
      cbn [startswith]. destruct (ascii_dec c b); [|done].
      rewrite IH. cbn [m_rest m_pos m_caps].
      change (startswith rest' (String c' s)) with (startswith rest' (String c' s)).
      destruct (startswith rest' (String c' s)); [|done].
      cbn [len String.length drop].
      by replace (S pos + S (String.length s)) with (pos + S (S (String.length s))) by lia.
Qed.

(** *** A lazy repetition of any character *)

Lemma rep_loop_lazy_any (body : mstate -> (mstate -> option mstate) -> option mstate)
    (k : mstate -> option mstate) caps :
  (forall p c r k', body (MState p (String c r) caps) k' = k' (MState (S p) r caps)) ->
  (forall p k', body (MState p EmptyString caps) k' = None) ->
  forall rest bound cnt pos, len rest < bound ->
    rep_loop body false 0 None k bound cnt (MState pos rest caps)
    = first_success k pos rest caps.
Proof.
  intros Hc He. induction rest as [|c rest IH]; intros bound cnt pos Hb.
  - destruct bound as [|bound]; [cbn [len String.length] in Hb; lia|].
    cbn [rep_loop Nat.leb under_hi or_else first_success]. rewrite He.
    by destruct (k (MState pos EmptyString caps)).
  - destruct bound as [|bound]; [cbn [len String.length] in Hb; lia|].
    cbn [rep_loop Nat.leb under_hi first_success].
    destruct (k (MState pos (String c rest) caps)) as [r|]; [done|]. cbn [or_else].
    rewrite Hc. cbn [m_pos].
    assert (Hlt : (pos <? S pos) = true) by (apply Nat.ltb_lt; lia). rewrite Hlt.
    apply IH. cbn [len String.length] in Hb. unfold len. lia.
Qed.

Lemma rmatch_lazy_any fl (k : mstate -> option mstate) pos rest caps :
  dotall fl = true ->
  rmatch fl (lazy_star Dot) (MState pos rest caps) k = first_success k pos rest caps.
Proof.
  intros Hd. unfold lazy_star. cbn [rmatch m_rest].
  apply rep_loop_lazy_any; [| |lia].
  - intros p c r k'. cbn [rmatch step1 m_rest m_pos m_caps]. unfold dot_matches.
    by rewrite Hd.
  - intros p k'. reflexivity.
Qed.

(** With a continuation that succeeds exactly where [e] starts, the first
    success is at the first occurrence of [e]. *)
Lemma first_success_find (k : mstate -> option mstate) (e : string) caps :
  (forall p r, startswith r e = false -> k (MState p r caps) = None) ->
  (forall p r, startswith r e = true -> is_Some (k (MState p r caps))) ->
  forall rest pos,
    first_success k pos rest caps
    = match find e rest with
      | Some n => k (MState (pos + n) (drop n rest) caps)
      | None => None
      end.
Proof.
  intros Hno Hyes. induction rest as [|c rest IH]; intros pos.
  - cbn [first_success find]. destruct (startswith EmptyString e) eqn:E.
    + cbn [drop]. rewrite Nat.add_0_r. by destruct (Hyes pos EmptyString E) as [r ->].
    + by rewrite Hno.
  - cbn [first_success find]. destruct (startswith (String c rest) e) eqn:E.
    + cbn [drop]. rewrite Nat.add_0_r. by destruct (Hyes pos (String c rest) E) as [r ->].
    + rewrite Hno by done. rewrite IH. destruct (find e rest) as [n|]; [|done].
      cbn [fmap option_fmap option_map drop]. by replace (pos + S n) with (S pos + n) by lia.
Qed.

(** *** Searching for a pattern that starts with a literal *)

Lemma find_drop_none (e : string) : forall n (s : string),
  find e s = None -> find e (drop n s) = None.
Proof.
  induction n as [|n IH]; intros s H; [done|].
  destruct s as [|c s]; [done|]. cbn [drop]. apply IH.
  cbn [find] in H. destruct (startswith (String c s) e); [done|].
  by destruct (find e s).
Qed.

Lemma search_from_find fl r (a : string) :
  (forall p t, startswith t a = false -> match_at fl r p t = None) ->
  forall s pos,
    search_from fl r pos s
    = match find a s with
      | Some n => search_from fl r (pos + n) (drop n s)
      | None => None
      end.
Proof.
  intros Hno. induction s as [|c s IH]; intros pos.
  - cbn [find]. destruct (startswith EmptyString a) eqn:E.
    + cbn [drop]. by rewrite Nat.add_0_r.
    + cbn [search_from]. by rewrite Hno.
  - cbn [find]. destruct (startswith (String c s) a) eqn:E.
    + cbn [drop]. by rewrite Nat.add_0_r.
    + cbn [search_from]. rewrite Hno by done. rewrite IH.
      destruct (find a s) as [n|]; [|done].
      cbn [fmap option_fmap option_map drop]. by replace (pos + S n) with (S pos + n) by lia.
Qed.

Lemma find_Some_startswith (e : string) : forall (s : string) n,
  find e s = Some n -> startswith (drop n s) e = true.
Proof.
  induction s as [|c s IH]; intros n H; cbn [find] in H.
  - destruct (startswith EmptyString e) eqn:E; [|done]. by injection H as <-.
  - destruct (startswith (String c s) e) eqn:E; [by injection H as <-|].
    destruct (find e s) as [m|] eqn:F; [|done]. injection H as <-.
    cbn [drop]. by apply IH.
Qed.

Lemma find_None_startswith (e : string) : forall (s : string) n,
  find e s = None -> startswith (drop n s) e = false.
Proof.
  intros s n H. apply (find_drop_none e n) in H.
  destruct (drop n s) as [|c t]; cbn [find] in H.
  - by destruct (startswith EmptyString e).
  - by destruct (startswith (String c t) e).
Qed.

Lemma search_from_none fl r : forall (t : string) pos,
  (forall p n, match_at fl r p (drop n t) = None) -> search_from fl r pos t = None.
Proof.
  induction t as [|c t IH]; intros pos H; cbn [search_from].
  - pose proof (H pos 0) as H0. cbn [drop] in H0. by rewrite H0.
  - pose proof (H pos 0) as H0. cbn [drop] in H0. rewrite H0.
    apply IH. intros p n. apply (H p (S n)).
Qed.

(** *** A pattern of the shape a(.*?)e *)

(** It matches where the text starts with [a], and group 1 runs up to the
    first [e] after it. *)
Lemma delimited_match_at fl (a e : string) p (t : string) :
  ignorecase fl = false -> dotall fl = true ->
  match_at fl (Cat (lit a) (Cat (Grp 1 (lazy_star Dot)) (lit e))) p t
  = if startswith t a then
      match find e (drop (len a) t) with
      | Some j =>
          Some (MObj p (p + len a + j + len e) (take (p + len a + j + len e - p) t)
                  [(1, take j (drop (len a) t))])
      | None => None
      end
    else None.
Proof.
  intros Hi Hd. unfold match_at.
  cbn [rmatch]. rewrite rmatch_lit_spec by done. cbn [m_rest m_pos m_caps].
  destruct (startswith t a); [|done].
  rewrite rmatch_lazy_any by done.
  rewrite (first_success_find _ e).
  - destruct (find e (drop (len a) t)) as [j|] eqn:F; [|done].
    rewrite rmatch_lit_spec by done. cbn [m_rest m_pos m_caps].
    rewrite (find_Some_startswith _ _ _ F). cbn [m_pos m_caps].
    by replace (p + len a + j - (p + len a)) with j by lia.
  - intros q r Hr. rewrite rmatch_lit_spec by done. cbn [m_rest]. by rewrite Hr.
  - intros q r Hr. rewrite rmatch_lit_spec by done. cbn [m_rest]. by rewrite Hr.
Qed.

(** *** Substitution where nothing matches *)

Lemma sub_go_no_match {St : Type} fl r (repl : St -> mobj -> St * string) :
  forall bound pos (s : string) acc,
    (forall p n, match_at fl r p (drop n s) = None) ->
    sub_go fl r repl bound pos s acc = (acc, s).
Proof.
  induction bound as [|bound IH]; intros pos s acc H; [done|].
  cbn [sub_go]. pose proof (H pos 0) as H0. cbn [drop] in H0. rewrite H0.
  destruct s as [|c s]; [done|].
  rewrite IH; [done|]. intros p n. apply (H p (S n)).
Qed.

(** A prefix in which no match starts is copied. *)
Lemma sub_go_prefix {St : Type} fl r (repl : St -> mobj -> St * string) :
  forall (pre : string) bound pos (rest : string) acc,
    (forall i, i < len pre -> forall p, match_at fl r p (drop i (pre +:+ rest)) = None) ->
    sub_go fl r repl (len pre + bound) pos (pre +:+ rest) acc
    = (fst (sub_go fl r repl bound (pos + len pre) rest acc),
       pre +:+ snd (sub_go fl r repl bound (pos + len pre) rest acc)).
Proof.
  induction pre as [|c pre IH]; intros bound pos rest acc H.
  - cbn [len String.length Nat.add]. rewrite append_nil_l, Nat.add_0_r.
    destruct (sub_go fl r repl bound pos rest acc) as [a t]. by rewrite append_nil_l.
  - cbn [len String.length Nat.add]. rewrite append_cons. cbn [sub_go].
    pose proof (H 0 ltac:(cbn [len String.length]; lia) pos) as H0.
    rewrite append_cons in H0. cbn [drop] in H0. rewrite H0.
    fold (len pre). rewrite IH.
    + replace (pos + S (len pre)) with (S pos + len pre) by lia.
      destruct (sub_go fl r repl bound (S pos + len pre) rest acc) as [a t].
      cbn [fst snd]. by rewrite append_cons.
    + intros i Hi p. specialize (H (S i) ltac:(cbn [len String.length]; unfold len in Hi; lia) p).
      by rewrite append_cons in H.
Qed.

(** The same for a prefix whose characters start no match. *)
Lemma sub_go_prefix_chars {St : Type} fl r (repl : St -> mobj -> St * string)
    (f : ascii -> bool) (pre : string) bound pos (rest : string) acc :
  (forall p c s, f c = true -> match_at fl r p (String c s) = None) ->
  all_chars f pre = true ->
  sub_go fl r repl (len pre + bound) pos (pre +:+ rest) acc
  = (fst (sub_go fl r repl bound (pos + len pre) rest acc),
     pre +:+ snd (sub_go fl r repl bound (pos + len pre) rest acc)).
Proof.
  intros Hc Hall. apply sub_go_prefix. intros i Hi p.
  rewrite drop_app by lia.
  assert (Hd : all_chars f (drop i pre) = true) by (by apply all_chars_drop).
  destruct (drop i pre) as [|c u] eqn:E.
  - exfalso. apply (f_equal len) in E. rewrite len_drop in E.
    cbn [len String.length] in E. lia.
  - rewrite append_cons. apply Hc. cbn [all_chars] in Hd.
    by apply andb_true_iff in Hd as [Hd _].
Qed.

(** *** A match never ends before it starts *)

Lemma or_else_Some {A} (x y : option A) (r : A) :
  or_else x y = Some r -> x = Some r \/ y = Some r.
Proof. destruct x; cbn [or_else]; intros H; [by left|by right]. Qed.

Lemma rep_loop_mono (body : mstate -> (mstate -> option mstate) -> option mstate)
    greedy lo hi (k : mstate -> option mstate) :
  (forall st k' res,
     (forall st' res', k' st' = Some res' -> m_pos st' <= m_pos res') ->
     body st k' = Some res -> m_pos st <= m_pos res) ->
  (forall st' res', k st' = Some res' -> m_pos st' <= m_pos res') ->
  forall bound cnt st res,
    rep_loop body greedy lo hi k bound cnt st = Some res -> m_pos st <= m_pos res.
Proof.
  intros Hbody Hk. induction bound as [|bound IH]; intros cnt st res H.
  - cbn [rep_loop] in H. destruct (lo <=? cnt); [by apply Hk|done].
  - cbn [rep_loop] in H.
    assert (Hstop : (if lo <=? cnt then k st else None) = Some res -> m_pos st <= m_pos res).
    { destruct (lo <=? cnt); [apply Hk|done]. }
    assert (Hmore : (if under_hi hi cnt
                     then body st (fun st' =>
                            if m_pos st <? m_pos st'
                            then rep_loop body greedy lo hi k bound (S cnt) st'
                            else None)
                     else None) = Some res -> m_pos st <= m_pos res).
    { destruct (under_hi hi cnt); [|done]. apply Hbody.
      intros st' res' H'. destruct (m_pos st <? m_pos st'); [|done]. by apply IH in H'. }
    destruct greedy; apply or_else_Some in H as [H|H]; auto.
Qed.

Lemma rmatch_mono fl r : forall st (k : mstate -> option mstate) res,
  (forall st' res', k st' = Some res' -> m_pos st' <= m_pos res') ->
  rmatch fl r st k = Some res -> m_pos st <= m_pos res.
Proof.
  assert (Hstep : forall f st (k : mstate -> option mstate) res,
            (forall st' res', k st' = Some res' -> m_pos st' <= m_pos res') ->
            step1 f st k = Some res -> m_pos st <= m_pos res).
  { intros f [pos rest caps] k res Hk H. unfold step1 in H. cbn [m_rest m_pos m_caps] in *.
    destruct rest as [|c rest]; [done|]. destruct (f c); [|done].
    apply Hk in H. cbn [m_pos] in H. lia. }
  induction r as [| | | |r1 IH1 r2 IH2|r1 IH1 r2 IH2|greedy lo hi r' IH|n r' IH|n|];
    intros st k res Hk H; cbn [rmatch] in H.
  - by apply Hk.
  - by apply Hstep in H.
  - by apply Hstep in H.
  - by apply Hstep in H.
  - apply IH1 in H; [done|]. intros st' res' H'. by apply IH2 in H'.
  - apply or_else_Some in H as [H|H]; [by apply IH1 in H|by apply IH2 in H].
  - apply rep_loop_mono in H; [done| |done]. intros st0 k' res0 Hk' H0. by apply IH in H0.
  - apply IH in H; [done|]. intros st' res' H'. apply Hk in H'. by cbn [m_pos] in H'.
  - destruct (cap_lookup n (m_caps st)) as [g|]; [|done].
    destruct (startswith (m_rest st) g); [|done]. apply Hk in H. cbn [m_pos] in H. lia.
  - destruct (m_pos st =? 0); [by apply Hk|done].
Qed.

Lemma match_at_mono fl r p (s : string) m :
  match_at fl r p s = Some m -> p <= mo_end m.
Proof.
  unfold match_at. destruct (rmatch fl r (MState p s []) Some) as [st|] eqn:E; [|done].
  intros [= <-]. cbn [mo_end]. apply rmatch_mono in E; [done|]. by intros st' res' [= ->].
Qed.

(** *** A greedy repetition before the end of the pattern *)

(** Once the lower bound is reached the loop finds a match. *)
Lemma rep_loop_greedy_total (body : mstate -> (mstate -> option mstate) -> option mstate)
    lo hi (k : mstate -> option mstate) :
  (forall st, is_Some (k st)) ->
  forall bound cnt st, lo <= cnt -> is_Some (rep_loop body true lo hi k bound cnt st).
Proof.
  intros Hk bound cnt st Hlo.
  assert (Hle : (lo <=? cnt) = true) by (by apply Nat.leb_le).
  destruct bound as [|bound]; cbn [rep_loop]; rewrite Hle; [apply Hk|].
  destruct (if under_hi hi cnt then _ else None) as [r|]; cbn [or_else]; [by eexists|apply Hk].
Qed.

(** One or more characters of a class, at the end of a pattern: at a
    character of the class there is a match, and it is not empty. *)
Lemma plus_class_match fl (f : ascii -> bool) r' p c (s : string) :
  (forall st k, rmatch fl r' st k = step1 f st k) ->
  f c = true ->
  exists m, match_at fl (plus r') p (String c s) = Some m /\ p < mo_end m.
Proof.
  intros Hr Hc. unfold match_at, plus. cbn [rmatch m_rest].
  set (bound := len (String c s)).
  cbn [rep_loop Nat.leb under_hi]. rewrite Hr. unfold step1. cbn [m_rest m_pos m_caps].
  rewrite Hc. assert (Hlt : (p <? S p) = true) by (apply Nat.ltb_lt; lia). rewrite Hlt.
  destruct (rep_loop_greedy_total (rmatch fl r') 1 None Some
              ltac:(by eexists) bound 1 (MState (S p) s []) ltac:(lia)) as [st Hst].
  rewrite Hst. cbn [or_else]. eexists. split; [reflexivity|]. cbn [mo_end].
  apply rep_loop_mono in Hst; [cbn [m_pos] in Hst; lia| |by intros st' res' [= ->]].
  intros st0 k' res0 Hk' H0. by apply rmatch_mono in H0.
Qed.

(** *** The characters of the result of a substitution *)

(** With a fixed replacement: where the characters that are copied pass a
    test and the replacement does, the result does. *)
Lemma all_chars_sub_go_const (f : ascii -> bool) fl r (repl : string) :
  all_chars f repl = true ->
  (forall p c s, f c = false ->
     exists m, match_at fl r p (String c s) = Some m /\ p < mo_end m) ->
  forall bound pos (s : string), len s <= bound ->
    all_chars f (snd (sub_go fl r (fun (u : unit) (_ : mobj) => (u, repl)) bound pos s tt))
    = true.
Proof.
  intros Hrepl Hm. induction bound as [|bound IH]; intros pos s Hb.
  { destruct s; [done|cbn [len String.length] in Hb; lia]. }
  cbn [sub_go]. destruct (match_at fl r pos s) as [m|] eqn:E.
  - destruct (mo_end m =? pos) eqn:Ee.
    + destruct s as [|c s]; [done|].
      assert (Hc : f c = true).
      { destruct (f c) eqn:Hc; [done|]. destruct (Hm pos c s Hc) as (m' & Hm' & Hlt).
        rewrite E in Hm'. injection Hm' as <-. apply Nat.eqb_eq in Ee. lia. }
      specialize (IH (S pos) s ltac:(cbn [len String.length] in Hb; unfold len; lia)).
      destruct (sub_go fl r _ bound (S pos) s tt) as [u tl]. cbn [snd] in *.
      rewrite all_chars_app. cbn [all_chars]. by rewrite Hrepl, Hc, IH.
    + apply match_at_mono in E as Hle. apply Nat.eqb_neq in Ee.
      assert (Hs : s <> EmptyString \/ s = EmptyString) by (destruct s; [by right|by left]).
      specialize (IH (mo_end m) (drop (mo_end m - pos) s)).
      destruct (sub_go fl r _ bound (mo_end m) (drop (mo_end m - pos) s) tt) as [u tl].
      cbn [snd] in *. rewrite all_chars_app, Hrepl. apply IH.
      rewrite len_drop. destruct s; cbn [len String.length] in *; lia.
  - destruct s as [|c s]; [done|].
    assert (Hc : f c = true).
    { destruct (f c) eqn:Hc; [done|]. destruct (Hm pos c s Hc) as (m' & Hm' & _).
      congruence. }
    specialize (IH (S pos) s ltac:(cbn [len String.length] in Hb; unfold len; lia)).
    destruct (sub_go fl r _ bound (S pos) s tt) as [u tl]. cbn [snd] in *.
    cbn [all_chars]. by rewrite Hc, IH.
Qed.

(** With a fixed replacement that passes the test, a text that passes it
    keeps doing so. *)
Lemma all_chars_sub_go_keep (f : ascii -> bool) fl r (repl : string) :
  all_chars f repl = true ->
  forall bound pos (s : string),
    all_chars f s = true ->
    all_chars f (snd (sub_go fl r (fun (u : unit) (_ : mobj) => (u, repl)) bound pos s tt))
    = true.
Proof.
  intros Hrepl. induction bound as [|bound IH]; intros pos s H; [done|].
  cbn [sub_go]. destruct (match_at fl r pos s) as [m|].
  - destruct (mo_end m =? pos).
    + destruct s as [|c s]; [done|].
      cbn [all_chars] in H. apply andb_true_iff in H as [H1 H2].
      specialize (IH (S pos) s H2).
      destruct (sub_go fl r _ bound (S pos) s tt) as [u tl]. cbn [snd] in *.
      rewrite all_chars_app. cbn [all_chars]. by rewrite Hrepl, H1, IH.
    + specialize (IH (mo_end m) (drop (mo_end m - pos) s) (all_chars_drop f _ s H)).
      destruct (sub_go fl r _ bound (mo_end m) (drop (mo_end m - pos) s) tt) as [u tl].
      cbn [snd] in *. by rewrite all_chars_app, Hrepl, IH.
  - destruct s as [|c s]; [done|].
    cbn [all_chars] in H. apply andb_true_iff in H as [H1 H2].
    specialize (IH (S pos) s H2).
    destruct (sub_go fl r _ bound (S pos) s tt) as [u tl]. cbn [snd] in *.
    cbn [all_chars]. by rewrite H1, IH.
Qed.

End ReTheory.

Module MarkerFacts.
Import PyStr Re ReAux MatchFacts ReTheory Safety.

(** The marker pattern at one position: the text has to start with the
    opening marker, and group 1 runs up to the first closing marker. *)
Lemma markers_match_at p (t : string) :
  match_at DOTALL re_markers p t
  = if startswith t content_start then
      match find content_end (drop (len content_start) t) with
      | Some j =>
          Some (MObj p (p + len content_start + j + len content_end)
                  (take (p + len content_start + j + len content_end - p) t)
                  [(1, take j (drop (len content_start) t))])
      | None => None
      end
    else None.
Proof. by apply (delimited_match_at DOTALL content_start content_end). Qed.

(** X1. The body that [validate_output_safety] measures, and that
    [process_chapter] takes up again from a page it wrote, is the text
    between the first opening marker and the first closing marker after it;
    there is none when one of the two is missing. *)
Theorem extracted_body_between_markers (html : string) :
  extracted_body html
  = match find content_start html with
    | Some i =>
        match find content_end (drop (i + len content_start) html) with
        | Some j => Some (take j (drop (i + len content_start) html))
        | None => None
        end
    | None => None
    end.
Proof.
  unfold extracted_body, re_search.
  rewrite (search_from_find DOTALL re_markers content_start).
  2:{ intros p t Ht. rewrite markers_match_at. by rewrite Ht. }
  destruct (find content_start html) as [i|] eqn:Fi; [|done].
  rewrite <- drop_drop.
  pose proof (find_Some_startswith _ _ _ Fi) as Hs.
  set (t := drop i html) in *.
  destruct (find content_end (drop (len content_start) t)) as [j|] eqn:Fj.
  - destruct t as [|c t'] eqn:Et; cbn [search_from]; rewrite markers_match_at, Hs, Fj; done.
  - rewrite search_from_none; [done|].
    intros p n. rewrite markers_match_at.
    destruct (startswith (drop n t) content_start); [|done].
    rewrite drop_drop, Nat.add_comm, <- drop_drop.
    by rewrite (find_drop_none _ n _ Fj).
Qed.

End MarkerFacts.

Module MathGuardMore.
Import PyStr Re ReAux MatchFacts ReTheory MathGuard MathAux.

(** *** Patterns that start with a given character *)

Lemma head_chr_no_match fl (a : ascii) r p c (s : string) :
  ignorecase fl = false -> a <> c ->
  match_at fl (Cat (Chr a) r) p (String c s) = None.
Proof.
  intros Hi Hn. unfold match_at. cbn [rmatch step1 m_rest].
  rewrite chr_matches_eq by done. by rewrite bool_decide_eq_false_2.
Qed.

Lemma head_chr_no_match_nil fl (a : ascii) r p :
  match_at fl (Cat (Chr a) r) p EmptyString = None.
Proof. reflexivity. Qed.

Lemma head_lit_no_match fl (a : ascii) (a' : string) r p c (s : string) :
  ignorecase fl = false -> a <> c ->
  match_at fl (Cat (lit (String a a')) r) p (String c s) = None.
Proof.
  intros Hi Hn. unfold match_at. cbn [rmatch]. rewrite rmatch_lit_spec by done.
  cbn [m_rest startswith]. by destruct (ascii_dec a c).
Qed.

Lemma head_lit_no_match_nil fl (a : ascii) (a' : string) r p :
  ignorecase fl = false ->
  match_at fl (Cat (lit (String a a')) r) p EmptyString = None.
Proof.
  intros Hi. unfold match_at. cbn [rmatch]. by rewrite rmatch_lit_spec.
Qed.

Lemma math_free_char_spec c :
  math_free_char c = true -> "<"%char <> c /\ bsl_char <> c /\ "$"%char <> c.
Proof.
  unfold math_free_char. intros H.
  apply andb_true_iff in H as [H H3]. apply andb_true_iff in H as [H1 H2].
  apply negb_true_iff, bool_decide_eq_false in H1, H2, H3. by repeat split; intros <-.
Qed.

(** None of the six patterns matches at a character that opens no
    container, nor at the end of the text. *)
Lemma passes_no_match r p c (s : string) :
  In r passes -> math_free_char c = true -> match_at DOTALL r p (String c s) = None.
Proof.
  intros Hr Hc. destruct (math_free_char_spec c Hc) as (H1 & H2 & H3).
  cbn [passes In] in Hr.
  destruct Hr as [<-|[<-|[<-|[<-|[<-|[<-|[]]]]]]].
  - by apply (head_lit_no_match DOTALL "<" "script").
  - by apply (head_lit_no_match DOTALL "<" "mjx-container").
  - by apply (head_lit_no_match DOTALL "<" "math").
  - by apply (head_chr_no_match DOTALL bsl_char).
  - by apply (head_lit_no_match DOTALL "$" "$").
  - by apply (head_chr_no_match DOTALL bsl_char).
Qed.

Lemma passes_no_match_nil r p :
  In r passes -> match_at DOTALL r p EmptyString = None.
Proof.
  intros Hr. cbn [passes In] in Hr.
  destruct Hr as [<-|[<-|[<-|[<-|[<-|[<-|[]]]]]]]; reflexivity.
Qed.

Lemma run_passes_plain ps (d : store) (x : string) :
  (forall r, In r ps -> In r passes) ->
  all_chars math_free_char x = true -> run_passes ps (d, x) = (d, x).
Proof.
  revert d. induction ps as [|r ps IH]; intros d Hin Hx; [done|].
  change (run_passes (r :: ps) (d, x))
    with (run_passes ps (re_sub_st DOTALL r protect_repl x d)).
  unfold re_sub_st. rewrite (sub_go_copy DOTALL r protect_repl math_free_char).
  - apply IH; [|done]. intros r' Hr'. apply Hin. by right.
  - intros p c s Hc. apply passes_no_match; [|done]. apply Hin. by left.
  - intros p. apply passes_no_match_nil. apply Hin. by left.
  - done.
Qed.

(** X4. Text that holds no less-than sign, no backslash and no dollar goes
    through [protect_math] unchanged, no token is recorded, and
    [restore_math] gives it back. *)
Theorem protect_math_plain_text (x : string) :
  all_chars math_free_char x = true ->
  protect_math x = ([], x) /\ roundtrip x = x.
Proof.
  intros Hx.
  assert (H : protect_math x = ([], x)) by (by apply run_passes_plain).
  split; [done|]. unfold roundtrip. by rewrite H.
Qed.

Lemma protect_math_plain_text_witness :
  protect_math "Gradient descent (see Lecture 3) & more"
  = ([], "Gradient descent (see Lecture 3) & more")
  /\ roundtrip "Gradient descent (see Lecture 3) & more"
     = "Gradient descent (see Lecture 3) & more".
Proof. apply protect_math_plain_text. reflexivity. Defined.

(** *** The keys of the store *)

Lemma append_inj_r (s1 s2 t : string) : s1 +:+ t = s2 +:+ t -> s1 = s2.
Proof.
  revert s2. induction s1 as [|c s1 IH]; intros s2 H.
  - destruct s2 as [|c2 s2]; [done|]. exfalso.
    apply (f_equal len) in H. rewrite append_nil_l, len_app in H.
    cbn [len String.length] in H. unfold len in H. lia.
  - destruct s2 as [|c2 s2].
    + exfalso. apply (f_equal len) in H. rewrite append_nil_l, len_app in H.
      cbn [len String.length] in H. unfold len in H. lia.
    + rewrite !append_cons in H. injection H as -> H. f_equal. by apply IH.
Qed.

Lemma token_inj i j : token i = token j -> i = j.
Proof.
  unfold token, str_nat. intros H.
  apply (inj (String.append "MATH_TOKEN_")) in H.
  apply append_inj_r in H. by apply (inj pretty) in H.
Qed.

Lemma dict_set_fresh k v (d : store) :
  k ∉ map fst d -> dict_set k v d = (d ++ [(k, v)])%list.
Proof.
  induction d as [|[k' v'] d IH]; intros Hk; [done|].
  cbn [dict_set app]. cbn [map fst] in Hk. apply not_elem_of_cons in Hk as [Hne Hk].
  destruct (String.eqb k k') eqn:E; [by apply String.eqb_eq in E|].
  by rewrite IH.
Qed.

Lemma token_fresh n : token n ∉ tokens_upto n.
Proof.
  unfold tokens_upto. intros H. apply list_elem_of_fmap in H as (i & Hi & Hin).
  apply token_inj in Hi as <-. apply list_elem_of_In, in_seq in Hin. lia.
Qed.

Lemma tokens_upto_S n : tokens_upto (S n) = (tokens_upto n ++ [token n])%list.
Proof. unfold tokens_upto. by rewrite seq_S, map_app. Qed.

(** The closure keeps the keys numbered from 0 on and appends its entry. *)
Lemma protect_repl_keys (d : store) m :
  map fst d = tokens_upto (length d) ->
  fst (protect_repl d m) = (d ++ [(token (length d), mo_text m)])%list
  /\ map fst (fst (protect_repl d m)) = tokens_upto (length (fst (protect_repl d m))).
Proof.
  intros Hd. unfold protect_repl. cbn [fst].
  assert (Hf : dict_set (token (length d)) (mo_text m) d
               = (d ++ [(token (length d), mo_text m)])%list).
  { apply dict_set_fresh. rewrite Hd. apply token_fresh. }
  rewrite Hf. split; [done|].
  rewrite map_app, length_app. cbn [map fst length].
  rewrite Nat.add_1_r, tokens_upto_S. by rewrite Hd.
Qed.

Lemma run_passes_invariant (Inv : store -> Prop) ps :
  (forall d m, Inv d -> Inv (fst (protect_repl d m))) ->
  forall d s, Inv d -> Inv (fst (run_passes ps (d, s))).
Proof.
  intros Hstep. induction ps as [|r ps IH]; intros d s Hd; [done|].
  change (run_passes (r :: ps) (d, s))
    with (run_passes ps (re_sub_st DOTALL r protect_repl s d)).
  pose proof (ReFacts.re_sub_st_invariant Inv DOTALL r protect_repl s d Hstep Hd) as H1.
  destruct (re_sub_st DOTALL r protect_repl s d) as [d1 s1]. by apply IH.
Qed.

(** X5. Whatever the input, the keys that [protect_math] leaves in the store are
    MATH_TOKEN_0__, MATH_TOKEN_1__, ... in the order of recording: all
    different, so that no recorded container was overwritten by a later
    one. *)
Theorem protect_math_store_keys (x : string) :
  map fst (fst (protect_math x)) = tokens_upto (length (fst (protect_math x)))
  /\ NoDup (map fst (fst (protect_math x))).
Proof.
  assert (H : map fst (fst (protect_math x))
              = tokens_upto (length (fst (protect_math x)))).
  { unfold protect_math.
    apply (run_passes_invariant (fun d => map fst d = tokens_upto (length d))); [|done].
    intros d m Hd. by apply protect_repl_keys. }
  split; [done|]. rewrite H. unfold tokens_upto.
  apply (NoDup_fmap_2_strong token).
  - intros i j _ _. apply token_inj.
  - apply NoDup_ListNoDup, List.seq_NoDup.
Qed.

(** *** One container between plain text *)

Lemma run_passes_app ps1 ps2 st :
  run_passes (ps1 ++ ps2)%list st = run_passes ps2 (run_passes ps1 st).
Proof. unfold run_passes. apply fold_left_app. Qed.

Lemma run_passes_copy (f : ascii -> bool) ps (d : store) (x : string) :
  (forall r, In r ps -> forall p c s, f c = true -> match_at DOTALL r p (String c s) = None) ->
  (forall r, In r ps -> forall p, match_at DOTALL r p EmptyString = None) ->
  all_chars f x = true -> run_passes ps (d, x) = (d, x).
Proof.
  revert d. induction ps as [|r ps IH]; intros d Hc He Hx; [done|].
  change (run_passes (r :: ps) (d, x))
    with (run_passes ps (re_sub_st DOTALL r protect_repl x d)).
  unfold re_sub_st. rewrite (sub_go_copy DOTALL r protect_repl f).
  - apply IH; [| |done].
    + intros r' Hr'. apply Hc. by right.
    + intros r' Hr'. apply He. by right.
  - apply Hc. by left.
  - apply He. by left.
  - done.
Qed.

Lemma find_app_fresh (a : ascii) (e' body post : string) :
  all_chars (fun c => negb (bool_decide (c = a))) body = true ->
  find (String a e') (body +:+ String a e' +:+ post) = Some (len body).
Proof.
  induction body as [|c body IH]; intros H.
  - rewrite append_nil_l.
    pose proof (startswith_app (String a e') post) as Hs.
    rewrite append_cons in *. cbn [find]. by rewrite Hs.
  - cbn [all_chars] in H. apply andb_true_iff in H as [Hc H].
    apply negb_true_iff, bool_decide_eq_false in Hc.
    rewrite append_cons. cbn [find startswith].
    destruct (ascii_dec a c) as [->|_]; [done|].
    rewrite IH by done. reflexivity.
Qed.

Lemma lit_match_at fl (e : string) p (t : string) :
  ignorecase fl = false ->
  match_at fl (lit e) p t
  = if startswith t e then Some (MObj p (p + len e) (take (p + len e - p) t) []) else None.
Proof.
  intros Hi. unfold match_at. rewrite rmatch_lit_spec by done. cbn [m_rest m_pos m_caps].
  by destruct (startswith t e).
Qed.

Lemma startswith_char_at : forall (p t : string) d,
  startswith t p = true -> d < len p -> char_at d t = char_at d p.
Proof.
  induction p as [|a p IH]; intros t d Hs Hd; [cbn [len String.length] in Hd; lia|].
  destruct t as [|b t]; [done|]. cbn [startswith] in Hs.
  destruct (ascii_dec a b) as [->|]; [|done].
  destruct d as [|d]; [done|]. cbn [char_at]. apply IH; [done|].
  cbn [len String.length] in Hd. unfold len. lia.
Qed.

Lemma char_at_app (u v : string) : char_at (len u) (u +:+ v) = char_at 0 v.
Proof.
  induction u as [|c u IH]; [by rewrite append_nil_l|].
  rewrite append_cons. cbn [len String.length char_at]. apply IH.
Qed.

Lemma startswith_long : forall (p u v : string),
  len p <= len u -> startswith (u +:+ v) p = startswith u p.
Proof.
  induction p as [|a p IH]; intros u v H; [by rewrite !startswith_nil|].
  destruct u as [|b u]; [cbn [len String.length] in H; lia|].
  rewrite append_cons. cbn [startswith]. destruct (ascii_dec a b); [|done].
  apply IH. cbn [len String.length] in H. unfold len. lia.
Qed.

Lemma find_startswith_0 (p u : string) : startswith u p = true -> find p u = Some 0.
Proof. intros H. destruct u; cbn [find]; by rewrite H. Qed.

Lemma token_0 : token 0 = "MATH_TOKEN_0__".
Proof. reflexivity. Qed.

(** An occurrence of the token of a container cannot begin in the text
    before it unless that text holds the token itself. *)
Lemma token_0_no_overlap (u rest : string) :
  u <> EmptyString -> find (token 0) u = None ->
  startswith (u +:+ token 0 +:+ rest) (token 0) = false.
Proof.
  intros Hu Hf. destruct (startswith (u +:+ token 0 +:+ rest) (token 0)) eqn:E; [|done].
  exfalso. destruct (le_lt_dec (len (token 0)) (len u)) as [Hl|Hl].
  - rewrite startswith_long in E by done.
    apply find_startswith_0 in E. congruence.
  - pose proof (startswith_char_at _ _ (len u) E Hl) as Hc.
    rewrite char_at_app in Hc. rewrite token_0 in Hc, Hl.
    assert (Hpos : 0 < len u) by (destruct u; [done|cbn [len String.length]; lia]).
    cbn [String.append char_at] in Hc.
    revert Hc Hl Hpos. generalize (len u) as d. intros d.
    do 14 (destruct d as [|d]; [cbn; intros; first [lia|discriminate]|]).
    cbn [len String.length]. intros; lia.
Qed.

(** X6. What the protection leaves of a dollar-dollar container between two
    texts, when neither the texts nor the body hold a less-than sign, a
    backslash or a dollar; and the round trip of such an input, when the
    texts do not already hold the token that stands for the container. *)
Theorem roundtrip_single_display (pre body post : string) :
  all_chars math_free_char pre = true ->
  all_chars math_free_char body = true ->
  all_chars math_free_char post = true ->
  find (token 0) pre = None ->
  find (token 0) post = None ->
  protect_math (pre +:+ "$$" +:+ body +:+ "$$" +:+ post)
  = ([(token 0, "$$" +:+ body +:+ "$$")], pre +:+ token 0 +:+ post)
  /\ roundtrip (pre +:+ "$$" +:+ body +:+ "$$" +:+ post)
     = pre +:+ "$$" +:+ body +:+ "$$" +:+ post.
Proof.
  intros Hpre Hbody Hpost Hfpre Hfpost.
  set (x := pre +:+ "$$" +:+ body +:+ "$$" +:+ post).
  set (no_open := fun c : ascii =>
         negb (bool_decide (c = "<"%char)) && negb (bool_decide (c = bsl_char))).
  set (no_dollar := fun c : ascii => negb (bool_decide (c = "$"%char))).
  set (no_bsl := fun c : ascii => negb (bool_decide (c = bsl_char))).
  assert (Himp1 : forall c, math_free_char c = true -> no_open c = true).
  { intros c Hc. unfold math_free_char in Hc. by apply andb_true_iff in Hc as [Hc _]. }
  assert (Himp2 : forall c, math_free_char c = true -> no_dollar c = true).
  { intros c Hc. unfold math_free_char in Hc. by apply andb_true_iff in Hc as [_ Hc]. }
  assert (Himp3 : forall c, math_free_char c = true -> no_bsl c = true).
  { intros c Hc. apply Himp1 in Hc. unfold no_open in Hc.
    by apply andb_true_iff in Hc as [_ Hc]. }
  (* passes 1 to 4 *)
  assert (H14 : run_passes [re_script; re_mjx; re_math; re_display] ([], x) = ([], x)).
  { apply (run_passes_copy no_open).
    - intros r Hr p c s Hc. unfold no_open in Hc. apply andb_true_iff in Hc as [H1 H2].
      apply negb_true_iff, bool_decide_eq_false in H1, H2.
      cbn [In] in Hr. destruct Hr as [<-|[<-|[<-|[<-|[]]]]].
      + apply (head_lit_no_match DOTALL "<" "script"); [done|by intros <-].
      + apply (head_lit_no_match DOTALL "<" "mjx-container"); [done|by intros <-].
      + apply (head_lit_no_match DOTALL "<" "math"); [done|by intros <-].
      + apply (head_chr_no_match DOTALL bsl_char); [done|by intros <-].
    - intros r Hr p. cbn [In] in Hr. destruct Hr as [<-|[<-|[<-|[<-|[]]]]]; reflexivity.
    - unfold x. rewrite !all_chars_app.
      rewrite (all_chars_impl _ _ pre Himp1 Hpre), (all_chars_impl _ _ body Himp1 Hbody),
        (all_chars_impl _ _ post Himp1 Hpost). reflexivity. }
  (* pass 5 *)
  assert (Hdollar : forall p c s, no_dollar c = true ->
            match_at DOTALL re_dollars p (String c s) = None).
  { intros p c s Hc. apply negb_true_iff, bool_decide_eq_false in Hc.
    apply (head_lit_no_match DOTALL "$" "$"); [done|by intros <-]. }
  assert (H5 : re_sub_st DOTALL re_dollars protect_repl x []
               = ([(token 0, "$$" +:+ body +:+ "$$")], pre +:+ token 0 +:+ post)).
  { unfold re_sub_st.
    set (rest := "$$" +:+ body +:+ "$$" +:+ post).
    replace (S (len x)) with (len pre + S (len rest))
      by (unfold x, rest; rewrite (len_app pre); lia).
    unfold x. fold rest.
    rewrite (sub_go_prefix_chars DOTALL re_dollars protect_repl no_dollar pre); [|done|].
    2:{ by apply (all_chars_impl math_free_char). }
    assert (Hm : match_at DOTALL re_dollars (0 + len pre) rest
                 = Some (MObj (0 + len pre) (0 + len pre + 2 + len body + 2)
                           ("$$" +:+ body +:+ "$$") [(1, body)])).
    { change re_dollars with (Cat (lit "$$") (Cat (Grp 1 (lazy_star Dot)) (lit "$$"))).
      rewrite delimited_match_at by done.
      unfold rest. rewrite (startswith_app "$$"), (drop_app_len "$$").
      rewrite (find_app_fresh "$" "$" body post).
      2:{ by apply (all_chars_impl math_free_char). }
      rewrite take_app_len. cbn [len String.length]. do 2 f_equal.
      replace (0 + len pre + 2 + len body + 2 - (0 + len pre))
        with (len ("$$" +:+ body +:+ "$$"))
        by (rewrite !len_app; cbn [len String.length]; lia).
      replace ("$$" +:+ body +:+ "$$" +:+ post) with (("$$" +:+ body +:+ "$$") +:+ post)
        by (by rewrite !append_assoc).
      apply take_app_len. }
    rewrite (sub_go_hit _ _ _ _ _ _ _ _ Hm) by (cbn [mo_end]; lia).
    cbn [mo_end protect_repl fst snd length mo_text dict_set].
    replace (0 + len pre + 2 + len body + 2 - (0 + len pre))
      with (len ("$$" +:+ body +:+ "$$"))
      by (rewrite !len_app; cbn [len String.length]; lia).
    assert (Hd : drop (len ("$$" +:+ body +:+ "$$")) rest = post).
    { unfold rest.
      replace ("$$" +:+ body +:+ "$$" +:+ post) with (("$$" +:+ body +:+ "$$") +:+ post)
        by (by rewrite !append_assoc).
      apply drop_app_len. }
    rewrite Hd.
    rewrite (sub_go_copy DOTALL re_dollars protect_repl no_dollar); [done|done| |].
    - intros p. reflexivity.
    - by apply (all_chars_impl math_free_char). }
  (* pass 6 *)
  assert (H6 : re_sub_st DOTALL re_inline protect_repl (pre +:+ token 0 +:+ post)
                 [(token 0, "$$" +:+ body +:+ "$$")]
               = ([(token 0, "$$" +:+ body +:+ "$$")], pre +:+ token 0 +:+ post)).
  { unfold re_sub_st. apply (sub_go_copy DOTALL re_inline protect_repl no_bsl).
    - intros p c s Hc. apply negb_true_iff, bool_decide_eq_false in Hc.
      apply (head_chr_no_match DOTALL bsl_char); [done|by intros <-].
    - intros p. reflexivity.
    - rewrite !all_chars_app.
      rewrite (all_chars_impl _ _ pre Himp3 Hpre), (all_chars_impl _ _ post Himp3 Hpost).
      reflexivity. }
  assert (Hp : protect_math x
               = ([(token 0, "$$" +:+ body +:+ "$$")], pre +:+ token 0 +:+ post)).
  { unfold protect_math.
    change passes with ([re_script; re_mjx; re_math; re_display]
                          ++ [re_dollars; re_inline])%list.
    rewrite run_passes_app, H14.
    change (run_passes [re_dollars; re_inline] ([], x))
      with (run_passes [re_inline] (re_sub_st DOTALL re_dollars protect_repl x [])).
    rewrite H5.
    change (run_passes [re_inline]
              ([(token 0, "$$" +:+ body +:+ "$$")], pre +:+ token 0 +:+ post))
      with (re_sub_st DOTALL re_inline protect_repl (pre +:+ token 0 +:+ post)
              [(token 0, "$$" +:+ body +:+ "$$")]).
    exact H6. }
  split; [exact Hp|].
  (* restore *)
  unfold roundtrip. rewrite Hp. unfold restore_math.
  cbn [map fst keys_pattern]. unfold re_sub_fn, re_sub_st.
  remember (fun (u : unit) (m : mobj) =>
         (u, default EmptyString
               (dict_get (mo_text m) [(token 0, "$$" +:+ body +:+ "$$")]))) as repl eqn:Hr.
  replace (S (len (pre +:+ token 0 +:+ post)))
    with (len pre + S (len (token 0 +:+ post))) by (rewrite !len_app; lia).
  rewrite (sub_go_prefix no_flags (lit (token 0)) repl pre).
  2:{ intros i Hi p. rewrite lit_match_at by done. rewrite drop_app by lia.
      rewrite token_0_no_overlap; [done| |by apply find_drop_none].
      intros E. apply (f_equal len) in E. rewrite len_drop in E.
      cbn [len String.length] in E. lia. }
  assert (Hm : match_at no_flags (lit (token 0)) (0 + len pre) (token 0 +:+ post)
               = Some (MObj (0 + len pre) (0 + len pre + len (token 0)) (token 0) [])).
  { rewrite lit_match_at by done. rewrite startswith_app.
    replace (0 + len pre + len (token 0) - (0 + len pre)) with (len (token 0)) by lia.
    by rewrite take_app_len. }
  rewrite (sub_go_hit _ _ _ _ _ _ _ _ Hm).
  2:{ cbn [mo_end]. rewrite token_0. cbn [len String.length]. lia. }
  cbn [mo_end fst snd].
  assert (Hout : snd (repl tt (MObj (0 + len pre) (0 + len pre + len (token 0)) (token 0) []))
                 = "$$" +:+ body +:+ "$$").
  { subst repl. cbn [fst snd mo_text dict_get]. by rewrite String.eqb_refl. }
  rewrite Hout.
  replace (0 + len pre + len (token 0) - (0 + len pre)) with (len (token 0)) by lia.
  rewrite drop_app_len.
  rewrite (sub_go_no_match no_flags (lit (token 0)) repl).
  2:{ intros p n. rewrite lit_match_at by done. by rewrite find_None_startswith. }
  cbn [snd]. unfold x. by rewrite !append_assoc.
Qed.

Lemma roundtrip_single_display_witness :
  protect_math ("Loss: " +:+ "$$" +:+ "L = y^2" +:+ "$$" +:+ " (MSE)")
  = ([(token 0, "$$" +:+ "L = y^2" +:+ "$$")], "Loss: " +:+ token 0 +:+ " (MSE)")
  /\ roundtrip ("Loss: " +:+ "$$" +:+ "L = y^2" +:+ "$$" +:+ " (MSE)")
     = "Loss: " +:+ "$$" +:+ "L = y^2" +:+ "$$" +:+ " (MSE)".
Proof. apply roundtrip_single_display; reflexivity. Defined.

End MathGuardMore.

Module SlugMore.
Import PyStr Re ReAux MatchFacts ReTheory Slug SlugAux.

(** *** The suffix chosen by the loop *)

Lemma uniq_loop_least bound base_slug (used : gset string) : forall counter slug,
  uniq_loop bound base_slug counter slug used = slug
  \/ (slug ∈ used
      /\ exists k, counter <= k
           /\ uniq_loop bound base_slug counter slug used = suffixed base_slug k
           /\ forall j, counter <= j < k -> suffixed base_slug j ∈ used).
Proof.
  induction bound as [|bound IH]; intros counter slug; cbn [uniq_loop]; [by left|].
  case_bool_decide as Hin; [|by left]. right. split; [done|].
  destruct (IH (S counter) (suffixed base_slug counter)) as [H|(Hc & k & Hk & H & Hall)].
  - exists counter. split; [lia|]. split; [done|]. intros j Hj. lia.
  - exists k. split; [lia|]. split; [done|]. intros j Hj.
    destruct (decide (j = counter)) as [->|]; [done|]. apply Hall. lia.
Qed.

(** X10. A slug that is free is taken as it is; otherwise the slug gets the least
    number from 2 on whose suffixed form is free. *)
Theorem generate_slug_least_suffix (text : string) (used : gset string) :
  ((base_slug_of text ∉ used) -> fst (generate_slug text used) = base_slug_of text)
  /\ (base_slug_of text ∈ used ->
      exists k, 2 <= k
        /\ fst (generate_slug text used) = suffixed (base_slug_of text) k
        /\ (suffixed (base_slug_of text) k ∉ used)
        /\ forall j, 2 <= j < k -> suffixed (base_slug_of text) j ∈ used).
Proof.
  pose proof (SlugFacts.generate_slug_fresh text used) as [Hfresh _].
  unfold generate_slug in *. cbn [fst] in *. split.
  - intros Hb. cbn [uniq_loop]. by rewrite bool_decide_eq_false_2.
  - intros Hb.
    destruct (uniq_loop_least (S (size used)) (base_slug_of text) used 2 (base_slug_of text))
      as [H|(_ & k & Hk & H & Hall)].
    + rewrite H in Hfresh. done.
    + exists k. rewrite H in Hfresh. by repeat split.
Qed.

(** *** The shape of the base slug *)

Lemma all_chars_take f n : forall s : string,
  all_chars f s = true -> all_chars f (take n s) = true.
Proof.
  induction n as [|n IH]; intros s H; [done|].
  destruct s as [|c s]; [done|]. cbn [take all_chars] in *.
  apply andb_true_iff in H as [H1 H2]. by rewrite H1, IH.
Qed.

Lemma all_chars_rsplit1_head f : forall s : string,
  all_chars f s = true -> all_chars f (rsplit1_head s) = true.
Proof.
  induction s as [|c s IH]; intros H; [done|].
  cbn [rsplit1_head]. cbn [all_chars] in H. apply andb_true_iff in H as [H1 H2].
  destruct (mem_char "-" s).
  - cbn [all_chars]. by rewrite H1, IH.
  - destruct (ascii_dec c "-"); [done|]. cbn [all_chars]. by rewrite H1, H2.
Qed.

Lemma len_rsplit1_head : forall s : string, len (rsplit1_head s) <= len s.
Proof.
  induction s as [|c s IH]; [done|]. cbn [rsplit1_head].
  destruct (mem_char "-" s).
  - cbn [len String.length]. unfold len in IH. lia.
  - destruct (ascii_dec c "-"); cbn [len String.length]; lia.
Qed.

Lemma lower_char_slug c : alnum_dash_char c = true -> slug_char (lower_char c) = true.
Proof. destruct c as [[] [] [] [] [] [] [] []]; vm_compute; congruence. Qed.

Lemma all_chars_lower : forall s : string,
  all_chars alnum_dash_char s = true -> all_chars slug_char (lower s) = true.
Proof.
  induction s as [|c s IH]; intros H; [done|].
  cbn [all_chars] in H. apply andb_true_iff in H as [H1 H2].
  unfold lower. cbn [map_chars all_chars]. rewrite lower_char_slug by done. by apply IH.
Qed.

Lemma non_alnum_class c :
  alnum_dash_char c = false ->
  cls_matches no_flags true [Rg "a" "z"; Rg "A" "Z"; Rg "0" "9"] c = true.
Proof. destruct c as [[] [] [] [] [] [] [] []]; vm_compute; congruence. Qed.

(** X9. Whatever the heading holds, the slug before disambiguation is not
    empty, has at most 60 characters, and is made of lower-case letters,
    digits and dashes only. *)
Theorem base_slug_shape (text : string) :
  base_slug_of text <> EmptyString
  /\ len (base_slug_of text) <= 60
  /\ all_chars slug_char (base_slug_of text) = true.
Proof.
  unfold base_slug_of.
  set (t := clean_text_for_slug text).
  set (s1 := re_sub no_flags (plus non_alnum) "-" t).
  set (slug0 := lower (strip_chars "-" s1)).
  set (slug1 := re_sub no_flags (plus (lit "-")) "-" slug0).
  assert (H1 : all_chars alnum_dash_char s1 = true).
  { unfold s1, re_sub, re_sub_fn, re_sub_st.
    apply (all_chars_sub_go_const alnum_dash_char no_flags (plus non_alnum) "-");
      [reflexivity| |lia].
    intros p c s Hc.
    apply (plus_class_match no_flags
             (cls_matches no_flags true [Rg "a" "z"; Rg "A" "Z"; Rg "0" "9"])).
    - reflexivity.
    - by apply non_alnum_class. }
  assert (H0 : all_chars slug_char slug0 = true).
  { unfold slug0. apply all_chars_lower. unfold strip_chars, lstrip_chars.
    by apply all_chars_rstrip_by, all_chars_lstrip_by. }
  assert (H2 : all_chars slug_char slug1 = true).
  { unfold slug1, re_sub, re_sub_fn, re_sub_st.
    by apply (all_chars_sub_go_keep slug_char no_flags (plus (lit "-")) "-"). }
  set (slug2 := if 60 <? len slug1 then rsplit1_head (take 60 slug1) else slug1).
  assert (H3 : all_chars slug_char slug2 = true /\ len slug2 <= 60).
  { unfold slug2. destruct (60 <? len slug1) eqn:E.
    - split; [by apply all_chars_rsplit1_head, all_chars_take|].
      pose proof (len_rsplit1_head (take 60 slug1)) as Hl. rewrite len_take in Hl. lia.
    - split; [done|]. apply Nat.ltb_ge in E. lia. }
  destruct H3 as [H3 H4].
  destruct (bool_decide (slug2 = EmptyString) || bool_decide (slug2 = "-")) eqn:E.
  - repeat split; [done|cbn [len String.length]; lia].
  - apply orb_false_iff in E as [E _]. apply bool_decide_eq_false in E. by repeat split.
Qed.

End SlugMore.

Module RenumberMore.
Import PyStr Re ReAux MatchFacts ReTheory Renumber RenumberAux.

(** *** Sections are numbered in document order *)

Lemma renumber_heading_section chapter_num c h :
  section_level h = true ->
  fst (renumber_heading chapter_num c h)
  = (Counters (S (section_counter c)) 0 0,
     Some (dotted [chapter_num; S (section_counter c)])).
Proof.
  unfold section_level, renumber_heading. intros H.
  apply andb_true_iff in H as [H H3]. apply andb_true_iff in H as [H1 H2].
  apply negb_true_iff in H1. rewrite H1, H2. cbn [andb].
  destruct (has_class "sectionHead" h); [done|].
  cbn [orb] in H3. by rewrite H3.
Qed.

Lemma renumber_heading_other chapter_num c h :
  section_level h = false ->
  section_counter (fst (fst (renumber_heading chapter_num c h))) = section_counter c.
Proof.
  unfold section_level, renumber_heading. intros H.
  destruct (has_class "chapterHead" h); [done|].
  destruct (is_name "h3" h), (has_class "sectionHead" h), (has_class "enrichment-title" h);
    cbn [negb andb orb] in *; try done;
    destruct (is_name "h4" h), (has_class "subsectionHead" h); cbn [andb orb]; try done;
    destruct (is_name "h5" h), (has_class "subsubsectionHead" h); cbn [andb orb]; done.
Qed.

Lemma renumber_from_sections chapter_num : forall hs c,
  section_counter (fst (renumber_from chapter_num c hs))
  = section_counter c + length (List.filter section_level hs).
Proof.
  induction hs as [|h hs IH]; intros c; [cbn; lia|].
  cbn [renumber_from List.filter].
  destruct (renumber_heading chapter_num c h) as [[c1 n] h'] eqn:E.
  specialize (IH c1). destruct (renumber_from chapter_num c1 hs) as [c2 out].
  cbn [fst] in *. rewrite IH. destruct (section_level h) eqn:Hs.
  - pose proof (renumber_heading_section chapter_num c h Hs) as H1.
    rewrite E in H1. cbn [fst] in H1. injection H1 as -> _.
    cbn [section_counter length]. lia.
  - pose proof (renumber_heading_other chapter_num c h Hs) as H1.
    rewrite E in H1. cbn [fst] in H1. lia.
Qed.

Lemma renumber_from_number chapter_num : forall hs c i h,
  hs !! i = Some h -> section_level h = true ->
  map fst (snd (renumber_from chapter_num c hs)) !! i
  = Some (Some (dotted [chapter_num;
                        section_counter c
                        + length (List.filter section_level (firstn (S i) hs))])).
Proof.
  induction hs as [|h0 hs IH]; intros c i h Hi Hs; [done|].
  cbn [renumber_from].
  destruct (renumber_heading chapter_num c h0) as [[c1 n] h'] eqn:E.
  specialize (IH c1). destruct (renumber_from chapter_num c1 hs) as [c2 out] eqn:E2.
  cbn [snd map] in *. destruct i as [|i].
  - injection Hi as ->. cbn [lookup list_lookup firstn List.filter]. rewrite Hs.
    pose proof (renumber_heading_section chapter_num c h Hs) as H1.
    rewrite E in H1. cbn [fst] in H1. injection H1 as _ ->.
    cbn [length]. by rewrite Nat.add_1_r.
  - change ((h0 :: hs) !! S i) with (hs !! i) in Hi.
    change ((fst (n, h') :: map fst out) !! S i) with (map fst out !! i).
    rewrite (IH i h Hi Hs). do 5 f_equal.
    change (firstn (S (S i)) (h0 :: hs)) with (h0 :: firstn (S i) hs). cbn [List.filter].
    destruct (section_level h0) eqn:Hs0.
    + pose proof (renumber_heading_section chapter_num c h0 Hs0) as H1.
      rewrite E in H1. cbn [fst] in H1. injection H1 as -> _.
      cbn [section_counter length]. lia.
    + pose proof (renumber_heading_other chapter_num c h0 Hs0) as H1.
      rewrite E in H1. cbn [fst] in H1. lia.
Qed.

(** X25. Whatever else the chapter holds, the k-th heading that counts as a
    section (an h3 section head or an h3 enrichment) is given the number
    chapter.k, and the section counter ends at the number of such
    headings. *)
Theorem sections_numbered_in_order (chapter_num : nat) (hs : list heading) (i : nat)
    (h : heading) :
  hs !! i = Some h ->
  section_level h = true ->
  numbers chapter_num hs !! i
  = Some (Some (dotted [chapter_num; length (List.filter section_level (firstn (S i) hs))]))
  /\ section_counter (fst (renumber chapter_num hs))
     = length (List.filter section_level hs).
Proof.
  intros Hi Hs. split.
  - unfold numbers, renumber. by rewrite (renumber_from_number chapter_num hs counters0 i h).
  - unfold renumber. by rewrite renumber_from_sections.
Qed.

Lemma sections_numbered_in_order_witness :
  numbers 17 sample_chapter !! 3 = Some (Some "17.2")
  /\ section_counter (fst (renumber 17 sample_chapter)) = 3.
Proof.
  apply (sections_numbered_in_order 17 sample_chapter 3
           (Heading "h3" ["enrichment-title"] "Enrichment 1.2: Scaling laws " None));
    reflexivity.
Defined.

(** *** The second pass of the table of contents keeps the headings *)

Lemma toc_children_eids parent_num : forall hs k,
  map t_eid (fst (toc_children parent_num k hs) ++ snd (toc_children parent_num k hs))%list
  = map t_eid hs
  /\ length (snd (toc_children parent_num k hs)) <= length hs.
Proof.
  induction hs as [|child hs IH]; intros k; [done|].
  cbn [toc_children].
  destruct (bool_decide (t_tag child = "h3") && t_is_enrichment child); [|done].
  specialize (IH (S k)). destruct (toc_children parent_num (S k) hs) as [done rest].
  cbn [fst snd app map length] in *. destruct IH as [IH1 IH2].
  split; [by rewrite IH1|lia].
Qed.

Lemma toc_pass2_go_eids : forall bound hs,
  length hs <= bound -> map t_eid (toc_pass2_go bound hs) = map t_eid hs.
Proof.
  induction bound as [|bound IH]; intros hs Hb.
  - destruct hs; [done|cbn [length] in Hb; lia].
  - destruct hs as [|h hs]; [done|]. cbn [toc_pass2_go].
    cbn [length] in Hb. destruct (is_h3_enrichment h).
    + pose proof (toc_children_eids
                    (join "." (firstn 2 (split "." (default EmptyString (t_enr_num h)))))
                    hs 1) as [H1 H2].
      destruct (toc_children _ 1 hs) as [children rest]. cbn [fst snd] in *.
      cbn [map]. rewrite map_app, IH by lia. rewrite <- map_app, H1. done.
    + cbn [map]. rewrite IH by lia. done.
Qed.

(** X27. The second pass of [extract_toc_from_body] relabels the headings it is
    given: it lists every one of them once, in the order of the document. *)
Theorem toc_pass2_keeps_headings (hs : list toc_heading) :
  map t_eid (toc_pass2 hs) = map t_eid hs
  /\ length (toc_pass2 hs) = length hs.
Proof.
  assert (H : map t_eid (toc_pass2 hs) = map t_eid hs).
  { unfold toc_pass2. by apply toc_pass2_go_eids. }
  split; [done|]. by rewrite <- (length_map t_eid), H, length_map.
Qed.

End RenumberMore.

Module StrFacts.
Import PyStr MatchFacts ReTheory.

(** *** Reversal *)

Lemma rev_app_rev_app : forall s a b : string,
  String.rev_app (String.rev_app s a) b = String.rev_app a (s +:+ b).
Proof.
  induction s as [|c s IH]; intros a b; [by rewrite append_nil_l|].
  cbn [String.rev_app]. rewrite IH. cbn [String.rev_app]. by rewrite append_cons.
Qed.

Lemma rev_rev (s : string) : String.rev (String.rev s) = s.
Proof.
  unfold String.rev. rewrite rev_app_rev_app. cbn [String.rev_app]. apply append_nil_r.
Qed.

Lemma rev_app_append : forall s a : string, String.rev_app s a = String.rev s +:+ a.
Proof.
  induction s as [|c s IH]; intros a; [by rewrite append_nil_l|].
  unfold String.rev. cbn [String.rev_app]. rewrite IH, (IH (String c EmptyString)).
  rewrite append_assoc. by rewrite append_cons, append_nil_l.
Qed.

Lemma rev_cons c (s : string) : String.rev (String c s) = String.rev s +:+ String c EmptyString.
Proof. unfold String.rev at 1. cbn [String.rev_app]. apply rev_app_append. Qed.

Lemma rev_append (s1 s2 : string) : String.rev (s1 +:+ s2) = String.rev s2 +:+ String.rev s1.
Proof.
  induction s1 as [|c s1 IH]; [by rewrite append_nil_l, append_nil_r|].
  rewrite append_cons, !rev_cons, IH. by rewrite append_assoc.
Qed.

(** *** Stripping *)

Lemma lstrip_by_id f (s : string) : stops_at f s = true -> lstrip_by f s = s.
Proof.
  destruct s as [|c s]; [done|]. cbn [stops_at lstrip_by]. intros H.
  apply negb_true_iff in H. by rewrite H.
Qed.

Lemma stops_at_lstrip_by f : forall s : string, stops_at f (lstrip_by f s) = true.
Proof.
  induction s as [|c s IH]; [done|]. cbn [lstrip_by].
  destruct (f c) eqn:E; [done|]. cbn [stops_at]. by rewrite E.
Qed.

Lemma lstrip_by_lstrip_by f (s : string) : lstrip_by f (lstrip_by f s) = lstrip_by f s.
Proof. apply lstrip_by_id, stops_at_lstrip_by. Qed.

Lemma rstrip_by_rstrip_by f (s : string) : rstrip_by f (rstrip_by f s) = rstrip_by f s.
Proof. unfold rstrip_by. by rewrite rev_rev, lstrip_by_lstrip_by. Qed.

Lemma lstrip_by_snoc f c : forall s : string,
  f c = false ->
  lstrip_by f (s +:+ String c EmptyString) = lstrip_by f s +:+ String c EmptyString.
Proof.
  intros s Hc. induction s as [|b s IH].
  - rewrite !append_nil_l. cbn [lstrip_by]. by rewrite Hc.
  - rewrite append_cons. cbn [lstrip_by]. destruct (f b); [done|]. by rewrite append_cons.
Qed.

Lemma rstrip_by_cons_keep f c (s : string) :
  f c = false -> rstrip_by f (String c s) = String c (rstrip_by f s).
Proof.
  intros Hc. unfold rstrip_by. rewrite rev_cons, lstrip_by_snoc by done.
  rewrite rev_append. change (String.rev (String c EmptyString)) with (String c EmptyString).
  by rewrite append_cons, append_nil_l.
Qed.

Lemma lstrip_by_app f : forall u v : string,
  lstrip_by f (u +:+ v)
  = match lstrip_by f u with
    | EmptyString => lstrip_by f v
    | String b t => String b t +:+ v
    end.
Proof.
  induction u as [|c u IH]; intros v; [by rewrite append_nil_l|].
  rewrite append_cons. cbn [lstrip_by]. destruct (f c); [apply IH|done].
Qed.

Lemma rev_nil_inv (s : string) : String.rev s = EmptyString -> s = EmptyString.
Proof. intros H. apply (f_equal String.rev) in H. by rewrite rev_rev in H. Qed.

(** What is left of a text stripped on the right is empty or keeps its
    first character. *)
Lemma rstrip_by_cons g c (s : string) :
  rstrip_by g (String c s)
  = match rstrip_by g s with
    | EmptyString => if g c then EmptyString else String c EmptyString
    | String b t => String c (String b t)
    end.
Proof.
  unfold rstrip_by. rewrite rev_cons, lstrip_by_app.
  destruct (lstrip_by g (String.rev s)) as [|b t] eqn:E.
  - cbn [String.rev String.rev_app lstrip_by]. by destruct (g c).
  - rewrite rev_append. change (String.rev (String c EmptyString)) with (String c EmptyString).
    rewrite append_cons, append_nil_l.
    destruct (String.rev (String b t)) as [|d w] eqn:Ed; [by apply rev_nil_inv in Ed|done].
Qed.

Lemma stops_at_rstrip_by f g (s : string) :
  stops_at f s = true -> stops_at f (rstrip_by g s) = true.
Proof.
  destruct s as [|c s]; [done|]. cbn [stops_at]. intros Hc.
  rewrite rstrip_by_cons. destruct (rstrip_by g s); [by destruct (g c)|done].
Qed.

Lemma strip_strip (s : string) : strip (strip s) = strip s.
Proof.
  unfold strip at 1. rewrite lstrip_by_id.
  - unfold strip. apply rstrip_by_rstrip_by.
  - unfold strip. apply stops_at_rstrip_by, stops_at_lstrip_by.
Qed.

Lemma stops_at_strip (s : string) : stops_at is_space (strip s) = true.
Proof. unfold strip. apply stops_at_rstrip_by, stops_at_lstrip_by. Qed.

Lemma all_chars_stops_at f (s : string) :
  all_chars (fun c => negb (f c)) s = true -> stops_at f s = true.
Proof.
  destruct s as [|c s]; [done|]. cbn [all_chars stops_at]. intros H.
  by apply andb_true_iff in H as [H _].
Qed.

(** A text without blanks at either end is left by [strip]. *)
Lemma strip_id (s : string) :
  all_chars (fun c => negb (is_space c)) s = true -> strip s = s.
Proof.
  intros H. unfold strip. rewrite (lstrip_by_id is_space s) by (by apply all_chars_stops_at).
  unfold rstrip_by. rewrite lstrip_by_id; [apply rev_rev|].
  apply all_chars_stops_at. by rewrite all_chars_rev.
Qed.

End StrFacts.

Module NumFacts.
Import PyStr MatchFacts ReTheory StrFacts Tables.

(** *** The digits of [str(n)] *)

Lemma pretty_N_char_digit (x : N) : is_digit (pretty_N_char x) = true.
Proof. unfold pretty_N_char. by repeat case_match. Qed.

Lemma pretty_N_go_digits (x : N) : forall s : string,
  all_chars is_digit s = true -> all_chars is_digit (pretty_N_go x s) = true.
Proof.
  induction (N.lt_wf_0 x) as [x _ IH]; intros s Hs.
  assert (x = 0 \/ 0 < x)%N as [->|Hx] by lia; [by rewrite pretty_N_go_0|].
  rewrite pretty_N_go_step by done. apply IH; [by apply N.div_lt|].
  cbn [all_chars]. by rewrite pretty_N_char_digit.
Qed.

Lemma pretty_N_go_length (x : N) : forall s : string,
  String.length s <= String.length (pretty_N_go x s).
Proof.
  induction (N.lt_wf_0 x) as [x _ IH]; intros s.
  assert (x = 0 \/ 0 < x)%N as [->|Hx] by lia; [by rewrite pretty_N_go_0|].
  rewrite pretty_N_go_step by done.
  etrans; [|apply IH; by apply N.div_lt]. cbn [String.length]. lia.
Qed.

Lemma pretty_N_go_nonempty (x : N) : (0 < x)%N -> pretty_N_go x EmptyString <> EmptyString.
Proof.
  intros Hx. rewrite pretty_N_go_step by done. intros E.
  pose proof (pretty_N_go_length (x `div` 10)
                (String (pretty_N_char (x `mod` 10)) EmptyString)) as H.
  rewrite E in H. cbn [String.length] in H. lia.
Qed.

Lemma pretty_N_digits (x : N) :
  all_chars is_digit (pretty x) = true /\ pretty x <> EmptyString.
Proof.
  unfold pretty, pretty_N. case_decide as Hx; [done|]. split.
  - by apply pretty_N_go_digits.
  - apply pretty_N_go_nonempty. lia.
Qed.

(** [str(n)] is a non-empty string of digits. *)
Lemma str_nat_digits (n : nat) :
  all_chars is_digit (str_nat n) = true /\ str_nat n <> EmptyString.
Proof. unfold str_nat, pretty, pretty_nat. apply pretty_N_digits. Qed.

(** *** [int(str(z))] *)

Lemma digits_value_digits : forall (s : string) acc,
  all_chars is_digit s = true -> is_Some (digits_value acc s).
Proof.
  induction s as [|c s IH]; intros acc H; [by eexists|].
  cbn [all_chars] in H. apply andb_true_iff in H as [Hc H].
  cbn [digits_value]. rewrite Hc. by apply IH.
Qed.

Lemma digits_value_shift : forall (s : string) acc v,
  all_chars is_digit s = true ->
  digits_value 0 s = Some v ->
  digits_value acc s = Some (acc * 10 ^ Z.of_nat (String.length s) + v)%Z.
Proof.
  induction s as [|c s IH]; intros acc v Hd H.
  - cbn [digits_value] in *. injection H as <-. cbn [String.length]. f_equal. lia.
  - cbn [all_chars] in Hd. apply andb_true_iff in Hd as [Hc Hd].
    cbn [digits_value] in *. rewrite Hc in *.
    destruct (digits_value_digits s 0%Z Hd) as [w E].
    rewrite (IH _ w Hd E) in H. injection H as <-.
    rewrite (IH _ w Hd E). f_equal. cbn [String.length].
    rewrite Nat2Z.inj_succ, Z.pow_succ_r by lia. lia.
Qed.

Lemma digit_value_char (x : N) : (x < 10)%N -> digit_value (pretty_N_char x) = Z.of_N x.
Proof.
  intros Hx. unfold pretty_N_char.
  assert (x = 0 \/ x = 1 \/ x = 2 \/ x = 3 \/ x = 4 \/ x = 5 \/ x = 6 \/ x = 7
          \/ x = 8 \/ x = 9)%N as H by lia.
  destruct H as [->|[->|[->|[->|[->|[->|[->|[->|[->| ->]]]]]]]]]; reflexivity.
Qed.

Lemma digits_value_pretty_N_go (x : N) : forall (s : string) v,
  all_chars is_digit s = true ->
  digits_value 0 s = Some v ->
  digits_value 0 (pretty_N_go x s)
  = Some (Z.of_N x * 10 ^ Z.of_nat (String.length s) + v)%Z.
Proof.
  induction (N.lt_wf_0 x) as [x _ IH]; intros s v Hd Hs.
  assert (x = 0 \/ 0 < x)%N as [->|Hx] by lia.
  { rewrite pretty_N_go_0, Hs. reflexivity. }
  rewrite pretty_N_go_step by done.
  rewrite (IH (x `div` 10)%N ltac:(by apply N.div_lt)
              (String (pretty_N_char (x `mod` 10)) s)
              (Z.of_N (x `mod` 10) * 10 ^ Z.of_nat (String.length s) + v)%Z).
  - f_equal. cbn [String.length]. rewrite Nat2Z.inj_succ, Z.pow_succ_r by lia.
    rewrite (N.div_mod x 10) at 3 by done. rewrite N2Z.inj_add, N2Z.inj_mul.
    change (Z.of_N 10) with 10%Z. lia.
  - cbn [all_chars]. by rewrite pretty_N_char_digit.
  - cbn [digits_value]. rewrite pretty_N_char_digit.
    rewrite (digits_value_shift s _ v Hd Hs). f_equal.
    rewrite digit_value_char by (by apply N.mod_lt). lia.
Qed.

Lemma digit_not_space c : is_digit c = true -> is_space c = false.
Proof. destruct c as [[] [] [] [] [] [] [] []]; vm_compute; congruence. Qed.

Lemma strip_digits (s : string) : all_chars is_digit s = true -> strip s = s.
Proof.
  intros H. apply strip_id. apply (all_chars_impl is_digit); [|done].
  intros c Hc. by rewrite digit_not_space.
Qed.

Lemma digit_not_sign c : is_digit c = true -> c <> "-"%char /\ c <> "+"%char.
Proof. intros H. split; intros ->; discriminate H. Qed.

Lemma pretty_pos_value (p : positive) :
  all_chars is_digit (pretty (N.pos p)) = true
  /\ pretty (N.pos p) <> EmptyString
  /\ digits_value 0 (pretty (N.pos p)) = Some (Z.pos p).
Proof.
  pose proof (pretty_N_digits (N.pos p)) as [Hd Hne]. split; [done|]. split; [done|].
  unfold pretty, pretty_N. case_decide as Hx; [done|].
  rewrite (digits_value_pretty_N_go (N.pos p) EmptyString 0%Z eq_refl eq_refl). f_equal.
  cbn [String.length]. change (Z.of_N (N.pos p)) with (Z.pos p). lia.
Qed.

(** Reading back a number that was written gives the number. *)
Lemma py_int_str_Z (z : Z) : py_int (str_Z z) = Some z.
Proof.
  destruct z as [|p|p].
  - reflexivity.
  - change (str_Z (Z.pos p)) with (pretty (N.pos p)).
    destruct (pretty_pos_value p) as (Hd & Hne & Hv).
    unfold py_int. rewrite strip_digits by done.
    destruct (pretty (N.pos p)) as [|c s]; [done|].
    cbn [all_chars] in Hd. apply andb_true_iff in Hd as [Hc _].
    destruct (digit_not_sign c Hc) as [H1 H2].
    destruct (ascii_dec c "-"); [done|]. destruct (ascii_dec c "+"); [done|].
    unfold unsigned_value. by rewrite Hc.
  - change (str_Z (Z.neg p)) with ("-" +:+ pretty (N.pos p)).
    destruct (pretty_pos_value p) as (Hd & Hne & Hv).
    unfold py_int. rewrite strip_id.
    + rewrite append_cons, append_nil_l. destruct (ascii_dec "-" "-"); [|done].
      unfold unsigned_value. destruct (pretty (N.pos p)) as [|c s]; [done|].
      cbn [all_chars] in Hd. apply andb_true_iff in Hd as [Hc _]. by rewrite Hc, Hv.
    + rewrite append_cons, append_nil_l. cbn [all_chars]. apply andb_true_iff. split; [done|].
      apply (all_chars_impl is_digit); [|done]. intros d Hdd. by rewrite digit_not_space.
Qed.

End NumFacts.

Module ColspanMore.
Import PyStr Re Dom Tables TablesAux DomFacts PathFacts ColspanFacts NumFacts.

Lemma colspan_repair_plain (header : list (option string))
    (rows : list (list (option string))) (hz : list Z) (rz : list (list Z)) :
  Forall2 (fun c z => parse_colspan c = Some z) header hz ->
  Forall2 (Forall2 (fun c z => parse_colspan c = Some z)) rows rz ->
  rows <> [] ->
  colspan_repair (plain_table header rows)
  = Some (plain_table (repaired_header header hz (widest_of 0%Z rz)) rows).
Proof.
  intros Hh Hr Hne. unfold colspan_repair. rewrite data_rows_plain_table.
  destruct rows as [|r rows]; [done|].
  cbn [map]. cbv beta iota.
  change (plain_row "td" r :: map (plain_row "td") rows)
    with (map (plain_row "td") (r :: rows)).
  rewrite (widest_plain_rows (r :: rows) rz 0%Z Hr). cbn [mbind option_bind].
  rewrite header_row_paths_plain_table. cbn [repair_rows].
  change (get_at [0; 0] (plain_table header (r :: rows)))
    with (Some (plain_row "th" header)).
  cbn [mbind option_bind].
  rewrite (row_cols_plain_row "th" header hz); [|by right; left|done].
  cbn [mbind option_bind]. unfold repaired_header.
  destruct (total hz <? widest_of 0%Z rz)%Z; [|done].
  rewrite find_all_paths_cells by (by right; left).
  pose proof (widen_first_plain (widest_of 0%Z rz - total hz) (r :: rows) header []
                (Forall2_parsed header hz Hh)) as Hw.
  cbn [app length] in Hw. rewrite Hw. reflexivity.
Qed.

Lemma mapM_parse header hz :
  Forall2 (fun c z => parse_colspan c = Some z) header hz ->
  mapM parse_colspan header = Some hz.
Proof.
  induction 1 as [|c z header hz Hc H IH]; [done|].
  cbn [mapM]. rewrite Hc. cbn [mbind option_bind]. rewrite IH. reflexivity.
Qed.

Lemma header_colspans_plain header rows :
  header_colspans (plain_table header rows) = mapM parse_colspan header.
Proof.
  unfold header_colspans. rewrite header_row_paths_plain_table.
  change (get_at [0; 0] (plain_table header rows)) with (Some (plain_row "th" header)).
  cbn [mbind option_bind]. rewrite find_all_cells_plain_row by (by right; left).
  induction header as [|c header IH]; [done|].
  cbn [map mapM]. rewrite colspan_of_plain_cell.
  destruct (parse_colspan c); [|done]. cbn [mbind option_bind]. by rewrite IH.
Qed.

(** The header that the repair writes is read back as the colspans with the
    first grouped one widened. *)
Lemma widen_spec_parsed shortfall header hz :
  Forall2 (fun c z => parse_colspan c = Some z) header hz ->
  Forall2 (fun c z => parse_colspan c = Some z) (widen_spec shortfall header)
    (widen_Z shortfall hz).
Proof.
  induction 1 as [|c z header hz Hc H IH]; [constructor|].
  cbn [widen_spec widen_Z]. rewrite Hc. destruct (1 <? z)%Z.
  - constructor; [|done]. cbn [parse_colspan]. apply py_int_str_Z.
  - by constructor.
Qed.

Lemma total_widen_Z shortfall hz :
  Exists (fun z => (1 < z)%Z) hz -> total (widen_Z shortfall hz) = (total hz + shortfall)%Z.
Proof.
  induction hz as [|z hz IH]; intros H; [by apply Exists_nil in H|].
  cbn [widen_Z]. destruct (1 <? z)%Z eqn:E.
  - unfold total. cbn [foldr]. lia.
  - apply Exists_cons in H as [H|H]; [apply Z.ltb_ge in E; lia|].
    unfold total in *. cbn [foldr]. rewrite IH by done. lia.
Qed.

(** X28. On a table with one header row in a thead and data rows in a tbody,
    when the header has a grouped cell (a colspan above 1) and is not wider
    than the widest data row, the header that the repair leaves spans
    exactly the columns of the widest data row. *)
Theorem colspan_repair_covers (header : list (option string))
    (rows : list (list (option string))) (hz : list Z) (rz : list (list Z)) :
  Forall2 (fun c z => parse_colspan c = Some z) header hz ->
  Forall2 (Forall2 (fun c z => parse_colspan c = Some z)) rows rz ->
  rows <> [] ->
  Exists (fun z => (1 < z)%Z) hz ->
  (total hz <= widest_of 0%Z rz)%Z ->
  exists table' hz',
    colspan_repair (plain_table header rows) = Some table'
    /\ header_colspans table' = Some hz'
    /\ total hz' = widest_of 0%Z rz.
Proof.
  intros Hh Hr Hne Hex Hle.
  exists (plain_table (repaired_header header hz (widest_of 0%Z rz)) rows).
  unfold repaired_header. destruct (total hz <? widest_of 0%Z rz)%Z eqn:E.
  - exists (widen_Z (widest_of 0%Z rz - total hz) hz). split; [|split].
    + rewrite (colspan_repair_plain header rows hz rz) by done.
      unfold repaired_header. by rewrite E.
    + rewrite header_colspans_plain. by apply mapM_parse, widen_spec_parsed.
    + rewrite total_widen_Z by done. lia.
  - exists hz. split; [|split].
    + rewrite (colspan_repair_plain header rows hz rz) by done.
      unfold repaired_header. by rewrite E.
    + rewrite header_colspans_plain. by apply mapM_parse.
    + apply Z.ltb_ge in E. lia.
Qed.

Lemma colspan_repair_covers_witness :
  exists table' hz',
    colspan_repair (plain_table [None; Some "2"; Some " 3 "]
                      [[None; None]; [Some "4"; None; None; Some "3"]])
    = Some table'
    /\ header_colspans table' = Some hz'
    /\ total hz' = widest_of 0%Z [[1; 1]; [4; 1; 1; 3]]%Z.
Proof.
  apply (colspan_repair_covers [None; Some "2"; Some " 3 "]
           [[None; None]; [Some "4"; None; None; Some "3"]] [1; 2; 3]%Z).
  - repeat constructor.
  - repeat constructor.
  - discriminate.
  - apply Exists_cons. right. apply Exists_cons. left. lia.
  - vm_compute. discriminate.
Defined.

End ColspanMore.

Module RenumberIdem.
Import PyStr Re ReAux MatchFacts ReTheory StrFacts NumFacts Renumber RenumberAux.

(** *** Matching steps under any flags *)

Lemma chr_matches_self fl c : chr_matches fl c c = true.
Proof. unfold chr_matches. destruct (ignorecase fl); by rewrite bool_decide_eq_true_2. Qed.

Lemma rmatch_lit_self fl (s : string) : forall pos rest caps k,
  rmatch fl (lit s) (MState pos (s +:+ rest) caps) k = k (MState (pos + len s) rest caps).
Proof.
  induction s as [|c s IH]; intros pos rest caps k.
  - rewrite append_nil_l. cbn [lit rmatch len String.length]. by rewrite Nat.add_0_r.
  - rewrite append_cons. destruct s as [|c' s].
    + rewrite append_nil_l. cbn [lit rmatch step1 m_rest m_pos m_caps].
      rewrite chr_matches_self. cbn [len String.length]. by rewrite Nat.add_1_r.
    + change (lit (String c (String c' s))) with (Cat (Chr c) (lit (String c' s))).
      cbn [rmatch step1 m_rest m_pos m_caps]. rewrite chr_matches_self.
      rewrite IH. cbn [len String.length].
      by replace (S pos + S (String.length s)) with (pos + S (S (String.length s))) by lia.
Qed.

Lemma rmatch_rep_cls fl lo neg items (s rest : string) pos caps k :
  all_chars (cls_matches fl neg items) s = true ->
  stops_at (cls_matches fl neg items) rest = true ->
  lo <= len s ->
  is_Some (k (MState (pos + len s) rest caps)) ->
  rmatch fl (Rep true lo None (Cls neg items)) (MState pos (s +:+ rest) caps) k
  = k (MState (pos + len s) rest caps).
Proof.
  intros Hall Hstop Hlo Hk. rewrite rmatch_rep.
  change (rmatch fl (Cls neg items)) with (step1 (cls_matches fl neg items)).
  apply rep_loop_run; try done. cbn [m_rest]. rewrite len_app. lia.
Qed.

(** An optional part that is there and after which the rest matches. *)
Lemma rmatch_opt_taken fl r st st1 (k : mstate -> option mstate) :
  (forall k', is_Some (k' st1) -> rmatch fl r st k' = k' st1) ->
  m_pos st < m_pos st1 ->
  is_Some (k st1) ->
  rmatch fl (opt r) st k = k st1.
Proof.
  intros Hr Hlt Hk. unfold opt. rewrite rmatch_rep. cbn [rep_loop Nat.leb].
  change (under_hi (Some 1) 0) with true. cbv iota.
  assert (Hin : forall b, rep_loop (rmatch fl r) true 0 (Some 1) k b 1 st1 = k st1).
  { intros [|b]; cbn [rep_loop Nat.leb]; [done|].
    change (under_hi (Some 1) 1) with false. cbv iota. cbn [or_else]. by destruct (k st1). }
  apply Nat.ltb_lt in Hlt.
  rewrite Hr; cbv beta; rewrite Hlt, Hin; [|done].
  by destruct Hk as [x ->].
Qed.

Lemma bol_no_match fl r p (s : string) : p <> 0 -> match_at fl (Cat Bol r) p s = None.
Proof.
  intros Hp. unfold match_at. cbn [rmatch m_pos].
  destruct p as [|p]; [done|]. reflexivity.
Qed.

Lemma sub_go_no_match_from {St : Type} fl r (repl : St -> mobj -> St * string) :
  forall bound pos (s : string) acc,
    (forall n, match_at fl r (pos + n) (drop n s) = None) ->
    sub_go fl r repl bound pos s acc = (acc, s).
Proof.
  induction bound as [|bound IH]; intros pos s acc H; [done|].
  cbn [sub_go]. pose proof (H 0) as H0. cbn [drop] in H0. rewrite Nat.add_0_r in H0.
  rewrite H0. destruct s as [|c s]; [done|].
  rewrite IH; [done|]. intros n. specialize (H (S n)). cbn [drop] in H.
  by replace (S pos + n) with (pos + S n) by lia.
Qed.

(** *** The characters of a number *)

Lemma number_char_class c :
  number_char c = true -> cls_matches IGNORECASE false [Digit; Ch "."] c = true.
Proof. destruct c as [[] [] [] [] [] [] [] []]; vm_compute; congruence. Qed.

Lemma number_char_not_space c :
  number_char c = true -> cls_matches IGNORECASE false [Space] c = false.
Proof. destruct c as [[] [] [] [] [] [] [] []]; vm_compute; congruence. Qed.

Lemma not_space_class c :
  is_space c = false -> cls_matches IGNORECASE false [Space] c = false.
Proof. destruct c as [[] [] [] [] [] [] [] []]; vm_compute; congruence. Qed.

Lemma stops_at_space_class (s : string) :
  stops_at is_space s = true -> stops_at (cls_matches IGNORECASE false [Space]) s = true.
Proof.
  destruct s as [|c s]; [done|]. cbn [stops_at]. intros H. apply negb_true_iff in H.
  by rewrite not_space_class.
Qed.

Lemma digit_number_char c : is_digit c = true -> number_char c = true.
Proof. unfold number_char. by intros ->. Qed.

Lemma dotted_number : forall parts : list nat,
  parts <> [] ->
  all_chars number_char (dotted parts) = true /\ dotted parts <> EmptyString.
Proof.
  assert (Hn : forall n, all_chars number_char (str_nat n) = true /\ str_nat n <> EmptyString).
  { intros n. destruct (str_nat_digits n) as [H1 H2]. split; [|done].
    apply (all_chars_impl is_digit); [apply digit_number_char|done]. }
  induction parts as [|n parts IH]; intros Hne; [done|].
  destruct parts as [|m parts]; [apply Hn|].
  unfold dotted in *. cbn [map join] in *. destruct (Hn n) as [H1 H2].
  destruct IH as [IH1 IH2]; [done|]. split.
  - rewrite !all_chars_app, H1, IH1. reflexivity.
  - destruct (str_nat n); [done|]. by rewrite append_cons.
Qed.

(** *** The title of a renumbered enrichment *)

(** The prefix that the pass writes is the prefix that it cuts. *)
Lemma clean_title_retitled (num title : string) :
  num <> EmptyString -> all_chars number_char num = true ->
  clean_title ("Enrichment " +:+ num +:+ ": " +:+ strip title) = strip title.
Proof.
  intros Hne Hnum. unfold clean_title.
  assert (Hsub : re_sub IGNORECASE re_enrichment_prefix EmptyString
                   ("Enrichment " +:+ num +:+ ": " +:+ strip title) = strip title).
  2:{ rewrite Hsub. apply strip_strip. }
  set (T := strip title).
  assert (HT : stops_at (cls_matches IGNORECASE false [Space]) T = true).
  { apply stops_at_space_class, stops_at_strip. }
  destruct num as [|c0 num0] eqn:En; [done|]. rewrite <- En in *.
  assert (Hc0 : number_char c0 = true).
  { rewrite En in Hnum. cbn [all_chars] in Hnum. by apply andb_true_iff in Hnum as [H _]. }
  set (n := len num).
  (* after the colon *)
  assert (H4 : forall caps,
            rmatch IGNORECASE (Cat (lit ":") (star space))
              (MState (11 + n) (": " +:+ T) caps) Some
            = Some (MState (13 + n) T caps)).
  { intros caps. rewrite rmatch_cat.
    rewrite (rmatch_lit_self IGNORECASE ":" (11 + n) (" " +:+ T)).
    unfold star, space.
    rewrite (rmatch_rep_cls IGNORECASE 0 false [Space] " " T); try done.
    - cbn [len String.length]. do 2 f_equal. lia.
    - cbn [len String.length]. lia. }
  (* the optional number *)
  assert (H3 : forall k', is_Some (k' (MState (11 + n) (": " +:+ T) [])) ->
            rmatch IGNORECASE (Cat (plus space) (plus (Cls false [Digit; Ch "."])))
              (MState 10 (" " +:+ num +:+ ": " +:+ T) []) k'
            = k' (MState (11 + n) (": " +:+ T) [])).
  { intros k' Hk'. rewrite rmatch_cat. unfold plus, space.
    assert (Hinner : rmatch IGNORECASE (Rep true 1 None (Cls false [Digit; Ch "."]))
                       (MState 11 (num +:+ ": " +:+ T) []) k'
                     = k' (MState (11 + n) (": " +:+ T) [])).
    { apply (rmatch_rep_cls IGNORECASE 1 false [Digit; Ch "."] num (": " +:+ T)).
      - apply (all_chars_impl number_char); [apply number_char_class|done].
      - reflexivity.
      - rewrite En. cbn [len String.length]. lia.
      - done. }
    rewrite (rmatch_rep_cls IGNORECASE 1 false [Space] " " (num +:+ ": " +:+ T)).
    - exact Hinner.
    - reflexivity.
    - rewrite En, append_cons. cbn [stops_at]. by rewrite number_char_not_space.
    - cbn [len String.length]. lia.
    - cbn [len String.length Nat.add]. by rewrite Hinner. }
  assert (Hm : match_at IGNORECASE re_enrichment_prefix 0
                 ("Enrichment " +:+ num +:+ ": " +:+ T)
               = Some (MObj 0 (13 + n) (take (13 + n - 0)
                                          ("Enrichment " +:+ num +:+ ": " +:+ T)) [])).
  { unfold match_at.
    change re_enrichment_prefix
      with (Cat Bol (Cat (lit "Enrichment")
              (Cat (opt (Cat (plus space) (plus (Cls false [Digit; Ch "."]))))
                 (Cat (lit ":") (star space))))).
    rewrite rmatch_cat. cbn [rmatch m_pos Nat.eqb]. fold rmatch.
    change ("Enrichment " +:+ num +:+ ": " +:+ T)
      with ("Enrichment" +:+ " " +:+ num +:+ ": " +:+ T).
    rewrite (rmatch_lit_self IGNORECASE "Enrichment" 0).
    cbn [len String.length Nat.add].
    rewrite (rmatch_opt_taken IGNORECASE _ _ (MState (11 + n) (": " +:+ T) [])).
    - rewrite <- (rmatch_cat IGNORECASE (lit ":") (star space)), H4. reflexivity.
    - exact H3.
    - cbn [m_pos]. lia.
    - rewrite <- (rmatch_cat IGNORECASE (lit ":") (star space)), H4. by eexists. }
  unfold re_sub, re_sub_fn, re_sub_st.
  rewrite (sub_go_hit _ _ _ _ _ _ _ _ Hm) by (cbn [mo_end]; lia).
  cbn [mo_end fst snd].
  assert (Hd : drop (13 + n - 0) ("Enrichment " +:+ num +:+ ": " +:+ T) = T).
  { replace (13 + n - 0) with (len ("Enrichment " +:+ num +:+ ": "))
      by (rewrite !len_app; cbn [len String.length]; unfold n; lia).
    replace ("Enrichment " +:+ num +:+ ": " +:+ T)
      with (("Enrichment " +:+ num +:+ ": ") +:+ T) by (by rewrite !append_assoc).
    apply drop_app_len. }
  rewrite Hd. rewrite sub_go_no_match_from.
  - cbn [snd]. apply append_nil_l.
  - intros i. apply bol_no_match. lia.
Qed.

Lemma retitle_retitle (num : string) (h : heading) :
  num <> EmptyString -> all_chars number_char num = true ->
  retitle num (retitle num h) = retitle num h.
Proof.
  intros Hne Hnum. unfold retitle. cbn [h_name h_classes h_text]. f_equal.
  do 3 f_equal. unfold clean_title at 2. by rewrite clean_title_retitled.
Qed.

Lemma retitle_dotted (parts : list nat) (h : heading) :
  parts <> [] -> retitle (dotted parts) (retitle (dotted parts) h) = retitle (dotted parts) h.
Proof. intros H. destruct (dotted_number parts H). by apply retitle_retitle. Qed.

Lemma set_titlemark_idem (num : string) (h : heading) :
  set_titlemark num (set_titlemark num h) = set_titlemark num h.
Proof. unfold set_titlemark. destruct (h_titlemark h) eqn:E; cbn [h_titlemark]; by rewrite ?E. Qed.

Lemma has_class_retitle x num h : Renumber.has_class x (retitle num h) = Renumber.has_class x h.
Proof. reflexivity. Qed.

Lemma is_name_retitle x num h : is_name x (retitle num h) = is_name x h.
Proof. reflexivity. Qed.

Lemma has_class_set_titlemark x num h :
  Renumber.has_class x (set_titlemark num h) = Renumber.has_class x h.
Proof. unfold set_titlemark. by destruct (h_titlemark h). Qed.

Lemma is_name_set_titlemark x num h : is_name x (set_titlemark num h) = is_name x h.
Proof. unfold set_titlemark. by destruct (h_titlemark h). Qed.

(** The pass on a heading that it has already renumbered, from the same
    counters: the same counters, the same number, the same heading. *)
Lemma renumber_heading_idem chapter_num c (h : heading) :
  renumber_heading chapter_num c (snd (renumber_heading chapter_num c h))
  = renumber_heading chapter_num c h.
Proof.
  destruct (Renumber.has_class "chapterHead" h) eqn:E0.
  { assert (H : renumber_heading chapter_num c h = (c, None, h)).
    { unfold renumber_heading. by rewrite E0. }
    rewrite H. cbn [snd]. exact H. }
  destruct (is_name "h3" h && Renumber.has_class "sectionHead" h) eqn:E1.
  { assert (H : snd (renumber_heading chapter_num c h)
                = set_titlemark (dotted [chapter_num; S (section_counter c)]) h).
    { unfold renumber_heading. cbv zeta. by rewrite E0, E1. }
    rewrite H. unfold renumber_heading. cbv zeta.
    rewrite !has_class_set_titlemark, !is_name_set_titlemark, E0, E1.
    cbn [section_counter]. by rewrite set_titlemark_idem. }
  destruct (is_name "h3" h && Renumber.has_class "enrichment-title" h) eqn:E2.
  { assert (H : snd (renumber_heading chapter_num c h)
                = retitle (dotted [chapter_num; S (section_counter c)]) h).
    { unfold renumber_heading. cbv zeta. by rewrite E0, E1, E2. }
    rewrite H. unfold renumber_heading. cbv zeta.
    rewrite !has_class_retitle, !is_name_retitle, E0, E1, E2.
    cbn [section_counter]. by rewrite retitle_dotted. }
  destruct (is_name "h4" h && Renumber.has_class "subsectionHead" h) eqn:E3.
  { assert (H : snd (renumber_heading chapter_num c h)
                = set_titlemark
                    (dotted [chapter_num; section_counter c; S (subsection_counter c)]) h).
    { unfold renumber_heading. cbv zeta. by rewrite E0, E1, E2, E3. }
    rewrite H. unfold renumber_heading. cbv zeta.
    rewrite !has_class_set_titlemark, !is_name_set_titlemark, E0, E1, E2, E3.
    cbn [section_counter subsection_counter]. by rewrite set_titlemark_idem. }
  destruct (is_name "h4" h && Renumber.has_class "enrichment-title" h) eqn:E4.
  { assert (H : snd (renumber_heading chapter_num c h)
                = retitle
                    (dotted [chapter_num; section_counter c; S (subsection_counter c)]) h).
    { unfold renumber_heading. cbv zeta. by rewrite E0, E1, E2, E3, E4. }
    rewrite H. unfold renumber_heading. cbv zeta.
    rewrite !has_class_retitle, !is_name_retitle, E0, E1, E2, E3, E4.
    cbn [section_counter subsection_counter]. by rewrite retitle_dotted. }
  destruct (is_name "h5" h && (Renumber.has_class "subsubsectionHead" h
                               || Renumber.has_class "enrichment-title" h)) eqn:E5.
  - destruct (Renumber.has_class "enrichment-title" h) eqn:E6.
    + destruct (0 <? subsection_counter c) eqn:E7.
      * assert (H : snd (renumber_heading chapter_num c h)
                    = retitle
                        (dotted [chapter_num; section_counter c; subsection_counter c;
                                 S (subsubsection_counter c)]) h).
        { unfold renumber_heading. cbv zeta. rewrite E6, E0, E1, E2, E3, E4, E5.
          cbn [section_counter subsection_counter subsubsection_counter snd]. by rewrite E7. }
        rewrite H. unfold renumber_heading. cbv zeta.
        rewrite !has_class_retitle, !is_name_retitle, E6, E0, E1, E2, E3, E4, E5.
        cbn [section_counter subsection_counter subsubsection_counter]. rewrite E7.
        by rewrite retitle_dotted.
      * assert (H : snd (renumber_heading chapter_num c h)
                    = retitle
                        (dotted [chapter_num; section_counter c;
                                 S (subsubsection_counter c)]) h).
        { unfold renumber_heading. cbv zeta. rewrite E6, E0, E1, E2, E3, E4, E5.
          cbn [section_counter subsection_counter subsubsection_counter snd]. by rewrite E7. }
        rewrite H. unfold renumber_heading. cbv zeta.
        rewrite !has_class_retitle, !is_name_retitle, E6, E0, E1, E2, E3, E4, E5.
        cbn [section_counter subsection_counter subsubsection_counter]. rewrite E7.
        by rewrite retitle_dotted.
    + assert (H : snd (renumber_heading chapter_num c h) = h).
      { unfold renumber_heading. cbv zeta. by rewrite E6, E0, E1, E2, E3, E4, E5. }
      by rewrite H.
  - assert (H : renumber_heading chapter_num c h = (c, None, h)).
    { unfold renumber_heading. cbv zeta. by rewrite E0, E1, E2, E3, E4, E5. }
    rewrite H. cbn [snd]. exact H.
Qed.

Lemma renumber_from_idem chapter_num : forall hs c,
  renumber_from chapter_num c (map snd (snd (renumber_from chapter_num c hs)))
  = renumber_from chapter_num c hs.
Proof.
  induction hs as [|h hs IH]; intros c; [done|].
  cbn [renumber_from].
  pose proof (renumber_heading_idem chapter_num c h) as Hh.
  destruct (renumber_heading chapter_num c h) as [[c1 n] h'] eqn:E. cbn [snd] in Hh.
  specialize (IH c1). destruct (renumber_from chapter_num c1 hs) as [c2 out] eqn:E2.
  cbn [snd map fst renumber_from] in *. rewrite Hh, IH. reflexivity.
Qed.

(** X26. Running the renumbering pass over the headings that it has left gives
    the same counters, the same numbers and the same headings again:
    an enrichment title that already carries its number is not given a
    second one, a titlemark is overwritten with the same text. *)
Theorem renumber_idempotent (chapter_num : nat) (hs : list heading) :
  renumber chapter_num (renumbered chapter_num hs) = renumber chapter_num hs.
Proof. unfold renumber, renumbered. apply renumber_from_idem. Qed.

End RenumberIdem.

Module EqLabelFacts.
Import PyStr MatchFacts ReTheory StrFacts NumFacts Tables EqLabels.

(** *** What the loop keeps *)

Lemma assign_missing_keeps chapter_num : forall labels k (m : gmap string string) l v,
  m !! l = Some v -> snd (assign_missing chapter_num labels k m) !! l = Some v.
Proof.
  induction labels as [|label rest IH]; intros k m l v Hl; [done|].
  cbn [assign_missing]. destruct (m !! label) as [num_str|] eqn:E; [by apply IH|].
  apply IH. rewrite lookup_insert_ne; [done|]. intros ->. congruence.
Qed.

Lemma assign_missing_covers chapter_num : forall labels k (m : gmap string string) l,
  l ∈ labels -> is_Some (snd (assign_missing chapter_num labels k m) !! l).
Proof.
  induction labels as [|label rest IH]; intros k m l Hl; [by apply elem_of_nil in Hl|].
  cbn [assign_missing]. apply elem_of_cons in Hl as [->|Hl].
  - destruct (m !! label) as [num_str|] eqn:E.
    + exists num_str. by apply assign_missing_keeps.
    + eexists. apply assign_missing_keeps. by rewrite lookup_insert_eq.
  - destruct (m !! label); by apply IH.
Qed.

Lemma assign_missing_others chapter_num : forall labels k (m : gmap string string) l,
  l ∉ labels -> snd (assign_missing chapter_num labels k m) !! l = m !! l.
Proof.
  induction labels as [|label rest IH]; intros k m l Hl; [done|].
  apply not_elem_of_cons in Hl as [Hne Hl]. cbn [assign_missing].
  destruct (m !! label); rewrite IH by done; [done|]. by rewrite lookup_insert_ne.
Qed.

Lemma missing_count_zero labels (m : gmap string string) :
  missing_count labels m = 0 -> forall l, l ∈ labels -> is_Some (m !! l).
Proof.
  unfold missing_count. induction labels as [|label rest IH]; intros H l Hl.
  - by apply elem_of_nil in Hl.
  - cbn [List.filter] in H. destruct (bool_decide (is_Some (m !! label))) eqn:E.
    + cbn [negb] in H. apply elem_of_cons in Hl as [->|Hl]; [|by apply IH].
      by apply bool_decide_eq_true in E.
    + cbn [negb length] in H. lia.
Qed.

(** X11. The numbering step only adds: a label that came with a number from the
    converter keeps it, every label of the document has a number afterwards,
    and nothing but the labels of the document is given one. *)
Theorem number_labels_extends (chapter_num : nat) (labels : list string)
    (m : gmap string string) :
  (forall l v, m !! l = Some v -> number_labels chapter_num labels m !! l = Some v)
  /\ (forall l, l ∈ labels -> is_Some (number_labels chapter_num labels m !! l))
  /\ (forall l, l ∉ labels -> number_labels chapter_num labels m !! l = m !! l).
Proof.
  unfold number_labels. destruct labels as [|l0 rest] eqn:El.
  { split; [done|]. split; [|done]. intros l Hl. by apply elem_of_nil in Hl. }
  rewrite <- El. destruct (0 <? missing_count labels m) eqn:E.
  - split; [|split].
    + intros l v. apply assign_missing_keeps.
    + intros l. apply assign_missing_covers.
    + intros l. apply assign_missing_others.
  - split; [done|]. split; [|done]. apply missing_count_zero.
    apply Nat.ltb_ge in E. lia.
Qed.

(** *** The numbers that are given *)

Lemma assign_missing_app chapter_num : forall l1 l2 k (m : gmap string string),
  assign_missing chapter_num (l1 ++ l2)%list k m
  = assign_missing chapter_num l2 (fst (assign_missing chapter_num l1 k m))
      (snd (assign_missing chapter_num l1 k m)).
Proof.
  induction l1 as [|label l1 IH]; intros l2 k m; [done|].
  cbn [app assign_missing]. destruct (m !! label); apply IH.
Qed.

(** Labels that have no number yet take the numbers from the counter on. *)
Lemma assign_missing_fresh chapter_num : forall labels k (m : gmap string string) i l,
  NoDup labels -> (forall x, x ∈ labels -> m !! x = None) ->
  labels !! i = Some l ->
  snd (assign_missing chapter_num labels k m) !! l
  = Some (eq_number chapter_num (k + Z.of_nat i))
  /\ fst (assign_missing chapter_num labels k m) = (k + Z.of_nat (length labels))%Z.
Proof.
  induction labels as [|label rest IH]; intros k m i l Hnd Hm Hi; [done|].
  apply NoDup_cons in Hnd as [Hnot Hnd]. cbn [assign_missing].
  rewrite (Hm label) by (by left).
  assert (Hm' : forall x, x ∈ rest ->
            (<[label := eq_number chapter_num k]> m) !! x = None).
  { intros x Hx. rewrite lookup_insert_ne by (intros ->; done). apply Hm. by right. }
  destruct i as [|i].
  - injection Hi as ->. split.
    + rewrite assign_missing_others by done. rewrite lookup_insert_eq. do 2 f_equal. lia.
    + destruct rest as [|r0 rest'] eqn:Er; [cbn; lia|]. rewrite <- Er in *.
      destruct (IH (k + 1)%Z (<[l := eq_number chapter_num k]> m) 0 r0 Hnd Hm') as [_ H2].
      { by rewrite Er. }
      rewrite H2. cbn [length]. lia.
  - change ((label :: rest) !! S i) with (rest !! i) in Hi.
    destruct (IH (k + 1)%Z (<[label := eq_number chapter_num k]> m) i l Hnd Hm' Hi)
      as [H1 H2].
    split; [rewrite H1; do 2 f_equal; lia|]. rewrite H2. cbn [length]. lia.
Qed.

(** X12. When the converter gave no equation number, the labels of the
    document (each met once) are numbered chapter.1, chapter.2, ... in the
    order of the document. *)
Theorem number_labels_from_one (chapter_num : nat) (labels : list string) (i : nat)
    (l : string) :
  NoDup labels ->
  labels !! i = Some l ->
  number_labels chapter_num labels ∅ !! l
  = Some (eq_number chapter_num (Z.of_nat (S i))).
Proof.
  intros Hnd Hi. unfold number_labels.
  destruct labels as [|l0 rest] eqn:El; [done|]. rewrite <- El in *.
  assert (Hpos : (0 <? missing_count labels ∅) = true).
  { rewrite El. unfold missing_count. cbn [List.filter].
    rewrite lookup_empty. rewrite bool_decide_eq_false_2 by (by intros [? ?]).
    cbn [negb length]. done. }
  rewrite Hpos.
  destruct (assign_missing_fresh chapter_num labels 1%Z ∅ i l Hnd) as [H _]; [|done|].
  - intros x _. apply lookup_empty.
  - rewrite H. do 2 f_equal. lia.
Qed.

Lemma number_labels_from_one_witness :
  number_labels 20 ["eq:chapter20_elbo"; "eq:chapter20_kl"; "eq:chapter20_score"] ∅
    !! "eq:chapter20_score"
  = Some (eq_number 20 (Z.of_nat 3)).
Proof.
  apply (number_labels_from_one 20
           ["eq:chapter20_elbo"; "eq:chapter20_kl"; "eq:chapter20_score"] 2).
  - apply (bool_decide_unpack _). vm_compute. exact I.
  - reflexivity.
Defined.

Lemma missing_count_pos labels (m : gmap string string) l :
  l ∈ labels -> m !! l = None -> 0 < missing_count labels m.
Proof.
  unfold missing_count. induction labels as [|label rest IH]; intros Hl Hm.
  - by apply elem_of_nil in Hl.
  - cbn [List.filter]. apply elem_of_cons in Hl as [<-|Hl].
    + rewrite Hm. rewrite bool_decide_eq_false_2 by (by intros [? ?]).
      cbn [negb length]. lia.
    + destruct (negb (bool_decide (is_Some (m !! label)))); cbn [length];
        specialize (IH Hl Hm); lia.
Qed.

(** X13. A label without a number that follows a label numbered by the
    converter takes the number after it: chapter.(n+1) after a label whose
    number ends in n. *)
Theorem number_labels_after_known (chapter_num : nat) (pre post : list string)
    (a b v : string) (n : Z) (m : gmap string string) :
  m !! a = Some v ->
  second_number v = Some n ->
  m !! b = None ->
  b ∉ pre ->
  number_labels chapter_num (pre ++ a :: b :: post)%list m !! b
  = Some (eq_number chapter_num (n + 1)).
Proof.
  intros Ha Hv Hb Hpre. unfold number_labels.
  destruct (pre ++ a :: b :: post)%list as [|l0 rest] eqn:El.
  { by destruct pre. }
  rewrite <- El.
  assert (Hpos : (0 <? missing_count (pre ++ a :: b :: post) m) = true).
  { apply Nat.ltb_lt, (missing_count_pos _ _ b); [|done].
    apply elem_of_app. right. right. by left. }
  rewrite Hpos, assign_missing_app.
  set (k1 := fst (assign_missing chapter_num pre 1%Z m)).
  set (m1 := snd (assign_missing chapter_num pre 1%Z m)).
  assert (Ha1 : m1 !! a = Some v) by (by apply assign_missing_keeps).
  assert (Hb1 : m1 !! b = None) by (unfold m1; by rewrite assign_missing_others).
  cbn [assign_missing]. rewrite Ha1, Hv, Hb1.
  apply assign_missing_keeps. by rewrite lookup_insert_eq.
Qed.

Lemma number_labels_after_known_witness :
  number_labels 20 (["eq:chapter20_a"] ++ "eq:chapter20_b" :: "eq:chapter20_c" :: [])%list
    {["eq:chapter20_b" := "20.41"]} !! "eq:chapter20_c"
  = Some (eq_number 20 (41 + 1)).
Proof.
  apply (number_labels_after_known 20 ["eq:chapter20_a"] [] "eq:chapter20_b"
           "eq:chapter20_c" "20.41" 41).
  - reflexivity.
  - reflexivity.
  - reflexivity.
  - apply (bool_decide_unpack _). vm_compute. exact I.
Defined.

End EqLabelFacts.

Module UnwrapFacts.
Import PyStr MatchFacts ReTheory StrFacts Unwrap.

(** *** Lengths *)

Local Ltac lens := unfold len in *; cbn [String.length] in *; lia.

Lemma len_lstrip_by f : forall s : string, len (lstrip_by f s) <= len s.
Proof.
  induction s as [|c s IH]; [done|]. cbn [lstrip_by]. destruct (f c); [|done]. lens.
Qed.

Lemma len_rev_app : forall s a : string, len (String.rev_app s a) = len s + len a.
Proof.
  induction s as [|c s IH]; intros a; [done|]. cbn [String.rev_app].
  rewrite IH. lens.
Qed.

Lemma len_rev (s : string) : len (String.rev s) = len s.
Proof. unfold String.rev. rewrite len_rev_app. cbn [len String.length]. lia. Qed.

Lemma len_rstrip_by f (s : string) : len (rstrip_by f s) <= len s.
Proof.
  unfold rstrip_by. rewrite len_rev. etrans; [apply len_lstrip_by|]. by rewrite len_rev.
Qed.

Lemma len_strip (s : string) : len (strip s) <= len s.
Proof. unfold strip. etrans; [apply len_rstrip_by|apply len_lstrip_by]. Qed.

Lemma len_slice a b (s : string) : len (slice a b s) <= len s.
Proof. unfold slice. rewrite len_take, len_drop. lia. Qed.

Lemma strip_wrapper_len (s t : string) : strip_wrapper s = Some t -> len t <= len s.
Proof.
  unfold strip_wrapper. destruct (find ">" s) as [first_gt|]; [|done].
  destruct (rfind "</div>" s) as [last_div|]; [|done].
  destruct (last_div <=? first_gt); [done|]. intros [= <-].
  etrans; [apply len_strip|apply len_slice].
Qed.

Lemma try_starts_len starts (s t : string) : try_starts starts s = Some t -> len t <= len s.
Proof.
  induction starts as [|start_tag rest IH]; [done|]. cbn [try_starts].
  destruct (startswith (lower s) (lower start_tag)); [apply strip_wrapper_len|apply IH].
Qed.

Lemma try_starts_none starts (s : string) :
  Forall (fun start_tag => startswith (lower s) (lower start_tag) = false) starts ->
  try_starts starts s = None.
Proof.
  induction 1 as [|start_tag rest H _ IH]; [done|]. cbn [try_starts]. by rewrite H.
Qed.

(** X2. The unwrapping never makes the content longer, and content that does
    not start (blanks and case apart) with one of the eight container tags
    is returned as it is, not even stripped. *)
Theorem unwrap_never_grows (doc_content : string) :
  len (unwrap doc_content) <= len doc_content
  /\ (Forall (fun start_tag =>
                startswith (lower (strip doc_content)) (lower start_tag) = false)
             unwanted_starts ->
      unwrap doc_content = doc_content).
Proof.
  split.
  - unfold unwrap. generalize 10. intros n. revert doc_content.
    induction n as [|n IH]; intros doc_content; [done|]. cbn [unwrap_loop].
    destruct (try_starts unwanted_starts (strip doc_content)) as [d|] eqn:E; [|done].
    apply try_starts_len in E. etrans; [apply IH|]. etrans; [exact E|apply len_strip].
  - intros H. unfold unwrap. cbn [unwrap_loop]. by rewrite try_starts_none.
Qed.

(** *** One wrapper *)

Lemma lower_app (s1 s2 : string) : lower (s1 +:+ s2) = lower s1 +:+ lower s2.
Proof.
  unfold lower. induction s1 as [|c s1 IH]; [by rewrite !append_nil_l|].
  rewrite append_cons. cbn [map_chars]. by rewrite append_cons, IH.
Qed.

Lemma find_fresh_char (a : ascii) (pre post : string) :
  all_chars (fun c => negb (bool_decide (c = a))) pre = true ->
  find (String a EmptyString) (pre +:+ String a post) = Some (len pre).
Proof.
  induction pre as [|c pre IH]; intros H.
  - rewrite append_nil_l. cbn [find startswith].
    destruct (ascii_dec a a); [|done]. by rewrite startswith_nil.
  - cbn [all_chars] in H. apply andb_true_iff in H as [Hc H].
    apply negb_true_iff, bool_decide_eq_false in Hc.
    rewrite append_cons. cbn [find startswith].
    destruct (ascii_dec a c) as [->|_]; [done|]. by rewrite IH.
Qed.

Lemma startswith_short : forall (p s : string), len s < len p -> startswith s p = false.
Proof.
  induction p as [|a p IH]; intros s H; [lens|].
  destruct s as [|b s]; [done|]. cbn [startswith]. destruct (ascii_dec a b); [|done].
  apply IH. lens.
Qed.

Lemma rfind_short (p : string) : forall s : string, len s < len p -> rfind p s = None.
Proof.
  induction s as [|c s IH]; intros H; cbn [rfind].
  - by rewrite startswith_short.
  - rewrite IH by lens. by rewrite startswith_short.
Qed.

Lemma startswith_refl (p : string) : startswith p p = true.
Proof. rewrite <- (append_nil_r p) at 1. apply startswith_app. Qed.

(** A text that ends with [p] has its last occurrence of [p] there. *)
Lemma rfind_end (p : string) : p <> EmptyString ->
  forall x : string, rfind p (x +:+ p) = Some (len x).
Proof.
  intros Hp. induction x as [|c x IH].
  - rewrite append_nil_l. destruct p as [|a p']; [done|]. cbn [rfind].
    rewrite rfind_short by lens.
    by rewrite startswith_refl.
  - rewrite append_cons. cbn [rfind]. by rewrite IH.
Qed.

Lemma strip_id_ends (s : string) :
  stops_at is_space s = true -> stops_at is_space (String.rev s) = true -> strip s = s.
Proof.
  intros H1 H2. unfold strip. rewrite (lstrip_by_id is_space s) by done.
  unfold rstrip_by. rewrite lstrip_by_id by done. apply rev_rev.
Qed.

Lemma try_starts_hit starts (tag s : string) :
  tag ∈ starts -> startswith (lower s) (lower tag) = true ->
  try_starts starts s = strip_wrapper s.
Proof.
  induction starts as [|start_tag rest IH]; intros Hin Hs; [by apply elem_of_nil in Hin|].
  cbn [try_starts]. destruct (startswith (lower s) (lower start_tag)) eqn:E; [done|].
  apply elem_of_cons in Hin as [->|Hin]; [congruence|by apply IH].
Qed.

Lemma unwanted_starts_no_gt tag :
  tag ∈ unwanted_starts -> all_chars not_gt tag = true /\ stops_at is_space tag = true
                           /\ tag <> EmptyString.
Proof.
  intros H. unfold unwanted_starts in H.
  repeat (apply elem_of_cons in H as [->|H]; [by vm_compute|]).
  by apply elem_of_nil in H.
Qed.

(** X3. One round on a container that is opened by one of the eight tags
    (with any further attributes) and closed by the last closing div tag
    of the content: what is left is the stripped inside of the container. *)
Theorem unwrap_one_wrapper (tag attrs body : string) :
  tag ∈ unwanted_starts ->
  all_chars not_gt attrs = true ->
  try_starts unwanted_starts (strip (tag +:+ attrs +:+ ">" +:+ body +:+ "</div>"))
  = Some (strip body).
Proof.
  intros Htag Hattrs. destruct (unwanted_starts_no_gt tag Htag) as (Hgt & Hsp & Hne).
  set (doc := tag +:+ attrs +:+ ">" +:+ body +:+ "</div>").
  assert (Hstrip : strip doc = doc).
  { apply strip_id_ends.
    - unfold doc. destruct tag as [|c tag']; [done|]. by rewrite append_cons.
    - unfold doc.
      replace (tag +:+ attrs +:+ ">" +:+ body +:+ "</div>")
        with ((tag +:+ attrs +:+ ">" +:+ body) +:+ "</div>") by (by rewrite !append_assoc).
      rewrite rev_append. reflexivity. }
  rewrite Hstrip. rewrite (try_starts_hit _ tag); [|done|].
  2:{ unfold doc. rewrite lower_app. apply startswith_app. }
  unfold strip_wrapper.
  assert (Hfind : find ">" doc = Some (len (tag +:+ attrs))).
  { unfold doc. rewrite <- append_assoc.
    apply (find_fresh_char ">" (tag +:+ attrs) (body +:+ "</div>")).
    change (all_chars not_gt (tag +:+ attrs) = true).
    rewrite all_chars_app. by rewrite Hgt, Hattrs. }
  assert (Hrfind : rfind "</div>" doc = Some (len (tag +:+ attrs +:+ ">" +:+ body))).
  { unfold doc.
    replace (tag +:+ attrs +:+ ">" +:+ body +:+ "</div>")
      with ((tag +:+ attrs +:+ ">" +:+ body) +:+ "</div>") by (by rewrite !append_assoc).
    by apply rfind_end. }
  rewrite Hfind, Hrfind.
  assert (Hlen : len (tag +:+ attrs +:+ ">" +:+ body)
                 = len (tag +:+ attrs) + 1 + len body).
  { rewrite <- append_assoc, !len_app. cbn [len String.length]. lia. }
  rewrite Hlen.
  destruct (len (tag +:+ attrs) + 1 + len body <=? len (tag +:+ attrs)) eqn:E.
  { apply Nat.leb_le in E. lia. }
  do 2 f_equal. unfold slice.
  replace (len (tag +:+ attrs) + 1 + len body - (len (tag +:+ attrs) + 1)) with (len body)
    by lia.
  assert (Hdrop : drop (len (tag +:+ attrs) + 1) doc = body +:+ "</div>").
  { unfold doc.
    replace (tag +:+ attrs +:+ ">" +:+ body +:+ "</div>")
      with (((tag +:+ attrs) +:+ ">") +:+ body +:+ "</div>")
      by (by rewrite !append_assoc).
    replace (len (tag +:+ attrs) + 1) with (len ((tag +:+ attrs) +:+ ">"))
      by (rewrite (len_app (tag +:+ attrs)); cbn [len String.length]; lia).
    apply drop_app_len. }
  rewrite Hdrop. apply take_app_len.
Qed.

Lemma unwrap_one_wrapper_witness :
  try_starts unwanted_starts
    (strip (("<div class=" +:+ dq +:+ "card" +:+ dq) +:+ " id='c1'" +:+ ">"
              +:+ " <p>Text</p> " +:+ "</div>"))
  = Some (strip " <p>Text</p> ").
Proof.
  apply (unwrap_one_wrapper ("<div class=" +:+ dq +:+ "card" +:+ dq) " id='c1'" " <p>Text</p> ").
  - apply (bool_decide_unpack _). vm_compute. exact I.
  - reflexivity.
Defined.

End UnwrapFacts.

Module SplitFacts.
Import PyStr MatchFacts ReTheory StrFacts CodeBlocks.

Local Ltac lens := unfold len in *; cbn [String.length] in *; lia.

(** *** [split] and [join] *)

Lemma split_go_acc sep : forall (s cur : string),
  split_go sep cur s
  = match split_go sep EmptyString s with
    | f :: r => (String.rev cur +:+ f) :: r
    | [] => []
    end.
Proof.
  induction s as [|c s IH]; intros cur; cbn [split_go].
  - change (String.rev EmptyString) with EmptyString. by rewrite append_nil_r.
  - destruct (ascii_dec c sep).
    + change (String.rev EmptyString) with EmptyString. by rewrite append_nil_r.
    + rewrite (IH (String c cur)), (IH (String c EmptyString)).
      destruct (split_go sep EmptyString s) as [|f r]; [done|].
      rewrite rev_cons, append_assoc. reflexivity.
Qed.

Lemma split_cons sep c (s : string) :
  split sep (String c s)
  = if ascii_dec c sep then EmptyString :: split sep s
    else match split sep s with
         | f :: r => String c f :: r
         | [] => []
         end.
Proof.
  unfold split. cbn [split_go]. destruct (ascii_dec c sep); [done|].
  rewrite split_go_acc. by destruct (split_go sep EmptyString s).
Qed.

Lemma split_nonempty sep (s : string) : split sep s <> [].
Proof.
  induction s as [|c s IH]; [done|]. rewrite split_cons.
  destruct (ascii_dec c sep); [done|]. by destruct (split sep s).
Qed.

Lemma split_lines_clean (s : string) : Forall (fun l => all_chars not_nl l = true) (split nl_char s).
Proof.
  induction s as [|c s IH]; [by repeat constructor|]. rewrite split_cons.
  destruct (ascii_dec c nl_char) as [->|Hc]; [by constructor|].
  pose proof (split_nonempty nl_char s) as Hne.
  destruct (split nl_char s) as [|f r]; [done|].
  apply Forall_cons in IH as [Hf Hr]. constructor; [|done].
  cbn [all_chars]. rewrite Hf. unfold not_nl. by rewrite bool_decide_eq_false_2.
Qed.

Lemma join_cons sep x y (l : list string) :
  join sep (x :: y :: l) = x +:+ sep +:+ join sep (y :: l).
Proof. reflexivity. Qed.

Lemma split_app_clean (f rest : string) :
  all_chars not_nl f = true ->
  split nl_char (f +:+ String nl_char rest) = f :: split nl_char rest.
Proof.
  induction f as [|c f IH]; intros H.
  - rewrite append_nil_l, split_cons. by destruct (ascii_dec nl_char nl_char).
  - cbn [all_chars] in H. apply andb_true_iff in H as [Hc H].
    apply negb_true_iff, bool_decide_eq_false in Hc.
    rewrite append_cons, split_cons. destruct (ascii_dec c nl_char); [done|].
    by rewrite IH.
Qed.

Lemma split_clean (f : string) : all_chars not_nl f = true -> split nl_char f = [f].
Proof.
  induction f as [|c f IH]; intros H; [done|].
  cbn [all_chars] in H. apply andb_true_iff in H as [Hc H].
  apply negb_true_iff, bool_decide_eq_false in Hc.
  rewrite split_cons. destruct (ascii_dec c nl_char); [done|]. by rewrite IH.
Qed.

(** Lines without a newline, joined and split again, are the lines. *)
Lemma split_join (ls : list string) :
  ls <> [] -> Forall (fun l => all_chars not_nl l = true) ls ->
  split nl_char (join nl ls) = ls.
Proof.
  induction ls as [|x ls IH]; intros Hne H; [done|].
  apply Forall_cons in H as [Hx H]. destruct ls as [|y ls].
  - cbn [join]. by apply split_clean.
  - rewrite join_cons. unfold nl at 1. rewrite append_cons, append_nil_l.
    rewrite split_app_clean by done. f_equal. by apply IH.
Qed.

End SplitFacts.

Module DedentFacts.
Import PyStr MatchFacts ReTheory StrFacts CodeBlocks SplitFacts.

Local Ltac lens := unfold len in *; cbn [String.length] in *; lia.

(** *** Indentation of one line *)

Lemma len_lstrip_le f : forall s : string, len (lstrip_by f s) <= len s.
Proof.
  induction s as [|c s IH]; [done|]. cbn [lstrip_by]. destruct (f c); [|done]. lens.
Qed.

(** Cutting no more than the indentation leaves what follows it. *)
Lemma lstrip_drop : forall m (s : string),
  m <= len s - len (lstrip_by is_space s) ->
  lstrip_by is_space (drop m s) = lstrip_by is_space s.
Proof.
  induction m as [|m IH]; intros s H; [done|].
  destruct s as [|c s]; [done|]. cbn [drop lstrip_by] in *.
  destruct (is_space c); [|lens]. apply IH.
  pose proof (len_lstrip_le is_space s). lens.
Qed.

Lemma rstrip_nil_lstrip (s : string) :
  rstrip_by is_space (lstrip_by is_space s) = EmptyString ->
  lstrip_by is_space s = EmptyString.
Proof.
  pose proof (stops_at_lstrip_by is_space s) as Hs.
  destruct (lstrip_by is_space s) as [|c t]; [done|].
  cbn [stops_at] in Hs. apply negb_true_iff in Hs.
  by rewrite rstrip_by_cons_keep.
Qed.

Lemma is_blank_lstrip (s : string) :
  is_blank s = bool_decide (lstrip_by is_space s = EmptyString).
Proof.
  unfold is_blank, strip. apply bool_decide_ext. split.
  - apply rstrip_nil_lstrip.
  - by intros ->.
Qed.

Lemma is_blank_drop m (s : string) : m <= indent s -> is_blank (drop m s) = is_blank s.
Proof. intros H. rewrite !is_blank_lstrip. by rewrite lstrip_drop. Qed.

Lemma indent_le (s : string) : indent s <= len s.
Proof. unfold indent. lia. Qed.

Lemma indent_drop m (s : string) : m <= indent s -> indent (drop m s) = indent s - m.
Proof.
  intros H. unfold indent in *. rewrite lstrip_drop by done. rewrite len_drop.
  pose proof (len_lstrip_le is_space s). lia.
Qed.

Lemma normalize_line_zero (line : string) :
  is_blank line = false -> normalize_line 0 line = line.
Proof. intros H. unfold normalize_line. by rewrite H. Qed.

Lemma normalize_line_blank m (line : string) :
  is_blank line = true -> normalize_line m line = EmptyString.
Proof. intros H. unfold normalize_line. by rewrite H. Qed.

Lemma normalize_line_cut m (line : string) :
  is_blank line = false -> m <= indent line -> normalize_line m line = drop m line.
Proof.
  intros H Hm. unfold normalize_line. rewrite H. cbn [negb].
  pose proof (indent_le line). by rewrite (proj2 (Nat.leb_le m (len line))) by lia.
Qed.

Lemma all_chars_drop_nl m (s : string) :
  all_chars not_nl s = true -> all_chars not_nl (drop m s) = true.
Proof. apply all_chars_drop. Qed.

Lemma normalize_line_clean m (line : string) :
  all_chars not_nl line = true -> all_chars not_nl (normalize_line m line) = true.
Proof.
  intros H. unfold normalize_line. destruct (negb (is_blank line)); [|done].
  destruct (m <=? len line); [by apply all_chars_drop|done].
Qed.

(** *** The least indentation *)

Lemma min_of_le x l : min_of x l <= x /\ Forall (fun y => min_of x l <= y) l.
Proof.
  unfold min_of. induction l as [|y l [IH1 IH2]]; cbn [foldr]; [split; [lia|constructor]|].
  split; [lia|]. constructor; [lia|]. eapply Forall_impl; [exact IH2|]. cbn. lia.
Qed.

Lemma min_of_attained x l : min_of x l = x \/ min_of x l ∈ l.
Proof.
  unfold min_of. induction l as [|y l IH]; cbn [foldr]; [by left|].
  destruct (Nat.min_spec y (foldr Nat.min x l)) as [[_ ->]|[_ ->]].
  - right. by left.
  - destruct IH as [IH|IH]; [by left|right; by right].
Qed.

Lemma min_of_shift m x l :
  m <= min_of x l -> min_of (x - m) (map (fun y => y - m) l) = min_of x l - m.
Proof.
  unfold min_of. induction l as [|y l IH]; cbn [foldr map]; intros H; [done|].
  rewrite IH by lia. lia.
Qed.

(** *** The whole step *)

Lemma is_blank_nil : is_blank EmptyString = true.
Proof. reflexivity. Qed.

Lemma min_indent_bound (line : string) rest (l : string) :
  In l (line :: rest) -> min_of (indent line) (map indent rest) <= indent l.
Proof.
  destruct (min_of_le (indent line) (map indent rest)) as [H1 H2].
  intros [<-|Hin]; [done|].
  rewrite Forall_forall in H2. apply H2. apply list_elem_of_fmap.
  exists l. split; [done|]. by apply list_elem_of_In.
Qed.

Lemma filter_normalize m (lines : list string) :
  Forall (fun l => is_blank l = false -> m <= indent l) lines ->
  List.filter nonblank (map (normalize_line m) lines)
  = map (drop m) (List.filter nonblank lines).
Proof.
  induction lines as [|l lines IH]; intros H; [done|].
  apply Forall_cons in H as [Hl H]. cbn [map List.filter].
  assert (Hn : forall x, nonblank x = negb (is_blank x)) by done.
  rewrite !Hn. destruct (is_blank l) eqn:E.
  - rewrite normalize_line_blank by done. rewrite is_blank_nil. cbn [negb]. by apply IH.
  - specialize (Hl eq_refl). rewrite normalize_line_cut by done.
    rewrite is_blank_drop by done. rewrite E.
    cbn [negb map]. f_equal. by apply IH.
Qed.

Lemma normalize_twice m (l : string) :
  (is_blank l = false -> m <= indent l) ->
  normalize_line 0 (normalize_line m l) = normalize_line m l.
Proof.
  intros H. destruct (is_blank l) eqn:E.
  - rewrite (normalize_line_blank m l) by done. reflexivity.
  - specialize (H eq_refl). rewrite (normalize_line_cut m l) by done.
    apply normalize_line_zero. by rewrite is_blank_drop.
Qed.

Lemma strip_normalize m (l : string) :
  (is_blank l = false -> m <= indent l) ->
  strip (normalize_line m l) = strip l.
Proof.
  intros H. destruct (is_blank l) eqn:E.
  - rewrite normalize_line_blank by done. unfold is_blank in E.
    apply bool_decide_eq_true in E. by rewrite E.
  - specialize (H eq_refl). rewrite normalize_line_cut by done.
    unfold strip. by rewrite lstrip_drop.
Qed.

(** What the step returns, by the lines of its argument. *)
Lemma dedent_cases (code : string) :
  (List.filter nonblank (split nl_char code) = [] /\ dedent code = code)
  \/ exists line rest m,
       List.filter nonblank (split nl_char code) = line :: rest
       /\ m = min_of (indent line) (map indent rest)
       /\ Forall (fun l => is_blank l = false -> m <= indent l) (split nl_char code)
       /\ dedent code = join nl (map (normalize_line m) (split nl_char code))
       /\ split nl_char (dedent code) = map (normalize_line m) (split nl_char code).
Proof.
  unfold dedent. fold nonblank.
  destruct (List.filter nonblank (split nl_char code)) as [|line rest] eqn:E; [by left|].
  right. exists line, rest, (min_of (indent line) (map indent rest)).
  split; [done|]. split; [done|]. split; [|split; [done|]].
  - apply Forall_forall. intros l Hl Hb. apply (min_indent_bound line rest).
    rewrite <- E. apply filter_In. split; [by apply list_elem_of_In|].
    unfold nonblank. by rewrite Hb.
  - apply split_join.
    + pose proof (split_nonempty nl_char code). by destruct (split nl_char code).
    + pose proof (split_lines_clean code) as Hc. clear E.
      induction Hc; cbn [map]; constructor; [by apply normalize_line_clean|done].
Qed.

Lemma map_indent_drop m (ls : list string) :
  Forall (fun l => m <= indent l) ls ->
  map indent (map (drop m) ls) = map (fun y => y - m) (map indent ls).
Proof.
  induction 1 as [|l ls Hl _ IH]; [done|]. cbn [map]. rewrite indent_drop by done.
  by rewrite IH.
Qed.

(** X18. The indentation step changes leading white space only.  Line by
    line, the stripped text of [dedent code] is the stripped text of
    [code]; in particular no line is added or lost. *)
Theorem dedent_keeps_text (code : string) :
  map strip (split nl_char (dedent code)) = map strip (split nl_char code).
Proof.
  destruct (dedent_cases code) as [[_ ->]|(line & rest & m & _ & _ & Hm & _ & ->)]; [done|].
  rewrite map_map. induction Hm as [|l ls Hl _ IH]; [done|].
  cbn [map]. rewrite strip_normalize by done. by rewrite IH.
Qed.

(** X19. After the step some line starts at the left margin.  When [code] has
    a line that is not blank, [dedent code] has a line that is not blank and
    has no indentation. *)
Theorem dedent_flush_left (code line : string) :
  In line (split nl_char code) -> is_blank line = false ->
  exists out, In out (split nl_char (dedent code))
              /\ is_blank out = false /\ indent out = 0.
Proof.
  intros Hin Hb.
  destruct (dedent_cases code) as [[E _]|(l0 & rest & m & E & Hmin & Hm & _ & ->)].
  - exfalso. assert (H : In line (List.filter nonblank (split nl_char code))).
    { apply filter_In. split; [done|]. unfold nonblank. by rewrite Hb. }
    by rewrite E in H.
  - assert (Hsub : forall l, In l (l0 :: rest) ->
                     In l (split nl_char code) /\ is_blank l = false).
    { intros l Hl. rewrite <- E in Hl. apply filter_In in Hl as [? Hl].
      split; [done|]. unfold nonblank in Hl. by apply negb_true_iff in Hl. }
    assert (Hatt : exists l, In l (l0 :: rest) /\ indent l = m).
    { destruct (min_of_attained (indent l0) (map indent rest)) as [H|H].
      - exists l0. split; [by left|]. by rewrite Hmin.
      - apply list_elem_of_fmap in H as (l & Hl1 & Hl2). exists l.
        split; [right; by apply list_elem_of_In|]. by rewrite Hmin. }
    destruct Hatt as (l & Hl & Hi). destruct (Hsub l Hl) as [Hl1 Hl2].
    exists (normalize_line m l). split; [by apply in_map|].
    rewrite normalize_line_cut by (done || lia).
    rewrite is_blank_drop by lia. split; [done|].
    rewrite indent_drop by lia. lia.
Qed.

Lemma dedent_flush_left_witness :
  exists out, In out (split nl_char (dedent ("    if x:" +:+ nl +:+ "        return 1")))
              /\ is_blank out = false /\ indent out = 0.
Proof.
  apply (dedent_flush_left _ "    if x:"); [vm_compute; by left|reflexivity].
Defined.

(** X20. The indentation step is idempotent: applied to its own result it
    changes nothing. *)
Theorem dedent_idempotent (code : string) :
  dedent (dedent code) = dedent code.
Proof.
  destruct (dedent_cases code) as [[_ E]|(l0 & rest & m & E & Hmin & Hm & Hd & Hs)].
  { by rewrite !E. }
  assert (Hne : Forall (fun l => m <= indent l) (l0 :: rest)).
  { apply Forall_forall. intros l Hl. apply list_elem_of_In in Hl.
    rewrite Forall_forall in Hm. rewrite <- E in Hl. apply filter_In in Hl as [Hl1 Hl2].
    apply Hm; [by apply list_elem_of_In|]. unfold nonblank in Hl2.
    by apply negb_true_iff in Hl2. }
  destruct (dedent_cases (dedent code))
    as [[_ E']|(l0' & rest' & m' & E' & Hmin' & _ & Hd' & _)]; [done|].
  rewrite Hs, filter_normalize, E in E' by done. cbn [map] in E'.
  injection E' as <- <-.
  apply Forall_cons in Hne as [H0 Hrest].
  rewrite indent_drop, map_indent_drop, min_of_shift in Hmin' by (done || lia).
  assert (m' = 0) as -> by lia.
  rewrite Hd', Hs, map_map, Hd. f_equal.
  clear -Hm. induction Hm as [|l ls Hl _ IH]; [done|].
  cbn [map]. rewrite normalize_twice by done. by rewrite IH.
Qed.

End DedentFacts.

Module EscapeFacts.
Import PyStr MatchFacts ReTheory StrFacts CodeBlocks.

(** *** Replacing one character *)

Lemma replace_char_cons c new x (s : string) :
  replace (String c EmptyString) new (String x s)
  = (if ascii_dec x c then new else String x EmptyString)
    +:+ replace (String c EmptyString) new s.
Proof.
  unfold replace. cbn [replace_go startswith len String.length Nat.sub].
  destruct (ascii_dec x c) as [->|Hx].
  - destruct (ascii_dec c c); [|done]. by destruct s.
  - destruct (ascii_dec c x) as [->|_]; done.
Qed.

Lemma replace_char_app c new (a b : string) :
  replace (String c EmptyString) new (a +:+ b)
  = replace (String c EmptyString) new a +:+ replace (String c EmptyString) new b.
Proof.
  induction a as [|x a IH]; [done|].
  rewrite append_cons, !replace_char_cons, IH. by rewrite append_assoc.
Qed.

Lemma replace_char_keep c new (s : string) :
  all_chars (fun x => negb (bool_decide (x = c))) s = true ->
  replace (String c EmptyString) new s = s.
Proof.
  induction s as [|x s IH]; intros H; [done|].
  cbn [all_chars] in H. apply andb_true_iff in H as [Hx H].
  apply negb_true_iff, bool_decide_eq_false in Hx.
  rewrite replace_char_cons, IH by done. by destruct (ascii_dec x c).
Qed.

(** The three replacements work character by character. *)
Lemma escape_html_cons c (s : string) :
  escape_html (String c s) = escape_char c +:+ escape_html s.
Proof.
  unfold escape_html, escape_char.
  rewrite (replace_char_cons "&"). rewrite (replace_char_app "<"), (replace_char_app ">").
  f_equal. destruct (ascii_dec c "&") as [->|H1]; [reflexivity|].
  rewrite (replace_char_cons "<"). change (replace "<" "&lt;" EmptyString) with EmptyString.
  rewrite append_nil_r. destruct (ascii_dec c "<") as [->|H2]; [reflexivity|].
  rewrite (replace_char_cons ">"). change (replace ">" "&gt;" EmptyString) with EmptyString.
  rewrite append_nil_r. by destruct (ascii_dec c ">").
Qed.

Lemma escape_char_no_angle c : all_chars not_angle (escape_char c) = true.
Proof.
  unfold escape_char. destruct (ascii_dec c "&"); [reflexivity|].
  destruct (ascii_dec c "<"); [reflexivity|]. destruct (ascii_dec c ">"); [reflexivity|].
  cbn [all_chars]. unfold not_angle.
  rewrite !bool_decide_eq_false_2 by done. reflexivity.
Qed.

(** X21. Escaped code holds no angle bracket, so nothing in it can open or
    close a tag of the page. *)
Theorem escape_html_no_angle (code : string) :
  all_chars not_angle (escape_html code) = true.
Proof.
  induction code as [|c code IH]; [reflexivity|].
  rewrite escape_html_cons, all_chars_app, escape_char_no_angle, IH. reflexivity.
Qed.

Lemma escape_char_inj c1 c2 (r1 r2 : string) :
  escape_char c1 +:+ r1 = escape_char c2 +:+ r2 -> c1 = c2 /\ r1 = r2.
Proof.
  unfold escape_char.
  destruct (ascii_dec c1 "&") as [->|A1]; [|destruct (ascii_dec c1 "<") as [->|B1];
    [|destruct (ascii_dec c1 ">") as [->|C1]]];
  (destruct (ascii_dec c2 "&") as [->|A2]; [|destruct (ascii_dec c2 "<") as [->|B2];
    [|destruct (ascii_dec c2 ">") as [->|C2]]]);
  cbn [append]; intros H; try (injection H; intros; subst; done); try done.
Qed.

Lemma escape_nil_inv (s : string) : escape_html s = EmptyString -> s = EmptyString.
Proof.
  destruct s as [|c s]; [done|]. rewrite escape_html_cons. unfold escape_char.
  destruct (ascii_dec c "&"); [done|]. destruct (ascii_dec c "<"); [done|].
  by destruct (ascii_dec c ">").
Qed.

(** X22. Escaping loses nothing: two code texts with the same escaped form are
    the same text. *)
Theorem escape_html_injective (code1 code2 : string) :
  escape_html code1 = escape_html code2 -> code1 = code2.
Proof.
  revert code2. induction code1 as [|c1 s1 IH]; intros code2 H.
  - symmetry. apply escape_nil_inv. by rewrite <- H.
  - destruct code2 as [|c2 s2]; [by apply escape_nil_inv in H|].
    rewrite !escape_html_cons in H. apply escape_char_inj in H as [-> H].
    f_equal. by apply IH.
Qed.

Lemma escape_html_injective_witness :
  escape_html "a<b" = escape_html "a<b" /\ "a<b" = "a<b".
Proof. split; [reflexivity|]. apply escape_html_injective. reflexivity. Defined.

End EscapeFacts.

Module EnrichFacts.
Import PyStr Re MatchFacts ReTheory StrFacts NumFacts SlugAux SlugMore Renumber Enrich.

Lemma lower_non_alnum_class c :
  slug_char c = false -> cls_matches no_flags true [Rg "a" "z"; Rg "0" "9"] c = true.
Proof. destruct c as [[] [] [] [] [] [] [] []]; vm_compute; congruence. Qed.

Lemma digit_slug_char c : is_digit c = true -> slug_char c = true.
Proof. unfold slug_char, is_digit. intros ->. by rewrite orb_true_r. Qed.

Lemma digit_not_dash c : is_digit c = true -> not_dash c = true.
Proof. destruct c as [[] [] [] [] [] [] [] []]; vm_compute; congruence. Qed.

Lemma enrichment_slug_chars (title_text : string) :
  all_chars slug_char (enrichment_slug title_text) = true.
Proof.
  unfold enrichment_slug.
  set (s1 := re_sub no_flags (plus lower_non_alnum) "-" (lower (clean_title title_text))).
  assert (H1 : all_chars slug_char s1 = true).
  { unfold s1, re_sub, re_sub_fn, re_sub_st.
    apply (all_chars_sub_go_const slug_char no_flags (plus lower_non_alnum) "-");
      [reflexivity| |lia].
    intros p c s Hc.
    apply (plus_class_match no_flags (cls_matches no_flags true [Rg "a" "z"; Rg "0" "9"])).
    - reflexivity.
    - by apply lower_non_alnum_class. }
  assert (H2 : all_chars slug_char (strip_chars "-" s1) = true).
  { unfold strip_chars, lstrip_chars. by apply all_chars_rstrip_by, all_chars_lstrip_by. }
  destruct (50 <? len (strip_chars "-" s1)); [by apply all_chars_take|done].
Qed.

Lemma enrichment_slug_len (title_text : string) : len (enrichment_slug title_text) <= 50.
Proof.
  unfold enrichment_slug.
  destruct (50 <? len _) eqn:E.
  - rewrite len_take. lia.
  - by apply Nat.ltb_ge in E.
Qed.

(** X23. An enrichment id is made of lower-case letters, digits and dashes
    only, whatever the title holds, and its slug part has at most 50
    characters. *)
Theorem eid_shape (title_text : string) (enrichment_counter : nat) :
  all_chars slug_char (eid title_text enrichment_counter) = true
  /\ len (eid title_text enrichment_counter)
     <= 62 + len (str_nat enrichment_counter).
Proof.
  unfold eid. split.
  - rewrite !all_chars_app, enrichment_slug_chars.
    destruct (str_nat_digits enrichment_counter) as [Hd _].
    by rewrite (all_chars_impl is_digit slug_char _ digit_slug_char Hd).
  - rewrite !len_app. pose proof (enrichment_slug_len title_text).
    change (len "enrichment-") with 11. change (len "-") with 1. lia.
Qed.

(** The text after the last dash is fixed by the whole. *)
Lemma last_dash_split : forall (a b d1 d2 : string),
  all_chars not_dash d1 = true -> all_chars not_dash d2 = true ->
  a +:+ "-" +:+ d1 = b +:+ "-" +:+ d2 -> d1 = d2.
Proof.
  assert (Hd : forall (b d d' : string),
            all_chars not_dash (d' +:+ b +:+ String "-" d) = false).
  { intros b d d'. rewrite !all_chars_app. cbn [all_chars]. unfold not_dash at 3.
    rewrite bool_decide_eq_true_2 by done. cbn [negb andb]. by rewrite !andb_false_r. }
  induction a as [|x a IH]; intros b d1 d2 H1 H2 H.
  - destruct b as [|y b]; rewrite ?append_nil_l, ?append_cons, ?append_nil_l in H.
    + by injection H.
    + injection H as _ H. rewrite H in H1.
      pose proof (Hd b d2 EmptyString) as Hf. rewrite append_nil_l in Hf. congruence.
  - destruct b as [|y b]; rewrite ?append_nil_l, ?append_cons, ?append_nil_l in H.
    + injection H as _ H. rewrite <- H in H2.
      pose proof (Hd a d1 EmptyString) as Hf. rewrite append_nil_l in Hf. congruence.
    + injection H as _ H. by apply (IH b).
Qed.

Lemma str_nat_not_dash (n : nat) : all_chars not_dash (str_nat n) = true.
Proof.
  destruct (str_nat_digits n) as [Hd _].
  exact (all_chars_impl is_digit not_dash _ digit_not_dash Hd).
Qed.

Lemma eid_counter (t1 t2 : string) (n1 n2 : nat) : eid t1 n1 = eid t2 n2 -> n1 = n2.
Proof.
  unfold eid. intros H.
  rewrite <- (append_assoc "enrichment-" (enrichment_slug t1)),
          <- (append_assoc "enrichment-" (enrichment_slug t2)) in H.
  apply last_dash_split in H; [|apply str_nat_not_dash..].
  unfold str_nat in H. by apply (inj pretty) in H.
Qed.

Lemma eids_from_counters (c : nat) (titles : list string) (x : string) :
  x ∈ eids_from c titles -> exists t n, x = eid t n /\ c < n.
Proof.
  revert c. induction titles as [|t titles IH]; intros c Hx; [by apply elem_of_nil in Hx|].
  cbn [eids_from] in Hx. apply elem_of_cons in Hx as [->|Hx].
  - exists t, (S c). split; [done|lia].
  - apply IH in Hx as (t' & n & -> & Hn). exists t', n. split; [done|lia].
Qed.

(** X24. The enrichment ids of one chapter are pairwise different, also for
    titles that are the same: the ids given by successive calls of
    [enrichment_title_repl] and [add_enrichment_id] never repeat. *)
Theorem eids_distinct (enrichment_counter : nat) (titles : list string) :
  NoDup (eids_from enrichment_counter titles).
Proof.
  revert enrichment_counter. induction titles as [|t titles IH]; intros c; [constructor|].
  cbn [eids_from]. constructor; [|apply IH].
  intros Hin. apply eids_from_counters in Hin as (t' & n & Heq & Hn).
  apply eid_counter in Heq. lia.
Qed.

(** The calls put the counter and the id in the heading as [eids_from]
    lists them. *)
Lemma enrichment_title_repl_id (c : nat) (m : mobj) :
  contains "enrichment-title" (group_or_empty m 1) = false ->
  exists pre post,
    enrichment_title_repl c m
    = (S c, pre +:+ attr "id" (eid (group_or_empty m 1) (S c)) +:+ post).
Proof.
  intros H. unfold enrichment_title_repl. rewrite H.
  eexists ("<h3 " +:+ attr "class" "enrichment-title" +:+ " "), _.
  f_equal.
Qed.

End EnrichFacts.

Module AssetFacts.
Import PyStr MatchFacts ReTheory StrFacts Assets.

Lemma lstrip_by_all f : forall xs rest : string,
  all_chars f xs = true -> lstrip_by f (xs +:+ rest) = lstrip_by f rest.
Proof.
  induction xs as [|c xs IH]; intros rest H; [done|].
  cbn [all_chars] in H. apply andb_true_iff in H as [Hc H].
  rewrite append_cons. cbn [lstrip_by]. rewrite Hc. by apply IH.
Qed.

Lemma rstrip_by_all f (base xs : string) :
  all_chars f xs = true -> rstrip_by f (base +:+ xs) = rstrip_by f base.
Proof.
  intros H. unfold rstrip_by. rewrite rev_append, lstrip_by_all; [done|].
  by rewrite all_chars_rev.
Qed.

Lemma append_nil_inv (a b : string) : a +:+ b = EmptyString -> a = EmptyString.
Proof. by destruct a. Qed.

(** X29. With a base address set, the slashes at the joint do not matter: any
    number of slashes after the base address or before the relative path
    gives the same address. *)
Theorem get_asset_url_slashes (BASE_URL rel_path xs ys : string) (is_aux : bool) :
  BASE_URL <> EmptyString ->
  all_chars is_slash xs = true -> all_chars is_slash ys = true ->
  get_asset_url (BASE_URL +:+ xs) (ys +:+ rel_path) is_aux
  = get_asset_url BASE_URL rel_path is_aux.
Proof.
  intros Hb Hx Hy. unfold get_asset_url.
  rewrite (bool_decide_eq_false_2 (BASE_URL = EmptyString)) by done.
  rewrite (bool_decide_eq_false_2 (BASE_URL +:+ xs = EmptyString))
    by (intros H; by apply append_nil_inv in H).
  cbn [negb]. by rewrite rstrip_by_all, lstrip_by_all.
Qed.

Lemma get_asset_url_slashes_witness :
  get_asset_url ("/CVBook" +:+ "/") ("/" +:+ "index.html") false
  = get_asset_url "/CVBook" "index.html" false.
Proof. apply get_asset_url_slashes; [done|reflexivity|reflexivity]. Defined.

End AssetFacts.

Module CiteMore.
Import PyStr Re Cite CiteAux MatchFacts ReTheory CiteMatchFacts.

(** *** Text without links *)

Lemma lit_head_no_match fl (l : string) r p (s : string) :
  ignorecase fl = false -> startswith s l = false ->
  match_at fl (Cat (lit l) r) p s = None.
Proof.
  intros Hi H. unfold match_at. rewrite rmatch_cat, rmatch_lit_spec by done.
  cbn [m_rest]. by rewrite H.
Qed.

Lemma sub_no_literal fl (l : string) r (repl : mobj -> string) (s : string) :
  ignorecase fl = false -> find l s = None ->
  re_sub_fn fl (Cat (lit l) r) repl s = s.
Proof.
  intros Hi H. unfold re_sub_fn, re_sub_st. rewrite sub_go_no_match; [done|].
  intros p n. apply lit_head_no_match; [done|]. by apply find_None_startswith.
Qed.

(** X14. A page without any href attribute goes through both citation passes
    unchanged. *)
Theorem fix_citations_no_href (idx : gmap string string) (doc_content : string) :
  find "href=" doc_content = None ->
  fix_citations idx doc_content = doc_content.
Proof.
  intros H. unfold fix_citations, rewrite_links, rewrite_numbers.
  rewrite re_href_eq, re_cite_number_eq.
  rewrite (sub_no_literal no_flags "href=" _ cite_repl doc_content) by done.
  by rewrite (sub_no_literal no_flags "href=").
Qed.

Lemma fix_citations_no_href_witness :
  fix_citations scenario_index "<p>See <b>[12]</b> and section 3.</p>"
  = "<p>See <b>[12]</b> and section 3.</p>".
Proof. apply fix_citations_no_href. reflexivity. Defined.

(** *** The number pass needs a bibliography link *)

Lemma startswith_app_split (a b : string) : forall s : string,
  startswith s (a +:+ b) = startswith s a && startswith (drop (len a) s) b.
Proof.
  induction a as [|c a IH]; intros s.
  - rewrite append_nil_l, startswith_nil. reflexivity.
  - rewrite append_cons. destruct s as [|x s]; [done|].
    cbn [startswith len String.length drop]. destruct (ascii_dec c x); [apply IH|done].
Qed.

Lemma cite_number_needs_prefix p (s : string) :
  startswith s bib_link_prefix = false ->
  match_at no_flags re_cite_number p s = None.
Proof.
  intros H. unfold match_at. rewrite re_cite_number_eq.
  rewrite rmatch_cat, rmatch_lit_spec by done. cbn [m_rest m_pos m_caps].
  destruct (startswith s "href=") eqn:E1; [|done].
  rewrite rmatch_cat. cbn [rmatch step1 m_rest].
  destruct (drop (len "href=") s) as [|c t] eqn:E2; [done|].
  unfold step1. cbn [m_rest m_pos m_caps].
  destruct (chr_matches no_flags dq_char c) eqn:E3; [|done].
  rewrite rmatch_lit_spec by done. cbn [m_rest].
  destruct (startswith t "bibliography.html#bib-") eqn:E4; [|done].
  exfalso. unfold bib_link_prefix in H.
  rewrite (startswith_app_split "href="), E1, E2 in H.
  rewrite chr_matches_eq in E3 by done. apply bool_decide_eq_true in E3 as <-.
  cbn [andb] in H. unfold dq in H. rewrite append_cons, append_nil_l in H.
  cbn [startswith] in H. destruct (ascii_dec dq_char dq_char); [|done]. congruence.
Qed.

(** X15. The number pass changes nothing on a page that has no link into the
    bibliography: every number shown stays. *)
Theorem rewrite_numbers_no_bib_link (idx : gmap string string) (doc_content : string) :
  find bib_link_prefix doc_content = None ->
  rewrite_numbers idx doc_content = doc_content.
Proof.
  intros H. unfold rewrite_numbers, re_sub_fn, re_sub_st.
  rewrite sub_go_no_match; [done|].
  intros p n. apply cite_number_needs_prefix. by apply find_None_startswith.
Qed.

Lemma rewrite_numbers_no_bib_link_witness :
  rewrite_numbers scenario_index (cite_anchor "#section-3" "3")
  = cite_anchor "#section-3" "3".
Proof. apply rewrite_numbers_no_bib_link. vm_compute. reflexivity. Defined.

(** *** A link that is no citation *)

Lemma cite_repl_other (m : mobj) :
  startswith (group_or_empty m 1) "#" = true ->
  citation_like (lstrip_chars "#" (group_or_empty m 1)) = false ->
  cite_repl m = mo_text m.
Proof. intros Hs Hc. unfold cite_repl. by rewrite Hs, Hc. Qed.

(** Between a text without double quote and the quote that follows it, the
    start of a bibliography link does not fit. *)
Lemma key_then_quote_no_prefix (w n : string) : forall (a u : string),
  all_chars key_char a = true -> all_chars key_char u = true ->
  startswith (u +:+ String dq_char (String ">" w)) (a +:+ String dq_char (String "b" n))
  = false.
Proof.
  assert (Hq : forall c, key_char c = true -> c <> dq_char).
  { intros c Hc ->. by vm_compute in Hc. }
  induction a as [|x a IH]; intros u Ha Hu.
  - rewrite append_nil_l. destruct u as [|c u].
    + rewrite append_nil_l. cbn [startswith].
      destruct (ascii_dec dq_char dq_char); [|done]. reflexivity.
    + rewrite append_cons. cbn [startswith all_chars] in *.
      apply andb_true_iff in Hu as [Hc _]. apply Hq in Hc.
      by destruct (ascii_dec dq_char c) as [<-|].
  - cbn [all_chars] in Ha. apply andb_true_iff in Ha as [Hx Ha]. apply Hq in Hx.
    rewrite append_cons. destruct u as [|c u].
    + rewrite append_nil_l. cbn [startswith]. by destruct (ascii_dec x dq_char).
    + cbn [all_chars] in Hu. apply andb_true_iff in Hu as [_ Hu].
      rewrite append_cons. cbn [startswith]. destruct (ascii_dec x c); [by apply IH|done].
Qed.

Lemma drop_past (u rest : string) k : drop (len u + k) (u +:+ rest) = drop k rest.
Proof. by rewrite <- drop_drop, drop_app_len. Qed.

Lemma not_h_no_prefix (s : string) k :
  all_chars not_h s = true -> startswith (drop k s) bib_link_prefix = false.
Proof.
  intros H. apply (all_chars_drop not_h k) in H.
  destruct (drop k s) as [|c t]; [done|]. cbn [all_chars] in H.
  apply andb_true_iff in H as [Hc _]. unfold not_h in Hc. apply negb_true_iff in Hc.
  rewrite chr_matches_eq in Hc by done. apply bool_decide_eq_false in Hc.
  change (startswith (String c t) bib_link_prefix)
    with (if ascii_dec "h" c
          then startswith t ("ref=" +:+ dq +:+ "bibliography.html#bib-") else false).
  by destruct (ascii_dec "h" c).
Qed.

(** No position of such an anchor starts a bibliography link. *)
Lemma anchor_no_bib_prefix (href shown : string) n :
  startswith href "#" = true -> all_chars key_char href = true ->
  all_chars digit_char shown = true ->
  startswith (drop n (cite_anchor href shown)) bib_link_prefix = false.
Proof.
  intros Hs Hk Hd. destruct href as [|c h']; [done|].
  cbn [startswith] in Hs. destruct (ascii_dec "#" c) as [<-|]; [|done].
  cbn [all_chars] in Hk. apply andb_true_iff in Hk as [_ Hk].
  assert (He : cite_anchor (String "#" h') shown
               = "<a href=" +:+ dq +:+ "#"
                 +:+ (h' +:+ String dq_char (String ">" (shown +:+ "</a>")))).
  { unfold cite_anchor, dq. cbn [append]. reflexivity. }
  rewrite He. clear He.
  do 10 (destruct n as [|n]; [reflexivity|]).
  change (drop (S (S (S (S (S (S (S (S (S (S n))))))))))
            ("<a href=" +:+ dq +:+ "#"
             +:+ (h' +:+ String dq_char (String ">" (shown +:+ "</a>")))))
    with (drop n (h' +:+ String dq_char (String ">" (shown +:+ "</a>")))).
  destruct (Nat.le_gt_cases n (len h')) as [Hn|Hn].
  - rewrite drop_app by done.
    apply (key_then_quote_no_prefix (shown +:+ "</a>") "ibliography.html#bib-" "href=");
      [reflexivity|by apply all_chars_drop].
  - replace n with (len h' + (n - len h')) by lia. rewrite drop_past.
    apply not_h_no_prefix. cbn [all_chars]. rewrite all_chars_app.
    rewrite (all_chars_impl digit_char not_h shown); [done| |done].
    intros c Hc. unfold not_h. by rewrite digit_char_not_h.
Qed.

(** X16. A link inside the page that is no citation, such as a reference to a
    section that shows the section's number, goes through both citation
    passes unchanged: neither its target nor its number is touched. *)
Theorem fix_citations_other_anchor (idx : gmap string string) (href shown : string) :
  startswith href "#" = true ->
  all_chars key_char href = true ->
  citation_like (lstrip_chars "#" href) = false ->
  all_chars digit_char shown = true ->
  fix_citations idx (cite_anchor href shown) = cite_anchor href shown.
Proof.
  intros Hs Hk Hc Hd. unfold fix_citations.
  assert (Hne : href <> EmptyString) by (intros ->; discriminate Hs).
  rewrite (rewrite_links_anchor href shown Hne Hk Hd).
  rewrite cite_repl_other by done. cbn [mo_text].
  rewrite <- cite_anchor_href.
  unfold rewrite_numbers, re_sub_fn, re_sub_st. rewrite sub_go_no_match; [done|].
  intros p n. apply cite_number_needs_prefix. by apply anchor_no_bib_prefix.
Qed.

Lemma fix_citations_other_anchor_witness :
  fix_citations scenario_index (cite_anchor "#x1-30002" "2") = cite_anchor "#x1-30002" "2".
Proof.
  apply fix_citations_other_anchor; reflexivity.
Defined.

End CiteMore.

Module CiteBrackets.
Import PyStr Re Cite CiteAux MatchFacts ReTheory CiteMatchFacts.

(** *** The number pass on a number in brackets *)

(** An optional group of one character, at that character. *)
Lemma opt_grp_chr_taken n c pos rest caps (k : mstate -> option mstate) :
  is_Some (k (MState (S pos) rest ((n, String c EmptyString) :: caps))) ->
  rmatch no_flags (opt (Grp n (Chr c))) (MState pos (String c rest) caps) k
  = k (MState (S pos) rest ((n, String c EmptyString) :: caps)).
Proof.
  intros Hk.
  apply (RenumberIdem.rmatch_opt_taken no_flags (Grp n (Chr c)) _
           (MState (S pos) rest ((n, String c EmptyString) :: caps))); [|cbn; lia|done].
  intros k' _. rewrite rmatch_grp, rmatch_chr. cbn [m_pos m_rest m_caps].
  replace (S pos - pos) with 1 by lia. reflexivity.
Qed.

Lemma opt_skipped r st (k : mstate -> option mstate) :
  (forall k', rmatch no_flags r st k' = None) ->
  rmatch no_flags (opt r) st k = k st.
Proof. intros H. unfold opt. rewrite rmatch_rep. by apply rep_loop_none. Qed.

Lemma star_space_skipped c rest pos caps (k : mstate -> option mstate) :
  cls_matches no_flags false [Space] c = false ->
  rmatch no_flags (star space) (MState pos (String c rest) caps) k
  = k (MState pos (String c rest) caps).
Proof.
  intros H. unfold star. rewrite rmatch_rep. apply rep_loop_none.
  intros k'. unfold space. cbn [rmatch step1 m_rest]. by rewrite H.
Qed.

(** The groups of the match, the last first. *)
Lemma after_digits_match cb p caps :
  rmatch no_flags after_digits (MState p (rbr cb +:+ "</a>") caps) Some
  = Some (MState (p + len (rbr cb) + 4) EmptyString
            ((if cb then [(4, "]")] else []) ++ caps)).
Proof.
  destruct cb; cbn [rbr len String.length app].
  - unfold after_digits. rewrite rmatch_cat.
    change ("]" +:+ "</a>") with (String "]" "</a>").
    change (lit "]") with (Chr "]").
    rewrite opt_grp_chr_taken.
    + rewrite rmatch_cat, star_space_skipped by reflexivity.
      rewrite (rmatch_lit "</a>" (S p) EmptyString). cbn [len String.length].
      do 2 f_equal. lia.
    + rewrite rmatch_cat, star_space_skipped by reflexivity.
      rewrite (rmatch_lit "</a>" (S p) EmptyString). by eexists.
  - rewrite append_nil_l, after_digits_closing. do 2 f_equal. lia.
Qed.

Lemma rbr_stops cb : stops_at digit_char (rbr cb +:+ "</a>") = true.
Proof. by destruct cb. Qed.

Lemma from_digits_match_br shown cb p caps :
  shown <> EmptyString -> all_chars digit_char shown = true ->
  rmatch no_flags from_digits (MState p (shown +:+ rbr cb +:+ "</a>") caps) Some
  = Some (MState (p + len shown + len (rbr cb) + 4) EmptyString
            ((if cb then [(4, "]")] else []) ++ (3, shown) :: caps)).
Proof.
  intros Hne Hd. unfold from_digits. rewrite rmatch_cat, rmatch_grp. unfold plus.
  rewrite rmatch_rep.
  change (rmatch no_flags (Cls false [Digit])) with (step1 digit_char).
  cbn [m_rest m_pos m_caps].
  rewrite (rep_loop_run digit_char 1 _ shown p (rbr cb +:+ "</a>") caps).
  - cbn [m_rest m_pos m_caps]. rewrite after_digits_match.
    replace (p + len shown - p) with (len shown) by lia. by rewrite take_app_len.
  - done.
  - apply rbr_stops.
  - apply nonempty_len in Hne. lia.
  - rewrite len_app. lia.
  - cbn [m_rest m_pos m_caps]. by rewrite after_digits_match.
Qed.

Lemma before_digits_match_br shown ob cb p caps :
  shown <> EmptyString -> all_chars digit_char shown = true ->
  rmatch no_flags before_digits
    (MState p (lbr ob +:+ shown +:+ rbr cb +:+ "</a>") caps) Some
  = Some (MState (p + len (lbr ob) + len shown + len (rbr cb) + 4) EmptyString
            ((if cb then [(4, "]")] else []) ++ (3, shown)
               :: (if ob then [(2, "[")] else []) ++ caps)).
Proof.
  intros Hne Hd. destruct (first_digit shown Hne Hd) as (c & s & Hs & Hc).
  unfold before_digits. rewrite rmatch_cat. destruct ob; cbn [lbr len String.length app].
  - change ("[" +:+ shown +:+ rbr cb +:+ "</a>")
      with (String "[" (shown +:+ rbr cb +:+ "</a>")).
    rewrite star_space_skipped by reflexivity. rewrite rmatch_cat.
    change (lit "[") with (Chr "[").
    rewrite opt_grp_chr_taken.
    + rewrite from_digits_match_br by done. do 2 f_equal. lia.
    + rewrite from_digits_match_br by done. by eexists.
  - rewrite append_nil_l. rewrite Hs at 1. rewrite append_cons.
    rewrite star_space_skipped by (by apply digit_char_not_space).
    rewrite rmatch_cat, opt_skipped.
    2:{ intros k'. cbn [rmatch lit step1 m_rest]. by rewrite (digit_char_not_bracket c Hc). }
    rewrite <- append_cons, <- Hs. rewrite from_digits_match_br by done.
    do 2 f_equal. lia.
Qed.

Lemma after_key_match_br shown ob cb p caps :
  shown <> EmptyString -> all_chars digit_char shown = true ->
  rmatch no_flags after_key
    (MState p (String dq_char (">" +:+ lbr ob +:+ shown +:+ rbr cb +:+ "</a>")) caps) Some
  = Some (MState (p + 2 + len (lbr ob) + len shown + len (rbr cb) + 4) EmptyString
            ((if cb then [(4, "]")] else []) ++ (3, shown)
               :: (if ob then [(2, "[")] else []) ++ caps)).
Proof.
  intros Hne Hd. unfold after_key. rewrite rmatch_cat, rmatch_chr, rmatch_cat, rmatch_lit.
  rewrite before_digits_match_br by done. cbn [len String.length]. do 2 f_equal. lia.
Qed.

Lemma from_key_match_br key shown ob cb p :
  key <> EmptyString -> all_chars key_char key = true ->
  shown <> EmptyString -> all_chars digit_char shown = true ->
  rmatch no_flags from_key
    (MState p (key +:+ String dq_char (">" +:+ lbr ob +:+ shown +:+ rbr cb +:+ "</a>")) [])
    Some
  = Some (MState (p + len key + 2 + len (lbr ob) + len shown + len (rbr cb) + 4) EmptyString
            ((if cb then [(4, "]")] else []) ++ (3, shown)
               :: (if ob then [(2, "[")] else []) ++ [(1, key)])).
Proof.
  intros Hk Hkc Hne Hd. unfold from_key. rewrite rmatch_cat, rmatch_grp. unfold plus.
  rewrite rmatch_rep.
  change (rmatch no_flags (Cls true [Ch dq_char])) with (step1 key_char).
  cbn [m_rest m_pos m_caps].
  rewrite (rep_loop_run key_char 1 _ key p _ []).
  - cbn [m_rest m_pos m_caps]. rewrite after_key_match_br by done.
    replace (p + len key - p) with (len key) by lia. by rewrite take_app_len.
  - done.
  - reflexivity.
  - apply nonempty_len in Hk. lia.
  - rewrite len_app. lia.
  - cbn [m_rest m_pos m_caps]. by rewrite after_key_match_br.
Qed.

Lemma link_text_br key shown ob cb :
  link_text key (lbr ob +:+ shown +:+ rbr cb)
  = "href=" +:+ String dq_char ("bibliography.html#bib-"
      +:+ key +:+ String dq_char (">" +:+ lbr ob +:+ shown +:+ rbr cb +:+ "</a>")).
Proof. unfold link_text. by rewrite !append_assoc. Qed.

Lemma len_link_text_br key shown ob cb :
  len (link_text key (lbr ob +:+ shown +:+ rbr cb))
  = 34 + len key + len (lbr ob) + len shown + len (rbr cb).
Proof. rewrite len_link_text, !len_app. lia. Qed.

(** The pattern of the number pass matches the link as a whole also when
    the number is in brackets; the brackets are groups 2 and 4. *)
Lemma cite_number_match_br key shown ob cb p :
  key <> EmptyString -> all_chars key_char key = true ->
  shown <> EmptyString -> all_chars digit_char shown = true ->
  match_at no_flags re_cite_number p (link_text key (lbr ob +:+ shown +:+ rbr cb))
  = Some (MObj p (p + len (link_text key (lbr ob +:+ shown +:+ rbr cb)))
            (link_text key (lbr ob +:+ shown +:+ rbr cb))
            ((if cb then [(4, "]")] else []) ++ (3, shown)
               :: (if ob then [(2, "[")] else []) ++ [(1, key)])).
Proof.
  intros Hk Hkc Hne Hd. unfold match_at. rewrite re_cite_number_eq.
  rewrite link_text_br at 1.
  rewrite rmatch_cat, rmatch_lit, rmatch_cat, rmatch_chr, rmatch_cat, rmatch_lit.
  rewrite from_key_match_br by done. cbn [m_pos m_caps].
  assert (He : S (p + len "href=") + len "bibliography.html#bib-" + len key + 2
               + len (lbr ob) + len shown + len (rbr cb) + 4
               = p + len (link_text key (lbr ob +:+ shown +:+ rbr cb))).
  { rewrite len_link_text_br. cbn [len String.length]. lia. }
  rewrite He. do 2 f_equal.
  replace (p + len (link_text key (lbr ob +:+ shown +:+ rbr cb)) - p)
    with (len (link_text key (lbr ob +:+ shown +:+ rbr cb))) by lia.
  rewrite <- (append_nil_r (link_text key (lbr ob +:+ shown +:+ rbr cb))) at 2.
  apply take_app_len.
Qed.

Lemma bib_href_link_br key l num r :
  bib_href key +:+ ">" +:+ l +:+ num +:+ r +:+ "</a>" = link_text key (l +:+ num +:+ r).
Proof.
  unfold bib_href, link_text, dq. rewrite !append_assoc. reflexivity.
Qed.

(** X17. A citation link whose number is shown in brackets, as in [[5]], is
    renumbered like a bare number, and keeps the brackets it had: with the
    key in the index the number becomes the index's, without it the link
    stays as it is. *)
Theorem rewrite_numbers_bracketed (idx : gmap string string) (key shown : string)
    (ob cb : bool) :
  key <> EmptyString -> all_chars key_char key = true ->
  shown <> EmptyString -> all_chars digit_char shown = true ->
  rewrite_numbers idx
    (cite_anchor ("bibliography.html#bib-" +:+ key) (lbr ob +:+ shown +:+ rbr cb))
  = match idx !! biber_stripped key with
    | Some num =>
        cite_anchor ("bibliography.html#bib-" +:+ biber_stripped key)
          (lbr ob +:+ num +:+ rbr cb)
    | None =>
        cite_anchor ("bibliography.html#bib-" +:+ key) (lbr ob +:+ shown +:+ rbr cb)
    end.
Proof.
  intros Hk Hkc Hne Hd.
  unfold rewrite_numbers, re_sub_fn, re_sub_st. rewrite cite_anchor_link.
  set (text := link_text key (lbr ob +:+ shown +:+ rbr cb)).
  change ("<a " +:+ text) with (String "<" (String "a" (String " " text))).
  cbn [len String.length]. fold (len text).
  rewrite sub_go_skip by (by apply cite_number_no_match). cbn [snd].
  rewrite sub_go_skip by (by apply cite_number_no_match). cbn [snd].
  rewrite sub_go_skip by (by apply cite_number_no_match). cbn [snd].
  rewrite (sub_go_hit _ _ _ _ _ _ _ _ (cite_number_match_br key shown ob cb 3 Hk Hkc Hne Hd)).
  2:{ cbn [mo_end]. fold text. unfold text. rewrite len_link_text_br. lia. }
  cbn [snd fst mo_end]. fold text.
  replace (3 + len text - 3) with (len text) by lia.
  rewrite drop_len.
  assert (Hend : snd (sub_go no_flags re_cite_number
                        (fun (u : unit) m => (u, cite_number_repl idx m))
                        (len text) (3 + len text) EmptyString tt) = EmptyString).
  { destruct (len text); [done|].
    cbn [sub_go]. by rewrite cite_number_no_match_end. }
  rewrite Hend, append_nil_r.
  set (m := MObj 3 (3 + len text) text
              ((if cb then [(4, "]")] else []) ++ (3, shown)
                 :: (if ob then [(2, "[")] else []) ++ [(1, key)])).
  assert (Hg1 : group_or_empty m 1 = key) by (by destruct ob, cb).
  assert (Hg2 : group_or_empty m 2 = lbr ob) by (by destruct ob, cb).
  assert (Hg4 : group_or_empty m 4 = rbr cb) by (by destruct ob, cb).
  destruct (idx !! biber_stripped key) as [num|] eqn:E.
  - rewrite (CiteFacts.cite_number_known idx m num) by (by rewrite Hg1).
    rewrite Hg1, Hg2, Hg4. rewrite bib_href_link_br. by rewrite cite_anchor_link.
  - rewrite (CiteFacts.cite_number_unknown idx m) by (by rewrite Hg1).
    reflexivity.
Qed.

Lemma rewrite_numbers_bracketed_witness :
  rewrite_numbers scenario_index (cite_anchor "bibliography.html#bib-0@smith2020" "[5]")
  = cite_anchor "bibliography.html#bib-smith2020" "[12]".
Proof.
  refine (eq_trans
            (rewrite_numbers_bracketed scenario_index "0@smith2020" "5" true true _ _ _ _) _).
  - discriminate.
  - reflexivity.
  - discriminate.
  - reflexivity.
  - vm_compute. reflexivity.
Defined.

End CiteBrackets.

Module LatexFacts.
Import PyStr Re MatchFacts ReTheory Latex.

Local Ltac lens := unfold len in *; cbn [String.length] in *; lia.

(** *** Text without backslash and underscore *)

Lemma plain_not_bsl fl c : plain_char c = true -> chr_matches fl bsl_char c = false.
Proof.
  destruct fl as [[] []]; destruct c as [[] [] [] [] [] [] [] []]; vm_compute; congruence.
Qed.

Lemma plain_not_underscore c : plain_char c = true -> chr_matches no_flags "_" c = false.
Proof. destruct c as [[] [] [] [] [] [] [] []]; vm_compute; congruence. Qed.

Lemma head_chr_fails fl (a : ascii) r p c (s : string) :
  chr_matches fl a c = false -> match_at fl (Cat (Chr a) r) p (String c s) = None.
Proof. intros H. unfold match_at. cbn [rmatch step1 m_rest]. by rewrite H. Qed.

Lemma head_grp_chr_fails fl n (a : ascii) r1 r2 p c (s : string) :
  chr_matches fl a c = false ->
  match_at fl (Cat (Grp n (Cat (Chr a) r1)) r2) p (String c s) = None.
Proof. intros H. unfold match_at. cbn [rmatch step1 m_rest]. by rewrite H. Qed.

Lemma replace_no_head (a : ascii) (old' new : string) (f : ascii -> bool) :
  (forall c, f c = true -> a <> c) ->
  forall s : string, all_chars f s = true -> replace (String a old') new s = s.
Proof.
  intros Hf. unfold replace. induction s as [|c s IH]; intros H; [done|].
  cbn [all_chars] in H. apply andb_true_iff in H as [Hc H].
  cbn [replace_go startswith]. destruct (ascii_dec a c) as [->|_].
  - by destruct (Hf c Hc).
  - by rewrite IH.
Qed.

Lemma plain_bsl c : plain_char c = true -> bsl_char <> c.
Proof.
  unfold plain_char. intros H. apply andb_true_iff in H as [H _].
  apply negb_true_iff, bool_decide_eq_false in H. congruence.
Qed.

Lemma sub_plain fl r (repl : mobj -> string) (s : string) :
  (forall p c t, plain_char c = true -> match_at fl r p (String c t) = None) ->
  (forall p, match_at fl r p EmptyString = None) ->
  all_chars plain_char s = true -> re_sub_fn fl r repl s = s.
Proof.
  intros H1 H2 Hs. unfold re_sub_fn, re_sub_st.
  by rewrite (sub_go_copy fl r _ plain_char).
Qed.

Lemma underscores_fail p c (s : string) :
  chr_matches no_flags "_" c = false ->
  match_at no_flags re_underscores p (String c s) = None.
Proof.
  intros H. unfold match_at, re_underscores. rewrite rmatch_rep.
  cbn [rep_loop under_hi rmatch step1 m_rest Nat.leb]. by rewrite H.
Qed.

(** X7. Text with no backslash and no underscore in it goes through
    [clean_latex_artifacts] unchanged. *)
Theorem clean_latex_plain (content : string) :
  all_chars plain_char content = true -> clean_latex_artifacts content = content.
Proof.
  intros H. unfold clean_latex_artifacts, re_sub.
  rewrite (replace_no_head bsl_char "bm" _ plain_char plain_bsl content H).
  rewrite (sub_plain no_flags re_mbox_hash) by
    (done || (intros; by apply head_grp_chr_fails, plain_not_bsl)).
  rewrite (sub_plain no_flags re_text_hash) by
    (done || (intros; by apply head_grp_chr_fails, plain_not_bsl)).
  rewrite (sub_plain IGNORECASE re_checkmark) by
    (done || (intros; by apply head_chr_fails, plain_not_bsl)).
  rewrite (replace_no_head bsl_char "noindent" _ plain_char plain_bsl content H).
  rewrite (sub_plain IGNORECASE re_mathchar_hex) by
    (done || (intros; by apply head_chr_fails, plain_not_bsl)).
  rewrite (sub_plain IGNORECASE re_mathchar_oct) by
    (done || (intros; by apply head_chr_fails, plain_not_bsl)).
  rewrite (sub_plain IGNORECASE re_mathchar_dec) by
    (done || (intros; by apply head_chr_fails, plain_not_bsl)).
  rewrite (replace_no_head bsl_char "m@th" _ plain_char plain_bsl content H).
  rewrite (sub_plain no_flags re_hskip) by
    (done || (intros; by apply head_chr_fails, plain_not_bsl)).
  rewrite (sub_plain no_flags re_vskip) by
    (done || (intros; by apply head_chr_fails, plain_not_bsl)).
  rewrite (replace_no_head bsl_char "relax" _ plain_char plain_bsl content H).
  apply sub_plain; [|done|done].
  intros. by apply underscores_fail, plain_not_underscore.
Qed.

Lemma clean_latex_plain_witness :
  clean_latex_artifacts "<p>Gradient descent, step 3.</p>" = "<p>Gradient descent, step 3.</p>".
Proof. apply clean_latex_plain. reflexivity. Defined.

(** *** Runs of underscores *)

Lemma underscore_spec c : underscore c = true <-> c = "_"%char.
Proof.
  unfold underscore, chr_matches. cbn [ignorecase no_flags].
  rewrite bool_decide_eq_true. split; congruence.
Qed.

Lemma run_len_le : forall s : string, run_len s <= len s.
Proof.
  induction s as [|c s IH]; [done|]. cbn [run_len]. destruct (ascii_dec c "_"); lens.
Qed.

Lemma run_take : forall s : string, all_chars underscore (take (run_len s) s) = true.
Proof.
  induction s as [|c s IH]; [done|]. cbn [run_len].
  destruct (ascii_dec c "_") as [->|]; [|done]. cbn [take all_chars]. by rewrite IH.
Qed.

Lemma run_drop : forall s : string, stops_at underscore (drop (run_len s) s) = true.
Proof.
  induction s as [|c s IH]; [done|]. cbn [run_len].
  destruct (ascii_dec c "_") as [->|Hc]; [done|]. cbn [drop stops_at].
  apply negb_true_iff. destruct (underscore c) eqn:E; [|done].
  by apply underscore_spec in E.
Qed.

Lemma run_len_stops (s : string) : stops_at underscore s = true -> run_len s = 0.
Proof.
  destruct s as [|c s]; [done|]. cbn [stops_at run_len]. intros H.
  destruct (ascii_dec c "_") as [->|]; [done|done].
Qed.

(** A repetition with a least count fails on a run that is too short. *)
Lemma rep_loop_short (f : ascii -> bool) lo : forall (run rest : string) pos caps bound cnt,
  all_chars f run = true -> stops_at f rest = true -> cnt + len run < lo ->
  rep_loop (step1 f) true lo None Some bound cnt (MState pos (run +:+ rest) caps) = None.
Proof.
  induction run as [|c run IH]; intros rest pos caps bound cnt Hall Hstop Hlt.
  - rewrite append_nil_l. assert (Hlo : (lo <=? cnt) = false) by (apply Nat.leb_gt; lens).
    destruct bound as [|bound]; cbn [rep_loop under_hi]; rewrite Hlo; [done|].
    by rewrite step1_stops.
  - cbn [all_chars] in Hall. apply andb_true_iff in Hall as [Hc Hall].
    assert (Hlo : (lo <=? cnt) = false) by (apply Nat.leb_gt; lens).
    destruct bound as [|bound]; cbn [rep_loop under_hi]; rewrite Hlo; [done|].
    rewrite append_cons. cbn [step1 m_rest m_pos m_caps]. rewrite Hc.
    rewrite (proj2 (Nat.ltb_lt pos (S pos))) by lia.
    rewrite IH; [done|done|done|lens].
Qed.

Lemma len_run_take (s : string) : len (take (run_len s) s) = run_len s.
Proof. rewrite len_take. pose proof (run_len_le s). lia. Qed.

Lemma underscores_short p (s : string) :
  run_len s < 5 -> match_at no_flags re_underscores p s = None.
Proof.
  intros H. unfold match_at, re_underscores. rewrite rmatch_rep.
  change (rmatch no_flags (Chr "_")) with (step1 underscore). cbn [m_rest].
  assert (Hs : MState p s [] = MState p (take (run_len s) s +:+ drop (run_len s) s) [])
    by (by rewrite take_drop).
  rewrite Hs. rewrite rep_loop_short; [done|apply run_take|apply run_drop|].
  rewrite len_run_take. lia.
Qed.

Lemma underscores_long p (s : string) :
  5 <= run_len s ->
  exists m, match_at no_flags re_underscores p s = Some m /\ mo_end m = p + run_len s.
Proof.
  intros H. unfold match_at, re_underscores. rewrite rmatch_rep.
  change (rmatch no_flags (Chr "_")) with (step1 underscore). cbn [m_rest].
  assert (Hs : MState p s [] = MState p (take (run_len s) s +:+ drop (run_len s) s) [])
    by (by rewrite take_drop).
  rewrite Hs.
  rewrite (rep_loop_run underscore 5 Some (take (run_len s) s) p (drop (run_len s) s) []).
  - rewrite len_run_take. eexists. split; [reflexivity|]. reflexivity.
  - apply run_take.
  - apply run_drop.
  - rewrite len_run_take. lia.
  - rewrite len_run_take. pose proof (run_len_le s). lia.
  - by eexists.
Qed.

Lemma startswith_run4 (o : string) : startswith o "____" = true -> 4 <= run_len o.
Proof.
  intros H. apply startswith_split in H. rewrite H.
  generalize (drop (len "____") o). intros t.
  change ("____" +:+ t) with (String "_" (String "_" (String "_" (String "_" t)))).
  cbn [run_len]. destruct (ascii_dec "_" "_"); [lia|done].
Qed.

Lemma find_None_intro (e : string) : forall s : string,
  (forall n, startswith (drop n s) e = false) -> find e s = None.
Proof.
  induction s as [|c s IH]; intros H.
  - cbn [find]. pose proof (H 0) as H0. cbn [drop] in H0. by rewrite H0.
  - cbn [find]. pose proof (H 0) as H0. cbn [drop] in H0. rewrite H0.
    rewrite IH; [done|]. intros n. apply (H (S n)).
Qed.

(** What the last substitution returns holds no run of five, and starts
    with no more underscores than its argument. *)
Lemma sub_underscores : forall bound (s : string) pos,
  len s < bound ->
  let o := snd (sub_go no_flags re_underscores
                  (fun (u : unit) (_ : mobj) => (u, EmptyString)) bound pos s tt) in
  (forall n, startswith (drop n o) "_____" = false)
  /\ (run_len s < 5 -> run_len o <= run_len s)
  /\ (5 <= run_len s -> run_len o = 0).
Proof.
  induction bound as [|bound IH]; intros s pos Hb; [lia|].
  cbn zeta. cbn [sub_go].
  destruct (Nat.le_gt_cases 5 (run_len s)) as [Hr|Hr].
  - destruct (underscores_long pos s Hr) as (m & Hm & He). rewrite Hm.
    rewrite (proj2 (Nat.eqb_neq (mo_end m) pos)) by lia. rewrite He.
    replace (pos + run_len s - pos) with (run_len s) by lia.
    assert (Hl : len (drop (run_len s) s) < bound).
    { rewrite len_drop. pose proof (run_len_le s). lens. }
    specialize (IH (drop (run_len s) s) (pos + run_len s) Hl). cbn zeta in IH.
    destruct (sub_go no_flags re_underscores (fun (u : unit) (_ : mobj) => (u, EmptyString))
                bound (pos + run_len s) (drop (run_len s) s) tt) as [u o] eqn:E.
    cbn [snd] in *. rewrite append_nil_l. destruct IH as (I1 & I2 & _).
    rewrite (run_len_stops _ (run_drop s)) in I2.
    split; [done|]. split; [lia|]. intros _. specialize (I2 ltac:(lia)). lia.
  - rewrite underscores_short by done. destruct s as [|c s].
    + cbn [snd]. split; [by intros [|n]|]. split; [done|]. cbn [run_len]. lia.
    + assert (Hl : len s < bound) by lens.
      specialize (IH s (S pos) Hl). cbn zeta in IH.
      destruct (sub_go no_flags re_underscores (fun (u : unit) (_ : mobj) => (u, EmptyString))
                  bound (S pos) s tt) as [u o] eqn:E.
      cbn [snd] in *. destruct IH as (I1 & I2 & I3).
      cbn [run_len] in *. destruct (ascii_dec c "_") as [->|Hc].
      * assert (Ho : run_len o <= run_len s).
        { apply I2. lia. }
        split; [|split; [lia|lia]].
        intros [|n]; [|apply I1]. cbn [drop startswith].
        destruct (ascii_dec "_" "_"); [|done].
        destruct (startswith o "____") eqn:E4; [|done].
        apply startswith_run4 in E4. lia.
      * split; [|split; [lia|lia]].
        intros [|n]; [|apply I1]. cbn [drop startswith].
        destruct (ascii_dec "_" c) as [<-|]; [done|done].
Qed.

(** X8. Whatever its argument, the result of [clean_latex_artifacts] holds no
    run of five underscores. *)
Theorem clean_latex_no_rule (content : string) :
  find "_____" (clean_latex_artifacts content) = None.
Proof.
  unfold clean_latex_artifacts, re_sub, re_sub_fn, re_sub_st.
  apply find_None_intro. apply sub_underscores. lia.
Qed.

End LatexFacts.

Module RenderedFacts.
Import PyStr Re ReAux MatchFacts ReTheory Safety SafetyFacts MarkerFacts.

(** *** A rendered page has the marker pair *)

Lemma find_app_le (e : string) : forall a b : string,
  exists i, find e (a +:+ e +:+ b) = Some i /\ i <= len a.
Proof.
  induction a as [|c a IH]; intros b.
  - exists 0. split; [|done]. rewrite append_nil_l.
    pose proof (startswith_app e b) as Hs. destruct (e +:+ b); cbn [find]; by rewrite Hs.
  - destruct (IH b) as (i & Hi & Hle). rewrite append_cons. cbn [find].
    destruct (startswith (String c (a +:+ e +:+ b)) e).
    + exists 0. split; [done|lia].
    + exists (S i). rewrite Hi. split; [done|]. cbn [len String.length]. unfold len in Hle. lia.
Qed.

(** The body between the first opening marker and the first closing marker
    after it. *)
Lemma extracted_body_find (html : string) :
  extracted_body html
  = match find content_start html with
    | Some i =>
        match find content_end (drop (i + len content_start) html) with
        | Some j => Some (take j (drop (i + len content_start) html))
        | None => None
        end
    | None => None
    end.
Proof.
  unfold extracted_body, re_search.
  rewrite (search_from_find DOTALL re_markers content_start).
  2:{ intros p t Ht. rewrite markers_match_at. by rewrite Ht. }
  destruct (find content_start html) as [i|] eqn:Fi; [|done].
  rewrite <- drop_drop.
  pose proof (find_Some_startswith _ _ _ Fi) as Hs.
  set (t := drop i html) in *.
  destruct (find content_end (drop (len content_start) t)) as [j|] eqn:Fj.
  - destruct t as [|c t'] eqn:Et; cbn [search_from]; rewrite markers_match_at, Hs, Fj; done.
  - rewrite search_from_none; [done|].
    intros p n. rewrite markers_match_at.
    destruct (startswith (drop n t) content_start); [|done].
    rewrite drop_drop, Nat.add_comm, <- drop_drop.
    by rewrite (find_drop_none _ n _ Fj).
Qed.

(** A text with an opening marker and a closing marker somewhere after it
    has a content body. *)
Lemma extracted_body_some (a y z : string) :
  is_Some (extracted_body (a +:+ content_start +:+ y +:+ content_end +:+ z)).
Proof.
  rewrite extracted_body_find.
  destruct (find_app_le content_start a (y +:+ content_end +:+ z)) as (i & Hi & Hle).
  rewrite Hi. rewrite <- (append_assoc a content_start).
  rewrite drop_app by (rewrite len_app; lia).
  rewrite <- (append_assoc _ y).
  destruct (find_app_le content_end (drop (i + len content_start) (a +:+ content_start) +:+ y) z)
    as (j & Hj & _).
  rewrite Hj. by eexists.
Qed.

Lemma rendered_has_body (get_common_head : string -> bool -> string) (get_js_footer : string)
    (title body_content sidebar_html nav_buttons_html bottom_nav_html extra_styles : string)
    (is_aux : bool) (body_class : string) :
  is_Some (extracted_body
             (render_page_html get_common_head get_js_footer title body_content sidebar_html
                nav_buttons_html bottom_nav_html extra_styles is_aux body_class)).
Proof.
  unfold render_page_html.
  set (top := page_top _ _ _ _ _ _ _).
  set (bottom := page_bottom _ _).
  change "<!-- content-start -->" with content_start.
  change "<!-- content-end -->" with content_end.
  set (pad := "                        ").
  assert (E : nl +:+ pad +:+ body_content +:+ nl +:+ pad +:+ content_end +:+ bottom
              = (nl +:+ pad +:+ body_content +:+ nl +:+ pad) +:+ content_end +:+ bottom)
    by (by rewrite !append_assoc).
  rewrite E. apply extracted_body_some.
Qed.

(** With a content body the verdict is the conjunction of the six
    conditions. *)
Lemma is_safe_six (html body : string) :
  extracted_body html = Some body -> is_safe html = six_conditions html body.
Proof.
  intros H. rewrite is_safe_conditions. unfold spec_conditions, heading_scope, six_conditions.
  by rewrite H.
Qed.

Section GateTheorem.
Context (get_common_head : string -> bool -> string) (get_js_footer : string)
  {chapter_data : Type} (assemble : string -> chapter_data -> page_parts).

(** C5.  [validate_output_safety] gets the page that [render_page_html]
    wrote, which always holds the marker pair and so has a content body.
    On every such page the verdict is unsafe exactly when one of the six
    conditions is violated: one doc_content container, a content body of at
    least 500 characters, an h1 or h2 in the body, no MATH_TOKEN_
    placeholder, one sidebar, one top bar.  [process_chapter] then returns
    without writing, so the file stays as it was; and the loop goes on:
    every chapter of the run ends with its own outcome, whatever the
    verdicts of the others. *)
Theorem safety_gate (fs : gmap string string) (chs : list (string * chapter_data)) :
  NoDup (map fst chs) ->
  (forall p, p ∈ map fst chs -> is_Some (fs !! p)) ->
  (forall title body_content sidebar_html nav_buttons_html bottom_nav_html extra_styles
          is_aux body_class,
     exists body,
       extracted_body
         (render_page_html get_common_head get_js_footer title body_content sidebar_html
            nav_buttons_html bottom_nav_html extra_styles is_aux body_class) = Some body
       /\ (is_safe
             (render_page_html get_common_head get_js_footer title body_content sidebar_html
                nav_buttons_html bottom_nav_html extra_styles is_aux body_class) = false
           <-> six_conditions
                 (render_page_html get_common_head get_js_footer title body_content
                    sidebar_html nav_buttons_html bottom_nav_html extra_styles is_aux
                    body_class) body = false))
  /\ (forall p ch orig,
        fs !! p = Some orig ->
        is_safe (rendered get_common_head get_js_footer (assemble orig ch)) = false ->
        process_chapter get_common_head get_js_footer chapter_data assemble fs p ch = Some fs)
  /\ exists fs',
       process_all get_common_head get_js_footer chapter_data assemble fs chs = Some fs'
       /\ (forall p ch orig, (p, ch) ∈ chs -> fs !! p = Some orig ->
             fs' !! p
             = Some (if is_safe (rendered get_common_head get_js_footer (assemble orig ch))
                     then rendered get_common_head get_js_footer (assemble orig ch)
                     else orig))
       /\ (forall p, p ∉ map fst chs -> fs' !! p = fs !! p).
Proof.
  intros Hnd Hex. split; [|split].
  - intros title body_content sidebar_html nav_buttons_html bottom_nav_html extra_styles
      is_aux body_class.
    destruct (rendered_has_body get_common_head get_js_footer title body_content sidebar_html
                nav_buttons_html bottom_nav_html extra_styles is_aux body_class) as [body Hb].
    exists body. split; [done|]. by rewrite (is_safe_six _ body Hb).
  - intros p ch orig Hp Hs. unfold process_chapter. by rewrite Hp, Hs.
  - exact (process_all_outcomes get_common_head get_js_footer assemble chs fs Hnd Hex).
Qed.

End GateTheorem.

Lemma safety_gate_witness :
  (forall title body_content sidebar_html nav_buttons_html bottom_nav_html extra_styles
          is_aux body_class,
     exists body,
       extracted_body
         (render_page_html demo_head demo_footer title body_content sidebar_html
            nav_buttons_html bottom_nav_html extra_styles is_aux body_class) = Some body
       /\ (is_safe
             (render_page_html demo_head demo_footer title body_content sidebar_html
                nav_buttons_html bottom_nav_html extra_styles is_aux body_class) = false
           <-> six_conditions
                 (render_page_html demo_head demo_footer title body_content
                    sidebar_html nav_buttons_html bottom_nav_html extra_styles is_aux
                    body_class) body = false))
  /\ (forall p ch orig,
        demo_files !! p = Some orig ->
        is_safe (rendered demo_head demo_footer (demo_assemble orig ch)) = false ->
        process_chapter demo_head demo_footer nat demo_assemble demo_files p ch
        = Some demo_files)
  /\ exists fs',
       process_all demo_head demo_footer nat demo_assemble demo_files demo_chapters = Some fs'
       /\ (forall p ch orig, (p, ch) ∈ demo_chapters -> demo_files !! p = Some orig ->
             fs' !! p
             = Some (if is_safe (rendered demo_head demo_footer (demo_assemble orig ch))
                     then rendered demo_head demo_footer (demo_assemble orig ch)
                     else orig))
       /\ (forall p, p ∉ map fst demo_chapters -> fs' !! p = demo_files !! p).
Proof.
  apply (safety_gate demo_head demo_footer demo_assemble demo_files demo_chapters).
  - apply (bool_decide_unpack _). vm_compute. exact I.
  - intros p Hp. simpl in Hp.
    apply elem_of_cons in Hp as [->|Hp]; [by eexists|].
    apply elem_of_cons in Hp as [->|Hp]; [by eexists|].
    by apply elem_of_nil in Hp.
Defined.

(** In that run the first page fails the check for its short body and the
    file is kept; the second passes and is written. *)
Example demo_run :
  validate_output_safety (rendered demo_head demo_footer (demo_assemble "one" 10))
  = (false, "Content too short: 72 chars (minimum 500)")
  /\ process_all demo_head demo_footer nat demo_assemble demo_files demo_chapters
     = Some (<["ch2.html" := rendered demo_head demo_footer (demo_assemble "two" 600)]>
               demo_files).
Proof. split; vm_compute; reflexivity. Qed.

End RenderedFacts.

Module CiteText.
Import PyStr Re Cite CiteAux MatchFacts ReTheory CiteMatchFacts CiteMore CiteBrackets.

(** *** The pattern of the number pass on a link followed by more text *)

Lemma after_digits_match_in cb (rest : string) p caps :
  rmatch no_flags after_digits (MState p (rbr cb +:+ "</a>" +:+ rest) caps) Some
  = Some (MState (p + len (rbr cb) + 4) rest ((if cb then [(4, "]")] else []) ++ caps)).
Proof.
  assert (Hclose : forall q caps',
            rmatch no_flags (Cat (star space) (lit "</a>"))
              (MState q ("</a>" +:+ rest) caps') Some
            = Some (MState (q + 4) rest caps')).
  { intros q caps'. rewrite rmatch_cat.
    change ("</a>" +:+ rest) with (String "<" ("/a>" +:+ rest)).
    rewrite star_space_skipped by reflexivity.
    change (String "<" ("/a>" +:+ rest)) with ("</a>" +:+ rest).
    by rewrite (rmatch_lit "</a>" q rest). }
  unfold after_digits. rewrite rmatch_cat.
  destruct cb; cbn [rbr len String.length app].
  - change ("]" +:+ "</a>" +:+ rest) with (String "]" ("</a>" +:+ rest)).
    change (lit "]") with (Chr "]").
    rewrite opt_grp_chr_taken.
    + rewrite Hclose. do 2 f_equal. lia.
    + rewrite Hclose. by eexists.
  - rewrite append_nil_l. rewrite opt_skipped.
    + rewrite Hclose. do 2 f_equal. lia.
    + intros k'. reflexivity.
Qed.

Lemma rbr_stops_in cb (rest : string) :
  stops_at digit_char (rbr cb +:+ "</a>" +:+ rest) = true.
Proof. by destruct cb. Qed.

Lemma from_digits_match_in shown cb (rest : string) p caps :
  shown <> EmptyString -> all_chars digit_char shown = true ->
  rmatch no_flags from_digits (MState p (shown +:+ rbr cb +:+ "</a>" +:+ rest) caps) Some
  = Some (MState (p + len shown + len (rbr cb) + 4) rest
            ((if cb then [(4, "]")] else []) ++ (3, shown) :: caps)).
Proof.
  intros Hne Hd. unfold from_digits. rewrite rmatch_cat, rmatch_grp. unfold plus.
  rewrite rmatch_rep.
  change (rmatch no_flags (Cls false [Digit])) with (step1 digit_char).
  cbn [m_rest m_pos m_caps].
  rewrite (rep_loop_run digit_char 1 _ shown p (rbr cb +:+ "</a>" +:+ rest) caps).
  - cbn [m_rest m_pos m_caps]. rewrite after_digits_match_in.
    replace (p + len shown - p) with (len shown) by lia. by rewrite take_app_len.
  - done.
  - apply rbr_stops_in.
  - apply nonempty_len in Hne. lia.
  - rewrite len_app. lia.
  - cbn [m_rest m_pos m_caps]. by rewrite after_digits_match_in.
Qed.

Lemma before_digits_match_in shown ob cb (rest : string) p caps :
  shown <> EmptyString -> all_chars digit_char shown = true ->
  rmatch no_flags before_digits
    (MState p (lbr ob +:+ shown +:+ rbr cb +:+ "</a>" +:+ rest) caps) Some
  = Some (MState (p + len (lbr ob) + len shown + len (rbr cb) + 4) rest
            ((if cb then [(4, "]")] else []) ++ (3, shown)
               :: (if ob then [(2, "[")] else []) ++ caps)).
Proof.
  intros Hne Hd. destruct (first_digit shown Hne Hd) as (c & s & Hs & Hc).
  unfold before_digits. rewrite rmatch_cat. destruct ob; cbn [lbr len String.length app].
  - change ("[" +:+ shown +:+ rbr cb +:+ "</a>" +:+ rest)
      with (String "[" (shown +:+ rbr cb +:+ "</a>" +:+ rest)).
    rewrite star_space_skipped by reflexivity. rewrite rmatch_cat.
    change (lit "[") with (Chr "[").
    rewrite opt_grp_chr_taken.
    + rewrite from_digits_match_in by done. do 2 f_equal. lia.
    + rewrite from_digits_match_in by done. by eexists.
  - rewrite append_nil_l. rewrite Hs at 1. rewrite append_cons.
    rewrite star_space_skipped by (by apply digit_char_not_space).
    rewrite rmatch_cat, opt_skipped.
    2:{ intros k'. cbn [rmatch lit step1 m_rest]. by rewrite (digit_char_not_bracket c Hc). }
    rewrite <- append_cons, <- Hs. rewrite from_digits_match_in by done.
    do 2 f_equal. lia.
Qed.

Lemma after_key_match_in shown ob cb (rest : string) p caps :
  shown <> EmptyString -> all_chars digit_char shown = true ->
  rmatch no_flags after_key
    (MState p (String dq_char (">" +:+ lbr ob +:+ shown +:+ rbr cb +:+ "</a>" +:+ rest)) caps)
    Some
  = Some (MState (p + 2 + len (lbr ob) + len shown + len (rbr cb) + 4) rest
            ((if cb then [(4, "]")] else []) ++ (3, shown)
               :: (if ob then [(2, "[")] else []) ++ caps)).
Proof.
  intros Hne Hd. unfold after_key. rewrite rmatch_cat, rmatch_chr, rmatch_cat, rmatch_lit.
  rewrite before_digits_match_in by done. cbn [len String.length]. do 2 f_equal. lia.
Qed.

Lemma from_key_match_in key shown ob cb (rest : string) p :
  key <> EmptyString -> all_chars key_char key = true ->
  shown <> EmptyString -> all_chars digit_char shown = true ->
  rmatch no_flags from_key
    (MState p (key +:+ String dq_char
                 (">" +:+ lbr ob +:+ shown +:+ rbr cb +:+ "</a>" +:+ rest)) [])
    Some
  = Some (MState (p + len key + 2 + len (lbr ob) + len shown + len (rbr cb) + 4) rest
            ((if cb then [(4, "]")] else []) ++ (3, shown)
               :: (if ob then [(2, "[")] else []) ++ [(1, key)])).
Proof.
  intros Hk Hkc Hne Hd. unfold from_key. rewrite rmatch_cat, rmatch_grp. unfold plus.
  rewrite rmatch_rep.
  change (rmatch no_flags (Cls true [Ch dq_char])) with (step1 key_char).
  cbn [m_rest m_pos m_caps].
  rewrite (rep_loop_run key_char 1 _ key p _ []).
  - cbn [m_rest m_pos m_caps]. rewrite after_key_match_in by done.
    replace (p + len key - p) with (len key) by lia. by rewrite take_app_len.
  - done.
  - reflexivity.
  - apply nonempty_len in Hk. lia.
  - rewrite len_app. lia.
  - cbn [m_rest m_pos m_caps]. by rewrite after_key_match_in.
Qed.

Lemma link_text_in key shown ob cb (rest : string) :
  link_text key (lbr ob +:+ shown +:+ rbr cb) +:+ rest
  = "href=" +:+ String dq_char ("bibliography.html#bib-"
      +:+ key +:+ String dq_char (">" +:+ lbr ob +:+ shown +:+ rbr cb +:+ "</a>" +:+ rest)).
Proof.
  unfold link_text.
  by rewrite !append_assoc, !append_cons, !append_assoc, !append_cons, !append_assoc.
Qed.

(** The pattern of the number pass matches the link, and no more than the
    link, whatever text follows it. *)
Lemma cite_number_match_in key shown ob cb (rest : string) p :
  key <> EmptyString -> all_chars key_char key = true ->
  shown <> EmptyString -> all_chars digit_char shown = true ->
  match_at no_flags re_cite_number p (link_text key (lbr ob +:+ shown +:+ rbr cb) +:+ rest)
  = Some (MObj p (p + len (link_text key (lbr ob +:+ shown +:+ rbr cb)))
            (link_text key (lbr ob +:+ shown +:+ rbr cb))
            ((if cb then [(4, "]")] else []) ++ (3, shown)
               :: (if ob then [(2, "[")] else []) ++ [(1, key)])).
Proof.
  intros Hk Hkc Hne Hd. unfold match_at. rewrite re_cite_number_eq.
  rewrite <- (take_app_len (link_text key (lbr ob +:+ shown +:+ rbr cb)) rest) at 3.
  rewrite link_text_in.
  rewrite rmatch_cat, rmatch_lit, rmatch_cat, rmatch_chr, rmatch_cat, rmatch_lit.
  rewrite from_key_match_in by done. cbn [m_pos m_caps].
  assert (He : S (p + len "href=") + len "bibliography.html#bib-" + len key + 2
               + len (lbr ob) + len shown + len (rbr cb) + 4
               = p + len (link_text key (lbr ob +:+ shown +:+ rbr cb))).
  { rewrite len_link_text_br. cbn [len String.length]. lia. }
  rewrite He. do 2 f_equal.
  replace (p + len (link_text key (lbr ob +:+ shown +:+ rbr cb)) - p)
    with (len (link_text key (lbr ob +:+ shown +:+ rbr cb))) by lia.
  by rewrite <- link_text_in.
Qed.

(** *** Text without href around a link *)

(** A text that does not start with [e], followed by a character that [e]
    does not hold, does not start with [e] either. *)
Lemma startswith_app_char (e : string) : forall (u : string) c (rest : string),
  startswith u e = false ->
  all_chars (fun x => negb (Ascii.eqb x c)) e = true ->
  startswith (u +:+ String c rest) e = false.
Proof.
  induction e as [|a e IH]; intros u c rest Hu He; [by rewrite startswith_nil in Hu|].
  cbn [all_chars] in He. apply andb_true_iff in He as [Ha He].
  apply negb_true_iff, Ascii.eqb_neq in Ha.
  destruct u as [|b u].
  - rewrite append_nil_l. cbn [startswith]. by destruct (ascii_dec a c).
  - rewrite append_cons. cbn [startswith] in Hu |- *.
    destruct (ascii_dec a b); [by apply IH|done].
Qed.

(** No href attribute starts at a character other than h. *)
Lemma not_h_no_prefix_href c (t : string) :
  not_h c = true -> startswith (String c t) "href=" = false.
Proof.
  intros Hc. unfold not_h in Hc. apply negb_true_iff in Hc.
  rewrite chr_matches_eq in Hc by done. apply bool_decide_eq_false in Hc.
  cbn [startswith]. by destruct (ascii_dec "h" c).
Qed.

(** No href attribute starts in a text without one that an opening tag
    follows. *)
Lemma no_href_before_tag (first rest : string) i p r :
  find "href=" first = None -> i < len first ->
  match_at no_flags (Cat (lit "href=") r) p (drop i (first +:+ String "<" rest)) = None.
Proof.
  intros Hf Hi. apply lit_head_no_match; [done|].
  rewrite drop_app by lia. apply startswith_app_char; [|reflexivity].
  by apply find_None_startswith.
Qed.

(** Characters other than h put before a text without href. *)
Lemma find_href_after_chars (mid : string) : forall after : string,
  all_chars not_h mid = true -> find "href=" after = None ->
  find "href=" (mid +:+ after) = None.
Proof.
  induction mid as [|c mid IH]; intros after Hm Ha; [by rewrite append_nil_l|].
  cbn [all_chars] in Hm. apply andb_true_iff in Hm as [Hc Hm].
  rewrite append_cons. cbn [find].
  rewrite (not_h_no_prefix_href c (mid +:+ after) Hc). by rewrite IH.
Qed.

(** One link in a substitution: the text before it is copied, the link is
    replaced, and the substitution goes on behind it. *)
Lemma sub_go_link r (repl : mobj -> string) (first hit tail : string) bound pos m :
  find "href=" first = None ->
  match_at no_flags (Cat (lit "href=") r) (pos + len first + 3) (hit +:+ tail) = Some m ->
  mo_end m = pos + len first + 3 + len hit ->
  hit <> EmptyString ->
  len first + 3 + len (hit +:+ tail) < bound ->
  snd (sub_go no_flags (Cat (lit "href=") r) (fun (u : unit) m => (u, repl m))
         bound pos (first +:+ "<a " +:+ hit +:+ tail) tt)
  = first +:+ "<a " +:+ repl m
    +:+ snd (sub_go no_flags (Cat (lit "href=") r) (fun (u : unit) m => (u, repl m))
               (bound - len first - 4) (pos + len first + 3 + len hit) tail tt).
Proof.
  intros Hf Hm He Hne Hb.
  replace bound with (len first + (len "<a " + S (bound - len first - 4)))
    by (cbn [len String.length]; lia).
  rewrite (sub_go_prefix no_flags _ _ first).
  2:{ intros i Hi p. change ("<a " +:+ hit +:+ tail) with (String "<" ("a " +:+ hit +:+ tail)).
      by apply no_href_before_tag. }
  cbn [snd]. f_equal.
  rewrite (sub_go_prefix_chars no_flags _ _ not_h "<a ").
  2:{ intros p c s Hc. apply lit_head_no_match; [done|]. by apply not_h_no_prefix_href. }
  2:{ reflexivity. }
  cbn [snd]. f_equal.
  replace (pos + len first + len "<a ") with (pos + len first + 3)
    by (cbn [len String.length]; lia).
  rewrite (sub_go_hit _ _ _ _ _ _ _ _ Hm).
  2:{ rewrite He. apply nonempty_len in Hne. lia. }
  cbn [snd fst]. rewrite He.
  replace (pos + len first + 3 + len hit - (pos + len first + 3)) with (len hit) by lia.
  rewrite drop_app_len.
  by replace (len first + (len "<a " + S (bound - len first - 4)) - len first - 4)
    with (bound - len first - 4) by (cbn [len String.length]; lia).
Qed.

(** *** The two passes on text with citations *)

Lemma cited_text_first (mid first : string) items :
  mid +:+ cited_text first items = cited_text (mid +:+ first) items.
Proof. destruct items as [|[c after] items]; cbn [cited_text]; by rewrite ?append_assoc. Qed.

Lemma len_cited_text_cons first c after items :
  len (cited_text first ((c, after) :: items))
  = len first + len (citation_text c) + len (cited_text after items).
Proof. cbn [cited_text]. rewrite !len_app. lia. Qed.

(** The text of a citation around its href attribute. *)
Lemma citation_text_href c :
  citation_text c
  = "<a " +:+ href_text (cite_href c)
    +:+ (">" +:+ lbr (cite_open c) +:+ cite_shown c +:+ rbr (cite_close c) +:+ "</a>").
Proof. unfold citation_text. rewrite cite_anchor_href. by rewrite !append_assoc. Qed.

Lemma citation_text_link key shown ob cb :
  citation_text (Citation ("bibliography.html#bib-" +:+ key) shown ob cb)
  = "<a " +:+ link_text key (lbr ob +:+ shown +:+ rbr cb).
Proof. unfold citation_text. cbn [cite_href cite_shown cite_open cite_close].
  apply cite_anchor_link. Qed.

Lemma content_not_h c :
  all_chars digit_char (cite_shown c) = true ->
  all_chars not_h (">" +:+ lbr (cite_open c) +:+ cite_shown c +:+ rbr (cite_close c) +:+ "</a>")
  = true.
Proof.
  intros Hd. rewrite !all_chars_app.
  rewrite (all_chars_impl digit_char not_h (cite_shown c)); [|intros x Hx|done].
  - by destruct (cite_open c), (cite_close c).
  - unfold not_h. by rewrite digit_char_not_h.
Qed.

Lemma is_citation_parts c :
  is_citation c = true ->
  startswith (cite_href c) "#" = true
  /\ all_chars key_char (cite_href c) = true
  /\ citation_like (lstrip_chars "#" (cite_href c)) = true
  /\ normalize_bib_key (lstrip_chars "#" (cite_href c)) <> EmptyString
  /\ cite_shown c <> EmptyString
  /\ all_chars digit_char (cite_shown c) = true.
Proof.
  unfold is_citation. rewrite !andb_true_iff, !negb_true_iff, !bool_decide_eq_false.
  tauto.
Qed.

Local Abbreviation good items :=
  (Forall (fun it : citation * string =>
             is_citation (fst it) = true /\ find "href=" (snd it) = None) items).

(** The link pass. *)
Lemma rewrite_links_go items : forall (first : string) bound pos,
  find "href=" first = None -> good items ->
  len (cited_text first items) < bound ->
  snd (sub_go no_flags re_href (fun (u : unit) m => (u, cite_repl m)) bound pos
         (cited_text first items) tt)
  = cited_text first (map (fun it => (relinked (fst it), snd it)) items).
Proof.
  induction items as [|[c after] items IH]; intros first bound pos Hf Hg Hb.
  - cbn [cited_text map]. rewrite re_href_eq.
    rewrite sub_go_no_match; [done|]. intros p n. apply lit_head_no_match; [done|].
    by apply find_None_startswith.
  - apply Forall_cons in Hg as [[Hc Ha] Hg]. cbn [fst snd] in Hc, Ha.
    destruct (is_citation_parts c Hc) as (Hs & Hk & Hl & Hn & Hne & Hd).
    assert (Hhne : cite_href c <> EmptyString) by (intros E; rewrite E in Hs; discriminate Hs).
    rewrite len_cited_text_cons in Hb.
    cbn [cited_text map fst snd]. rewrite citation_text_href in Hb |- *.
    set (mid := ">" +:+ lbr (cite_open c) +:+ cite_shown c +:+ rbr (cite_close c) +:+ "</a>")
      in *.
    rewrite !len_app in Hb. cbn [len String.length] in Hb. fold (len (href_text (cite_href c))) in Hb.
    rewrite !append_assoc. rewrite cited_text_first.
    rewrite re_href_eq.
    rewrite (sub_go_link _ cite_repl first (href_text (cite_href c))
               (cited_text (mid +:+ after) items) bound pos
               (MObj (pos + len first + 3) (pos + len first + 3 + len (href_text (cite_href c)))
                  (href_text (cite_href c)) [(1, cite_href c)])).
    + rewrite <- re_href_eq. rewrite IH.
      * rewrite CiteFacts.cite_repl_internal by done.
        change (group_or_empty (MObj _ _ _ [(1, cite_href c)]) 1) with (cite_href c).
        rewrite <- cited_text_first. unfold relinked. rewrite citation_text_link.
        unfold mid. rewrite <- bib_href_link_br. by rewrite !append_assoc.
      * apply find_href_after_chars; [by apply content_not_h|done].
      * done.
      * rewrite <- cited_text_first, len_app.
        pose proof (len_href_text (cite_href c)). lia.
    + done.
    + rewrite <- re_href_eq. by apply href_match.
    + reflexivity.
    + intros E. apply (f_equal len) in E. rewrite len_href_text in E. done.
    + rewrite <- cited_text_first, !len_app. lia.
Qed.

Lemma relinked_key_ok c :
  is_citation c = true ->
  normalize_bib_key (lstrip_chars "#" (cite_href c)) <> EmptyString
  /\ all_chars key_char (normalize_bib_key (lstrip_chars "#" (cite_href c))) = true.
Proof.
  intros Hc. destruct (is_citation_parts c Hc) as (Hs & Hk & Hl & Hn & Hne & Hd).
  split; [done|]. apply all_chars_normalize_bib_key. unfold lstrip_chars.
  by apply all_chars_lstrip_by.
Qed.

(** The number pass on what the link pass returns. *)
Lemma rewrite_numbers_go idx items : forall (first : string) bound pos,
  find "href=" first = None -> good items ->
  len (cited_text first (map (fun it => (relinked (fst it), snd it)) items)) < bound ->
  snd (sub_go no_flags re_cite_number (fun (u : unit) m => (u, cite_number_repl idx m))
         bound pos (cited_text first (map (fun it => (relinked (fst it), snd it)) items)) tt)
  = cited_text first (map (fun it => (resolved idx (fst it), snd it)) items).
Proof.
  induction items as [|[c after] items IH]; intros first bound pos Hf Hg Hb.
  - cbn [cited_text map]. rewrite re_cite_number_eq.
    rewrite sub_go_no_match; [done|]. intros p n. apply lit_head_no_match; [done|].
    by apply find_None_startswith.
  - apply Forall_cons in Hg as [[Hc Ha] Hg]. cbn [fst snd] in Hc, Ha.
    destruct (is_citation_parts c Hc) as (Hs & Hk & Hl & Hn & Hne & Hd).
    destruct (relinked_key_ok c Hc) as [_ Hkc].
    cbn [map fst snd] in Hb |- *. rewrite len_cited_text_cons in Hb.
    cbn [cited_text]. unfold relinked at 1 in Hb. unfold relinked at 1.
    set (key := normalize_bib_key (lstrip_chars "#" (cite_href c))) in *.
    rewrite citation_text_link in Hb |- *.
    set (text := link_text key (lbr (cite_open c) +:+ cite_shown c +:+ rbr (cite_close c))) in *.
    rewrite !len_app in Hb. cbn [len String.length] in Hb. fold (len text) in Hb.
    rewrite !append_assoc.
    set (tail := cited_text after (map (fun it => (relinked (fst it), snd it)) items)) in *.
    set (m := MObj (pos + len first + 3) (pos + len first + 3 + len text) text
                ((if cite_close c then [(4, "]")] else []) ++ (3, cite_shown c)
                   :: (if cite_open c then [(2, "[")] else []) ++ [(1, key)])).
    rewrite re_cite_number_eq.
    rewrite (sub_go_link _ (cite_number_repl idx) first text tail bound pos m).
    + rewrite <- re_cite_number_eq. unfold tail. rewrite IH; [|done|done|].
      2:{ fold tail. pose proof (len_link_text_br key (cite_shown c) (cite_open c) (cite_close c)).
          fold text in H. lia. }
      assert (Hg1 : group_or_empty m 1 = key) by (unfold m; by destruct (cite_open c), (cite_close c)).
      assert (Hg2 : group_or_empty m 2 = lbr (cite_open c))
        by (unfold m; by destruct (cite_open c), (cite_close c)).
      assert (Hg4 : group_or_empty m 4 = rbr (cite_close c))
        by (unfold m; by destruct (cite_open c), (cite_close c)).
      assert (Hres : citation_text (resolved idx c) = "<a " +:+ cite_number_repl idx m).
      { unfold resolved. fold key.
        destruct (idx !! biber_stripped key) as [num|] eqn:E.
        - rewrite (CiteFacts.cite_number_known idx m num) by (by rewrite Hg1).
          by rewrite Hg1, Hg2, Hg4, citation_text_link, bib_href_link_br.
        - rewrite (CiteFacts.cite_number_unknown idx m) by (by rewrite Hg1).
          by rewrite citation_text_link. }
      cbn [cited_text map fst snd]. rewrite Hres. by rewrite !append_assoc.
    + done.
    + rewrite <- re_cite_number_eq. unfold text, m. by apply cite_number_match_in.
    + reflexivity.
    + intros E. apply (f_equal len) in E. unfold text in E. rewrite len_link_text_br in E. done.
    + rewrite len_app. fold tail. lia.
Qed.

Lemma good_items items :
  forallb (fun it : citation * string => is_citation (fst it) && no_href (snd it)) items = true ->
  good items.
Proof.
  induction items as [|it items IH]; cbn [forallb]; intros H; [constructor|].
  apply andb_true_iff in H as [H Hi]. apply andb_true_iff in H as [H1 H2].
  constructor; [|by apply IH]. split; [done|]. by apply bool_decide_eq_true_1 in H2.
Qed.




End CiteText.
